(* ===== verification/_CoqProject ===== *)
-Q . S2P
Prelude.v
Database.v
Session.v
Tables.v
Store.v
StoreBatch.v
BatchEquiv.v
Invariant.v
StoreProps.v
GoInt.v
GoFloat.v
GoEnv.v
Ingest.v
IngestProps.v
Watermark.v
Retention.v
Worker.v
Migrate.v
GoMath.v
GoRound.v
LoadShape.v
Parity.v
GoRand.v
Seeder.v
SeederProps.v
HttpServer.v
Grafana.v
SeedCmd.v
SeedCmdProps.v
GoNet.v
Main.v
Serve.v
ServeProps.v
Txn.v
Interleave.v
Logging.v
Trace.v
Reconciling.v
Locking.v
LockingProps.v
Expiry.v
