(* ===== verification/Prelude.v ===== *)
(** * devops-demo: a verified model of the analytics service

    The repository is a demo platform of several services.  Its Go program is the
    analytics service, src/services/analytics: it consumes the backend's item
    events over gRPC into PostgreSQL, aggregates them by hour, serves them over
    HTTP, expires raw events, and seeds a history of events from a load profile.
    This library models that service and proves what makes it correct.  Paths
    below are relative to src/services/analytics, but for loadprofile/, which is at
    the root of the sources.

    ** Files and what they model

    - Prelude (this file): Go error values, the state monad the stateful code is
      written in, loops with early return, list lemmas and tactics.
    - Database: the tables of internal/store/migrations as a record of finite
      maps, and each SQL statement of the store as a function of it, with its
      CHECK, bigint, int4 and cardinality errors.  Session: a connection with an
      oracle of outcomes (delivered, refused, applied with the reply lost),
      transactions, deferred rollback, and Hoare-style rules.  Tables: the row
      sets the statements produce.
    - Store: internal/store/current_items.go, retention.go and the marker of
      seed.go.  StoreBatch: IngestEventsBatch and foldCurrentItems of seed.go.
      BatchEquiv: the batch against one IngestEvent per event.  Invariant: the
      well-formedness of the tables and the reachability relation.  StoreProps:
      the store's contract.
    - GoInt, GoFloat, GoEnv, GoMath, GoRound, GoRand: what the code uses of the
      language and its standard library: wrapping integers and strconv, float64
      on the Standard Library's spec_float, os.Getenv and time.ParseDuration,
      math.Cos, bounds on rounded results, math/rand/v2.
    - Ingest, IngestProps: internal/ingest client.go, config.go and metrics.go
      (the reconnect loop against the class [DataStore] and its contract
      [DataStoreSpec], which the PostgreSQL store implements).  Watermark: the
      interleavings of advanceLastEventTime as a step relation.
    - Retention: internal/retention.  Worker: the loops of the ingest client and the
      retention runner as step relations, and their runs as paths of them.
      Migrate: migrate.go and pool.go.
    - LoadShape: internal/loadshape with loadprofile/profile.json and every twelfth
      row of the parity goldens.
    - Seeder, SeederProps: internal/seeder against the class [BatchStore] and its
      contract [BatchStoreSpec].
    - HttpServer: internal/httpserver against [Pinger] and [ItemsStore].
    - Grafana: internal/grafana against the class [Grafana] and its contract
      [GrafanaSpec].  SeedCmd, SeedCmdProps: the seed subcommand of cmd/analytics,
      composed of Connect, Migrate, the seeder, the retention pass, the marker and
      the annotations.
    - GoNet, Main: dispatch and healthcheck of cmd/analytics/main.go.  Serve,
      ServeProps: [serve] as a step relation of the main goroutine, the two
      workers of Worker, the HTTP server, the connections its requests hold and the
      outside world, each of its steps the model of the component it calls.  Which
      connections to localhost reach the server is the class [Loopback].
    - Txn, Interleave: the transactions of IngestEvent and IngestEventsBatch as
      trees of statements, the rows each statement reads and writes, and several
      sessions' transactions in flight as a step relation.  Reconciling: the same
      with the transactions of ReconcileSnapshot, whose last statement works on the
      snapshot taken when it starts.  Locking, LockingProps: the same again with
      the row locks of a statement taken one at a time, and who waits for whom.
      Expiry: retention at any moment among them.
    - Parity: loadprofile/shape.js, the load generator's copy of internal/loadshape,
      in the operations of JavaScript.
    - Logging: internal/logging over slog's JSON handler.  Trace:
      internal/ingest/trace.go, the calls of a cycle and internal/otelsetup, against
      the classes [Metadata], [Otel] and [Grpc] and their documented laws.

    ** What the theorems show

    - Store: every reachable database is well formed; until retention runs the
      buckets count exactly the distinct raw events; each write is atomic under
      any failures; every branch of each operation; the batch equals the serial
      ingestion except within a microsecond (with the counterexample); known items
      stay known; retention removes exactly the expired rows, after which a replay
      counts again.
    - Ingest: a connected cycle lands every well-formed event; the reconnect loop
      waits once, within bounds, before every retry; the watermark is the maximum
      under all interleavings, the gauge only with one writer.
    - Retention, migrations, connection: passes and metrics; a failed migration run
      leaves a prefix of the files applied and recorded, and resumes; bounded
      attempts.
    - Load shape: validated profiles have a rate at every time, at least zero or
      NaN; the noise is bounded; outages silence the rate.
    - Seeder: a run always returns, works on events that lie in their hours, and
      leaves exactly them (or a counted prefix of them) in the store; the window
      is exact up to 106751 days and wraps beyond.
    - HTTP: the answer to every request under every failure, and the pipeline
      contract the canary relies on.
    - Grafana: replacement touches tagged annotations only and is exact on success.
    - Seed command: a marker is evidence of a completed run; a successful seed
      leaves the state live ingestion and retention would have left.
    - Process: no worker ever uses a pool that is not open and migrated; every run
      stops once asked to, in at most 31 steps of main and the workers and one for
      every arrival that comes with the cancellation, unless a
      request never gives back the connection that pool.Close waits for; a run of
      the client or the runner is a run of its worker; the container is healthy
      exactly when the database answers, if localhost reaches the server.
    - Load shape, twice: the two implementations give the same bits, given the same
      cosine; they part on a profile time that is not finite.
    - Concurrency: live ingestion and seed batches, interleaved at their
      statements, are serializable; reconciles among them are not, but keep every
      invariant, and what they leave is stated exactly.  Retention at any moment
      keeps the books: a bucket counts its stored and its expired events.  With
      row locks taken one at a time, ingestion with one seed command never
      deadlocks; a seed batch and a reconcile can.
    - Tracing: every log line carries its trace id, and every call of the ingest
      client the header of the same trace.

    ** Time, fuel and bounds

    Go times are nanoseconds since the epoch, unbounded; timestamptz is
    microseconds, and the conversion is the class [PgTime] (truncation is the
    instance).  Its laws describe the driver on the times a timestamptz can hold,
    4713 BC to what int64 microseconds reach ([timestamptz_range]); event times
    are read as such times, and the one time the code computes from unbounded
    settings, the cutoff of retention, is assumed to be one where it matters.
    Durations are int64 and wrap.  The ingest loops take fuel for the
    retries of one event: the number of failures still in the session's oracle
    plus one is enough.  The step relations of Worker and Serve need no fuel: a
    measure of at most 31 bounds the steps towards the exit.  A retention or
    reconnect loop runs over the finite list of
    ticks or cycles that happen.  IntN's rejection loop has the generator's period,
    2^128, as fuel; the generator has full period, so it never runs out.

    ** Not modelled, and why

    The surrogate key item_events.id and the text of error messages that print
    times and numbers carry no behaviour.  Text that PostgreSQL refuses (NUL bytes,
    invalid UTF-8) does not occur in the inputs.  Concurrent sessions are
    interleaved at statements, row locks and retention runs, not inside the reading
    of one statement; row locks one at a time (Locking) and retention of events in
    flight (Expiry) are two systems over the same one, not composed. The seed
    command's deferred pool.Close, which only its exit follows, is left out.
    math.Cos above 2^29 (a parameter) is out of reach of the service's phases; the
    fused multiply-add that Go may use on arm64 is not taken.  Times outside the
    range of a timestamptz, which the driver wraps or the server refuses, are left
    out.  The blocking calls of the workers are taken to return once their context
    is done; one that never did would hold the shutdown.  JSON text, gRPC transport,
    Prometheus exposition and the inside of OpenTelemetry are libraries the sources
    only call; the log lines the components write are modelled where a theorem
    speaks of them.  The other services (Python backend, JavaScript frontend and k6
    scenarios, Rust canary, Kotlin reports) and the deployment files are other
    programs.
*)
From stdpp Require Export base tactics list gmap strings sorting pretty.
From Stdlib Require Export ZArith Lia.

#[global] Set Default Goal Selector "!".
#[global] Set Warnings "-clear-no-such-hyp".

(** ** Go error values

    [errors.New] creates a sentinel, [fmt.Errorf("msg: %w", err)] wraps a
    cause.  [errors.Is] walks the chain of causes. *)
Inductive error : Type :=
| ErrNew (msg : string)
| ErrWrap (msg : string) (cause : error).

#[export] Instance error_eq_dec : EqDecision error.
Proof. solve_decision. Defined.

Fixpoint errors_Is (err target : error) : bool :=
  bool_decide (err = target) ||
  match err with
  | ErrNew _ => false
  | ErrWrap _ cause => errors_Is cause target
  end.

(** ** The state monad the stateful code is written in

    A Go function that reads and writes the world [S] is a function from the
    world to its results and the new world; early returns are the branches of
    [try .. catch]. *)
Definition M (S A : Type) : Type := S -> A * S.

Definition ret {S A} (a : A) : M S A := fun s => (a, s).

Definition bind {S A B} (m : M S A) (k : A -> M S B) : M S B :=
  fun s => let '(a, s') := m s in k a s'.

(** [defer cleanup body]: run [body], then [cleanup], keep [body]'s result. *)
Definition defer {S A} (cleanup : M S unit) (body : M S A) : M S A :=
  bind body (fun r => bind cleanup (fun _ => ret r)).

Declare Scope go_scope.
Delimit Scope go_scope with go.

Notation "'let!' x := c 'in' k" := (bind c (fun x => k))
  (at level 10, x pattern, c at level 100, k at level 200,
   format "'[v' 'let!'  x  :=  c  'in' '/' k ']'") : go_scope.

Notation "'try' x := c 'catch' e => h 'in' k" :=
  (bind c (fun r => match r with inl e => h | inr x => k end))
  (at level 10, x name, e name, c at level 100, h at level 100, k at level 200,
   format "'[v' 'try'  x  :=  c  'catch'  e  =>  h  'in' '/' k ']'") : go_scope.

(** [for _, x := range l { body }] with an early return: the body either
    continues with a new loop state or returns from the function. *)
Fixpoint range_loop {S A St R} (l : list A) (st : St)
    (body : A -> St -> M S (R + St)) (k : St -> M S R) : M S R :=
  match l with
  | [] => k st
  | x :: l' => bind (body x st) (fun r =>
      match r with
      | inl ret_value => ret ret_value
      | inr st' => range_loop l' st' body k
      end)
  end.

(** ** Tactics *)

(** Unfold the monad and expose the branches of a run. *)
Ltac m_unfold := unfold defer, bind, ret in *; simpl in *.

(** Case-split every [match]/[if] in sight and close the contradictory ones. *)
Ltac split_matches :=
  repeat (case_match; simplify_eq/=).

Ltac bool_solve :=
  repeat match goal with
  | H : bool_decide _ = true |- _ => apply bool_decide_eq_true in H
  | H : bool_decide _ = false |- _ => apply bool_decide_eq_false in H
  | H : (_ =? _)%Z = true |- _ => apply Z.eqb_eq in H
  | H : (_ =? _)%Z = false |- _ => apply Z.eqb_neq in H
  | H : (_ <=? _)%Z = true |- _ => apply Z.leb_le in H
  | H : (_ <=? _)%Z = false |- _ => apply Z.leb_gt in H
  | H : (_ <? _)%Z = true |- _ => apply Z.ltb_lt in H
  | H : (_ <? _)%Z = false |- _ => apply Z.ltb_ge in H
  | H : negb _ = true |- _ => apply negb_true_iff in H
  | H : negb _ = false |- _ => apply negb_false_iff in H
  | H : _ && _ = true |- _ => apply andb_true_iff in H as [? ?]
  | H : _ || _ = false |- _ => apply orb_false_iff in H as [? ?]
  end.

(** ** Monad laws and loop lemmas *)
Section monad_laws.
Context {S A B C : Type}.

Lemma bind_ret_l (a : A) (k : A -> M S B) s : bind (ret a) k s = k a s.
Proof. reflexivity. Qed.

Lemma bind_run (m : M S A) (k : A -> M S B) s a s' :
  m s = (a, s') -> bind m k s = k a s'.
Proof. unfold bind. by intros ->. Qed.

Lemma bind_assoc (m : M S A) (k : A -> M S B) (l : B -> M S C) s :
  bind (bind m k) l s = bind m (fun a => bind (k a) l) s.
Proof. unfold bind. by destruct (m s). Qed.
End monad_laws.

(** ** Generic list lemmas *)
Lemma fold_left_snoc {A B} (f : A -> B -> A) l x a :
  fold_left f (l ++ [x]) a = f (fold_left f l a) x.
Proof. by rewrite fold_left_app. Qed.

Lemma fold_left_ext {A B} (f g : A -> B -> A) l a :
  (forall a b, f a b = g a b) -> fold_left f l a = fold_left g l a.
Proof. intros Hfg. revert a. induction l as [|x l IH]; intros a; simpl; [done|]. by rewrite Hfg. Qed.

Lemma list_snoc_ind {A} (P : list A -> Prop) :
  P [] -> (forall l x, P l -> P (l ++ [x])) -> forall l, P l.
Proof. intros Hnil Hsnoc l. induction l using rev_ind; auto. Qed.

(** Go's [l[i]]: [None] is the index-out-of-range panic, of a negative index too. *)
Definition go_index {A} (l : list A) (i : Z) : option A :=
  if (0 <=? i)%Z then l !! Z.to_nat i else None.

Lemma go_index_Some {A} (l : list A) i x :
  go_index l i = Some x <-> (0 <= i)%Z /\ l !! Z.to_nat i = Some x.
Proof. unfold go_index. destruct (Z.leb_spec 0 i); split; [tauto|tauto|done|intros [? _]; lia]. Qed.

Lemma go_index_is_Some {A} (l : list A) i :
  (0 <= i < Z.of_nat (length l))%Z -> exists x, go_index l i = Some x.
Proof.
  intros Hi. destruct (lookup_lt_is_Some_2 l (Z.to_nat i)) as [x Hx]; [lia|].
  exists x. apply go_index_Some. split; [lia|done].
Qed.

(** ** Automation: lemmas that close the common side conditions *)
Create HintDb godb.
Create Rewrite HintDb godb.
#[export] Hint Resolve Z.le_max_l Z.le_max_r Z.le_refl : godb.
#[export] Hint Rewrite @fold_left_snoc @length_app @length_cons : godb.
