(* ===== verification/Database.v ===== *)
(** * Database: the analytics schema and the SQL statements of internal/store

    The four tables of [migrations/0001..0003] as finite maps keyed by their
    unique constraint, and one executable definition per SQL statement the Go
    code sends.  A statement either fails (a violated constraint) and has no
    effect, or returns its result and the new tables.  Timestamps are
    microseconds since the Unix epoch, the resolution of [timestamptz].

    Columns nothing in the service reads back ([item_events.id]) are left out.
    [received_at] and [updated_at] are kept, and [db_equiv] is equality of
    databases up to those two columns, which record when a statement ran. *)
From S2P Require Import Prelude.
From Corelib Require Import SpecFloat.
Local Open Scope Z_scope.

(** ** Column values *)
Abbreviation pg_time := Z (only parsing).
Abbreviation event_key := (Z * string * Z)%type (only parsing).
Abbreviation bucket_key := (Z * string)%type (only parsing).

Record EventRow := { er_name : string; er_received_at : pg_time }.

Record BucketRow := { bk_count : Z; bk_updated_at : pg_time }.

Record ItemRow := {
  ir_name : string;
  ir_first_seen : pg_time;
  ir_last_seen : pg_time;
  ir_tombstoned_at : option pg_time
}.

Record MarkerRow := {
  mr_scale : spec_float;
  mr_ref_unix : Z;
  mr_seed : Z;
  mr_days : Z;
  mr_seeded_at : pg_time;
  mr_events_written : Z
}.

Record DB := {
  item_events : gmap event_key EventRow;
  event_buckets : gmap bucket_key BucketRow;
  current_items : gmap Z ItemRow;
  seed_marker : option MarkerRow
}.

Definition empty_db : DB :=
  {| item_events := ∅; event_buckets := ∅; current_items := ∅; seed_marker := None |}.

Definition set_item_events m (d : DB) : DB :=
  {| item_events := m; event_buckets := event_buckets d;
     current_items := current_items d; seed_marker := seed_marker d |}.
Definition set_event_buckets m (d : DB) : DB :=
  {| item_events := item_events d; event_buckets := m;
     current_items := current_items d; seed_marker := seed_marker d |}.
Definition set_current_items m (d : DB) : DB :=
  {| item_events := item_events d; event_buckets := event_buckets d;
     current_items := m; seed_marker := seed_marker d |}.
Definition set_seed_marker m (d : DB) : DB :=
  {| item_events := item_events d; event_buckets := event_buckets d;
     current_items := current_items d; seed_marker := m |}.

#[export] Instance EventRow_eq_dec : EqDecision EventRow.
Proof. solve_decision. Defined.
#[export] Instance BucketRow_eq_dec : EqDecision BucketRow.
Proof. solve_decision. Defined.
#[export] Instance ItemRow_eq_dec : EqDecision ItemRow.
Proof. solve_decision. Defined.

(** ** Statement results *)
Inductive stmt_result (A : Type) : Type :=
| SOk (a : A) (d : DB)
| SErr (e : error).
Arguments SOk {A} a d.
Arguments SErr {A} e.

Definition sbind {A B} (r : stmt_result A) (k : A -> DB -> stmt_result B) : stmt_result B :=
  match r with SOk a d => k a d | SErr e => SErr e end.

Definition check_violation : error := ErrNew "new row violates check constraint".
Definition bigint_out_of_range : error := ErrNew "bigint out of range".
Definition int4_out_of_range : error := ErrNew "integer out of range".
Definition cardinality_violation : error :=
  ErrNew "ON CONFLICT DO UPDATE command cannot affect row a second time".

Definition int8_max : Z := 9223372036854775807.
Definition int4_max : Z := 2147483647.
Definition int4_min : Z := -2147483648.

(** [CHECK (event_type IN ('created', 'updated', 'deleted'))], on both
    [item_events] and [event_buckets]. *)
Definition valid_event_type (ty : string) : bool :=
  bool_decide (ty ∈ ["created"; "updated"; "deleted"]%string).

Definition usec_per_hour : Z := 3600000000.

(** [date_trunc('hour', t, 'UTC')] *)
Definition date_trunc_hour (t : pg_time) : pg_time := (t - t mod usec_per_hour)%Z.

(** ** Raw events: INSERT ... ON CONFLICT (item_id, event_type, event_time) DO NOTHING *)

(** One row of [input(event_type, item_id, item_name, event_time)]. *)
Record EventInput := {
  ei_type : string;
  ei_item_id : Z;
  ei_item_name : string;
  ei_time : pg_time
}.

Definition event_input_key (e : EventInput) : event_key :=
  (ei_item_id e, ei_type e, ei_time e).

(** The bucket an event counts in: its event time's hour, and its type. *)
Definition event_bucket_key (e : EventInput) : bucket_key :=
  (date_trunc_hour (ei_time e), ei_type e).

Definition insert_or_nothing (now : pg_time) (e : EventInput)
    (m : gmap event_key EventRow) : gmap event_key EventRow :=
  match m !! event_input_key e with
  | Some _ => m
  | None => <[event_input_key e :=
               {| er_name := ei_item_name e; er_received_at := now |}]> m
  end.

(** Single-row insert: the result is the command tag's row count. *)
Definition insert_item_event (now : pg_time) (e : EventInput) (d : DB) : stmt_result Z :=
  if valid_event_type (ei_type e) then
    SOk (match item_events d !! event_input_key e with Some _ => 0 | None => 1 end)
        (set_item_events (insert_or_nothing now e (item_events d)) d)
  else SErr check_violation.

(** ** Hourly buckets *)
Definition bump_bucket (now : pg_time) (k : bucket_key) (delta : Z)
    (m : gmap bucket_key BucketRow) : gmap bucket_key BucketRow :=
  <[k := {| bk_count := (match m !! k with Some b => bk_count b | None => 0 end) + delta;
            bk_updated_at := now |}]> m.

Definition bucket_count (m : gmap bucket_key BucketRow) (k : bucket_key) : Z :=
  match m !! k with Some b => bk_count b | None => 0 end.

(** [INSERT INTO event_buckets ... VALUES (date_trunc(...), type, 1) ON CONFLICT
    DO UPDATE SET count = event_buckets.count + 1, updated_at = now()] *)
Definition upsert_bucket (now : pg_time) (e : EventInput) (d : DB) : stmt_result unit :=
  let k := event_bucket_key e in
  if valid_event_type (ei_type e) then
    if bucket_count (event_buckets d) k + 1 <=? int8_max then
      SOk tt (set_event_buckets (bump_bucket now k 1 (event_buckets d)) d)
    else SErr bigint_out_of_range
  else SErr check_violation.

(** ** The batch statement of IngestEventsBatch *)

(** CTE [ins]: the rows are inserted in order, a row whose key exists already
    (in the table or earlier in the same statement) does nothing, and the
    inserted rows are RETURNING. *)
Definition ins_step (now : pg_time)
    (acc : gmap event_key EventRow * list EventInput) (e : EventInput) :=
  let '(m, ins) := acc in
  match m !! event_input_key e with
  | Some _ => (m, ins)
  | None => (insert_or_nothing now e m, ins ++ [e])
  end.

Definition ins_cte (now : pg_time) (rows : list EventInput)
    (m : gmap event_key EventRow) : gmap event_key EventRow * list EventInput :=
  fold_left (ins_step now) rows (m, []).

(** CTE [bucket_deltas]: [count( * )] of [ins] grouped by hour and type. *)
Definition bucket_deltas (ins : list EventInput) : gmap bucket_key Z :=
  fold_left (fun g e => <[event_bucket_key e := default 0 (g !! event_bucket_key e) + 1]> g)
            ins ∅.

(** CTE [bucket_upsert]: every delta is added to its bucket. *)
Definition bucket_upsert (now : pg_time) (deltas : gmap bucket_key Z)
    (m : gmap bucket_key BucketRow) : gmap bucket_key BucketRow :=
  union_with (fun old new =>
      Some {| bk_count := bk_count old + bk_count new; bk_updated_at := bk_updated_at new |})
    m ((fun delta => {| bk_count := delta; bk_updated_at := now |}) <$> deltas).

Definition deltas_fit (deltas : gmap bucket_key Z) (m : gmap bucket_key BucketRow) : bool :=
  bool_decide (map_Forall (fun k delta => bucket_count m k + delta <= int8_max) deltas).

(** The whole WITH statement: (count of [ins], count of [bucket_upsert]). *)
Definition batch_insert_events (now : pg_time) (rows : list EventInput) (d : DB)
    : stmt_result (Z * Z) :=
  if forallb (fun e => valid_event_type (ei_type e)) rows then
    let '(m, ins) := ins_cte now rows (item_events d) in
    let deltas := bucket_deltas ins in
    if deltas_fit deltas (event_buckets d) then
      SOk (Z.of_nat (length ins), Z.of_nat (size deltas))
          (set_event_buckets (bucket_upsert now deltas (event_buckets d))
             (set_item_events m d))
    else SErr bigint_out_of_range
  else SErr check_violation.

(** ** current_items *)

(** One row of [input(item_id, name, first_seen, last_seen, tombstoned_at)]. *)
Record ItemInput := {
  ii_item_id : Z;
  ii_name : string;
  ii_first_seen : pg_time;
  ii_last_seen : pg_time;
  ii_tombstoned_at : option pg_time
}.

Definition item_input_row (i : ItemInput) : ItemRow :=
  {| ir_name := ii_name i; ir_first_seen := ii_first_seen i;
     ir_last_seen := ii_last_seen i; ir_tombstoned_at := ii_tombstoned_at i |}.

(** The SET clause of the ingest upserts: GREATEST for [last_seen], and the
    incoming name and tombstone only when [EXCLUDED.last_seen >=
    current_items.last_seen].  [first_seen] is not in the clause. *)
Definition last_event_wins (old new : ItemRow) : ItemRow :=
  {| ir_name := if ir_last_seen old <=? ir_last_seen new then ir_name new else ir_name old;
     ir_first_seen := ir_first_seen old;
     ir_last_seen := Z.max (ir_last_seen old) (ir_last_seen new);
     ir_tombstoned_at := if ir_last_seen old <=? ir_last_seen new
                         then ir_tombstoned_at new else ir_tombstoned_at old |}.

Definition merge_item_row (old : option ItemRow) (new : ItemRow) : ItemRow :=
  match old with None => new | Some o => last_event_wins o new end.

Definition upsert_current_item (i : ItemInput) (d : DB) : stmt_result unit :=
  SOk tt (set_current_items
    (<[ii_item_id i := merge_item_row (current_items d !! ii_item_id i) (item_input_row i)]>
       (current_items d)) d).

(** The multi-row form: PostgreSQL refuses to update a row the same command
    inserted or updated before. *)
Definition batch_upsert_current_items (rows : list ItemInput) (d : DB) : stmt_result unit :=
  if bool_decide (NoDup (ii_item_id <$> rows)) then
    SOk tt (set_current_items
      (fold_left (fun m i =>
         <[ii_item_id i := merge_item_row (m !! ii_item_id i) (item_input_row i)]> m)
         rows (current_items d)) d)
  else SErr cardinality_violation.

(** ReconcileSnapshot's upsert: the name always, [tombstoned_at = NULL]. *)
Definition snapshot_row (now : pg_time) (old : option ItemRow) (name : string) : ItemRow :=
  match old with
  | None => {| ir_name := name; ir_first_seen := now; ir_last_seen := now;
               ir_tombstoned_at := None |}
  | Some o => {| ir_name := name; ir_first_seen := ir_first_seen o;
                 ir_last_seen := Z.max (ir_last_seen o) now; ir_tombstoned_at := None |}
  end.

Definition upsert_snapshot_item (now : pg_time) (id : Z) (name : string) (d : DB)
    : stmt_result Z :=
  SOk 1 (set_current_items
    (<[id := snapshot_row now (current_items d !! id) name]> (current_items d)) d).

(** [WHERE tombstoned_at IS NULL AND item_id != ALL($2)] *)
Definition missing_live (ids : list Z) (id : Z) (r : ItemRow) : bool :=
  bool_decide (ir_tombstoned_at r = None) && bool_decide (id ∉ ids).

Definition tombstone_row (now : pg_time) (r : ItemRow) : ItemRow :=
  {| ir_name := ir_name r; ir_first_seen := ir_first_seen r;
     ir_last_seen := ir_last_seen r; ir_tombstoned_at := Some now |}.

Definition tombstone_missing (now : pg_time) (ids : list Z) (d : DB) : stmt_result Z :=
  SOk (Z.of_nat (size (filter (fun p => missing_live ids p.1 p.2 = true) (current_items d))))
      (set_current_items
         (map_imap (fun id r => Some (if missing_live ids id r then tombstone_row now r else r))
            (current_items d)) d).

(** ** Retention, seed marker, reads *)

(** [DELETE FROM item_events WHERE event_time < $1]: the row count. *)
Definition delete_events_before (cutoff : pg_time) (d : DB) : stmt_result Z :=
  let expired := fun p : event_key * EventRow => (p.1.2 < cutoff)%Z in
  SOk (Z.of_nat (size (filter expired (item_events d))))
      (set_item_events (filter (fun p : event_key * EventRow => ~ (p.1.2 < cutoff)%Z)
                          (item_events d)) d).

Definition upsert_seed_marker (m : MarkerRow) (d : DB) : stmt_result unit :=
  if (int4_min <=? mr_days m) && (mr_days m <=? int4_max)
  then SOk tt (set_seed_marker (Some m) d)
  else SErr int4_out_of_range.

Definition usec_per_day : Z := 86400000000.

(** [SELECT event_type, COALESCE(SUM(count), 0) ... WHERE bucket_start >= now()
    - interval '24 hours' GROUP BY event_type ORDER BY event_type] *)
Definition in_stats_window (now : pg_time) (k : bucket_key) : Prop :=
  (now - usec_per_day <= k.1)%Z.

#[export] Instance in_stats_window_dec now k : Decision (in_stats_window now k).
Proof. unfold in_stats_window. apply _. Defined.

Definition stats_groups (now : pg_time) (m : gmap bucket_key BucketRow) : gmap string Z :=
  map_fold (fun (k : bucket_key) b g =>
      if decide (in_stats_window now k)
      then <[k.2 := default 0 (g !! k.2) + bk_count b]> g else g) ∅ m.

(** The three event types are ASCII words: their order is the byte order under
    every collation. *)
Definition select_stats_24h (now : pg_time) (d : DB) : list (string * Z) :=
  merge_sort (fun a b => String.le a.1 b.1) (map_to_list (stats_groups now (event_buckets d))).

(** Runs are evaluated call by call: [simpl] stops at the statements. *)
#[global] Arguments insert_item_event : simpl never.
#[global] Arguments upsert_bucket : simpl never.
#[global] Arguments batch_insert_events : simpl never.
#[global] Arguments upsert_current_item : simpl never.
#[global] Arguments batch_upsert_current_items : simpl never.
#[global] Arguments upsert_snapshot_item : simpl never.
#[global] Arguments tombstone_missing : simpl never.
#[global] Arguments delete_events_before : simpl never.
#[global] Arguments upsert_seed_marker : simpl never.

(** ** Equality of databases up to the bookkeeping columns *)

(** What a database says once [received_at] and [updated_at] are forgotten. *)
Record AbsDB := {
  a_events : gmap event_key string;
  a_counts : gmap bucket_key Z;
  a_items : gmap Z ItemRow;
  a_marker : option MarkerRow
}.

Definition db_view (d : DB) : AbsDB :=
  {| a_events := er_name <$> item_events d; a_counts := bk_count <$> event_buckets d;
     a_items := current_items d; a_marker := seed_marker d |}.

#[export] Instance db_equiv : Equiv DB := fun d1 d2 => db_view d1 = db_view d2.

Inductive stmt_equiv_rel {A} : stmt_result A -> stmt_result A -> Prop :=
| stmt_equiv_ok a d1 d2 : d1 ≡ d2 -> stmt_equiv_rel (SOk a d1) (SOk a d2)
| stmt_equiv_err e : stmt_equiv_rel (SErr e) (SErr e).

#[export] Instance stmt_equiv {A} : Equiv (stmt_result A) := stmt_equiv_rel.

(** Any two clock readings are related: the statements respect [db_equiv]
    whenever they run. *)
Definition any_time : relation pg_time := fun _ _ => True.

#[export] Instance db_equiv_equivalence : Equivalence (≡@{DB}).
Proof. split; unfold equiv, db_equiv; [intros ?|intros ??|intros ???]; congruence. Qed.

#[export] Instance stmt_equiv_equivalence {A} : Equivalence (≡@{stmt_result A}).
Proof.
  split.
  - intros []; by constructor.
  - intros ?? [????|]; constructor; by symmetry.
  - intros ??? [??? H|]; inversion 1; subst; constructor. by etrans.
Qed.

(** ** The two bookkeeping tables, seen abstractly *)
Definition names_add (e : EventInput) (n : gmap event_key string) : gmap event_key string :=
  match n !! event_input_key e with
  | Some _ => n
  | None => <[event_input_key e := ei_item_name e]> n
  end.

Definition counts_add (k : bucket_key) (delta : Z) (c : gmap bucket_key Z) : gmap bucket_key Z :=
  <[k := default 0 (c !! k) + delta]> c.

Lemma view_insert_or_nothing now e m :
  er_name <$> insert_or_nothing now e m = names_add e (er_name <$> m).
Proof.
  unfold insert_or_nothing, names_add. rewrite lookup_fmap.
  destruct (m !! _); simpl; [done|]. by rewrite fmap_insert.
Qed.

Lemma view_bump_bucket now k delta m :
  bk_count <$> bump_bucket now k delta m = counts_add k delta (bk_count <$> m).
Proof.
  unfold bump_bucket, counts_add. rewrite fmap_insert, lookup_fmap; simpl.
  by destruct (m !! k).
Qed.

Lemma bucket_count_view m k : bucket_count m k = default 0 ((bk_count <$> m) !! k).
Proof. unfold bucket_count. rewrite lookup_fmap. by destruct (m !! k). Qed.

Lemma events_none_view (m : gmap event_key EventRow) k :
  m !! k = None <-> (er_name <$> m) !! k = None.
Proof. rewrite lookup_fmap. by destruct (m !! k). Qed.

Lemma db_equiv_intro d1 d2 :
  er_name <$> item_events d1 = er_name <$> item_events d2 ->
  bk_count <$> event_buckets d1 = bk_count <$> event_buckets d2 ->
  current_items d1 = current_items d2 -> seed_marker d1 = seed_marker d2 -> d1 ≡ d2.
Proof. unfold equiv, db_equiv, db_view. congruence. Qed.

Lemma db_equiv_events d1 d2 :
  d1 ≡ d2 -> er_name <$> item_events d1 = er_name <$> item_events d2.
Proof. by intros [= ?]. Qed.
Lemma db_equiv_counts d1 d2 :
  d1 ≡ d2 -> bk_count <$> event_buckets d1 = bk_count <$> event_buckets d2.
Proof. by intros [= ?]. Qed.
Lemma db_equiv_items d1 d2 : d1 ≡ d2 -> current_items d1 = current_items d2.
Proof. by intros [= ?]. Qed.
Lemma db_equiv_marker d1 d2 : d1 ≡ d2 -> seed_marker d1 = seed_marker d2.
Proof. by intros [= ?]. Qed.
#[export] Hint Resolve db_equiv_events db_equiv_counts db_equiv_items db_equiv_marker : godb.

Lemma events_lookup_equiv d1 d2 k :
  d1 ≡ d2 -> item_events d1 !! k = None <-> item_events d2 !! k = None.
Proof. intros H%db_equiv_events. by rewrite !events_none_view, H. Qed.

Lemma bucket_count_equiv d1 d2 k :
  d1 ≡ d2 -> bucket_count (event_buckets d1) k = bucket_count (event_buckets d2) k.
Proof. intros H%db_equiv_counts. by rewrite !bucket_count_view, H. Qed.

#[export] Instance insert_item_event_proper :
  Proper (any_time ==> eq ==> (≡) ==> (≡)) insert_item_event.
Proof.
  intros t1 t2 _ e ? <- d1 d2 H. unfold insert_item_event.
  destruct (valid_event_type _); [|reflexivity].
  assert ((match item_events d1 !! event_input_key e with Some _ => 0 | None => 1 end) =
          (match item_events d2 !! event_input_key e with Some _ => 0 | None => 1 end)) as ->.
  { pose proof (events_lookup_equiv _ _ (event_input_key e) H).
    repeat case_match; naive_solver. }
  constructor. apply db_equiv_intro; simpl; auto with godb.
  by rewrite !view_insert_or_nothing, (db_equiv_events _ _ H).
Qed.

#[export] Instance upsert_bucket_proper :
  Proper (any_time ==> eq ==> (≡) ==> (≡)) upsert_bucket.
Proof.
  intros t1 t2 _ e ? <- d1 d2 H. unfold upsert_bucket.
  rewrite (bucket_count_equiv _ _ _ H).
  destruct (valid_event_type _); [|reflexivity]. destruct (_ <=? _); [|reflexivity].
  constructor. apply db_equiv_intro; simpl; auto with godb.
  by rewrite !view_bump_bucket, (db_equiv_counts _ _ H).
Qed.

#[export] Instance upsert_current_item_proper :
  Proper (eq ==> (≡) ==> (≡)) upsert_current_item.
Proof.
  intros i ? <- d1 d2 H. constructor.
  apply db_equiv_intro; simpl; auto with godb. by rewrite (db_equiv_items _ _ H).
Qed.

#[export] Instance sbind_proper {A B} :
  Proper ((≡) ==> pointwise_relation _ ((≡) ==> (≡)) ==> (≡)) (@sbind A B).
Proof. intros ?? [a d1 d2 Hd|e] k1 k2 Hk; [by apply Hk|constructor]. Qed.
