(* ===== verification/Session.v ===== *)
(** * Session: transactions over a database that can fail at any call

    The pgx calls internal/store makes: [pool.Begin], [tx.Exec]/[tx.QueryRow],
    [tx.Commit], [tx.Rollback], and the autocommit [pool.Exec]/[pool.QueryRow].
    Every call that reaches the server consumes one [outcome] of an oracle:
    delivered, refused before it took effect, or executed with its reply lost
    (the ambiguous commit).  An exhausted oracle means no further failure. *)
From S2P Require Import Prelude Database.
Local Open Scope Z_scope.
Local Open Scope go_scope.

Inductive outcome :=
| Delivered
| Refused (e : error)
| ReplyLost (e : error).

Record Session := {
  committed : DB;
  working : option DB;
  oracle : list outcome
}.

Definition quiet_session (d : DB) : Session :=
  {| committed := d; working := None; oracle := [] |}.

Definition next_outcome (s : Session) : outcome :=
  match oracle s with [] => Delivered | o :: _ => o end.

Definition consume (s : Session) : Session :=
  {| committed := committed s; working := working s; oracle := tail (oracle s) |}.

Definition set_working (w : option DB) (s : Session) : Session :=
  {| committed := committed s; working := w; oracle := oracle s |}.

Definition set_committed (d : DB) (s : Session) : Session :=
  {| committed := d; working := working s; oracle := oracle s |}.

Definition tx_aborted : error := ErrNew "current transaction is aborted".
Definition tx_closed : error := ErrNew "tx is closed".

(** [pool.Begin(ctx)] *)
Definition Begin : M Session (error + unit) := fun s =>
  match next_outcome s with
  | Delivered => (inr tt, set_working (Some (committed s)) (consume s))
  | Refused e | ReplyLost e => (inl e, consume s)
  end.

(** [tx.Exec] / [tx.QueryRow]: an error leaves the transaction aborted. *)
Definition Exec {A} (stmt : DB -> stmt_result A) : M Session (error + A) := fun s =>
  match next_outcome s with
  | Delivered =>
      match working s with
      | None => (inl tx_aborted, consume s)
      | Some d =>
          match stmt d with
          | SOk a d' => (inr a, set_working (Some d') (consume s))
          | SErr e => (inl e, set_working None (consume s))
          end
      end
  | Refused e | ReplyLost e => (inl e, set_working None (consume s))
  end.

(** [tx.Commit(ctx)]: the only call whose lost reply leaves an effect. *)
Definition Commit : M Session (error + unit) := fun s =>
  match next_outcome s, working s with
  | Delivered, Some d => (inr tt, set_working None (set_committed d (consume s)))
  | ReplyLost e, Some d => (inl e, set_working None (set_committed d (consume s)))
  | Refused e, _ => (inl e, set_working None (consume s))
  | _, None => (inl tx_closed, set_working None (consume s))
  end.

(** [defer func() { _ = tx.Rollback(ctx) }()]: a no-op after Commit.  Its own
    error is discarded by the code, so it consumes no outcome. *)
Definition Rollback : M Session unit := fun s => (tt, set_working None s).

(** [pool.Exec]: one statement, autocommitted. *)
Definition pool_Exec {A} (stmt : DB -> stmt_result A) : M Session (error + A) := fun s =>
  match next_outcome s with
  | Delivered =>
      match stmt (committed s) with
      | SOk a d' => (inr a, set_committed d' (consume s))
      | SErr e => (inl e, consume s)
      end
  | Refused e => (inl e, consume s)
  | ReplyLost e =>
      match stmt (committed s) with
      | SOk _ d' => (inl e, set_committed d' (consume s))
      | SErr e' => (inl e', consume s)
      end
  end.

(** [pool.QueryRow] / [pool.Query] of a SELECT. *)
Definition pool_Query {A} (q : DB -> A) : M Session (error + A) := fun s =>
  match next_outcome s with
  | Delivered => (inr (q (committed s)), consume s)
  | Refused e | ReplyLost e => (inl e, consume s)
  end.

(** [rows.Scan] of one more row, and [rows.Err] after the last. *)
Definition rows_step : M Session (error + unit) := fun s =>
  match next_outcome s with
  | Delivered => (inr tt, consume s)
  | Refused e | ReplyLost e => (inl e, consume s)
  end.

(** ** What a run leaves behind

    [leaves m eff]: whatever the oracle does, [m] ends outside a transaction
    with the committed tables either unchanged or exactly [eff] of them; and
    when it reports no error, it is the latter. *)
Definition leaves {A} (m : M Session (A * option error)) (eff : DB -> stmt_result A) : Prop :=
  forall s, working s = None ->
    let '((a, err), s') := m s in
    working s' = None /\
    (committed s' = committed s \/ exists a', eff (committed s) = SOk a' (committed s')) /\
    (err = None -> eff (committed s) = SOk a (committed s')).

(** On a fault-free session the transaction computes exactly its effect. *)
Definition computes {A} (m : M Session (A * option error)) (eff : DB -> stmt_result A) : Prop :=
  forall d, match eff d with
            | SOk a d' => m (quiet_session d) = ((a, None), quiet_session d')
            | SErr e => exists a e', m (quiet_session d) = ((a, Some e'), quiet_session d)
            end.

(** ** Reasoning about runs

    [wp m Q s]: running [m] from [s] ends with a result and a session in [Q].
    The rules forget the oracle: a call either succeeds or fails. *)
Definition wp {A} (m : M Session A) (Q : A -> Session -> Prop) (s : Session) : Prop :=
  let '(a, s') := m s in Q a s'.

(** Where the error of a call comes from: the network, or the call itself. *)
Inductive fails (s : Session) (internal : error -> Prop) (e : error) : Prop :=
| fails_refused : next_outcome s = Refused e -> fails s internal e
| fails_lost : next_outcome s = ReplyLost e -> fails s internal e
| fails_internal : internal e -> fails s internal e.

Definition no_error (_ : error) : Prop := False.

#[export] Hint Constructors fails : godb.

Lemma wp_leaves {A} (m : M Session (A * option error)) eff :
  (forall s, working s = None ->
     wp m (fun r s' => working s' = None /\
       (committed s' = committed s \/ exists a', eff (committed s) = SOk a' (committed s')) /\
       (r.2 = None -> eff (committed s) = SOk r.1 (committed s'))) s) ->
  leaves m eff.
Proof. intros Hwp s Hs. specialize (Hwp s Hs). unfold wp in Hwp. by destruct (m s) as [[??]?]. Qed.

Lemma wp_ret {A} (a : A) (Q : A -> Session -> Prop) s : Q a s -> wp (ret a) Q s.
Proof. done. Qed.

Lemma wp_bind {A B} (m : M Session A) (k : A -> M Session B) Q s :
  wp m (fun a s' => wp (k a) Q s') s -> wp (bind m k) Q s.
Proof. unfold wp, bind. by destruct (m s). Qed.

Lemma wp_mono {A} (m : M Session A) (Q1 Q2 : A -> Session -> Prop) s :
  wp m Q1 s -> (forall a s', Q1 a s' -> Q2 a s') -> wp m Q2 s.
Proof. unfold wp. destruct (m s). auto. Qed.

Lemma wp_Begin (Q : error + unit -> Session -> Prop) s :
  (forall s', committed s' = committed s -> working s' = Some (committed s) ->
     oracle s' = tail (oracle s) -> Q (inr tt) s') ->
  (forall e s', committed s' = committed s -> working s' = working s ->
     oracle s' = tail (oracle s) -> fails s no_error e -> Q (inl e) s') ->
  wp Begin Q s.
Proof. intros Hok Herr. unfold wp, Begin. destruct (next_outcome s) eqn:E; eauto with godb. Qed.

Lemma wp_Exec {A} (stmt : DB -> stmt_result A) (Q : error + A -> Session -> Prop) s d :
  working s = Some d ->
  (forall a d' s', stmt d = SOk a d' -> committed s' = committed s -> working s' = Some d' ->
     oracle s' = tail (oracle s) -> Q (inr a) s') ->
  (forall e s', committed s' = committed s -> oracle s' = tail (oracle s) ->
     fails s (fun e => stmt d = SErr e) e -> Q (inl e) s') ->
  wp (Exec stmt) Q s.
Proof.
  intros Hw Hok Herr. unfold wp, Exec. rewrite Hw.
  destruct (next_outcome s) eqn:E; [destruct (stmt d) eqn:Es|..]; eauto with godb.
Qed.

Lemma wp_Commit (Q : error + unit -> Session -> Prop) s d :
  working s = Some d ->
  (forall s', committed s' = d -> oracle s' = tail (oracle s) -> Q (inr tt) s') ->
  (forall e s', committed s' = committed s \/ committed s' = d ->
     oracle s' = tail (oracle s) -> fails s no_error e -> Q (inl e) s') ->
  wp Commit Q s.
Proof.
  intros Hw Hok Herr. unfold wp, Commit. rewrite Hw.
  destruct (next_outcome s) eqn:E; simpl; eauto with godb.
Qed.

Lemma wp_defer_Rollback {A} (body : M Session A) (Q : A -> Session -> Prop) s :
  wp body (fun a s' => forall s'', committed s'' = committed s' -> working s'' = None ->
    oracle s'' = oracle s' -> Q a s'') s ->
  wp (defer Rollback body) Q s.
Proof.
  intros Hwp. unfold defer. apply wp_bind. eapply wp_mono; [exact Hwp|]. simpl.
  intros a s' HQ. by apply HQ.
Qed.

Lemma wp_pool_Exec {A} (stmt : DB -> stmt_result A) (Q : error + A -> Session -> Prop) s :
  (forall a s', stmt (committed s) = SOk a (committed s') -> working s' = working s ->
     Q (inr a) s') ->
  (forall e s', committed s' = committed s \/ (exists a, stmt (committed s) = SOk a (committed s')) ->
     working s' = working s -> Q (inl e) s') ->
  wp (pool_Exec stmt) Q s.
Proof.
  intros Hok Herr. unfold wp, pool_Exec.
  destruct (next_outcome s); [destruct (stmt _) eqn:E| |destruct (stmt _) eqn:E]; eauto.
Qed.

(** A loop that never returns early keeps its invariant; an early return has
    to establish the postcondition itself. *)
Lemma wp_range_loop {A St R} (I : list A -> St -> Session -> Prop)
    (body : A -> St -> M Session (R + St)) (k : St -> M Session R) Q l st s :
  I l st s ->
  (forall x l' st s, I (x :: l') st s ->
     wp (body x st) (fun r s' => match r with inl v => Q v s' | inr st' => I l' st' s' end) s) ->
  (forall st s, I [] st s -> wp (k st) Q s) ->
  wp (range_loop l st body k) Q s.
Proof.
  intros HI Hbody Hk. revert st s HI. induction l as [|x l IH]; intros st s HI; simpl; [auto|].
  apply wp_bind. eapply wp_mono; [by apply Hbody|].
  intros [v|st'] s' Hr; [by apply wp_ret|by apply IH].
Qed.

(** One call of a transaction body at a time. *)
Ltac wp_step :=
  lazymatch goal with
  | |- wp (defer Rollback _) _ _ => apply wp_defer_Rollback
  | |- wp (bind _ _) _ _ => apply wp_bind
  | |- wp (ret _) _ _ => apply wp_ret
  | |- wp Begin _ _ => apply wp_Begin; intros
  | |- wp (Exec _) _ _ => eapply wp_Exec; [eassumption|intros|intros]
  | |- wp Commit _ _ => eapply wp_Commit; [eassumption|intros|intros]
  | |- wp (pool_Exec _) _ _ => apply wp_pool_Exec; intros
  | |- wp (if ?b then _ else _) _ _ => destruct b eqn:?
  | |- wp (match ?x with _ => _ end) _ _ => destruct x eqn:?
  end.

Ltac wp_run := repeat (wp_step; cbv beta iota; cbn [fst snd]).

(** Fault-free runs are evaluated: the empty oracle delivers every call. *)
Ltac quiet_run :=
  unfold quiet_session, Exec, Begin, Commit, Rollback, pool_Exec, pool_Query, rows_step,
    defer, bind, ret; simpl.

(** Close the leaves of a run: the committed tables are the old ones, or the
    effect of the operation, recomputed from the recorded statement results.
    The effects are the definitions registered in [effects]. *)
Create HintDb effects.

Ltac tx_effect :=
  autounfold with effects; unfold sbind; cbv beta iota;
  repeat (match goal with
  | H : ?x = SOk _ _ |- context [?x] => rewrite H
  | H : ?b = true |- context [if ?b then _ else _] => rewrite H
  | H : ?b = false |- context [if ?b then _ else _] => rewrite H
  end; cbv beta iota); first [congruence | f_equal; congruence].

Ltac tx_done :=
  intros; destruct_or?; destruct_and?;
  repeat match goal with u : unit |- _ => destruct u | H : ex _ |- _ => destruct H end;
  (split_and!;
  [ congruence
  | first [left; congruence | right; eexists; tx_effect]
  | intros; first [discriminate | tx_effect] ]).
