(* ===== verification/Tables.v ===== *)
(** * Tables: what the statements do to the tables, key by key

    The lemmas the store's operations share: the multi-row insert against a row
    at a time, the grouped bucket deltas against single increments, and the
    folding of [current_items] updates. *)
From S2P Require Import Prelude Database.
Local Open Scope Z_scope.

(** ** Raw events *)

(** The rows of a list that are new to a set of keys, in order. *)
Fixpoint new_rows (n : gmap event_key string) (rows : list EventInput) : list EventInput :=
  match rows with
  | [] => []
  | e :: rows' =>
      match n !! event_input_key e with
      | Some _ => new_rows n rows'
      | None => e :: new_rows (names_add e n) rows'
      end
  end.

Definition names_add_all (rows : list EventInput) (n : gmap event_key string) :=
  fold_left (fun n e => names_add e n) rows n.

Lemma ins_cte_view_acc now rows m ins :
  let '(m', ins') := fold_left (ins_step now) rows (m, ins) in
  er_name <$> m' = names_add_all rows (er_name <$> m) /\
  ins' = ins ++ new_rows (er_name <$> m) rows.
Proof.
  revert m ins. induction rows as [|e rows IH]; intros m ins; simpl; [by rewrite app_nil_r|].
  rewrite <- view_insert_or_nothing with (now := now). rewrite lookup_fmap.
  destruct (m !! event_input_key e) eqn:E; simpl.
  - unfold insert_or_nothing. rewrite E. apply IH.
  - specialize (IH (insert_or_nothing now e m) (ins ++ [e])).
    destruct (fold_left _ _ _) as [m' ins']. destruct IH as [-> ->].
    by rewrite <- app_assoc.
Qed.

Lemma ins_cte_view now rows m :
  er_name <$> (ins_cte now rows m).1 = names_add_all rows (er_name <$> m) /\
  (ins_cte now rows m).2 = new_rows (er_name <$> m) rows.
Proof.
  unfold ins_cte. pose proof (ins_cte_view_acc now rows m []) as Hacc.
  by destruct (fold_left _ _ _).
Qed.

Lemma names_add_lookup e n k :
  names_add e n !! k =
  match n !! k with
  | Some x => Some x
  | None => if decide (k = event_input_key e) then Some (ei_item_name e) else None
  end.
Proof.
  unfold names_add. destruct (n !! event_input_key e) eqn:E.
  - destruct (n !! k) eqn:Ek; [done|]. case_decide; [congruence|done].
  - destruct (decide (k = event_input_key e)) as [->|Hne].
    + by rewrite lookup_insert_eq, E.
    + rewrite lookup_insert_ne by done. by destruct (n !! k).
Qed.

Lemma names_add_all_dom rows n k :
  is_Some (names_add_all rows n !! k) <->
  is_Some (n !! k) \/ exists e, e ∈ rows /\ event_input_key e = k.
Proof.
  revert n. induction rows as [|e rows IH]; intros n; simpl.
  { split; [by left|intros [?|(?&?%not_elem_of_nil&_)]; done]. }
  unfold names_add_all in *. rewrite IH, names_add_lookup.
  setoid_rewrite elem_of_cons. destruct (n !! k) eqn:E; [naive_solver|].
  case_decide; naive_solver.
Qed.

(** Old rows are never overwritten. *)
Lemma names_add_all_old rows n k x :
  n !! k = Some x -> names_add_all rows n !! k = Some x.
Proof.
  revert n. induction rows as [|e rows IH]; intros n Hk; [done|]. simpl.
  apply IH. by rewrite names_add_lookup, Hk.
Qed.

Lemma names_add_old e n : is_Some (n !! event_input_key e) -> names_add e n = n.
Proof. intros [x Hx]. unfold names_add. by rewrite Hx. Qed.

Lemma names_add_all_id rows n :
  (forall e, e ∈ rows -> is_Some (n !! event_input_key e)) -> names_add_all rows n = n.
Proof.
  induction rows as [|e rows IH]; intros Hin; [done|]. simpl.
  rewrite names_add_old by (apply Hin; by left). apply IH. intros e' He'. apply Hin. by right.
Qed.

Lemma new_rows_nil rows n :
  (forall e, e ∈ rows -> is_Some (n !! event_input_key e)) -> new_rows n rows = [].
Proof.
  revert n. induction rows as [|e rows IH]; intros n Hin; [done|]. simpl.
  destruct (Hin e) as [x ->]; [by left|]. apply IH. intros e' He'. apply Hin. by right.
Qed.

Lemma new_rows_subset rows n e : e ∈ new_rows n rows -> e ∈ rows.
Proof.
  revert n. induction rows as [|x rows IH]; intros n; simpl; [done|].
  destruct (n !! _); rewrite ?elem_of_cons; naive_solver.
Qed.

Lemma new_rows_fresh rows n e : e ∈ new_rows n rows -> n !! event_input_key e = None.
Proof.
  revert n. induction rows as [|x rows IH]; intros n; simpl; [by intros ?%not_elem_of_nil|].
  destruct (n !! event_input_key x) eqn:Ex; [apply IH|].
  intros [->|Hin]%elem_of_cons; [done|]. apply IH in Hin.
  rewrite names_add_lookup in Hin. by destruct (n !! event_input_key e).
Qed.

(** No key is inserted twice: each event counts at most once. *)
Lemma new_rows_NoDup rows n : NoDup (event_input_key <$> new_rows n rows).
Proof.
  revert n. induction rows as [|x rows IH]; intros n; simpl; [constructor|].
  destruct (n !! event_input_key x) eqn:Ex; [apply IH|]. constructor; [|apply IH].
  intros (e & Hk & He)%list_elem_of_fmap. apply new_rows_fresh in He.
  rewrite names_add_lookup, <- Hk, Ex in He. by case_decide.
Qed.

Lemma new_rows_app n rows1 rows2 :
  new_rows n (rows1 ++ rows2) =
  new_rows n rows1 ++ new_rows (names_add_all rows1 n) rows2.
Proof.
  revert n. induction rows1 as [|e rows1 IH]; intros n; simpl; [done|].
  change (names_add_all (e :: rows1) n) with (names_add_all rows1 (names_add e n)).
  destruct (n !! event_input_key e) eqn:E; simpl; [|by rewrite IH].
  by rewrite (names_add_old e n) by eauto.
Qed.

(** ** Buckets *)

(** How many rows fall into a bucket. *)
Definition occurrences (k : bucket_key) (rows : list EventInput) : Z :=
  Z.of_nat (length (filter (fun e => event_bucket_key e = k) rows)).

Definition counts_add_all (rows : list EventInput) (c : gmap bucket_key Z) : gmap bucket_key Z :=
  fold_left (fun c e => counts_add (event_bucket_key e) 1 c) rows c.

Lemma occurrences_nonneg k rows : 0 <= occurrences k rows.
Proof. unfold occurrences. lia. Qed.

Lemma occurrences_cons k e rows :
  occurrences k (e :: rows) =
  (if decide (event_bucket_key e = k) then 1 else 0) + occurrences k rows.
Proof. unfold occurrences. rewrite filter_cons. case_decide; simpl; lia. Qed.

Lemma occurrences_pos k rows :
  0 < occurrences k rows <-> exists e, e ∈ rows /\ event_bucket_key e = k.
Proof.
  induction rows as [|e rows IH].
  { split; [done|]. by intros (e & ?%not_elem_of_nil & _). }
  rewrite occurrences_cons. pose proof (occurrences_nonneg k rows).
  setoid_rewrite elem_of_cons. case_decide; split.
  - intros _. exists e. by split; [left|].
  - lia.
  - intros Hpos. destruct (proj1 IH) as (e' & ? & ?); [lia|]. exists e'. by split; [right|].
  - intros (e' & [->|Hin] & Hk); [done|]. enough (0 < occurrences k rows) by lia.
    apply IH. eauto.
Qed.

Lemma counts_add_lookup k d c k' :
  counts_add k d c !! k' = if decide (k = k') then Some (default 0 (c !! k) + d) else c !! k'.
Proof. unfold counts_add. by rewrite lookup_insert. Qed.

Lemma counts_add_all_default rows c k :
  default 0 (counts_add_all rows c !! k) = default 0 (c !! k) + occurrences k rows.
Proof.
  revert c. induction rows as [|e rows IH]; intros c; simpl; [unfold occurrences; simpl; lia|].
  unfold counts_add_all in *. rewrite IH, counts_add_lookup, occurrences_cons.
  case_decide; subst; simpl; lia.
Qed.

Lemma counts_add_all_lookup rows c k :
  counts_add_all rows c !! k =
  if decide (occurrences k rows = 0) then c !! k
  else Some (default 0 (c !! k) + occurrences k rows).
Proof.
  revert c. induction rows as [|e rows IH]; intros c; simpl; [done|].
  unfold counts_add_all in *. rewrite IH, counts_add_lookup, occurrences_cons.
  pose proof (occurrences_nonneg k rows).
  repeat case_decide; subst; try lia; try done; simpl; f_equal; lia.
Qed.

Lemma bucket_deltas_eq ins : bucket_deltas ins = counts_add_all ins ∅.
Proof. done. Qed.

Lemma bucket_deltas_lookup ins k :
  bucket_deltas ins !! k =
  if decide (occurrences k ins = 0) then None else Some (occurrences k ins).
Proof.
  rewrite bucket_deltas_eq, counts_add_all_lookup, lookup_empty.
  case_decide; [done|]. by rewrite Z.add_0_l.
Qed.

(** Adding the grouped deltas is adding the rows one by one. *)
Lemma bucket_upsert_view now ins m :
  bk_count <$> bucket_upsert now (bucket_deltas ins) m = counts_add_all ins (bk_count <$> m).
Proof.
  apply map_eq. intros k. unfold bucket_upsert.
  rewrite lookup_fmap, lookup_union_with, !lookup_fmap, counts_add_all_lookup, bucket_deltas_lookup.
  rewrite lookup_fmap. case_decide; destruct (m !! k); simpl; try done; f_equal; lia.
Qed.

Lemma deltas_fit_spec ins m :
  deltas_fit (bucket_deltas ins) m = true <->
  forall k, 0 < occurrences k ins -> bucket_count m k + occurrences k ins <= int8_max.
Proof.
  unfold deltas_fit. rewrite bool_decide_eq_true. unfold map_Forall.
  setoid_rewrite bucket_deltas_lookup. split; intros Hfit k.
  - intros Hpos. apply Hfit. rewrite decide_False; [done|lia].
  - intros d. pose proof (occurrences_nonneg k ins). case_decide; [done|].
    intros [= <-]. apply Hfit. lia.
Qed.

(** ** current_items *)
Definition merge_items (rows : list ItemInput) (m : gmap Z ItemRow) : gmap Z ItemRow :=
  fold_left (fun m i =>
    <[ii_item_id i := merge_item_row (m !! ii_item_id i) (item_input_row i)]> m) rows m.

Definition merge_all (rows : list ItemInput) (o : option ItemRow) : option ItemRow :=
  fold_left (fun o i => Some (merge_item_row o (item_input_row i))) rows o.

(** Each item's row depends only on the updates for that item. *)
Lemma merge_items_lookup rows m id :
  merge_items rows m !! id = merge_all (filter (fun i => ii_item_id i = id) rows) (m !! id).
Proof.
  revert m. induction rows as [|i rows IH]; intros m; simpl; [done|].
  unfold merge_items in *. rewrite IH, filter_cons, lookup_insert.
  by case_decide; subst.
Qed.

Lemma merge_all_snoc rows i o :
  merge_all (rows ++ [i]) o = Some (merge_item_row (merge_all rows o) (item_input_row i)).
Proof. unfold merge_all. by rewrite fold_left_snoc. Qed.

Lemma filter_id_none (rows : list ItemInput) id :
  id ∉ (ii_item_id <$> rows) -> filter (fun i => ii_item_id i = id) rows = [].
Proof.
  intros Hnot. induction rows as [|i rows IH]; [done|].
  rewrite filter_cons. rewrite fmap_cons, not_elem_of_cons in Hnot. destruct Hnot as [? ?].
  rewrite decide_False by congruence. by apply IH.
Qed.

Lemma filter_id_unique (rows : list ItemInput) i :
  NoDup (ii_item_id <$> rows) -> i ∈ rows ->
  filter (fun j => ii_item_id j = ii_item_id i) rows = [i].
Proof.
  induction rows as [|j rows IH]; [by intros _ ?%not_elem_of_nil|].
  rewrite fmap_cons, NoDup_cons, filter_cons. intros [Hj Hnd] [->|Hin]%elem_of_cons.
  - rewrite decide_True by done. by rewrite filter_id_none.
  - rewrite decide_False; [by apply IH|]. intros Heq. apply Hj. rewrite Heq.
    by apply list_elem_of_fmap_2.
Qed.

(** ** The last-event-wins merge *)
Lemma last_event_wins_seen old new :
  ir_last_seen (last_event_wins old new) = Z.max (ir_last_seen old) (ir_last_seen new) /\
  ir_first_seen (last_event_wins old new) = ir_first_seen old.
Proof. done. Qed.

Lemma last_event_wins_newer old new :
  ir_last_seen old <= ir_last_seen new ->
  last_event_wins old new =
  {| ir_name := ir_name new; ir_first_seen := ir_first_seen old;
     ir_last_seen := ir_last_seen new; ir_tombstoned_at := ir_tombstoned_at new |}.
Proof.
  intros Hle. unfold last_event_wins. apply Z.leb_le in Hle as Hb. rewrite Hb.
  f_equal. lia.
Qed.

Lemma last_event_wins_older old new :
  ir_last_seen new < ir_last_seen old -> last_event_wins old new = old.
Proof.
  intros Hlt. unfold last_event_wins. rewrite (proj2 (Z.leb_gt _ _) Hlt).
  rewrite Z.max_l by lia. by destruct old.
Qed.

(** Merging twice is merging with the merge: the upsert is associative. *)
Lemma last_event_wins_assoc a b c :
  last_event_wins (last_event_wins a b) c = last_event_wins a (last_event_wins b c).
Proof.
  destruct (Z.le_gt_cases (ir_last_seen b) (ir_last_seen c)) as [Hbc|Hbc].
  - rewrite (last_event_wins_newer b c Hbc).
    destruct (Z.le_gt_cases (ir_last_seen a) (ir_last_seen c)) as [Hac|Hac].
    + rewrite (last_event_wins_newer _ c)
        by (rewrite (proj1 (last_event_wins_seen a b)); lia).
      symmetry. by rewrite last_event_wins_newer by (simpl; lia).
    + rewrite (last_event_wins_older a b) by lia.
      by rewrite !last_event_wins_older by (simpl; lia).
  - rewrite (last_event_wins_older b c) by done.
    apply last_event_wins_older. rewrite (proj1 (last_event_wins_seen a b)). lia.
Qed.

Lemma last_event_wins_idemp a : last_event_wins a a = a.
Proof. rewrite last_event_wins_newer by lia. by destruct a. Qed.

(** Merging a list of updates into a row is merging their merge. *)
Lemma merge_all_from rows o :
  merge_all rows o =
  match merge_all rows None with None => o | Some r => Some (merge_item_row o r) end.
Proof.
  induction rows as [|rows i IH] using list_snoc_ind; [done|].
  rewrite !merge_all_snoc, IH. destruct (merge_all rows None) as [r|]; [|done].
  destruct o as [a|]; simpl; [|done]. by rewrite last_event_wins_assoc.
Qed.

(** Only whether the keys of the rows are stored matters to what is new. *)
Lemma new_rows_ext rows n n' :
  (forall e, e ∈ rows -> n !! event_input_key e = None <-> n' !! event_input_key e = None) ->
  new_rows n rows = new_rows n' rows.
Proof.
  revert n n'. induction rows as [|e rows IH]; intros n n' Hext; [done|]. simpl.
  pose proof (Hext e ltac:(by left)) as He.
  destruct (n !! event_input_key e) eqn:E, (n' !! event_input_key e) eqn:E'; try naive_solver.
  - apply IH. intros e' Hin. apply Hext. by right.
  - f_equal. apply IH. intros e' Hin. rewrite !names_add_lookup.
    pose proof (Hext e' ltac:(by right)).
    destruct (n !! event_input_key e'), (n' !! event_input_key e'); naive_solver.
Qed.

(** The update with the strictly greatest [last_seen] decides the row. *)
Lemma merge_all_latest rows i o :
  i ∈ rows ->
  (forall j, j ∈ rows -> item_input_row j = item_input_row i \/
                         ii_last_seen j < ii_last_seen i) ->
  (forall r, o = Some r -> ir_last_seen r <= ii_last_seen i) ->
  exists r, merge_all rows o = Some r /\ ir_name r = ii_name i /\
    ir_last_seen r = ii_last_seen i /\ ir_tombstoned_at r = ii_tombstoned_at i.
Proof.
  intros Hi Hall Ho.
  assert (forall rows, (forall j, j ∈ rows -> ii_last_seen j <= ii_last_seen i) ->
    forall r, merge_all rows o = Some r -> ir_last_seen r <= ii_last_seen i) as Hbound.
  { clear Hi Hall rows. intros rows. induction rows as [|rows j IH] using list_snoc_ind; [done|].
    intros Hle r. rewrite merge_all_snoc. intros [= <-].
    assert (ii_last_seen j <= ii_last_seen i) by (apply Hle; set_solver).
    destruct (merge_all rows o) as [r|]; simpl; [|done].
    apply Z.max_lub; [|done]. apply IH; set_solver. }
  induction rows as [|rows j IH] using list_snoc_ind; [by apply not_elem_of_nil in Hi|].
  rewrite merge_all_snoc. eexists; split; [done|].
  destruct (Hall j ltac:(set_solver)) as [Hj|Hj].
  - (* [j] carries the deciding row *)
    assert (ii_name j = ii_name i /\ ii_last_seen j = ii_last_seen i /\
            ii_tombstoned_at j = ii_tombstoned_at i) as (Hn & Hl & Ht)
      by (unfold item_input_row in Hj; naive_solver).
    destruct (merge_all rows o) as [r|] eqn:E; simpl; [|done].
    assert (ir_last_seen r <= ii_last_seen i).
    { eapply Hbound; [|exact E]. intros j' Hj'.
      destruct (Hall j' ltac:(set_solver)) as [Heq|]; [|lia].
      unfold item_input_row in Heq. injection Heq. lia. }
    rewrite (proj2 (Z.leb_le _ _)) by lia. split_and!; congruence || lia.
  - destruct IH as (r & -> & Hn & Hl & Ht).
    + apply elem_of_app in Hi as [Hi|Hi]; [done|].
      apply list_elem_of_singleton in Hi as ->. lia.
    + intros j' Hj'. apply Hall. set_solver.
    + simpl. rewrite (proj2 (Z.leb_gt _ _)) by lia. split_and!; congruence || lia.
Qed.
