(* ===== verification/Store.v ===== *)
(** * Store: the statements of internal/store composed into its operations

    [internal/store/current_items.go], [retention.go] and the seed-marker half
    of [seed.go].  [now] is PostgreSQL's [now()] of the transaction. *)
From S2P Require Import Prelude Database Session.
From Corelib Require Import SpecFloat.
Local Open Scope Z_scope.
Local Open Scope go_scope.

(** ** Time across the wire

    A Go [time.Time] is nanoseconds since the epoch; a [timestamptz] has
    microsecond resolution.  The driver's conversion is not part of the
    repository: on the times a [timestamptz] can hold it is monotone, and exact on
    whole microseconds.  pgx computes the microseconds since the Unix epoch in
    int64, and PostgreSQL's timestamps begin in 4713 BC: a time is read here as one
    of [timestamptz_range].  Outside it the driver wraps or the server refuses the
    parameter, and the class, whose laws are stated without the bounds, does not
    describe them; a theorem about a time the code computes and does not bound (the
    cutoff of retention) assumes the range. *)
Definition timestamptz_range (t : Z) : Prop :=
  -2440588 * 86400 * 10 ^ 9 <= t /\ t / 1000 < 2 ^ 63.

Class PgTime := {
  pg_ts : Z -> pg_time;
  go_ts : pg_time -> Z;
  pg_ts_mono : forall a b, a <= b -> pg_ts a <= pg_ts b;
  pg_go_ts : forall u, pg_ts (go_ts u) = u
}.

(** The conversion that drops the nanoseconds below a microsecond. *)
#[export, refine] Instance pg_time_trunc : PgTime | 10 :=
  {| pg_ts t := t / 1000; go_ts u := u * 1000 |}.
Proof.
  - intros a b H. apply Z.div_le_mono; lia.
  - intros u. apply Z.div_mul. lia.
Defined.

(** ** Data (current_items.go, seed.go) *)
Record CurrentItem := {
  ItemID : Z;
  Name : string;
  FirstSeen : Z;
  LastSeen : Z;
  Tombstoned : bool
}.

Record SnapshotItem := { si_ItemID : Z; si_Name : string }.

Record EventRecord := {
  ev_ItemID : Z;
  ev_ItemName : string;
  ev_EventType : string;
  ev_EventTime : Z
}.

Record BucketStat := { bs_EventType : string; bs_Count : Z }.

Record SeedMarker := {
  Scale : spec_float;
  RefUnix : Z;
  Seed : Z;
  Days : Z;
  SeededAt : Z;
  EventsWritten : Z
}.

#[export] Instance EventRecord_eq_dec : EqDecision EventRecord.
Proof. solve_decision. Defined.

Section store.
Context `{PgTime}.

(** The driver's encoding of the statement parameters. *)
Definition encode_event (ev : EventRecord) : EventInput :=
  {| ei_type := ev_EventType ev; ei_item_id := ev_ItemID ev;
     ei_item_name := ev_ItemName ev; ei_time := pg_ts (ev_EventTime ev) |}.

Definition is_deleted (ev : EventRecord) : bool :=
  bool_decide (ev_EventType ev = "deleted"%string).

(** The row IngestEvent upserts: [VALUES ($1, $2, $3, $3, $4)]. *)
Definition item_of_event (ev : EventRecord) : ItemInput :=
  {| ii_item_id := ev_ItemID ev; ii_name := ev_ItemName ev;
     ii_first_seen := pg_ts (ev_EventTime ev); ii_last_seen := pg_ts (ev_EventTime ev);
     ii_tombstoned_at :=
       if is_deleted ev then Some (pg_ts (ev_EventTime ev)) else None |}.

(** ** IngestEvent *)
Definition IngestEvent (now : pg_time) (ev : EventRecord)
    : M Session (bool * option error) :=
  try _ := Begin catch err => ret (false, Some (ErrWrap "begin ingest" err)) in
  defer Rollback (
    try tag := Exec (insert_item_event now (encode_event ev))
      catch err => ret (false, Some (ErrWrap "insert item_event" err)) in
    let inserted := tag =? 1 in
    try _ := (if inserted then Exec (upsert_bucket now (encode_event ev)) else ret (inr tt))
      catch err => ret (false, Some (ErrWrap "upsert bucket" err)) in
    try _ := Exec (upsert_current_item (item_of_event ev))
      catch err => ret (inserted, Some (ErrWrap "upsert current_item" err)) in
    try _ := Commit catch err => ret (false, Some (ErrWrap "commit ingest" err)) in
    ret (inserted, None)).

(** ** ReconcileSnapshot *)
Definition reconcile_upsert (now : pg_time) (item : SnapshotItem) (upserted : Z)
    : M Session ((Z * Z * option error) + Z) :=
  try tag := Exec (upsert_snapshot_item now (si_ItemID item) (si_Name item))
    catch execErr => ret (inl (0, 0, Some
        (ErrWrap ("upsert item " +:+ pretty (si_ItemID item)) execErr))) in
  ret (inr (upserted + tag)).

Definition ReconcileSnapshot (items : list SnapshotItem) (observed : Z)
    : M Session (Z * Z * option error) :=
  let now := pg_ts observed in
  let ids := si_ItemID <$> items in
  try _ := Begin catch err => ret (0, 0, Some (ErrWrap "begin reconcile" err)) in
  defer Rollback (
    range_loop items 0 (reconcile_upsert now) (fun upserted =>
      try tag := Exec (tombstone_missing now ids)
        catch err => ret (upserted, 0, Some (ErrWrap "tombstone missing items" err)) in
      try _ := Commit catch err => ret (0, 0, Some (ErrWrap "commit reconcile" err)) in
      ret (upserted, tag, None))).

(** ** Reads *)

(** [QueryRow(...).Scan(...)]: no row is pgx.ErrNoRows. *)
Definition ErrNoRows : error := ErrNew "no rows in result set".

Definition scan_row {A} (r : error + option A) : error + A :=
  match r with
  | inl e => inl e
  | inr None => inl ErrNoRows
  | inr (Some a) => inr a
  end.

Definition zero_item : CurrentItem :=
  {| ItemID := 0; Name := ""; FirstSeen := 0; LastSeen := 0; Tombstoned := false |}.

Definition scan_item (id : Z) (r : ItemRow) : CurrentItem :=
  {| ItemID := id; Name := ir_name r; FirstSeen := go_ts (ir_first_seen r);
     LastSeen := go_ts (ir_last_seen r);
     Tombstoned := bool_decide (ir_tombstoned_at r <> None) |}.

Definition GetCurrentItem (itemID : Z) : M Session (CurrentItem * bool * option error) :=
  let! res := pool_Query (fun d => current_items d !! itemID) in
  match scan_row res with
  | inl err =>
      if errors_Is err ErrNoRows then ret (zero_item, false, None)
      else ret (zero_item, false,
                Some (ErrWrap ("get current_item " +:+ pretty itemID) err))
  | inr row => ret (scan_item itemID row, true, None)
  end.

(** [SUM(bigint)] is a numeric; scanning it into an [int64] fails above the
    int64 range (the counts are positive). *)
Definition scan_int64 (n : Z) : error + Z :=
  if n <=? int8_max then inr n else inl (ErrNew "is greater than maximum value for int64").

(** The row loop: any scan or iteration error discards what was read. *)
Definition scan_stat (r : string * Z) (stats : list BucketStat)
    : M Session ((list BucketStat * option error) + list BucketStat) :=
  try _ := rows_step catch err => ret (inl ([], Some (ErrWrap "scan stats row" err))) in
  match scan_int64 r.2 with
  | inl err => ret (inl ([], Some (ErrWrap "scan stats row" err)))
  | inr n => ret (inr (stats ++ [{| bs_EventType := r.1; bs_Count := n |}]))
  end.

Definition StatsLast24h (now : pg_time) : M Session (list BucketStat * option error) :=
  try rows := pool_Query (select_stats_24h now)
    catch err => ret ([], Some (ErrWrap "query stats" err)) in
  range_loop rows [] scan_stat (fun stats =>
    try _ := rows_step catch err => ret ([], Some (ErrWrap "iterate stats" err)) in
    ret (stats, None)).

(** ** Retention *)
Definition DeleteEventsOlderThan (cutoff : Z) : M Session (Z * option error) :=
  try tag := pool_Exec (delete_events_before (pg_ts cutoff))
    catch err => ret (0, Some (ErrWrap "delete item_events" err)) in
  ret (tag, None).

(** ** Seed marker *)
Definition encode_marker (m : SeedMarker) : MarkerRow :=
  {| mr_scale := Scale m; mr_ref_unix := RefUnix m; mr_seed := Seed m; mr_days := Days m;
     mr_seeded_at := pg_ts (SeededAt m); mr_events_written := EventsWritten m |}.

Definition decode_marker (r : MarkerRow) : SeedMarker :=
  {| Scale := mr_scale r; RefUnix := mr_ref_unix r; Seed := mr_seed r; Days := mr_days r;
     SeededAt := go_ts (mr_seeded_at r); EventsWritten := mr_events_written r |}.

Definition UpsertSeedMarker (m : SeedMarker) : M Session (unit * option error) :=
  try _ := pool_Exec (upsert_seed_marker (encode_marker m))
    catch err => ret (tt, Some (ErrWrap "upsert seed_marker" err)) in
  ret (tt, None).

Definition zero_marker : SeedMarker :=
  {| Scale := S754_zero false; RefUnix := 0; Seed := 0; Days := 0; SeededAt := 0;
     EventsWritten := 0 |}.

Definition GetSeedMarker : M Session (SeedMarker * bool * option error) :=
  let! res := pool_Query seed_marker in
  match scan_row res with
  | inl err =>
      if errors_Is err ErrNoRows then ret (zero_marker, false, None)
      else ret (zero_marker, false, Some (ErrWrap "get seed_marker" err))
  | inr row => ret (decode_marker row, true, None)
  end.

(** ** The effect of one operation on the tables *)
Definition ingest_effect (now : pg_time) (ev : EventRecord) (d : DB) : stmt_result bool :=
  sbind (insert_item_event now (encode_event ev) d) (fun tag d1 =>
  sbind (if tag =? 1 then upsert_bucket now (encode_event ev) d1 else SOk tt d1) (fun _ d2 =>
  sbind (upsert_current_item (item_of_event ev) d2) (fun _ d3 => SOk (tag =? 1) d3))).

#[local] Hint Unfold ingest_effect : effects.

Lemma IngestEvent_leaves now ev : leaves (IngestEvent now ev) (ingest_effect now ev).
Proof.
  apply wp_leaves. intros s Hs. unfold IngestEvent. wp_run.
  all: tx_done.
Qed.

Lemma IngestEvent_computes now ev : computes (IngestEvent now ev) (ingest_effect now ev).
Proof.
  intros d. unfold IngestEvent, ingest_effect, sbind. quiet_run.
  destruct (insert_item_event _ _ d) as [tag d1|e]; simpl; [|eauto].
  destruct (tag =? 1); simpl; [|eauto].
  destruct (upsert_bucket _ _ d1); simpl; eauto.
Qed.

(** The loop of upserts, then the tombstoning update. *)
Fixpoint reconcile_upserts (now : pg_time) (items : list SnapshotItem) (upserted : Z) (d : DB)
    : stmt_result Z :=
  match items with
  | [] => SOk upserted d
  | item :: items' =>
      sbind (upsert_snapshot_item now (si_ItemID item) (si_Name item) d)
        (fun tag d' => reconcile_upserts now items' (upserted + tag) d')
  end.

Definition reconcile_effect (items : list SnapshotItem) (observed : Z) (d : DB)
    : stmt_result (Z * Z) :=
  sbind (reconcile_upserts (pg_ts observed) items 0 d) (fun upserted d1 =>
  sbind (tombstone_missing (pg_ts observed) (si_ItemID <$> items) d1) (fun tombstoned d2 =>
  SOk (upserted, tombstoned) d2)).

#[local] Hint Unfold reconcile_effect : effects.

Lemma ReconcileSnapshot_leaves items observed :
  leaves (ReconcileSnapshot items observed) (reconcile_effect items observed).
Proof.
  apply wp_leaves. intros s Hs. unfold ReconcileSnapshot. wp_run; [|tx_done].
  eapply (wp_range_loop (fun l n s' => committed s' = committed s /\ exists d,
    working s' = Some d /\
    reconcile_upserts (pg_ts observed) items 0 (committed s) =
    reconcile_upserts (pg_ts observed) l n d)).
  - eauto.
  - intros x l' n s1 (Hc & d & Hw & Hrec). unfold reconcile_upsert. wp_run; [|tx_done].
    split; [congruence|]. eexists; split; [eassumption|]. rewrite Hrec. cbn [reconcile_upserts]. tx_effect.
  - intros n s1 (Hc & d & Hw & Hrec). cbn [reconcile_upserts] in Hrec. wp_run. all: tx_done.
Qed.

Lemma reconcile_upsert_quiet now l n c d k n' d' :
  reconcile_upserts now l n d = SOk n' d' ->
  range_loop l n (reconcile_upsert now) k
    {| committed := c; working := Some d; oracle := [] |} =
  k n' {| committed := c; working := Some d'; oracle := [] |}.
Proof.
  revert n d. induction l as [|x l IH]; intros n d Heq.
  { simpl in *. by simplify_eq. }
  apply (IH _ _ Heq).
Qed.

Lemma reconcile_upserts_count now l n d :
  exists d', reconcile_upserts now l n d = SOk (n + Z.of_nat (length l)) d'.
Proof.
  revert n d. induction l as [|x l IH]; intros n d; simpl.
  { eexists. f_equal. lia. }
  edestruct IH as [d' ->]. eexists. f_equal. lia.
Qed.

Lemma ReconcileSnapshot_computes items observed :
  computes (ReconcileSnapshot items observed) (reconcile_effect items observed).
Proof.
  intros d. unfold ReconcileSnapshot, reconcile_effect, sbind. quiet_run.
  destruct (reconcile_upserts_count (pg_ts observed) items 0 d) as [d1 Hup]. rewrite Hup.
  unfold consume, set_working; simpl. by rewrite (reconcile_upsert_quiet _ _ _ _ _ _ _ _ Hup).
Qed.

Lemma DeleteEventsOlderThan_leaves cutoff :
  leaves (DeleteEventsOlderThan cutoff) (delete_events_before (pg_ts cutoff)).
Proof. apply wp_leaves. intros s Hs. unfold DeleteEventsOlderThan. wp_run. all: tx_done. Qed.

Lemma UpsertSeedMarker_leaves m :
  leaves (UpsertSeedMarker m) (upsert_seed_marker (encode_marker m)).
Proof. apply wp_leaves. intros s Hs. unfold UpsertSeedMarker. wp_run. all: tx_done. Qed.
End store.
