(* ===== verification/StoreBatch.v ===== *)
(** * StoreBatch: IngestEventsBatch and foldCurrentItems (internal/store/seed.go)

    The batched ingestion path of the historical seeder, and the contract its
    documentation states: one batch is the same as calling [IngestEvent] once
    per event, in order. *)
From S2P Require Import Prelude Database Tables Session Store.
Local Open Scope Z_scope.
Local Open Scope go_scope.

(** ** foldCurrentItems *)

(** Go's zero [time.Time], 0001-01-01T00:00:00Z, in nanoseconds. *)
Definition zero_time : Z := -62135596800000000000.

Record foldedItem := {
  fi_itemID : Z;
  fi_name : string;
  fi_firstSeen : Z;
  fi_lastSeen : Z;
  fi_tombstonedAt : option Z
}.

(** The three locals of the loop. *)
Record fold_state := {
  fs_order : list Z;
  fs_firstSeen : gmap Z Z;
  fs_winners : gmap Z foldedItem
}.

Definition fold_init : fold_state :=
  {| fs_order := []; fs_firstSeen := ∅; fs_winners := ∅ |}.

(** [w.name = ...; w.lastSeen = ...; w.tombstonedAt = ...] *)
Definition take_event (w : foldedItem) (e : EventRecord) : foldedItem :=
  {| fi_itemID := fi_itemID w; fi_name := ev_ItemName e; fi_firstSeen := fi_firstSeen w;
     fi_lastSeen := ev_EventTime e;
     fi_tombstonedAt := if is_deleted e then Some (ev_EventTime e) else None |}.

Definition new_winner (id : Z) : foldedItem :=
  {| fi_itemID := id; fi_name := ""; fi_firstSeen := zero_time; fi_lastSeen := zero_time;
     fi_tombstonedAt := None |}.

(** One iteration of [for _, e := range ev]. *)
Definition fold_step (st : fold_state) (e : EventRecord) : fold_state :=
  let id := ev_ItemID e in
  let '(order, firstSeen) :=
    match fs_firstSeen st !! id with
    | Some _ => (fs_order st, fs_firstSeen st)
    | None => (fs_order st ++ [id], <[id := ev_EventTime e]> (fs_firstSeen st))
    end in
  let '(w, found) :=
    match fs_winners st !! id with
    | Some w => (w, true)
    | None => (new_winner id, false)
    end in
  let w' := if negb found || negb (ev_EventTime e <? fi_lastSeen w)
            then take_event w e else w in
  {| fs_order := order; fs_firstSeen := firstSeen; fs_winners := <[id := w']> (fs_winners st) |}.

(** [folded[i] = *w]: a winner missing from the map would be a nil dereference. *)
Definition folded_at (st : fold_state) (id : Z) : option foldedItem :=
  w ← fs_winners st !! id;
  Some {| fi_itemID := fi_itemID w; fi_name := fi_name w;
          fi_firstSeen := default zero_time (fs_firstSeen st !! id);
          fi_lastSeen := fi_lastSeen w; fi_tombstonedAt := fi_tombstonedAt w |}.

Definition foldCurrentItems (ev : list EventRecord) : option (list foldedItem) :=
  let st := fold_left fold_step ev fold_init in
  mapM (folded_at st) (fs_order st).

(** ** IngestEventsBatch *)
Record BatchResult := { Inserted : Z; BucketsTouched : Z }.

Definition zero_result : BatchResult := {| Inserted := 0; BucketsTouched := 0 |}.
Definition nil_dereference : error := ErrNew "invalid memory address or nil pointer dereference".

Section batch.
Context `{PgTime}.

Definition encode_folded (f : foldedItem) : ItemInput :=
  {| ii_item_id := fi_itemID f; ii_name := fi_name f;
     ii_first_seen := pg_ts (fi_firstSeen f); ii_last_seen := pg_ts (fi_lastSeen f);
     ii_tombstoned_at := pg_ts <$> fi_tombstonedAt f |}.

Definition IngestEventsBatch (now : pg_time) (ev : list EventRecord)
    : M Session (BatchResult * option error) :=
  if (length ev =? 0)%nat then ret (zero_result, None) else
  try _ := Begin catch err => ret (zero_result, Some (ErrWrap "begin batch ingest" err)) in
  defer Rollback (
    try counts := Exec (batch_insert_events now (encode_event <$> ev))
      catch err =>
        ret (zero_result, Some (ErrWrap "batch insert item_events/event_buckets" err)) in
    match foldCurrentItems ev with
    | None => ret (zero_result, Some nil_dereference)
    | Some folded =>
        try _ := Exec (batch_upsert_current_items (encode_folded <$> folded))
          catch err => ret (zero_result, Some (ErrWrap "batch upsert current_items" err)) in
        try _ := Commit
          catch err => ret (zero_result, Some (ErrWrap "commit batch ingest" err)) in
        ret ({| Inserted := counts.1; BucketsTouched := counts.2 |}, None)
    end).

(** [for _, ev := range events { IngestEvent(ctx, ev) }], stopping at the first
    error: what the batch is documented to equal.  Each call runs in its own
    transaction, at its own [now()]. *)
Fixpoint IngestSerially (l : list (pg_time * EventRecord)) (inserted : Z)
    : M Session (Z * option error) :=
  match l with
  | [] => ret (inserted, None)
  | (now, ev) :: l' =>
      let! r := IngestEvent now ev in
      let '(new, err) := r in
      match err with
      | Some e => ret (inserted, Some e)
      | None => IngestSerially l' (if new then inserted + 1 else inserted)
      end
  end.
End batch.

(** ** foldCurrentItems, item by item *)

(** What the fold keeps for one item: its first event's time, and the last
    event whose time is at least the running maximum. *)
Definition item_take (o : option foldedItem) (e : EventRecord) : option foldedItem :=
  match o with
  | None => Some {| fi_itemID := ev_ItemID e; fi_name := ev_ItemName e;
                    fi_firstSeen := ev_EventTime e; fi_lastSeen := ev_EventTime e;
                    fi_tombstonedAt := if is_deleted e then Some (ev_EventTime e) else None |}
  | Some w => Some (if ev_EventTime e <? fi_lastSeen w then w else take_event w e)
  end.

Definition events_of (id : Z) (ev : list EventRecord) : list EventRecord :=
  filter (fun e => ev_ItemID e = id) ev.

Definition item_fold (id : Z) (ev : list EventRecord) : option foldedItem :=
  fold_left item_take (events_of id ev) None.

Lemma item_fold_snoc id ev e :
  item_fold id (ev ++ [e]) =
  if decide (ev_ItemID e = id) then item_take (item_fold id ev) e else item_fold id ev.
Proof.
  unfold item_fold, events_of. rewrite filter_app, filter_cons, filter_nil. case_decide.
  - by rewrite fold_left_snoc.
  - by rewrite app_nil_r.
Qed.

Lemma item_fold_id id ev w : item_fold id ev = Some w -> fi_itemID w = id.
Proof.
  revert w. induction ev as [|ev e IH] using list_snoc_ind; intros w; [done|].
  rewrite item_fold_snoc. case_decide as Hid; [|apply IH].
  destruct (item_fold id ev) as [w'|]; simpl; [|by intros [= <-]].
  specialize (IH w' eq_refl). case_match; intros [= <-]; done.
Qed.

(** The winner's time is the time of one of the item's events. *)
Lemma item_fold_last id ev w :
  item_fold id ev = Some w ->
  exists e, e ∈ ev /\ ev_ItemID e = id /\ ev_EventTime e = fi_lastSeen w.
Proof.
  revert w. induction ev as [|ev e IH] using list_snoc_ind; intros w; [done|].
  rewrite item_fold_snoc. setoid_rewrite elem_of_app. setoid_rewrite list_elem_of_singleton.
  case_decide as Hid; [|naive_solver].
  destruct (item_fold id ev) as [w'|] eqn:E; simpl.
  - case_match; intros [= <-]; [|exists e; naive_solver].
    destruct (IH w' eq_refl) as (e' & ? & ? & ?). exists e'. naive_solver.
  - intros [= <-]. exists e. naive_solver.
Qed.

(** The loop's maps hold exactly the per-item folds, and [order] lists the
    items once each. *)
Lemma fold_step_spec ev :
  let st := fold_left fold_step ev fold_init in
  (forall id, fs_firstSeen st !! id = fi_firstSeen <$> item_fold id ev) /\
  (forall id, folded_at st id = item_fold id ev) /\
  NoDup (fs_order st) /\
  (forall id, id ∈ fs_order st <-> is_Some (item_fold id ev)).
Proof.
  induction ev as [|ev e IH] using list_snoc_ind.
  { simpl. split_and!; try done; [by constructor|].
    intros id. split; [by intros ?%not_elem_of_nil|by intros [? [=]]]. }
  rewrite fold_left_snoc. set (st := fold_left fold_step ev fold_init) in *.
  cbv zeta in IH. destruct IH as (Hfirst & Hat & Hnd & Hord).
  assert (fs_winners st !! ev_ItemID e = None <-> item_fold (ev_ItemID e) ev = None) as Hw.
  { specialize (Hat (ev_ItemID e)). unfold folded_at in Hat.
    destruct (fs_winners st !! _), (item_fold _ ev); naive_solver. }
  pose proof (Hfirst (ev_ItemID e)) as Hf. pose proof (Hat (ev_ItemID e)) as Ha.
  pose proof (Hord (ev_ItemID e)) as Ho.
  unfold fold_step. set (i := ev_ItemID e) in *.
  destruct (item_fold i ev) as [w|] eqn:E; simpl in Hf; rewrite Hf.
  - (* seen before *)
    unfold folded_at in Ha.
    destruct (fs_winners st !! i) as [w0|] eqn:Ew; [|by destruct Hw as [Hw _]; discriminate Hw].
    simpl in Ha. injection Ha as Ha. cbn [negb orb].
    split_and!; [| |done|].
    + intros id. cbn. rewrite item_fold_snoc, Hfirst. case_decide as Hid; [|done].
      fold i in Hid. subst id. rewrite E. simpl. by case_match.
    + intros id. unfold folded_at; cbn. rewrite item_fold_snoc. fold i.
      destruct (decide (i = id)) as [<-|Hne].
      * rewrite lookup_insert_eq, E, Hf. rewrite <- Ha. simpl.
        destruct (_ <? _); simpl; [by rewrite Hf|]. unfold take_event; simpl. by rewrite Hf.
      * rewrite lookup_insert_ne by done. apply Hat.
    + intros id. cbn. rewrite Hord, item_fold_snoc. case_decide as Hid; [|done].
      fold i in Hid. subst id. rewrite E. by split; eauto.
  - (* first event of the item *)
    destruct (fs_winners st !! i) as [w0|] eqn:Ew; [by destruct Hw as [_ Hw]; discriminate Hw|].
    cbn [negb orb].
    split_and!.
    + intros id. cbn. rewrite item_fold_snoc, lookup_insert. fold i.
      case_decide as Hid; [|apply Hfirst]. subst id. by rewrite E.
    + intros id. unfold folded_at; cbn. rewrite item_fold_snoc. fold i.
      destruct (decide (i = id)) as [<-|Hne].
      * by rewrite !lookup_insert_eq, E.
      * rewrite !lookup_insert_ne by done. apply Hat.
    + cbn. apply NoDup_app. split_and!; [done| |by apply NoDup_singleton].
      intros x Hx ->%list_elem_of_singleton. apply Ho in Hx. by destruct Hx.
    + intros id. cbn. rewrite elem_of_app, list_elem_of_singleton, Hord, item_fold_snoc. fold i.
      case_decide as Hid; [|naive_solver]. subst id. rewrite E. simpl. naive_solver.
Qed.

Lemma folded_at_id st id w : folded_at st id = Some w ->
  exists w0, fs_winners st !! id = Some w0 /\ fi_itemID w = fi_itemID w0.
Proof. unfold folded_at. destruct (fs_winners st !! id); naive_solver. Qed.

(** The fold never dereferences a missing winner, yields one row per item, and
    each row is its item's fold. *)
Lemma foldCurrentItems_spec ev :
  exists folded, foldCurrentItems ev = Some folded /\
    NoDup (fi_itemID <$> folded) /\
    (forall f, f ∈ folded <-> item_fold (fi_itemID f) ev = Some f) /\
    (forall id, id ∈ (fi_itemID <$> folded) <-> is_Some (item_fold id ev)).
Proof.
  unfold foldCurrentItems. destruct (fold_step_spec ev) as (_ & Hat & Hnd & Hord).
  set (st := fold_left fold_step ev fold_init) in *.
  destruct (mapM_is_Some_2 (folded_at st) (fs_order st)) as [folded Hf].
  { apply Forall_forall. intros id Hid%Hord. unfold compose. by rewrite Hat. }
  exists folded. rewrite Hf. apply mapM_Some in Hf.
  assert (fi_itemID <$> folded = fs_order st) as Hids.
  { clear -Hf Hat. revert Hf. generalize (fs_order st). induction folded as [|f fs IH];
      intros l Hl; inversion Hl as [|x ? l' ? Hx Hl']; subst; [done|].
    rewrite fmap_cons, (IH _ Hl'). f_equal. rewrite Hat in Hx. by apply item_fold_id in Hx. }
  rewrite Hids. split_and!; [done|done| |done].
  intros f. split.
  - intros (i & Hi)%list_elem_of_lookup.
    destruct (Forall2_lookup_r _ _ _ _ _ Hf Hi) as (id & Hid & Hfold).
    rewrite Hat in Hfold. by rewrite (item_fold_id _ _ _ Hfold).
  - intros Hfold. assert (fi_itemID f ∈ fs_order st) as (i & Hi)%list_elem_of_lookup
      by (apply Hord; eauto).
    destruct (Forall2_lookup_l _ _ _ _ _ Hf Hi) as (f' & Hf' & Hat').
    rewrite Hat, Hfold in Hat'. injection Hat' as ->.
    apply list_elem_of_lookup. eauto.
Qed.

Section batch_lemmas.
Context `{PgTime}.

(** Two events of one item whose Go times are out of order must not share a
    database timestamp: sub-tick reorderings are the only thing the fold, which
    compares Go times, and the SQL [CASE], which compares [timestamptz], could
    disagree on. *)
Definition tick_ordered (e1 e2 : EventRecord) : Prop :=
  ev_ItemID e1 = ev_ItemID e2 -> ev_EventTime e2 < ev_EventTime e1 ->
  pg_ts (ev_EventTime e2) < pg_ts (ev_EventTime e1).

Definition no_tick_inversion (ev : list EventRecord) : Prop := ForallOrdPairs tick_ordered ev.

Lemma no_tick_inversion_snoc ev e :
  no_tick_inversion (ev ++ [e]) ->
  no_tick_inversion ev /\ forall e', e' ∈ ev -> tick_ordered e' e.
Proof.
  unfold no_tick_inversion. induction ev as [|x ev IH]; simpl.
  - intros _. split; [constructor|by intros ? ?%not_elem_of_nil].
  - inversion 1 as [|?? Hx Hrest]; subst. destruct (IH Hrest) as [IH1 IH2].
    rewrite Forall_app, Forall_singleton in Hx. destruct Hx as [Hx1 Hx2]. split; [by constructor|].
    intros e' [He'|He']%elem_of_cons; [by subst|by apply IH2].
Qed.

Definition folded_row (f : foldedItem) : ItemRow := item_input_row (encode_folded f).

Definition item_row_of (e : EventRecord) : ItemRow := item_input_row (item_of_event e).

Lemma take_event_row w e :
  pg_ts (fi_lastSeen w) <= pg_ts (ev_EventTime e) ->
  folded_row (take_event w e) = last_event_wins (folded_row w) (item_row_of e).
Proof.
  intros Hle. rewrite last_event_wins_newer by done.
  unfold folded_row, item_row_of, item_input_row; simpl. by destruct (is_deleted e).
Qed.

Definition serial_item (id : Z) (ev : list EventRecord) : option ItemRow :=
  merge_all (filter (fun i => ii_item_id i = id) (item_of_event <$> ev)) None.

Lemma serial_item_snoc id ev e :
  serial_item id (ev ++ [e]) =
  if decide (ev_ItemID e = id)
  then Some (merge_item_row (serial_item id ev) (item_row_of e)) else serial_item id ev.
Proof.
  unfold serial_item. rewrite fmap_app, filter_app, fmap_cons, fmap_nil, filter_cons, filter_nil.
  simpl. case_decide; [by rewrite merge_all_snoc|by rewrite app_nil_r].
Qed.

(** The fold computes the row the serial upserts would build. *)
Lemma item_fold_serial id ev :
  no_tick_inversion ev -> folded_row <$> item_fold id ev = serial_item id ev.
Proof.
  induction ev as [|ev e IH] using list_snoc_ind; [done|].
  intros [Hnt Htick]%no_tick_inversion_snoc. specialize (IH Hnt).
  rewrite item_fold_snoc, serial_item_snoc, <- IH. case_decide as Hid; [|done].
  destruct (item_fold id ev) as [w|] eqn:E; simpl.
  2:{ unfold folded_row, item_row_of, item_input_row; simpl. by destruct (is_deleted e). }
  f_equal. destruct (Z.ltb_spec (ev_EventTime e) (fi_lastSeen w)) as [Hlt|Hge].
  - destruct (item_fold_last _ _ _ E) as (e' & He' & Hid' & Ht').
    rewrite last_event_wins_older; [done|]. unfold item_row_of; simpl.
    rewrite <- Ht'. apply Htick; [done|congruence|lia].
  - apply take_event_row, pg_ts_mono, Hge.
Qed.

(** With no condition at all, the first and last sighting agree. *)
Lemma item_fold_serial_seen id ev :
  (fun f => (ir_first_seen (folded_row f), ir_last_seen (folded_row f))) <$> item_fold id ev =
  (fun r => (ir_first_seen r, ir_last_seen r)) <$> serial_item id ev.
Proof.
  induction ev as [|ev e IH] using list_snoc_ind; [done|].
  rewrite item_fold_snoc, serial_item_snoc. case_decide as Hid; [|done].
  destruct (item_fold id ev) as [w|], (serial_item id ev) as [r|]; simplify_eq/=; [|done].
  pose proof (pg_ts_mono (ev_EventTime e) (fi_lastSeen w)).
  pose proof (pg_ts_mono (fi_lastSeen w) (ev_EventTime e)).
  f_equal. apply pair_equal_spec.
  destruct (Z.ltb_spec (ev_EventTime e) (fi_lastSeen w)); simpl; split; lia.
Qed.
End batch_lemmas.

(** ** One event against the tables *)

(** When a list of rows can be ingested at all: every type passes the CHECK,
    and no bucket's bigint overflows. *)
Definition rows_fit (n : gmap event_key string) (c : gmap bucket_key Z)
    (rows : list EventInput) : Prop :=
  Forall (fun e => valid_event_type (ei_type e) = true) rows /\
  forall k, 0 < occurrences k (new_rows n rows) ->
    default 0 (c !! k) + occurrences k (new_rows n rows) <= int8_max.

#[export] Instance rows_fit_dec n c rows : Decision (rows_fit n c rows).
Proof.
  refine (cast_if (decide (Forall (fun e => valid_event_type (ei_type e) = true) rows /\
    Forall (fun e => default 0 (c !! event_bucket_key e) +
      occurrences (event_bucket_key e) (new_rows n rows) <= int8_max) (new_rows n rows))));
  abstract (unfold rows_fit; rewrite Forall_forall in *; setoid_rewrite occurrences_pos;
    rewrite ?(Forall_forall _ (new_rows n rows)) in *; naive_solver).
Defined.

Lemma rows_fit_nil n c : rows_fit n c [].
Proof. split; [constructor|]. intros k. unfold occurrences; simpl. lia. Qed.

Lemma rows_fit_cons n c e rows :
  rows_fit n c (e :: rows) <->
  valid_event_type (ei_type e) = true /\
  (n !! event_input_key e = None -> default 0 (c !! event_bucket_key e) + 1 <= int8_max) /\
  rows_fit (names_add e n) (counts_add_all (new_rows n [e]) c) rows.
Proof.
  unfold rows_fit. rewrite Forall_cons. cbn [new_rows].
  setoid_rewrite counts_add_all_default.
  destruct (n !! event_input_key e) as [x|] eqn:E.
  - rewrite (names_add_old e n) by eauto. setoid_rewrite (Z.add_0_r (default 0 _)).
    naive_solver.
  - setoid_rewrite occurrences_cons. split.
    + intros [[Hv Hvs] Hfit]. split_and!; try done.
      * intros _. pose proof (occurrences_nonneg (event_bucket_key e) (new_rows (names_add e n) rows)).
        specialize (Hfit (event_bucket_key e)). rewrite decide_True in Hfit by done. lia.
      * intros k Hk. specialize (Hfit k).
        change (occurrences k []) with 0. case_decide; lia.
    + intros (Hv & Hone & Hvs & Hfit). split; [done|]. intros k Hk.
      specialize (Hfit k). specialize (Hone eq_refl). change (occurrences k []) with 0 in Hfit.
      pose proof (occurrences_nonneg k (new_rows (names_add e n) rows)).
      destruct (decide (0 < occurrences k (new_rows (names_add e n) rows))); [lia|].
      case_decide; [subst k; lia|lia].
Qed.

Section effects.
Context `{PgTime}.

Lemma ingest_effect_err now ev d :
  ~ rows_fit (er_name <$> item_events d) (bk_count <$> event_buckets d) [encode_event ev] ->
  exists e, ingest_effect now ev d = SErr e.
Proof.
  rewrite rows_fit_cons. intros Hno. unfold ingest_effect, insert_item_event, upsert_bucket, sbind.
  destruct (valid_event_type (ei_type (encode_event ev))) eqn:Hv; [|eauto].
  destruct (item_events d !! event_input_key (encode_event ev)) eqn:E; simpl.
  - exfalso. apply Hno. rewrite lookup_fmap, E. by auto using rows_fit_nil.
  - rewrite bucket_count_view. destruct (_ <=? _) eqn:Hle; [|eauto]. exfalso. apply Hno.
    bool_solve. by auto using rows_fit_nil.
Qed.

(** A successful ingest, table by table. *)
Lemma ingest_effect_ok now ev d :
  let n := er_name <$> item_events d in
  let c := bk_count <$> event_buckets d in
  rows_fit n c [encode_event ev] ->
  exists d', ingest_effect now ev d =
      SOk (bool_decide (n !! event_input_key (encode_event ev) = None)) d' /\
    er_name <$> item_events d' = names_add (encode_event ev) n /\
    bk_count <$> event_buckets d' = counts_add_all (new_rows n [encode_event ev]) c /\
    current_items d' = merge_items [item_of_event ev] (current_items d) /\
    seed_marker d' = seed_marker d.
Proof.
  intros n c (Hv & Hone & _)%rows_fit_cons. subst n c.
  unfold ingest_effect, insert_item_event, upsert_bucket, sbind. rewrite Hv.
  rewrite lookup_fmap in *. cbn [new_rows]. rewrite lookup_fmap.
  destruct (item_events d !! event_input_key (encode_event ev)) eqn:E; simpl.
  - eexists. split; [reflexivity|]. simpl.
    by rewrite view_insert_or_nothing.
  - rewrite bucket_count_view. rewrite (proj2 (Z.leb_le _ _)) by auto. simpl.
    eexists. split; [reflexivity|]. simpl.
    by rewrite view_insert_or_nothing, view_bump_bucket.
Qed.

(** ** The serial loop and the batch, as effects *)
Fixpoint serial_effect (l : list (pg_time * EventRecord)) (inserted : Z) (d : DB)
    : stmt_result Z :=
  match l with
  | [] => SOk inserted d
  | (now, ev) :: l' =>
      sbind (ingest_effect now ev d) (fun (new : bool) d' =>
        serial_effect l' (if new then inserted + 1 else inserted) d')
  end.

Lemma IngestSerially_computes l n d :
  match serial_effect l n d with
  | SOk n' d' => IngestSerially l n (quiet_session d) = ((n', None), quiet_session d')
  | SErr _ => exists n' e s', IngestSerially l n (quiet_session d) = ((n', Some e), s')
  end.
Proof.
  revert n d. induction l as [|[now ev] l IH]; intros n d; [done|]. simpl.
  pose proof (IngestEvent_computes now ev d) as Hc. unfold sbind, bind.
  destruct (ingest_effect now ev d) as [new d1|e].
  - rewrite Hc. apply IH.
  - destruct Hc as (a & e' & ->). unfold ret. eauto.
Qed.

Definition event_rows (l : list (pg_time * EventRecord)) : list EventInput :=
  (fun p => encode_event p.2) <$> l.

Lemma serial_effect_spec l n0 d :
  let n := er_name <$> item_events d in
  let c := bk_count <$> event_buckets d in
  let rows := event_rows l in
  (rows_fit n c rows ->
    exists d', serial_effect l n0 d = SOk (n0 + Z.of_nat (length (new_rows n rows))) d' /\
      er_name <$> item_events d' = names_add_all rows n /\
      bk_count <$> event_buckets d' = counts_add_all (new_rows n rows) c /\
      current_items d' = merge_items ((fun p => item_of_event p.2) <$> l) (current_items d) /\
      seed_marker d' = seed_marker d) /\
  (~ rows_fit n c rows -> exists e, serial_effect l n0 d = SErr e).
Proof.
  revert n0 d. induction l as [|[now ev] l IH]; intros n0 d; cbv zeta.
  { split; [|by intros []; apply rows_fit_nil]. intros _. exists d. simpl. split_and!; try done. f_equal. lia. }
  cbn [event_rows fmap list_fmap serial_effect snd]. fold (event_rows l). unfold sbind.
  set (n := er_name <$> item_events d). set (c := bk_count <$> event_buckets d).
  pose proof (rows_fit_cons n c (encode_event ev) (event_rows l)) as Hcons.
  assert (rows_fit n c [encode_event ev] <->
    valid_event_type (ei_type (encode_event ev)) = true /\
    (n !! event_input_key (encode_event ev) = None ->
     default 0 (c !! event_bucket_key (encode_event ev)) + 1 <= int8_max)) as Hone.
  { rewrite rows_fit_cons. split; [naive_solver|]. intros [Hv Hf]. by auto using rows_fit_nil. }
  destruct (decide (rows_fit n c [encode_event ev])) as [H1|H1].
  - destruct (ingest_effect_ok now ev d H1) as (d1 & -> & Hn1 & Hc1 & Hi1 & Hm1).
    fold n c in Hn1, Hc1 |- *. destruct (IH (if bool_decide (n !! event_input_key (encode_event ev) = None)
      then n0 + 1 else n0) d1) as [IHok IHerr]. rewrite Hn1, Hc1 in IHok, IHerr.
    split; intros Hfit.
    + apply Hcons in Hfit as (_ & _ & Hfit). destruct (IHok Hfit) as (d2 & -> & Hn2 & Hc2 & Hi2 & Hm2).
      exists d2. rewrite Hn2, Hc2, Hi2, Hm2, Hi1, Hm1. cbn [new_rows].
      destruct (n !! event_input_key (encode_event ev)) eqn:E; split_and!; try done.
      * f_equal. rewrite names_add_old by eauto. done.
      * rewrite names_add_old by eauto. done.
      * rewrite bool_decide_true by done. f_equal. rewrite length_cons. lia.
    + apply IHerr. intros Hrest. apply Hfit, Hcons. tauto.
  - split; intros Hfit; [exfalso|].
    + apply H1, Hone. tauto.
    + destruct (ingest_effect_err now ev d H1) as [e ->]. eauto.
Qed.
End effects.
