(* ===== verification/BatchEquiv.v ===== *)
(** * BatchEquiv: one batch is the same as one IngestEvent per event

    The contract of [IngestEventsBatch] (seed.go, README "Batch-equals-single"),
    where it holds, what holds with no condition, and the sub-microsecond case
    in which it does not. *)
From S2P Require Import Prelude Database Tables Session Store StoreBatch.
Local Open Scope Z_scope.

Section batch_effect.
Context `{PgTime}.

Definition batch_effect (now : pg_time) (ev : list EventRecord) (d : DB)
    : stmt_result BatchResult :=
  if (length ev =? 0)%nat then SOk zero_result d else
  sbind (batch_insert_events now (encode_event <$> ev) d) (fun counts d1 =>
  match foldCurrentItems ev with
  | None => SErr nil_dereference
  | Some folded =>
      sbind (batch_upsert_current_items (encode_folded <$> folded) d1) (fun _ d2 =>
      SOk {| Inserted := counts.1; BucketsTouched := counts.2 |} d2)
  end).

#[local] Hint Unfold batch_effect : effects.

Lemma IngestEventsBatch_leaves now ev :
  leaves (IngestEventsBatch now ev) (batch_effect now ev).
Proof.
  apply wp_leaves. intros s Hs. unfold IngestEventsBatch, batch_effect.
  destruct (length ev =? 0)%nat; [apply wp_ret; tx_done|].
  destruct (foldCurrentItems_spec ev) as (folded & -> & _).
  wp_run. all: tx_done.
Qed.

Lemma IngestEventsBatch_computes now ev :
  computes (IngestEventsBatch now ev) (batch_effect now ev).
Proof.
  intros d. unfold IngestEventsBatch, batch_effect, sbind. quiet_run.
  destruct (length ev =? 0)%nat; [done|]. simpl.
  destruct (batch_insert_events _ _ d) as [counts d1|e]; simpl; [|eauto].
  destruct (foldCurrentItems ev) as [folded|]; simpl; [|eauto].
  destruct (batch_upsert_current_items _ d1) as [[] d2|e]; simpl; eauto.
Qed.

Lemma encode_folded_ids (folded : list foldedItem) :
  ii_item_id <$> (encode_folded <$> folded) = fi_itemID <$> folded.
Proof. by rewrite <- list_fmap_compose. Qed.

Lemma folded_merge_lookup ev folded m id :
  foldCurrentItems ev = Some folded ->
  merge_items (encode_folded <$> folded) m !! id =
  match item_fold id ev with
  | None => m !! id
  | Some f => Some (merge_item_row (m !! id) (folded_row f))
  end.
Proof.
  intros Hf. destruct (foldCurrentItems_spec ev) as (folded' & Hf' & Hnd & Hin & Hids).
  simplify_eq. rewrite merge_items_lookup.
  destruct (item_fold id ev) as [f|] eqn:E.
  - assert (fi_itemID f = id) as <- by by apply item_fold_id in E.
    change (fi_itemID f) with (ii_item_id (encode_folded f)).
    rewrite filter_id_unique; [done|by rewrite encode_folded_ids|].
    apply list_elem_of_fmap_2, Hin, E.
  - rewrite filter_id_none; [done|]. rewrite encode_folded_ids, Hids, E. by intros [? [=]].
Qed.

(** A non-empty batch, table by table. *)
Lemma batch_effect_spec now ev d :
  let n := er_name <$> item_events d in
  let c := bk_count <$> event_buckets d in
  let rows := encode_event <$> ev in
  (rows_fit n c rows ->
    exists r d', batch_effect now ev d = SOk r d' /\
      Inserted r = Z.of_nat (length (new_rows n rows)) /\
      er_name <$> item_events d' = names_add_all rows n /\
      bk_count <$> event_buckets d' = counts_add_all (new_rows n rows) c /\
      (forall id, current_items d' !! id =
        match item_fold id ev with
        | None => current_items d !! id
        | Some f => Some (merge_item_row (current_items d !! id) (folded_row f))
        end) /\
      seed_marker d' = seed_marker d) /\
  (~ rows_fit n c rows -> exists e, batch_effect now ev d = SErr e).
Proof.
  cbv zeta. unfold batch_effect. destruct ev as [|e0 ev0]; [|set (ev := e0 :: ev0)].
  { split; [|intros []; apply rows_fit_nil]. intros _. exists zero_result, d. done. }
  change (length ev =? 0)%nat with false. cbv iota. unfold batch_insert_events, sbind.
  pose proof (ins_cte_view now (encode_event <$> ev) (item_events d)) as [Hn Hins].
  destruct (ins_cte _ _ _) as [m ins]. simpl in Hn, Hins. subst ins.
  set (rows := encode_event <$> ev) in *. set (n := er_name <$> item_events d) in *.
  destruct (foldCurrentItems_spec ev) as (folded & Hfold & Hnd & _). rewrite Hfold.
  assert (rows_fit n (bk_count <$> event_buckets d) rows <->
    forallb (fun e => valid_event_type (ei_type e)) rows = true /\
    deltas_fit (bucket_deltas (new_rows n rows)) (event_buckets d) = true) as ->.
  { unfold rows_fit. rewrite deltas_fit_spec, forallb_forall, Forall_forall.
    setoid_rewrite bucket_count_view. by setoid_rewrite list_elem_of_In. }
  destruct (forallb _ rows); [|split; [by intros []|eauto]].
  destruct (deltas_fit _ _); [|split; [by intros []|eauto]].
  split; [intros _|by intros []].
  unfold batch_upsert_current_items. rewrite bool_decide_true by by rewrite encode_folded_ids.
  eexists _, _. split; [reflexivity|]. simpl. split_and!; try done.
  - by rewrite bucket_upsert_view.
  - intros id. by apply folded_merge_lookup.
Qed.

(** ** Both paths on the same tables *)
Lemma zip_snd_fmap {A B C} (f : B -> C) (ts : list A) (l : list B) :
  length ts = length l -> (fun p => f p.2) <$> zip ts l = f <$> l.
Proof.
  revert l. induction ts as [|t ts IH]; intros [|x l]; simpl; try done.
  intros [= Hlen]. by rewrite IH.
Qed.

Lemma serial_items_lookup ev m id :
  merge_items (item_of_event <$> ev) m !! id =
  match serial_item id ev with
  | None => m !! id
  | Some r => Some (merge_item_row (m !! id) r)
  end.
Proof. rewrite merge_items_lookup, merge_all_from. done. Qed.

(** Success or failure together, and on success the same raw events and bucket
    counts; [current_items] by the two folds. *)
Lemma batch_serial_tables now times ev d :
  length times = length ev ->
  (exists n r dS dB,
    IngestSerially (zip times ev) 0 (quiet_session d) = ((n, None), quiet_session dS) /\
    IngestEventsBatch now ev (quiet_session d) = ((r, None), quiet_session dB) /\
    Inserted r = n /\
    er_name <$> item_events dB = er_name <$> item_events dS /\
    bk_count <$> event_buckets dB = bk_count <$> event_buckets dS /\
    seed_marker dB = seed_marker dS /\
    (forall id, current_items dS !! id =
      match serial_item id ev with
      | None => current_items d !! id
      | Some r => Some (merge_item_row (current_items d !! id) r)
      end) /\
    (forall id, current_items dB !! id =
      match item_fold id ev with
      | None => current_items d !! id
      | Some f => Some (merge_item_row (current_items d !! id) (folded_row f))
      end)) \/
  (exists n e s r e',
    IngestSerially (zip times ev) 0 (quiet_session d) = ((n, Some e), s) /\
    IngestEventsBatch now ev (quiet_session d) = ((r, Some e'), quiet_session d)).
Proof.
  intros Hlen.
  destruct (serial_effect_spec (zip times ev) 0 d) as [Sok Serr].
  destruct (batch_effect_spec now ev d) as [Bok Berr].
  pose proof (IngestSerially_computes (zip times ev) 0 d) as HS.
  pose proof (IngestEventsBatch_computes now ev d) as HB.
  unfold event_rows in Sok, Serr. rewrite (zip_snd_fmap encode_event) in Sok, Serr by done.
  destruct (decide (rows_fit (er_name <$> item_events d) (bk_count <$> event_buckets d)
    (encode_event <$> ev))) as [Hfit|Hfit].
  - left. destruct (Sok Hfit) as (dS & HSe & HnS & HcS & HiS & HmS).
    destruct (Bok Hfit) as (r & dB & HBe & Hr & HnB & HcB & HiB & HmB).
    rewrite HSe in HS. rewrite HBe in HB. rewrite zip_snd_fmap in HiS by done.
    eexists _, r, dS, dB. split_and!; [exact HS|exact HB|lia|congruence..| |done].
    intros id. rewrite HiS. apply serial_items_lookup.
  - right. destruct (Serr Hfit) as [e HSe]. destruct (Berr Hfit) as [e' HBe].
    rewrite HSe in HS. rewrite HBe in HB.
    destruct HS as (n & e1 & s & ->). destruct HB as (r & e2 & ->). eauto 10.
Qed.
End batch_effect.

(** ** Properties *)
Section batch_properties.
Context `{PgTime}.

(** C1: Batch equals serial. For every database and every list of events whose
    sub-tick order is consistent, calling IngestEventsBatch once and calling
    IngestEvent once per event (in order, each in its own transaction at its
    own time) succeed or fail together; on success the databases are equal up
    to received_at/updated_at and the batch reports the number of events the
    serial calls inserted; on failure the batch leaves the database untouched. *)
Theorem batch_equals_serial now times ev d :
  length times = length ev -> no_tick_inversion ev ->
  let '((n, errS), sS) := IngestSerially (zip times ev) 0 (quiet_session d) in
  let '((r, errB), sB) := IngestEventsBatch now ev (quiet_session d) in
  (errS = None <-> errB = None) /\
  (errB = None -> committed sB ≡ committed sS /\ Inserted r = n) /\
  (errB <> None -> committed sB = d).
Proof.
  intros Hlen Htick. destruct (batch_serial_tables now times ev d Hlen) as
    [(n & r & dS & dB & -> & -> & Hr & Hn & Hc & Hm & HiS & HiB)
    |(n & e & s & r & e' & -> & ->)]; [|naive_solver].
  split_and!; [done| |done]. intros _. split; [|done]. apply db_equiv_intro; try done.
  apply map_eq. intros id. simpl. rewrite HiS, HiB, <- item_fold_serial by done.
  by destruct (item_fold id ev).
Qed.

(** C18: With no condition on the events, batch and serial ingestion still
    succeed together and agree on the raw events, on every bucket count, on
    the number of insertions, and on every item's first_seen and last_seen. *)
Theorem batch_serial_aggregates now times ev d :
  length times = length ev ->
  let '((n, errS), sS) := IngestSerially (zip times ev) 0 (quiet_session d) in
  let '((r, errB), sB) := IngestEventsBatch now ev (quiet_session d) in
  (errS = None <-> errB = None) /\
  (errB = None ->
    Inserted r = n /\
    a_events (db_view (committed sB)) = a_events (db_view (committed sS)) /\
    a_counts (db_view (committed sB)) = a_counts (db_view (committed sS)) /\
    forall id, (fun i => (ir_first_seen i, ir_last_seen i)) <$> current_items (committed sB) !! id =
               (fun i => (ir_first_seen i, ir_last_seen i)) <$> current_items (committed sS) !! id).
Proof.
  intros Hlen. destruct (batch_serial_tables now times ev d Hlen) as
    [(n & r & dS & dB & -> & -> & Hr & Hn & Hc & Hm & HiS & HiB)
    |(n & e & s & r & e' & -> & ->)]; [|naive_solver].
  split; [done|]. intros _. split_and!; try done. intros id. simpl. rewrite HiS, HiB.
  pose proof (item_fold_serial_seen id ev) as Hseen.
  destruct (item_fold id ev) as [f|], (serial_item id ev) as [i|]; simplify_eq/=; [|done].
  destruct (current_items d !! id) as [o|]; simpl; f_equal; congruence.
Qed.
End batch_properties.

(** Where batch and serial ingestion part. Two events of one item less than
    a microsecond apart, the later one first: the fold compares Go times and
    keeps the first event's name, while the SQL upserts compare timestamptz
    values, find them equal and keep the last one. *)
Theorem batch_serial_subtick_divergence :
  let ev := [ {| ev_ItemID := 1; ev_ItemName := "widget-v2"; ev_EventType := "updated";
                 ev_EventTime := 1000900 |};
              {| ev_ItemID := 1; ev_ItemName := "widget"; ev_EventType := "created";
                 ev_EventTime := 1000100 |} ] in
  let '((_, errB), sB) := IngestEventsBatch (H := pg_time_trunc) 0 ev (quiet_session empty_db) in
  let '((_, errS), sS) := IngestSerially (H := pg_time_trunc) (zip [0; 0] ev) 0 (quiet_session empty_db) in
  errB = None /\ errS = None /\
  ir_name <$> current_items (committed sB) !! 1 = Some "widget-v2"%string /\
  ir_name <$> current_items (committed sS) !! 1 = Some "widget"%string.
Proof. vm_compute. auto. Qed.

(** ** Witnesses *)

(** A run with a duplicate, an out-of-order update and a deletion. *)
Definition demo_batch : list EventRecord :=
  [ {| ev_ItemID := 1; ev_ItemName := "lamp"; ev_EventType := "created"; ev_EventTime := 5000000 |};
    {| ev_ItemID := 2; ev_ItemName := "desk"; ev_EventType := "created"; ev_EventTime := 7000000 |};
    {| ev_ItemID := 1; ev_ItemName := "lamp"; ev_EventType := "deleted"; ev_EventTime := 9000000 |};
    {| ev_ItemID := 1; ev_ItemName := "lamp-old"; ev_EventType := "updated"; ev_EventTime := 6000000 |};
    {| ev_ItemID := 2; ev_ItemName := "desk"; ev_EventType := "created"; ev_EventTime := 7000000 |} ].

Lemma batch_equals_serial_witness :
  let '((n, errS), sS) := IngestSerially (zip [1; 2; 3; 4; 5] demo_batch) 0 (quiet_session empty_db) in
  let '((r, errB), sB) := IngestEventsBatch 6 demo_batch (quiet_session empty_db) in
  (errS = None <-> errB = None) /\
  (errB = None -> committed sB ≡ committed sS /\ Inserted r = n) /\
  (errB <> None -> committed sB = empty_db).
Proof.
  apply (batch_equals_serial 6 [1; 2; 3; 4; 5] demo_batch empty_db); [reflexivity|].
  unfold no_tick_inversion, demo_batch. repeat constructor; intros ?; vm_compute; congruence.
Defined.

Lemma batch_serial_aggregates_witness :
  let '((n, errS), sS) := IngestSerially (zip [1; 2; 3; 4; 5] demo_batch) 0 (quiet_session empty_db) in
  let '((r, errB), sB) := IngestEventsBatch 6 demo_batch (quiet_session empty_db) in
  (errS = None <-> errB = None) /\
  (errB = None ->
    Inserted r = n /\
    a_events (db_view (committed sB)) = a_events (db_view (committed sS)) /\
    a_counts (db_view (committed sB)) = a_counts (db_view (committed sS)) /\
    forall id, (fun i => (ir_first_seen i, ir_last_seen i)) <$> current_items (committed sB) !! id =
               (fun i => (ir_first_seen i, ir_last_seen i)) <$> current_items (committed sS) !! id).
Proof. apply (batch_serial_aggregates 6 [1; 2; 3; 4; 5] demo_batch empty_db). reflexivity. Defined.
