(* ===== verification/Invariant.v ===== *)
(** * Invariant: what every reachable database satisfies

    The write operations of the store as the steps of a transition system, each
    step run under an arbitrary oracle of failures, and the invariants of the
    tables they maintain. *)
From S2P Require Import Prelude Database Tables Session Store StoreBatch BatchEquiv.
Local Open Scope Z_scope.
Local Open Scope go_scope.

(** ** Raw events per bucket *)
Definition key_bucket (k : event_key) : bucket_key := (date_trunc_hour k.2, k.1.2).

(** How many raw events the table holds for a bucket. *)
Definition raw_count (n : gmap event_key string) (k : bucket_key) : Z :=
  Z.of_nat (size (filter (fun p : event_key * string => key_bucket p.1 = k) n)).

Lemma event_key_bucket e : key_bucket (event_input_key e) = event_bucket_key e.
Proof. done. Qed.

Lemma raw_count_add e n k :
  raw_count (names_add e n) k =
  raw_count n k + (if decide (n !! event_input_key e = None /\ event_bucket_key e = k) then 1 else 0).
Proof.
  unfold raw_count, names_add. destruct (n !! event_input_key e) as [x|] eqn:E.
  { rewrite decide_False by naive_solver. lia. }
  destruct (decide (event_bucket_key e = k)) as [Hk|Hk].
  - rewrite decide_True by done. rewrite map_filter_insert_True by done.
    rewrite map_size_insert_None; [lia|]. apply map_lookup_filter_None. by left.
  - rewrite decide_False by naive_solver. rewrite map_filter_insert_False by done.
    rewrite delete_id by done. lia.
Qed.

Lemma raw_count_add_all rows n k :
  raw_count (names_add_all rows n) k = raw_count n k + occurrences k (new_rows n rows).
Proof.
  revert n. induction rows as [|e rows IH]; intros n; [simpl; unfold occurrences; simpl; lia|].
  change (names_add_all (e :: rows) n) with (names_add_all rows (names_add e n)).
  rewrite IH, raw_count_add. cbn [new_rows].
  destruct (n !! event_input_key e) as [x|] eqn:E.
  - rewrite decide_False by naive_solver. rewrite names_add_old by eauto. lia.
  - rewrite occurrences_cons. repeat case_decide; naive_solver lia.
Qed.

(** ** The invariant *)
Definition types_ok (n : gmap event_key string) : Prop :=
  forall k, is_Some (n !! k) -> valid_event_type k.1.2 = true.

Definition buckets_ok (c : gmap bucket_key Z) : Prop :=
  forall k v, c !! k = Some v ->
    valid_event_type k.2 = true /\ k.1 mod usec_per_hour = 0 /\ 1 <= v <= int8_max.

(** The buckets count at least the raw events still in the table. *)
Definition buckets_cover (n : gmap event_key string) (c : gmap bucket_key Z) : Prop :=
  forall k, raw_count n k <= default 0 (c !! k).

Definition buckets_exact (n : gmap event_key string) (c : gmap bucket_key Z) : Prop :=
  forall k, raw_count n k = default 0 (c !! k).

Definition items_ok (m : gmap Z ItemRow) : Prop :=
  forall id r, m !! id = Some r -> ir_first_seen r <= ir_last_seen r.

Definition view_ok (v : AbsDB) : Prop :=
  types_ok (a_events v) /\ buckets_ok (a_counts v) /\
  buckets_cover (a_events v) (a_counts v) /\ items_ok (a_items v).

Definition db_ok (d : DB) : Prop := view_ok (db_view d).

#[export] Instance db_ok_proper : Proper ((≡) ==> iff) db_ok.
Proof. intros d1 d2 H. unfold db_ok. by rewrite (H : db_view d1 = db_view d2). Qed.

(** ** Preservation, table by table *)
Lemma date_trunc_hour_aligned t : date_trunc_hour t mod usec_per_hour = 0.
Proof.
  unfold date_trunc_hour. rewrite Zminus_mod_idemp_r. by rewrite Z.sub_diag.
Qed.

Lemma types_ok_add_all rows n :
  types_ok n -> Forall (fun e => valid_event_type (ei_type e) = true) rows ->
  types_ok (names_add_all rows n).
Proof.
  intros Hok Hrows k [?|(e & He & <-)]%names_add_all_dom; [by apply Hok|].
  rewrite Forall_forall in Hrows. by apply Hrows.
Qed.

Lemma buckets_ok_counts ins c :
  Forall (fun e => valid_event_type (ei_type e) = true) ins ->
  (forall k, 0 < occurrences k ins -> default 0 (c !! k) + occurrences k ins <= int8_max) ->
  buckets_ok c -> buckets_ok (counts_add_all ins c).
Proof.
  intros Hty Hfit Hok k v. rewrite counts_add_all_lookup.
  pose proof (occurrences_nonneg k ins). case_decide as Hocc; [apply Hok|].
  intros [= <-]. destruct (proj1 (occurrences_pos k ins)) as (e & He & Hk); [lia|].
  rewrite Forall_forall in Hty. apply Hty in He.
  rewrite <- Hk in *. split_and!; [done|apply date_trunc_hour_aligned| |apply Hfit; lia].
  destruct (c !! event_bucket_key e) eqn:E; simpl; [apply Hok in E|]; lia.
Qed.

Lemma buckets_ok_add_all rows n c :
  buckets_ok c -> rows_fit n c rows -> buckets_ok (counts_add_all (new_rows n rows) c).
Proof.
  intros Hok [Hty Hfit]. apply buckets_ok_counts; [|exact Hfit|done].
  rewrite Forall_forall in *. intros e He%new_rows_subset. by apply Hty.
Qed.

Lemma buckets_cover_add_all rows n c :
  buckets_cover n c -> buckets_cover (names_add_all rows n) (counts_add_all (new_rows n rows) c).
Proof.
  intros Hc k. rewrite raw_count_add_all, counts_add_all_default. specialize (Hc k). lia.
Qed.

Lemma buckets_exact_add_all rows n c :
  buckets_exact n c -> buckets_exact (names_add_all rows n) (counts_add_all (new_rows n rows) c).
Proof.
  intros Hc k. rewrite raw_count_add_all, counts_add_all_default. specialize (Hc k). lia.
Qed.

Lemma merge_item_row_ok o new :
  (forall r, o = Some r -> ir_first_seen r <= ir_last_seen r) ->
  ir_first_seen new <= ir_last_seen new ->
  ir_first_seen (merge_item_row o new) <= ir_last_seen (merge_item_row o new).
Proof. destruct o as [r|]; simpl; [|done]. intros Hr. specialize (Hr r eq_refl). lia. Qed.

Lemma item_fold_seen `{PgTime} id ev f :
  item_fold id ev = Some f -> ir_first_seen (folded_row f) <= ir_last_seen (folded_row f).
Proof.
  revert f. induction ev as [|ev e IH] using list_snoc_ind; intros f; [done|].
  rewrite item_fold_snoc. case_decide; [|apply IH].
  destruct (item_fold id ev) as [w|]; simpl; [|intros [= <-]; simpl; lia].
  specialize (IH w eq_refl). destruct (Z.ltb_spec (ev_EventTime e) (fi_lastSeen w)) as [|Hge];
    intros [= <-]; [done|]. simpl in *. pose proof (pg_ts_mono _ _ Hge). lia.
Qed.

(** ** Snapshot reconcile and retention, table by table *)
Section effects.
Context `{PgTime}.

(** The last name the snapshot gives an item. *)
Definition snapshot_name (items : list SnapshotItem) (id : Z) : option string :=
  si_Name <$> last (filter (fun i => si_ItemID i = id) items).

Lemma snapshot_row_twice now o n1 n2 :
  snapshot_row now (Some (snapshot_row now o n1)) n2 = snapshot_row now o n2.
Proof. destruct o; unfold snapshot_row; simpl; f_equal; lia. Qed.

Lemma reconcile_upserts_spec now items n0 d n' d' :
  reconcile_upserts now items n0 d = SOk n' d' ->
  n' = n0 + Z.of_nat (length items) /\
  item_events d' = item_events d /\ event_buckets d' = event_buckets d /\
  seed_marker d' = seed_marker d /\
  forall id, current_items d' !! id =
    match snapshot_name items id with
    | None => current_items d !! id
    | Some name => Some (snapshot_row now (current_items d !! id) name)
    end.
Proof.
  revert n0 d. induction items as [|i items IH]; intros n0 d; simpl.
  { intros [= <- <-]. by rewrite Z.add_0_r. }
  intros Hrec. apply IH in Hrec as (-> & -> & -> & -> & Hitems). clear IH.
  split_and!; [lia|done..|]. intros id. rewrite Hitems. clear Hitems. simpl.
  unfold snapshot_name. rewrite filter_cons, lookup_insert.
  destruct (decide (si_ItemID i = id)) as [<-|Hne]; [|done].
  destruct (filter _ items) as [|j l] eqn:E; [done|].
  rewrite last_cons_cons. destruct (last (j :: l)) as [k|] eqn:El.
  - simpl. f_equal. exact (snapshot_row_twice now _ (si_Name i) (si_Name k)).
  - by apply last_None in El.
Qed.

Lemma snapshot_name_none items id :
  snapshot_name items id = None <-> id ∉ (si_ItemID <$> items).
Proof.
  unfold snapshot_name. rewrite fmap_None, last_None.
  rewrite list_elem_of_fmap. split.
  - intros Hnil (i & -> & Hi).
    assert (i ∈ filter (fun j => si_ItemID j = si_ItemID i) items) as Hin
      by by apply list_elem_of_filter.
    rewrite Hnil in Hin. by apply not_elem_of_nil in Hin.
  - intros Hno. destruct (filter _ items) as [|i l] eqn:E; [done|]. exfalso. apply Hno.
    assert (i ∈ filter (fun j => si_ItemID j = id) items) as Hi by (rewrite E; by left).
    apply list_elem_of_filter in Hi as [<- Hi]. eauto.
Qed.

Lemma missing_live_spec ids id r :
  missing_live ids id r = true <-> ir_tombstoned_at r = None /\ id ∉ ids.
Proof. unfold missing_live. by rewrite andb_true_iff, !bool_decide_eq_true. Qed.

(** A reconciled database: exactly the snapshot's items are live. *)
Lemma reconcile_effect_spec items t d :
  exists d', reconcile_effect items t d =
    SOk (Z.of_nat (length items),
         Z.of_nat (size (filter (fun p : Z * ItemRow =>
           ir_tombstoned_at p.2 = None /\ p.1 ∉ (si_ItemID <$> items)) (current_items d)))) d' /\
  item_events d' = item_events d /\ event_buckets d' = event_buckets d /\
  seed_marker d' = seed_marker d /\
  forall id, current_items d' !! id =
    match snapshot_name items id with
    | Some name => Some (snapshot_row (pg_ts t) (current_items d !! id) name)
    | None => (fun r => if decide (ir_tombstoned_at r = None)
                        then tombstone_row (pg_ts t) r else r) <$> current_items d !! id
    end.
Proof.
  unfold reconcile_effect, sbind.
  destruct (reconcile_upserts_count (pg_ts t) items 0 d) as [d1 Hd1]. rewrite Hd1.
  apply reconcile_upserts_spec in Hd1 as (_ & He & Hb & Hm & Hi).
  unfold tombstone_missing.
  assert (filter (fun p => missing_live (si_ItemID <$> items) p.1 p.2 = true) (current_items d1) =
    filter (fun p : Z * ItemRow =>
      ir_tombstoned_at p.2 = None /\ p.1 ∉ (si_ItemID <$> items)) (current_items d)) as ->.
  { apply map_eq. intros id. apply option_eq. intros r.
    rewrite !map_lookup_filter_Some, Hi. cbn [fst snd].
    setoid_rewrite missing_live_spec. pose proof (snapshot_name_none items id).
    destruct (snapshot_name items id); naive_solver. }
  eexists. split; [reflexivity|]. split_and!; [done..|].
  intros id. cbn [current_items set_current_items]. rewrite map_lookup_imap, Hi.
  pose proof (snapshot_name_none items id) as Hnone.
  destruct (snapshot_name items id) as [name|]; simpl.
  - destruct (missing_live _ _ _) eqn:E; [|done]. apply missing_live_spec in E. naive_solver.
  - destruct (current_items d !! id) as [r|]; simpl; [|done]. f_equal.
    pose proof (missing_live_spec (si_ItemID <$> items) id r).
    case_decide; destruct (missing_live _ _ _); naive_solver.
Qed.

(** ** The store as a transition system *)
Inductive store_op : Type :=
| OpIngest (now : pg_time) (ev : EventRecord)
| OpBatch (now : pg_time) (evs : list EventRecord)
| OpReconcile (items : list SnapshotItem) (observed : Z)
| OpRetention (cutoff : Z)
| OpSeedMarker (m : SeedMarker).

Definition outcome_of {A} (m : M Session (A * option error)) : M Session (option error) :=
  let! r := m in ret r.2.

Definition run_op (op : store_op) : M Session (option error) :=
  match op with
  | OpIngest now ev => outcome_of (IngestEvent now ev)
  | OpBatch now evs => outcome_of (IngestEventsBatch now evs)
  | OpReconcile items observed => outcome_of (ReconcileSnapshot items observed)
  | OpRetention cutoff => outcome_of (DeleteEventsOlderThan cutoff)
  | OpSeedMarker m => outcome_of (UpsertSeedMarker m)
  end.

(** A step: one operation, from an idle session, under any oracle. *)
Inductive store_step (allowed : store_op -> Prop) : DB -> DB -> Prop :=
| store_step_op op s err s' :
    allowed op -> working s = None -> run_op op s = (err, s') ->
    store_step allowed (committed s) (committed s').

Definition reachable (allowed : store_op -> Prop) (d : DB) : Prop :=
  rtc (store_step allowed) empty_db d.

Definition any_op (_ : store_op) : Prop := True.
Definition no_retention (op : store_op) : Prop :=
  match op with OpRetention _ => False | _ => True end.

Definition res_db {A} (r : stmt_result A) : option DB :=
  match r with SOk _ d => Some d | SErr _ => None end.

Definition op_after (op : store_op) (d : DB) : option DB :=
  match op with
  | OpIngest now ev => res_db (ingest_effect now ev d)
  | OpBatch now evs => res_db (batch_effect now evs d)
  | OpReconcile items observed => res_db (reconcile_effect items observed d)
  | OpRetention cutoff => res_db (delete_events_before (pg_ts cutoff) d)
  | OpSeedMarker m => res_db (upsert_seed_marker (encode_marker m) d)
  end.

Lemma outcome_of_leaves {A} (m : M Session (A * option error)) eff s err s' :
  leaves m eff -> working s = None -> outcome_of m s = (err, s') ->
  committed s' = committed s \/ res_db (eff (committed s)) = Some (committed s').
Proof.
  intros Hm Hs. specialize (Hm s Hs). unfold outcome_of, bind, ret.
  destruct (m s) as [[a e] s1]. destruct Hm as (_ & [Hc|[a' Hc]] & _); intros [= <- <-]; [auto|].
  rewrite Hc. auto.
Qed.

Lemma run_op_leaves op s err s' :
  working s = None -> run_op op s = (err, s') ->
  committed s' = committed s \/ op_after op (committed s) = Some (committed s').
Proof.
  intros Hs. destruct op; cbn [run_op op_after]; intros Hrun;
    eapply outcome_of_leaves; eauto using IngestEvent_leaves, IngestEventsBatch_leaves,
      ReconcileSnapshot_leaves, DeleteEventsOlderThan_leaves, UpsertSeedMarker_leaves.
Qed.

Lemma computes_outcome {A} (m : M Session (A * option error)) eff d d' :
  computes m eff -> res_db (eff d) = Some d' ->
  outcome_of m (quiet_session d) = (None, quiet_session d').
Proof.
  intros Hc Hd. specialize (Hc d). destruct (eff d) as [a d1|e]; [|done]. injection Hd as ->.
  unfold outcome_of, bind. by rewrite Hc.
Qed.

(** On a fault-free session every effect is a step. *)
Lemma op_after_step (allowed : store_op -> Prop) op d d' :
  allowed op -> op_after op d = Some d' -> store_step allowed d d'.
Proof.
  intros Ha Hd. apply (store_step_op allowed op (quiet_session d) None (quiet_session d')); [done|done|].
  destruct op; cbn [run_op op_after] in *;
    [eapply computes_outcome; [|exact Hd]; auto using IngestEvent_computes, IngestEventsBatch_computes,
       ReconcileSnapshot_computes..| |].
  - unfold outcome_of, DeleteEventsOlderThan, bind, pool_Exec. revert Hd.
    generalize (delete_events_before (pg_ts cutoff)). intros f. simpl.
    destruct (f d); simpl; [by intros [= ->]|done].
  - unfold outcome_of, UpsertSeedMarker, bind, pool_Exec. revert Hd.
    generalize (upsert_seed_marker (encode_marker m)). intros f. simpl.
    destruct (f d); simpl; [by intros [= ->]|done].
Qed.

(** An invariant of the effects is an invariant of the reachable databases. *)
Lemma reachable_invariant (allowed : store_op -> Prop) (I : DB -> Prop) :
  I empty_db ->
  (forall op d d', allowed op -> I d -> op_after op d = Some d' -> I d') ->
  forall d, reachable allowed d -> I d.
Proof.
  intros H0 Hstep d. unfold reachable. generalize empty_db, H0. intros d0 Hd0 Hr.
  induction Hr as [|d1 d2 d3 Hs _ IH]; [done|]. apply IH.
  destruct Hs as [op s err s' Hop Hs Hrun].
  destruct (run_op_leaves _ _ _ _ Hs Hrun) as [->|Hafter]; [done|]. by eapply Hstep.
Qed.

(** ** Preservation by each operation *)
Lemma ingest_after now ev d d' :
  res_db (ingest_effect now ev d) = Some d' ->
  let n := er_name <$> item_events d in
  let c := bk_count <$> event_buckets d in
  rows_fit n c [encode_event ev] /\
  er_name <$> item_events d' = names_add_all [encode_event ev] n /\
  bk_count <$> event_buckets d' = counts_add_all (new_rows n [encode_event ev]) c /\
  current_items d' = merge_items [item_of_event ev] (current_items d).
Proof.
  intros Heff n c. destruct (decide (rows_fit n c [encode_event ev])) as [Hfit|Hfit].
  - destruct (ingest_effect_ok now ev d Hfit) as (d1 & He & ? & ? & ? & ?).
    rewrite He in Heff. simplify_eq/=. auto.
  - destruct (ingest_effect_err now ev d Hfit) as [e He]. by rewrite He in Heff.
Qed.

Lemma batch_after now ev d d' :
  res_db (batch_effect now ev d) = Some d' ->
  let n := er_name <$> item_events d in
  let c := bk_count <$> event_buckets d in
  let rows := encode_event <$> ev in
  rows_fit n c rows /\
  er_name <$> item_events d' = names_add_all rows n /\
  bk_count <$> event_buckets d' = counts_add_all (new_rows n rows) c /\
  (forall id, current_items d' !! id =
    match item_fold id ev with
    | None => current_items d !! id
    | Some f => Some (merge_item_row (current_items d !! id) (folded_row f))
    end).
Proof.
  intros Heff n c rows. destruct (batch_effect_spec now ev d) as [Hok Herr].
  fold n c rows in Hok, Herr. destruct (decide (rows_fit n c rows)) as [Hfit|Hfit].
  - destruct (Hok Hfit) as (r & d1 & He & ? & ? & ? & ? & ?).
    rewrite He in Heff. simplify_eq/=. auto.
  - destruct (Herr Hfit) as [e He]. by rewrite He in Heff.
Qed.

Lemma reconcile_after items t d d' :
  res_db (reconcile_effect items t d) = Some d' ->
  item_events d' = item_events d /\ event_buckets d' = event_buckets d /\
  (items_ok (current_items d) -> items_ok (current_items d')).
Proof.
  destruct (reconcile_effect_spec items t d) as (d1 & -> & He & Hb & _ & Hi).
  intros [= <-]. split_and!; [done..|]. intros Hok id r. rewrite Hi.
  destruct (snapshot_name items id) as [name|].
  - intros [= <-]. destruct (current_items d !! id) as [o|] eqn:E; simpl; [|lia].
    apply Hok in E. lia.
  - destruct (current_items d !! id) as [o|] eqn:E; simpl; [|done]. intros [= <-].
    apply Hok in E. by case_decide.
Qed.

Lemma delete_after cutoff d d' :
  res_db (delete_events_before cutoff d) = Some d' ->
  er_name <$> item_events d' =
    filter (fun p : event_key * string => ~ (p.1.2 < cutoff)) (er_name <$> item_events d) /\
  event_buckets d' = event_buckets d /\ current_items d' = current_items d.
Proof.
  unfold delete_events_before. intros [= <-]. simpl. split_and!; [|done..].
  by rewrite map_filter_fmap.
Qed.
End effects.
