(* ===== verification/StoreProps.v ===== *)
(** * StoreProps: the contract of internal/store

    Functional behaviour on every branch, atomicity under failures, the
    invariants of reachable databases, idempotent replay and its limit after
    retention, and the reconcile sequence. *)
From S2P Require Import Prelude Database Tables Session Store StoreBatch BatchEquiv Invariant.
Local Open Scope Z_scope.
Local Open Scope go_scope.

Section lemmas.
Context `{PgTime}.

Lemma db_ok_empty : db_ok empty_db.
Proof.
  split_and!.
  - intros k [x Hx]. simpl in Hx. by rewrite lookup_fmap, lookup_empty in Hx.
  - intros k v Hx. simpl in Hx. by rewrite lookup_fmap, lookup_empty in Hx.
  - intros k. simpl. rewrite !fmap_empty. unfold raw_count. by rewrite map_filter_empty.
  - intros id r Hx. simpl in Hx. by rewrite lookup_empty in Hx.
Qed.

Lemma rows_preserve_ok rows d d' :
  let n := er_name <$> item_events d in
  let c := bk_count <$> event_buckets d in
  rows_fit n c rows ->
  er_name <$> item_events d' = names_add_all rows n ->
  bk_count <$> event_buckets d' = counts_add_all (new_rows n rows) c ->
  items_ok (current_items d') -> db_ok d -> db_ok d'.
Proof.
  intros n c Hfit Hn Hc Hi (Ht & Hb & Hcov & _). unfold db_ok, view_ok. simpl.
  rewrite Hn, Hc. split_and!; [|by apply buckets_ok_add_all|by apply buckets_cover_add_all|done].
  destruct Hfit. by apply types_ok_add_all.
Qed.

Lemma ingest_items_ok ev m : items_ok m -> items_ok (merge_items [item_of_event ev] m).
Proof.
  intros Hok id r. rewrite merge_items_lookup, filter_cons, filter_nil.
  case_decide; simpl; [|apply Hok]. intros [= <-].
  apply merge_item_row_ok; [intros r Hr; by eapply Hok|simpl; lia].
Qed.

Lemma raw_count_filter n cutoff k :
  raw_count (filter (fun p : event_key * string => ~ (p.1.2 < cutoff)) n) k <= raw_count n k.
Proof.
  unfold raw_count. apply Nat2Z.inj_le, map_subseteq_size.
  rewrite map_filter_comm. apply map_filter_subseteq.
Qed.

(** Every operation keeps [db_ok]. *)
Lemma op_after_ok op d d' : db_ok d -> op_after op d = Some d' -> db_ok d'.
Proof.
  intros Hok. pose proof Hok as (Ht & Hb & Hcov & Hi).
  destruct op as [now ev|now evs|items t|cutoff|m]; cbn [op_after]; intros Haft.
  - apply ingest_after in Haft as (Hfit & Hn & Hc & Hitems).
    eapply rows_preserve_ok; eauto. rewrite Hitems. by apply ingest_items_ok.
  - apply batch_after in Haft as (Hfit & Hn & Hc & Hitems).
    eapply rows_preserve_ok; eauto. intros id r. rewrite Hitems.
    destruct (item_fold id evs) as [f|] eqn:E; [|apply Hi]. intros [= <-].
    apply merge_item_row_ok; [intros r Hr; by eapply Hi|by eapply item_fold_seen].
  - apply reconcile_after in Haft as (He & Hbk & Hitems).
    unfold db_ok, view_ok in *. simpl in *. rewrite He, Hbk. by auto.
  - apply delete_after in Haft as (He & Hbk & Hitems).
    unfold db_ok, view_ok in *. simpl in *. rewrite He, Hbk, Hitems. split_and!; try done.
    + intros k [x Hx]. apply map_lookup_filter_Some in Hx as [Hx _]. eauto.
    + intros k. etrans; [apply raw_count_filter|apply Hcov].
  - unfold upsert_seed_marker in Haft. destruct (_ && _); simplify_eq/=. done.
Qed.

Lemma op_after_exact op d d' :
  no_retention op -> buckets_exact (er_name <$> item_events d) (bk_count <$> event_buckets d) ->
  op_after op d = Some d' ->
  buckets_exact (er_name <$> item_events d') (bk_count <$> event_buckets d').
Proof.
  intros Hop Hex.
  destruct op as [now ev|now evs|items t|cutoff|m]; cbn [op_after]; intros Haft.
  - apply ingest_after in Haft as (_ & -> & -> & _). by apply buckets_exact_add_all.
  - apply batch_after in Haft as (_ & -> & -> & _). by apply buckets_exact_add_all.
  - apply reconcile_after in Haft as (-> & -> & _). done.
  - done.
  - unfold upsert_seed_marker in Haft. destruct (_ && _); simplify_eq/=. done.
Qed.

(** What the retention statement leaves, and its row count. *)
Lemma delete_lookup cutoff d id ty t :
  filter (fun p : event_key * EventRow => ~ (p.1.2 < cutoff)) (item_events d) !! (id, ty, t) =
  if decide (t < cutoff) then None else item_events d !! (id, ty, t).
Proof.
  case_decide as Ht.
  - apply map_lookup_filter_None. right. intros r _. simpl. lia.
  - destruct (item_events d !! (id, ty, t)) as [r|] eqn:E.
    + by apply map_lookup_filter_Some.
    + apply map_lookup_filter_None. by left.
Qed.

Lemma delete_size cutoff d :
  Z.of_nat (size (filter (fun p : event_key * EventRow => p.1.2 < cutoff) (item_events d))) =
  Z.of_nat (size (item_events d)) -
  Z.of_nat (size (filter (fun p : event_key * EventRow => ~ (p.1.2 < cutoff)) (item_events d))).
Proof.
  pose proof (map_filter_union_complement
    (fun p : event_key * EventRow => p.1.2 < cutoff) (item_events d)) as Hu.
  apply (f_equal size) in Hu. rewrite map_size_disj_union in Hu
    by apply map_disjoint_filter_complement. lia.
Qed.

Lemma exact_empty :
  buckets_exact (er_name <$> item_events empty_db) (bk_count <$> event_buckets empty_db).
Proof. intros k. simpl. rewrite !fmap_empty. unfold raw_count. by rewrite map_filter_empty. Qed.

Lemma exact_counts d :
  buckets_exact (er_name <$> item_events d) (bk_count <$> event_buckets d) ->
  forall k, raw_count (er_name <$> item_events d) k = bucket_count (event_buckets d) k.
Proof. intros Hex k. rewrite bucket_count_view. apply Hex. Qed.

Lemma no_retention_exact d :
  reachable no_retention d ->
  forall k, raw_count (er_name <$> item_events d) k = bucket_count (event_buckets d) k.
Proof.
  intros Hr. apply exact_counts. revert d Hr. apply reachable_invariant; [apply exact_empty|].
  intros op d1 d2 Hop Hex. by apply op_after_exact.
Qed.

Lemma run_ingest now ev d :
  let n := er_name <$> item_events d in
  let c := bk_count <$> event_buckets d in
  rows_fit n c [encode_event ev] ->
  exists d', IngestEvent now ev (quiet_session d) =
      ((bool_decide (item_events d !! event_input_key (encode_event ev) = None), None),
       quiet_session d') /\
    ingest_effect now ev d =
      SOk (bool_decide (item_events d !! event_input_key (encode_event ev) = None)) d'.
Proof.
  intros n c Hfit. destruct (ingest_effect_ok now ev d Hfit) as (d' & He & _).
  pose proof (IngestEvent_computes now ev d) as Hrun.
  rewrite (bool_decide_ext _ _ (iff_sym (events_none_view (item_events d) _))) in He.
  rewrite He in Hrun. eauto.
Qed.

Lemma IngestEvent_quiet_inv now ev d b s :
  IngestEvent now ev (quiet_session d) = ((b, None), s) ->
  exists d', s = quiet_session d' /\ ingest_effect now ev d = SOk b d'.
Proof.
  intros Hrun. pose proof (IngestEvent_computes now ev d) as Hc.
  destruct (ingest_effect now ev d) as [b' d'|e].
  - rewrite Hc in Hrun. simplify_eq. eauto.
  - destruct Hc as (? & ? & Hc). by rewrite Hc in Hrun.
Qed.

Lemma IngestEventsBatch_quiet_inv now ev d r s :
  IngestEventsBatch now ev (quiet_session d) = ((r, None), s) ->
  exists d', s = quiet_session d' /\ batch_effect now ev d = SOk r d'.
Proof.
  intros Hrun. pose proof (IngestEventsBatch_computes now ev d) as Hc.
  destruct (batch_effect now ev d) as [r' d'|e].
  - rewrite Hc in Hrun. simplify_eq. eauto.
  - destruct Hc as (? & ? & Hc). by rewrite Hc in Hrun.
Qed.

(** Rows whose keys are all stored already: nothing to insert, nothing to count. *)
Lemma batch_known_rows now ev d r d' :
  batch_effect now ev d = SOk r d' ->
  (forall e, e ∈ ev -> is_Some (item_events d !! event_input_key (encode_event e))) ->
  r = zero_result /\ item_events d' = item_events d /\ event_buckets d' = event_buckets d.
Proof.
  unfold batch_effect, batch_insert_events, sbind. destruct (length ev =? 0)%nat; [naive_solver|].
  intros Heff Hknown. destruct (forallb _ _); [|done].
  assert (ins_cte now (encode_event <$> ev) (item_events d) = (item_events d, [])) as Hins.
  { clear Heff. unfold ins_cte. induction ev as [|e ev IH]; [done|]. simpl.
    destruct (Hknown e) as [x ->]; [by left|]. apply IH. intros e' He'. apply Hknown. by right. }
  rewrite Hins in Heff. destruct (deltas_fit _ _); [|done].
  destruct (foldCurrentItems ev); [|done]. unfold batch_upsert_current_items in Heff.
  destruct (bool_decide _); simplify_eq/=. split_and!; [done..|].
  unfold bucket_upsert, bucket_deltas; simpl. rewrite fmap_empty. apply map_eq. intros k.
  rewrite lookup_union_with, lookup_empty. by destruct (event_buckets d !! k).
Qed.

Lemma batch_rows_known now ev d r d' e :
  batch_effect now ev d = SOk r d' -> e ∈ ev ->
  is_Some (item_events d' !! event_input_key (encode_event e)).
Proof.
  intros Heff He. destruct (batch_after now ev d d') as (_ & Hn & _ & _); [by rewrite Heff|].
  apply not_eq_None_Some. rewrite events_none_view, Hn.
  apply not_eq_None_Some, names_add_all_dom. right. exists (encode_event e). split; [|done].
  by apply list_elem_of_fmap_2.
Qed.

(** The tables right after a successful ingest, as insertions. *)
Lemma ingest_effect_cases now ev d b d' :
  ingest_effect now ev d = SOk b d' ->
  let key := event_input_key (encode_event ev) in
  let k := event_bucket_key (encode_event ev) in
  valid_event_type (ev_EventType ev) = true /\
  current_items d' = <[ev_ItemID ev := merge_item_row (current_items d !! ev_ItemID ev)
                                         (item_row_of ev)]> (current_items d) /\
  seed_marker d' = seed_marker d /\
  ((b = false /\ is_Some (item_events d !! key) /\
    item_events d' = item_events d /\ event_buckets d' = event_buckets d) \/
   (b = true /\ item_events d !! key = None /\
    bucket_count (event_buckets d) k + 1 <= int8_max /\
    item_events d' = <[key := {| er_name := ev_ItemName ev; er_received_at := now |}]>
                       (item_events d) /\
    event_buckets d' = <[k := {| bk_count := bucket_count (event_buckets d) k + 1;
                                 bk_updated_at := now |}]> (event_buckets d))).
Proof.
  unfold ingest_effect, insert_item_event, upsert_bucket, sbind. intros Heff. cbv zeta.
  change (ei_type (encode_event ev)) with (ev_EventType ev) in Heff.
  destruct (valid_event_type (ev_EventType ev)); [|done].
  unfold insert_or_nothing in Heff.
  destruct (item_events d !! event_input_key (encode_event ev)) as [x|] eqn:E; simpl in Heff.
  - simplify_eq/=. split_and!; [done..|]. left. eauto.
  - destruct (_ <=? _) eqn:Hle; [|done]. simplify_eq/=. bool_solve.
    split_and!; [done..|]. right. eauto.
Qed.
End lemmas.

(** ** Reads *)

(** The counts of a window's buckets of one type, added up. *)
Definition window_sum (now : pg_time) (m : gmap bucket_key BucketRow) (ty : string) : Z :=
  map_fold (fun k b acc =>
    (if bool_decide (in_stats_window now k /\ k.2 = ty) then bk_count b else 0) + acc) 0 m.

Definition window_has (now : pg_time) (m : gmap bucket_key BucketRow) (ty : string) : Prop :=
  exists start b, m !! (start, ty) = Some b /\ in_stats_window now (start, ty).

Lemma window_has_exists now m ty :
  window_has now m ty <->
  Exists (fun p : bucket_key * BucketRow => p.1.2 = ty /\ in_stats_window now p.1) (map_to_list m).
Proof.
  rewrite Exists_exists. unfold window_has. split.
  - intros (start & b & Hl & Hw). exists ((start, ty), b). by rewrite elem_of_map_to_list.
  - intros ([[start ty'] b] & Hin%elem_of_map_to_list & <- & Hw). eauto.
Qed.

#[export] Instance window_has_dec now m ty : Decision (window_has now m ty).
Proof.
  refine (cast_if (decide (Exists (fun p : bucket_key * BucketRow =>
    p.1.2 = ty /\ in_stats_window now p.1) (map_to_list m)))); by rewrite window_has_exists.
Defined.

Lemma window_sum_insert now m k b ty :
  m !! k = None ->
  window_sum now (<[k := b]> m) ty =
  (if bool_decide (in_stats_window now k /\ k.2 = ty) then bk_count b else 0) + window_sum now m ty.
Proof.
  intros Hk. unfold window_sum. rewrite map_fold_insert_L; [done| |done].
  intros. lia.
Qed.

Lemma stats_groups_insert now m k b :
  m !! k = None ->
  stats_groups now (<[k := b]> m) =
  if decide (in_stats_window now k)
  then <[k.2 := default 0 (stats_groups now m !! k.2) + bk_count b]> (stats_groups now m)
  else stats_groups now m.
Proof.
  intros Hk. unfold stats_groups. rewrite map_fold_insert_L; [done| |done].
  intros j1 j2 z1 z2 y _ _ _. destruct (decide (in_stats_window now j1)), (decide (in_stats_window now j2)); try done.
  destruct (decide (j1.2 = j2.2)) as [Heq|Hne].
  - rewrite Heq, !lookup_insert_eq, !insert_insert_eq; simpl. f_equal. lia.
  - rewrite !lookup_insert_ne by done. by rewrite insert_insert_ne.
Qed.

(** The grouping is the sum over the window, for the types that occur in it. *)
Lemma stats_groups_lookup now m ty :
  (window_has now m ty -> stats_groups now m !! ty = Some (window_sum now m ty)) /\
  (~ window_has now m ty -> stats_groups now m !! ty = None /\ window_sum now m ty = 0).
Proof.
  induction m as [|[start ty'] b m Hk IH] using map_ind.
  { split; [by intros (? & ? & ? & _)|done]. }
  rewrite stats_groups_insert, window_sum_insert by done. cbn [fst snd].
  assert (window_has now (<[(start, ty') := b]> m) ty <->
    (in_stats_window now (start, ty') /\ ty' = ty) \/ window_has now m ty) as Hhas.
  { unfold window_has. setoid_rewrite lookup_insert_Some. split.
    - intros (s0 & b0 & [[[= <- <-] _]|[Hne Hl]] & Hw); eauto 6.
    - intros [[Hw <-]|(s0 & b0 & Hl & Hw)]; [eauto 6|]. exists s0, b0. split; [|done].
      right. split; [|done]. congruence. }
  rewrite Hhas. destruct IH as [IH1 IH2]. destruct (decide (in_stats_window now (start, ty'))) as [Hw|Hw].
  - destruct (decide (ty' = ty)) as [->|Hne].
    + rewrite bool_decide_true, lookup_insert_eq by done. split; [intros _|naive_solver].
      f_equal. destruct (decide (window_has now m ty)) as [Hd|Hd]; [rewrite IH1 by done|destruct (IH2 Hd) as [-> ->]]; simpl; lia.
    + rewrite bool_decide_false, lookup_insert_ne by naive_solver. naive_solver.
  - rewrite bool_decide_false by naive_solver. naive_solver.
Qed.

(** The row loop on a fault-free session: it lists every row if every sum fits
    an int64, and fails otherwise. *)
Definition stat_of (r : string * Z) : BucketStat := {| bs_EventType := r.1; bs_Count := r.2 |}.

Lemma stat_of_types rows : bs_EventType <$> (stat_of <$> rows) = rows.*1.
Proof. by rewrite <- list_fmap_compose. Qed.

Lemma pool_Query_quiet {A} (q : DB -> A) d :
  pool_Query q (quiet_session d) = (inr (q d), quiet_session d).
Proof. done. Qed.

Lemma scan_stats_quiet rows stats d :
  range_loop rows stats scan_stat (fun stats =>
    try _ := rows_step catch err => ret ([], Some (ErrWrap "iterate stats" err)) in
    ret (stats, None)) (quiet_session d) =
  (if decide (Forall (fun r : string * Z => r.2 <= int8_max) rows)
   then (stats ++ (stat_of <$> rows), None)
   else ([], Some (ErrWrap "scan stats row" (ErrNew "is greater than maximum value for int64"))),
   quiet_session d).
Proof.
  revert stats. induction rows as [|[ty n] rows IH]; intros stats.
  { rewrite decide_True by constructor. cbn. by rewrite app_nil_r. }
  cbn [range_loop]. unfold bind at 1, scan_stat at 1, bind at 1. cbn [fst snd rows_step next_outcome quiet_session oracle].
  unfold scan_int64. destruct (n <=? int8_max) eqn:E; bool_solve; cbv beta iota delta [ret].
  - change (consume _) with (quiet_session d). rewrite IH. f_equal.
    destruct (decide (Forall _ rows)); [rewrite decide_True by by constructor|
      rewrite decide_False by by inversion 1]; [|done].
    by rewrite <- app_assoc.
  - rewrite decide_False; [done|]. inversion 1; simplify_eq/=; lia.
Qed.

Lemma select_stats_in now d ty n :
  (ty, n) ∈ select_stats_24h now d <->
  window_has now (event_buckets d) ty /\ n = window_sum now (event_buckets d) ty.
Proof.
  unfold select_stats_24h. rewrite merge_sort_Permutation, elem_of_map_to_list.
  destruct (stats_groups_lookup now (event_buckets d) ty) as [Hin Hout].
  destruct (decide (window_has now (event_buckets d) ty)) as [Hw|Hw].
  - rewrite (Hin Hw). naive_solver.
  - destruct (Hout Hw) as [-> _]. naive_solver.
Qed.

Lemma select_stats_sorted now d : StronglySorted String.le (select_stats_24h now d).*1.
Proof.
  unfold select_stats_24h.
  assert (StronglySorted (fun a b : string * Z => String.le a.1 b.1)
    (merge_sort (fun a b => String.le a.1 b.1) (map_to_list (stats_groups now (event_buckets d))))) as Hs.
  { apply StronglySorted_merge_sort.
    - intros a b c. apply transitivity.
    - intros a b. apply (total String.le). }
  induction Hs as [|r rows Hs IH Hall]; [constructor|]. rewrite fmap_cons. constructor; [done|].
  by apply Forall_fmap.
Qed.

Lemma select_stats_NoDup now d : NoDup (select_stats_24h now d).*1.
Proof.
  unfold select_stats_24h. rewrite merge_sort_Permutation. apply NoDup_fst_map_to_list.
Qed.

(** No operation removes a row of current_items. *)
Lemma op_after_known `{PgTime} op d d' id :
  op_after op d = Some d' -> is_Some (current_items d !! id) -> is_Some (current_items d' !! id).
Proof.
  assert (forall (o : option ItemRow) (f : ItemRow -> ItemRow),
    is_Some o -> is_Some (f <$> o)) as Hfmap by (intros ? f [x ->]; simpl; eauto).
  destruct op as [now ev|now evs|items t|cutoff|m]; cbn [op_after]; intros Haft Hid.
  - apply ingest_after in Haft as (_ & _ & _ & ->). rewrite merge_items_lookup, merge_all_from.
    destruct (merge_all _ None); eauto.
  - apply batch_after in Haft as (_ & _ & _ & ->). destruct (item_fold id evs); eauto.
  - destruct (reconcile_effect_spec items t d) as (d1 & Heff & _ & _ & _ & Hi).
    rewrite Heff in Haft. injection Haft as <-. rewrite Hi.
    destruct (snapshot_name items id); eauto.
  - apply delete_after in Haft as (_ & _ & ->). done.
  - unfold upsert_seed_marker in Haft. by destruct (_ && _); simplify_eq/=.
Qed.

Lemma known_steps `{PgTime} d d' id :
  rtc (store_step any_op) d d' -> is_Some (current_items d !! id) -> is_Some (current_items d' !! id).
Proof.
  induction 1 as [|d1 d2 d3 Hs _ IH]; [done|]. intros Hid. apply IH.
  destruct Hs as [op s err s' _ Hs Hrun].
  destruct (run_op_leaves _ _ _ _ Hs Hrun) as [->|Hafter]; [done|]. by eapply op_after_known.
Qed.

(** ** Properties *)
Section properties.
Context `{PgTime}.

(** C4: Invariant of every reachable database. Whatever operations the store
    runs, in any order and under any failures (a refused call, a lost reply,
    an ambiguous commit): raw events and buckets only hold the three event
    types, bucket keys are whole hours with counts between 1 and the bigint
    maximum, every bucket counts at least the raw events still stored for it,
    and no item's first_seen is after its last_seen. *)
Theorem reachable_db_ok d : reachable any_op d -> db_ok d.
Proof.
  apply reachable_invariant; [apply db_ok_empty|]. intros op d1 d2 _. apply op_after_ok.
Qed.

(** C5: Exactly-once counting. As long as retention has not run, every bucket
    counts exactly the distinct raw events of its hour and type, under any
    failures, replays and batch slicings. *)
Theorem reachable_buckets_exact d :
  reachable no_retention d ->
  forall k, raw_count (er_name <$> item_events d) k = bucket_count (event_buckets d) k.
Proof. intros Hr. by apply no_retention_exact. Qed.

(** C6: Atomic writes. Under any oracle of failures, each write operation of
    the store ends outside a transaction with the committed tables either
    untouched or changed by exactly the whole operation, and it reports
    success only in the second case. *)
Theorem store_writes_atomic :
  (forall now ev, leaves (IngestEvent now ev) (ingest_effect now ev)) /\
  (forall now evs, leaves (IngestEventsBatch now evs) (batch_effect now evs)) /\
  (forall items t, leaves (ReconcileSnapshot items t) (reconcile_effect items t)) /\
  (forall cutoff, leaves (DeleteEventsOlderThan cutoff) (delete_events_before (pg_ts cutoff))) /\
  (forall m, leaves (UpsertSeedMarker m) (upsert_seed_marker (encode_marker m))).
Proof.
  eauto 10 using IngestEvent_leaves, IngestEventsBatch_leaves, ReconcileSnapshot_leaves,
    DeleteEventsOlderThan_leaves, UpsertSeedMarker_leaves.
Qed.

(** C17: IngestEvent, every branch. On a fault-free session: an event type
    outside the CHECK fails and changes nothing; a known (item, type, time) key
    is not inserted again and leaves the raw events and buckets alone; a new one
    is inserted under its own event time, adds one to the bucket of its event
    hour and type (failing, with nothing changed, if that bigint is full); and
    on success the item's row is merged last-event-wins either way. *)
Theorem IngestEvent_branches now ev d :
  let key := event_input_key (encode_event ev) in
  let k := event_bucket_key (encode_event ev) in
  let '((inserted, err), s) := IngestEvent now ev (quiet_session d) in
  let d' := committed s in
  (valid_event_type (ev_EventType ev) = false -> err <> None /\ d' = d) /\
  (valid_event_type (ev_EventType ev) = true ->
    (err = None -> current_items d' =
      <[ev_ItemID ev := merge_item_row (current_items d !! ev_ItemID ev) (item_row_of ev)]>
        (current_items d)) /\
    match item_events d !! key with
    | Some _ => err = None /\ inserted = false /\
        item_events d' = item_events d /\ event_buckets d' = event_buckets d
    | None =>
        if bucket_count (event_buckets d) k + 1 <=? int8_max then
          err = None /\ inserted = true /\
          item_events d' = <[key := {| er_name := ev_ItemName ev; er_received_at := now |}]>
                             (item_events d) /\
          event_buckets d' = <[k := {| bk_count := bucket_count (event_buckets d) k + 1;
                                       bk_updated_at := now |}]> (event_buckets d)
        else err <> None /\ d' = d
    end).
Proof.
  cbv zeta. pose proof (IngestEvent_computes now ev d) as Hrun.
  destruct (ingest_effect now ev d) as [b d'|e] eqn:E.
  - rewrite Hrun. apply ingest_effect_cases in E as (Hv & Hi & _ & Hcase). simpl.
    split; [by rewrite Hv|]. intros _. split; [done|].
    destruct Hcase as [(-> & [x ->] & -> & ->)|(-> & -> & Hle & -> & ->)]; [done|].
    by rewrite (proj2 (Z.leb_le _ _) Hle).
  - destruct Hrun as (b & e' & ->). simpl. split; [done|]. intros Hv.
    split; [done|]. unfold ingest_effect, insert_item_event, upsert_bucket, sbind in E.
    change (ei_type (encode_event ev)) with (ev_EventType ev) in E. rewrite Hv in E.
    destruct (item_events d !! _); simpl in E; [done|].
    by destruct (_ <=? _).
Qed.

(** Replay is a no-op. Delivering an already ingested event again, at any
    later time, reports inserted = false and leaves the database exactly as it
    was. *)
Theorem IngestEvent_replay now1 now2 ev d b s1 :
  IngestEvent now1 ev (quiet_session d) = ((b, None), s1) ->
  IngestEvent now2 ev s1 = ((false, None), s1).
Proof.
  intros (d1 & -> & Heff)%IngestEvent_quiet_inv.
  apply ingest_effect_cases in Heff as (Hv & Hi & Hm & Hcase).
  assert (exists x, item_events d1 !! event_input_key (encode_event ev) = Some x) as [x Hx].
  { destruct Hcase as [(_ & Hx & -> & _)|(_ & _ & _ & -> & _)]; [done|].
    rewrite lookup_insert_eq. eauto. }
  pose proof (IngestEvent_computes now2 ev d1) as Hrun.
  unfold ingest_effect, insert_item_event, insert_or_nothing, sbind in Hrun.
  change (ei_type (encode_event ev)) with (ev_EventType ev) in Hrun. rewrite Hv, Hx in Hrun.
  simpl in Hrun. rewrite Hrun. do 2 f_equal. unfold set_current_items, set_item_events; simpl.
  rewrite Hi, lookup_insert_eq, insert_insert_eq. fold (item_row_of ev).
  assert (merge_item_row (Some (merge_item_row (current_items d !! ev_ItemID ev) (item_row_of ev)))
    (item_row_of ev) = merge_item_row (current_items d !! ev_ItemID ev) (item_row_of ev)) as ->.
  { destruct (current_items d !! ev_ItemID ev) as [o|]; simpl.
    - by rewrite last_event_wins_assoc, last_event_wins_idemp.
    - apply last_event_wins_idemp. }
  rewrite <- Hi. by destruct d1.
Qed.

(** Re-ingesting what a batch has written, in any slices and in any order,
    counts nothing twice: if every event of a second batch was in the first,
    the second inserts no row, touches no bucket, and leaves the raw events and
    the buckets as they are. *)
Theorem batch_replay_dedup now1 now2 ev1 ev2 d r1 s1 r2 s2 :
  IngestEventsBatch now1 ev1 (quiet_session d) = ((r1, None), s1) ->
  IngestEventsBatch now2 ev2 s1 = ((r2, None), s2) ->
  ev2 ⊆ ev1 ->
  Inserted r2 = 0 /\ BucketsTouched r2 = 0 /\
  item_events (committed s2) = item_events (committed s1) /\
  event_buckets (committed s2) = event_buckets (committed s1).
Proof.
  intros (d1 & -> & Heff1)%IngestEventsBatch_quiet_inv
    (d2 & -> & Heff2)%IngestEventsBatch_quiet_inv Hsub.
  destruct (batch_known_rows now2 ev2 d1 r2 d2 Heff2) as (-> & He & Hb); [|done].
  intros e He. eapply batch_rows_known; [exact Heff1|]. by apply Hsub.
Qed.

(** Retention deletes exactly the raw events older than the cutoff and
    reports how many; buckets, items and the seed marker are untouched. *)
Theorem DeleteEventsOlderThan_spec cutoff d :
  exists n d', DeleteEventsOlderThan cutoff (quiet_session d) = ((n, None), quiet_session d') /\
    (forall id ty t, item_events d' !! (id, ty, t) =
      if decide (t < pg_ts cutoff) then None else item_events d !! (id, ty, t)) /\
    n = Z.of_nat (size (item_events d)) - Z.of_nat (size (item_events d')) /\
    event_buckets d' = event_buckets d /\ current_items d' = current_items d /\
    seed_marker d' = seed_marker d.
Proof.
  unfold DeleteEventsOlderThan, delete_events_before. quiet_run.
  eexists _, _. split; [reflexivity|]. simpl. split_and!; try done.
  - intros id ty t. apply delete_lookup.
  - apply delete_size.
Qed.

(** Deduplication ends where retention begins. Once retention has removed
    the raw events a batch wrote, replaying that batch inserts all of them again
    and adds to every bucket a second time what the first run had added. *)
Theorem replay_after_retention_double_counts now1 now2 cutoff ev d r1 s1 n s2 r3 s3 :
  (forall e, e ∈ ev -> item_events d !! event_input_key (encode_event e) = None) ->
  (forall e, e ∈ ev -> pg_ts (ev_EventTime e) < pg_ts cutoff) ->
  IngestEventsBatch now1 ev (quiet_session d) = ((r1, None), s1) ->
  DeleteEventsOlderThan cutoff s1 = ((n, None), s2) ->
  IngestEventsBatch now2 ev s2 = ((r3, None), s3) ->
  Inserted r3 = Inserted r1 /\
  forall k, bucket_count (event_buckets (committed s3)) k - bucket_count (event_buckets (committed s1)) k =
            bucket_count (event_buckets (committed s1)) k - bucket_count (event_buckets d) k.
Proof.
  intros Hnew Hold (d1 & -> & Heff1)%IngestEventsBatch_quiet_inv.
  unfold DeleteEventsOlderThan, delete_events_before. quiet_run. intros [= <- <-].
  set (d2 := set_item_events _ d1). change (set_committed d2 _) with (quiet_session d2).
  intros (d3 & -> & Heff3)%IngestEventsBatch_quiet_inv.
  destruct (batch_effect_spec now1 ev d) as [Hok1 _].
  destruct (batch_after now1 ev d d1) as (Hfit1 & _); [by rewrite Heff1|].
  destruct (Hok1 Hfit1) as (r1' & d1' & He1 & Hr1 & _ & Hc1 & _).
  rewrite Heff1 in He1. injection He1 as <- <-.
  destruct (batch_effect_spec now2 ev d2) as [Hok3 _].
  destruct (batch_after now2 ev d2 d3) as (Hfit3 & _); [by rewrite Heff3|].
  destruct (Hok3 Hfit3) as (r3' & d3' & He3 & Hr3 & _ & Hc3 & _).
  rewrite Heff3 in He3. injection He3 as <- <-.
  assert (new_rows (er_name <$> item_events d2) (encode_event <$> ev) =
          new_rows (er_name <$> item_events d) (encode_event <$> ev)) as Hsame.
  { apply new_rows_ext. intros e (x & -> & Hx)%list_elem_of_fmap.
    rewrite <- !events_none_view. specialize (Hnew x Hx). specialize (Hold x Hx).
    split; [done|]. intros _. apply map_lookup_filter_None. right. intros ? _. simpl. lia. }
  rewrite Hsame in Hr3, Hc3. split; [congruence|]. intros k. simpl.
  rewrite !bucket_count_view, Hc3, Hc1, !counts_add_all_default.
  change (event_buckets d2) with (event_buckets d1). rewrite Hc1, counts_add_all_default. lia.
Qed.

(** C19: Last event time wins, whatever the arrival order. After any successful
    run of IngestEvent over a list of events, if one event of an item is
    strictly later (at timestamp resolution) than the item's other events and
    not older than the stored row, then it decides the row: its name, its time
    as last_seen, and tombstoned exactly if it is a deletion. *)
Theorem latest_event_decides times ev d n s e :
  length times = length ev ->
  IngestSerially (zip times ev) 0 (quiet_session d) = ((n, None), s) ->
  e ∈ ev ->
  (forall e', e' ∈ ev -> ev_ItemID e' = ev_ItemID e -> e' <> e ->
     pg_ts (ev_EventTime e') < pg_ts (ev_EventTime e)) ->
  (forall r, current_items d !! ev_ItemID e = Some r -> ir_last_seen r <= pg_ts (ev_EventTime e)) ->
  exists r, current_items (committed s) !! ev_ItemID e = Some r /\
    ir_name r = ev_ItemName e /\ ir_last_seen r = pg_ts (ev_EventTime e) /\
    ir_tombstoned_at r = if is_deleted e then Some (pg_ts (ev_EventTime e)) else None.
Proof.
  intros Hlen Hrun He Hlatest Hstored.
  pose proof (IngestSerially_computes (zip times ev) 0 d) as Hc.
  destruct (serial_effect_spec (zip times ev) 0 d) as [Hok Herr].
  destruct (decide (rows_fit (er_name <$> item_events d) (bk_count <$> event_buckets d)
    (event_rows (zip times ev)))) as [Hfit|Hfit].
  2:{ destruct (Herr Hfit) as [e0 H0]. rewrite H0 in Hc.
      destruct Hc as (? & ? & ? & Hc). by rewrite Hc in Hrun. }
  destruct (Hok Hfit) as (d' & Heff & _ & _ & Hitems & _). rewrite Heff in Hc.
  rewrite Hc in Hrun. simplify_eq/=. rewrite Hitems, zip_snd_fmap by done.
  rewrite merge_items_lookup.
  apply (merge_all_latest _ (item_of_event e)); [|intros j|done].
  - apply list_elem_of_filter. split; [done|]. by apply list_elem_of_fmap_2.
  - intros [Hid (e' & -> & He')%list_elem_of_fmap]%list_elem_of_filter.
    destruct (decide (e' = e)) as [->|Hne]; [by left|right]. by apply Hlatest.
Qed.

(** C20: Snapshot reconcile. It always succeeds on a fault-free session; the
    live items are then exactly the snapshot's, under the snapshot's names; no
    row is ever removed; a row tombstoned before and absent from the snapshot is
    unchanged; raw events, buckets and the marker are untouched; and it returns
    the number of snapshot rows and of newly tombstoned rows. *)
Theorem ReconcileSnapshot_spec items t d :
  exists n d', ReconcileSnapshot items t (quiet_session d) =
      ((Z.of_nat (length items), n, None), quiet_session d') /\
    (forall id, (exists r, current_items d' !! id = Some r /\ ir_tombstoned_at r = None) <->
                id ∈ (si_ItemID <$> items)) /\
    (forall id name, snapshot_name items id = Some name ->
       ir_name <$> current_items d' !! id = Some name) /\
    (forall id, is_Some (current_items d !! id) -> is_Some (current_items d' !! id)) /\
    (forall id r, current_items d !! id = Some r -> ir_tombstoned_at r <> None ->
       id ∉ (si_ItemID <$> items) -> current_items d' !! id = Some r) /\
    n = Z.of_nat (size (filter (fun p : Z * ItemRow =>
          ir_tombstoned_at p.2 = None /\ p.1 ∉ (si_ItemID <$> items)) (current_items d))) /\
    item_events d' = item_events d /\ event_buckets d' = event_buckets d /\
    seed_marker d' = seed_marker d.
Proof.
  pose proof (ReconcileSnapshot_computes items t d) as Hrun.
  destruct (reconcile_effect_spec items t d) as (d' & Heff & He & Hb & Hm & Hi).
  rewrite Heff in Hrun. eexists _, d'. split; [exact Hrun|].
  assert (forall id, snapshot_name items id = None <-> id ∉ (si_ItemID <$> items)) as Hnone
    by apply snapshot_name_none.
  split_and!; try done.
  - intros id. rewrite Hi. specialize (Hnone id).
    destruct (snapshot_name items id) as [name|].
    + split; [intros _|intros _; destruct (current_items d !! id); simpl; eauto].
      destruct (decide (id ∈ si_ItemID <$> items)); naive_solver.
    + split; [|naive_solver]. intros (r & Hr & Ht).
      destruct (current_items d !! id); simplify_eq/=. by case_decide.
  - intros id name Hname. rewrite Hi, Hname. by destruct (current_items d !! id).
  - intros id [r Hr]. rewrite Hi, Hr. destruct (snapshot_name items id); simpl; eauto.
  - intros id r Hr Ht Hid%Hnone. rewrite Hi, Hid, Hr. simpl. by rewrite decide_False.
Qed.

(** An item once known stays known. Once GetCurrentItem finds an item, it
    finds it in every database the store's operations can reach from there,
    under any failures: deletions and snapshot gaps tombstone rows, nothing
    removes one. *)
Theorem known_items_stay_known d d' id :
  rtc (store_step any_op) d d' ->
  (GetCurrentItem id (quiet_session d)).1.1.2 = true ->
  (GetCurrentItem id (quiet_session d')).1.1.2 = true.
Proof.
  assert (forall d0, (GetCurrentItem id (quiet_session d0)).1.1.2 = true <->
    is_Some (current_items d0 !! id)) as Hfound.
  { intros d0. unfold GetCurrentItem. quiet_run. destruct (current_items d0 !! id); simpl.
    - by split; eauto.
    - split; [done|by intros [? [=]]]. }
  rewrite !Hfound. apply known_steps.
Qed.

(** GetCurrentItem, every branch: the row with its tombstone as a flag;
    found = false without an error exactly when there is no row or the query
    failed with pgx.ErrNoRows in its chain; any other failure is wrapped. The
    tables are never touched. *)
Theorem GetCurrentItem_branches id s :
  let '((item, found, err), s') := GetCurrentItem id s in
  committed s' = committed s /\
  match next_outcome s with
  | Delivered =>
      err = None /\
      match current_items (committed s) !! id with
      | None => found = false
      | Some r => found = true /\ ItemID item = id /\ Name item = ir_name r /\
          pg_ts (FirstSeen item) = ir_first_seen r /\ pg_ts (LastSeen item) = ir_last_seen r /\
          (Tombstoned item = true <-> ir_tombstoned_at r <> None)
      end
  | Refused e | ReplyLost e =>
      found = false /\ (errors_Is e ErrNoRows = true -> err = None) /\
      (errors_Is e ErrNoRows = false -> exists msg, err = Some (ErrWrap msg e))
  end.
Proof.
  unfold GetCurrentItem, pool_Query, bind.
  destruct (next_outcome s) eqn:E; simpl; [|destruct (errors_Is e ErrNoRows) eqn:He; naive_solver..].
  destruct (current_items (committed s) !! id) as [r|]; simpl; [|done].
  split_and!; auto using pg_go_ts. apply bool_decide_eq_true.
Qed.

(** C39: The stats read. On a fault-free session StatsLast24h lists, ordered by
    type and without repetition, every event type that has a bucket starting in
    the last 24 hours with the sum of those buckets' counts; if some sum exceeds
    int64 it fails and returns no rows. It never writes. *)
Theorem StatsLast24h_spec now d :
  let '((stats, err), s) := StatsLast24h now (quiet_session d) in
  let m := event_buckets d in
  s = quiet_session d /\
  ((exists ty, window_has now m ty /\ int8_max < window_sum now m ty) ->
     err <> None /\ stats = []) /\
  ((forall ty, window_has now m ty -> window_sum now m ty <= int8_max) ->
     err = None /\ StronglySorted String.le (bs_EventType <$> stats) /\
     NoDup (bs_EventType <$> stats) /\
     forall ty n, {| bs_EventType := ty; bs_Count := n |} ∈ stats <->
                  window_has now m ty /\ n = window_sum now m ty).
Proof.
  unfold StatsLast24h, bind at 1. rewrite pool_Query_quiet. cbv beta iota.
  rewrite scan_stats_quiet. set (rows := select_stats_24h now d).
  pose proof (select_stats_in now d) as Hin. fold rows in Hin.
  destruct (decide (Forall (fun r : string * Z => r.2 <= int8_max) rows)) as [Hall|Hall];
    rewrite Forall_forall in Hall; (split; [done|]; split).
  - intros (ty & Hw & Hlt). specialize (Hall (ty, window_sum now (event_buckets d) ty)).
    simpl in Hall. rewrite Hin in Hall. specialize (Hall (conj Hw eq_refl)). lia.
  - intros _. simpl. rewrite stat_of_types. split_and!;
      [done|apply select_stats_sorted|apply select_stats_NoDup|].
    intros ty n. rewrite <- Hin, list_elem_of_fmap. split; [|by exists (ty, n)].
    by intros ([] & [= -> ->] & ?).
  - done.
  - intros Hfit. exfalso. apply Hall. intros [ty n] [Hw ->]%Hin. by apply Hfit.
Qed.

(** C40: Seed marker round trip. A marker whose day count fits the int column is
    stored and read back unchanged, its time at timestamp resolution; it
    replaces any previous marker. A day count that does not fit is an error and
    the previous marker stays. *)
Theorem seed_marker_roundtrip m d :
  let '((_, err), s1) := UpsertSeedMarker m (quiet_session d) in
  (int4_min <= Days m <= int4_max ->
     err = None /\
     GetSeedMarker s1 =
       (({| Scale := Scale m; RefUnix := RefUnix m; Seed := Seed m; Days := Days m;
            SeededAt := go_ts (pg_ts (SeededAt m)); EventsWritten := EventsWritten m |},
         true, None), s1)) /\
  (~ int4_min <= Days m <= int4_max -> err <> None /\ s1 = quiet_session d).
Proof.
  unfold UpsertSeedMarker, upsert_seed_marker. quiet_run.
  destruct (int4_min <=? Days m) eqn:E1, (Days m <=? int4_max) eqn:E2; simpl; bool_solve;
    split; intros; try lia; try done.
Qed.
End properties.

(** ** Witnesses *)
Definition demo_event : EventRecord :=
  {| ev_ItemID := 1; ev_ItemName := "lamp"; ev_EventType := "created"; ev_EventTime := 5000000 |}.

(** A database with one ingested event, and the one retention leaves of it. *)
Definition demo_db : DB := committed (IngestEvent 10 demo_event (quiet_session empty_db)).2.
Definition batch_db : DB := committed (IngestEventsBatch 10 demo_batch (quiet_session empty_db)).2.
Definition expired_db : DB := committed (DeleteEventsOlderThan 99000000 (quiet_session batch_db)).2.

Lemma reachable_db_ok_witness : reachable any_op demo_db /\ db_ok demo_db.
Proof.
  assert (reachable any_op demo_db) as Hr.
  { apply rtc_once. unfold demo_db.
    apply (store_step_op any_op (OpIngest 10 demo_event) (quiet_session empty_db) None); done. }
  split; [exact Hr|]. apply (reachable_db_ok demo_db Hr).
Defined.

Lemma reachable_buckets_exact_witness :
  raw_count (er_name <$> item_events batch_db) (0, "created") =
  bucket_count (event_buckets batch_db) (0, "created").
Proof.
  apply (reachable_buckets_exact batch_db). apply rtc_once. unfold batch_db.
  apply (store_step_op no_retention (OpBatch 10 demo_batch) (quiet_session empty_db) None);
    [done|done|vm_compute; reflexivity].
Defined.

Lemma IngestEvent_replay_witness :
  IngestEvent 20 demo_event (quiet_session demo_db) = ((false, None), quiet_session demo_db).
Proof.
  apply (IngestEvent_replay 10 20 demo_event empty_db true). vm_compute. reflexivity.
Defined.

Definition rerun := IngestEventsBatch 20 (rev demo_batch) (quiet_session batch_db).
Definition expired_rerun := IngestEventsBatch 30 demo_batch (quiet_session expired_db).

Lemma batch_replay_dedup_witness :
  Inserted rerun.1.1 = 0 /\ BucketsTouched rerun.1.1 = 0 /\
  item_events (committed rerun.2) = item_events batch_db /\
  event_buckets (committed rerun.2) = event_buckets batch_db.
Proof.
  apply (batch_replay_dedup 10 20 demo_batch (rev demo_batch) empty_db
    {| Inserted := 4; BucketsTouched := 3 |} (quiet_session batch_db) rerun.1.1 rerun.2).
  - vm_compute. reflexivity.
  - vm_compute. reflexivity.
  - intros e He. apply list_elem_of_In, in_rev, list_elem_of_In, He.
Defined.

Lemma replay_after_retention_double_counts_witness :
  Inserted expired_rerun.1.1 = 4 /\
  forall k, bucket_count (event_buckets (committed expired_rerun.2)) k
              - bucket_count (event_buckets batch_db) k =
            bucket_count (event_buckets batch_db) k - bucket_count ∅ k.
Proof.
  apply (replay_after_retention_double_counts 10 30 99000000 demo_batch empty_db
    {| Inserted := 4; BucketsTouched := 3 |} (quiet_session batch_db) 4 (quiet_session expired_db)
    expired_rerun.1.1 expired_rerun.2).
  - intros e _. reflexivity.
  - intros e He. apply list_elem_of_In in He.
    repeat (destruct He as [<-|He]; [reflexivity|]). destruct He.
  - vm_compute. reflexivity.
  - vm_compute. reflexivity.
  - vm_compute. reflexivity.
Defined.

Definition demo_deletion : EventRecord :=
  {| ev_ItemID := 1; ev_ItemName := "lamp"; ev_EventType := "deleted"; ev_EventTime := 9000000 |}.

Definition serial_session : Session :=
  (IngestSerially (zip [1; 2; 3; 4; 5] demo_batch) 0 (quiet_session empty_db)).2.

Lemma latest_event_decides_witness :
  is_deleted demo_deletion = true /\
  exists r, current_items (committed serial_session) !! ev_ItemID demo_deletion = Some r /\
    ir_name r = ev_ItemName demo_deletion /\ ir_last_seen r = pg_ts (ev_EventTime demo_deletion) /\
    ir_tombstoned_at r = if is_deleted demo_deletion
                         then Some (pg_ts (ev_EventTime demo_deletion)) else None.
Proof.
  split; [reflexivity|].
  apply (latest_event_decides [1; 2; 3; 4; 5] demo_batch empty_db 4 serial_session demo_deletion).
  - reflexivity.
  - vm_compute. reflexivity.
  - right. right. left.
  - intros e' He' Hid Hne. apply list_elem_of_In in He'.
    repeat (destruct He' as [<-|He']; [first [discriminate Hid | by destruct Hne | reflexivity]|]).
    destruct He'.
  - intros r Hr. vm_compute in Hr. discriminate Hr.
Defined.

Lemma known_items_stay_known_witness :
  (GetCurrentItem 1 (quiet_session
    (committed (ReconcileSnapshot [] 50 (quiet_session demo_db)).2))).1.1.2 = true.
Proof.
  apply (known_items_stay_known demo_db).
  - apply rtc_once. apply (store_step_op any_op (OpReconcile [] 50) (quiet_session demo_db) None);
      [done|done|vm_compute; reflexivity].
  - vm_compute. reflexivity.
Defined.
