(* ===== verification/GoInt.v ===== *)
(** * GoInt: Go's fixed-width integers and the standard-library parsing of them

    [int], [int64] and [time.Duration] are 64-bit two's complement: arithmetic
    wraps.  [uint64] is arithmetic modulo [2^64].  [strconv.ParseInt(s, 10, 64)]
    and [strconv.Atoi] are the two integer parsers the service calls. *)
From S2P Require Import Prelude.
From Stdlib Require Import Ascii.
Local Open Scope Z_scope.

Definition max_int64 : Z := 9223372036854775807.
Definition min_int64 : Z := -9223372036854775808.

(** The int64 value of an unbounded integer: its low 64 bits, signed. *)
Definition wrap64 (z : Z) : Z := (z + 2^63) mod 2^64 - 2^63.

(** The uint64 value. *)
Definition u64 (z : Z) : Z := z mod 2^64.

Definition int64_range (z : Z) : Prop := min_int64 <= z <= max_int64.

#[export] Instance int64_range_dec z : Decision (int64_range z).
Proof. unfold int64_range. apply _. Defined.

Lemma wrap64_range z : int64_range (wrap64 z).
Proof.
  unfold int64_range, wrap64, min_int64, max_int64.
  pose proof (Z.mod_pos_bound (z + 2^63) (2^64) ltac:(lia)). lia.
Qed.

Lemma wrap64_id z : int64_range z -> wrap64 z = z.
Proof.
  unfold int64_range, wrap64, min_int64, max_int64. intros Hz.
  rewrite Z.mod_small; lia.
Qed.

(** Wrapping is congruence modulo [2^64]: wrapped intermediate results do not
    matter. *)
Lemma wrap64_mod a b : a mod 2^64 = b mod 2^64 -> wrap64 a = wrap64 b.
Proof.
  intros Hab. unfold wrap64. f_equal.
  rewrite (Z.add_mod a), (Z.add_mod b), Hab by lia. done.
Qed.

Lemma wrap64_eqm z : wrap64 z mod 2^64 = z mod 2^64.
Proof.
  unfold wrap64. rewrite Zminus_mod, Zmod_mod, <- Zminus_mod. f_equal. lia.
Qed.

Lemma wrap64_add_l a b : wrap64 (wrap64 a + b) = wrap64 (a + b).
Proof. apply wrap64_mod. by rewrite Zplus_mod, wrap64_eqm, <- Zplus_mod. Qed.

Lemma u64_range z : 0 <= u64 z < 2^64.
Proof. apply Z.mod_pos_bound. lia. Qed.

(** ** Durations, in nanoseconds *)
Definition Microsecond : Z := 1000.
Definition Millisecond : Z := 1000000.
Definition Second : Z := 1000000000.
Definition Minute : Z := 60 * Second.
Definition Hour : Z := 60 * Minute.

(** ** strconv *)
Definition ErrSyntax : error := ErrNew "invalid syntax".
Definition ErrRange : error := ErrNew "value out of range".

Definition digit_value (c : ascii) : option Z :=
  let n := Z.of_nat (nat_of_ascii c) in
  if (48 <=? n) && (n <=? 57) then Some (n - 48) else None.

Definition max_uint64 : Z := 18446744073709551615.

(** The digit loop of [ParseUint(s, 10, 64)]: it stops at the first character
    that is not a digit, or at the first overflow of a uint64. *)
Fixpoint digits_value (s : string) (acc : Z) : error + Z :=
  match s with
  | EmptyString => inr acc
  | String c s' =>
      match digit_value c with
      | None => inl ErrSyntax
      | Some d =>
          if acc * 10 + d <=? max_uint64 then digits_value s' (acc * 10 + d) else inl ErrRange
      end
  end.

Definition parse_uint (s : string) : error + Z :=
  match s with
  | EmptyString => inl ErrSyntax
  | _ => digits_value s 0
  end.

(** [strconv.ParseInt(s, 10, 64)]: an optional sign, then digits; a value out of
    the int64 range is ErrRange. *)
Definition ParseInt (s : string) : error + Z :=
  let '(neg, rest) :=
    match s with
    | String c s' =>
        if Ascii.eqb c "+"%char then (false, s')
        else if Ascii.eqb c "-"%char then (true, s') else (false, s)
    | EmptyString => (false, s)
    end in
  match parse_uint rest with
  | inl e => inl e
  | inr n =>
      let v := if neg : bool then - n else n in
      if decide (int64_range v) then inr v else inl ErrRange
  end.

(** [strconv.Atoi]: [int] has 64 bits on the service's platforms. *)
Definition Atoi (s : string) : error + Z := ParseInt s.

Lemma ParseInt_range s n : ParseInt s = inr n -> int64_range n.
Proof. unfold ParseInt. intros Hp. repeat (case_match; simplify_eq/=); done. Qed.

Example ParseInt_ok : ParseInt "-42" = inr (-42).
Proof. reflexivity. Qed.
Example ParseInt_overflow : ParseInt "9223372036854775808" = inl ErrRange.
Proof. reflexivity. Qed.
Example ParseInt_min : ParseInt "-9223372036854775808" = inr min_int64.
Proof. reflexivity. Qed.
Example ParseInt_syntax : ParseInt "4x" = inl ErrSyntax.
Proof. reflexivity. Qed.

(** ** Printing and parsing back *)
Lemma digit_value_pretty (d : N) :
  (d < 10)%N -> digit_value (pretty_N_char d) = Some (Z.of_N d).
Proof.
  intros Hd. assert (d = 0 \/ d = 1 \/ d = 2 \/ d = 3 \/ d = 4 \/
    d = 5 \/ d = 6 \/ d = 7 \/ d = 8 \/ d = 9)%N as Hcases by lia.
  by destruct_or! Hcases; subst.
Qed.

Lemma digits_value_pretty_go (n : N) s :
  Z.of_N n <= max_uint64 -> digits_value (pretty_N_go n s) 0 = digits_value s (Z.of_N n).
Proof.
  revert s. induction n as [n IH] using (well_founded_induction N.lt_wf_0). intros s Hn.
  destruct (decide (0 < n)%N) as [Hpos|Hz].
  - rewrite pretty_N_go_step by done.
    rewrite IH; [|apply N.div_lt; lia|pose proof (N.div_lt n 10); lia].
    cbn [digits_value].
    rewrite digit_value_pretty by (apply N.mod_lt; lia).
    rewrite N2Z.inj_div, N2Z.inj_mod.
    pose proof (Z.div_mod (Z.of_N n) 10 ltac:(lia)).
    replace (Z.of_N n / Z.of_N 10 * 10 + Z.of_N n mod Z.of_N 10) with (Z.of_N n)
      by (change (Z.of_N 10) with 10; lia).
    by rewrite (proj2 (Z.leb_le _ _)) by lia.
  - assert (n = 0%N) as -> by lia. by rewrite pretty_N_go_0.
Qed.

Lemma parse_uint_pretty (n : N) : Z.of_N n <= max_uint64 -> parse_uint (pretty n) = inr (Z.of_N n).
Proof.
  intros Hn. unfold pretty, pretty_N. case_decide as Hz; [by subst|].
  assert (digits_value (pretty_N_go n "") 0 = inr (Z.of_N n)) as Hd
    by (by rewrite digits_value_pretty_go).
  destruct (pretty_N_go n "") eqn:E; [|done]. simplify_eq/=. lia.
Qed.

(** A printed int64 parses back. *)
Lemma ParseInt_pretty (n : Z) : int64_range n -> ParseInt (pretty n) = inr n.
Proof.
  intros Hn. unfold int64_range, min_int64, max_int64 in Hn.
  assert (forall p : positive, Z.pos p <= 2^63 -> parse_uint (pretty (N.pos p)) = inr (Z.pos p)) as Hp
    by (intros p Hp; apply (parse_uint_pretty (N.pos p)); unfold max_uint64; lia).
  assert (forall (c : ascii) d, digit_value c = Some d ->
    Ascii.eqb c "+"%char = false /\ Ascii.eqb c "-"%char = false) as Hdigit.
  { intros c d Hc. destruct (Ascii.eqb_spec c "+"%char), (Ascii.eqb_spec c "-"%char); subst; done. }
  destruct n as [|p|p]; [done| |].
  - change (pretty (Z.pos p)) with (pretty (N.pos p)). specialize (Hp p ltac:(lia)).
    unfold ParseInt. destruct (pretty (N.pos p)) as [|c s] eqn:E; [done|].
    destruct (digit_value c) as [d|] eqn:Ed; [|simpl in Hp; by rewrite Ed in Hp].
    destruct (Hdigit c d Ed) as [-> ->]. rewrite Hp. by rewrite decide_True.
  - change (pretty (Z.neg p)) with (String "-" (pretty (N.pos p))). unfold ParseInt.
    change (Ascii.eqb "-" "+") with false. change (Ascii.eqb "-" "-") with true. cbv iota beta.
    rewrite (Hp p ltac:(lia)). by rewrite decide_True.
Qed.
