(* ===== verification/GoFloat.v ===== *)
(** * GoFloat: Go's float64

    IEEE 754 binary64 on the Standard Library's [spec_float] (round to nearest
    even, no fused multiply-add), with the conversions and the [math] functions
    the service uses.  Converting a float that has no int64 value (NaN, an
    infinity, a magnitude of [2^63] or more) is implementation-specific in Go:
    the result is the parameter [oor_int64], about which nothing is assumed. *)
From S2P Require Import Prelude GoInt.
From Corelib Require Export SpecFloat.
Local Open Scope Z_scope.

Abbreviation float64 := spec_float (only parsing).

Definition f_add (x y : float64) : float64 := SFadd 53 1024 x y.
Definition f_sub (x y : float64) : float64 := SFsub 53 1024 x y.
Definition f_mul (x y : float64) : float64 := SFmul 53 1024 x y.
Definition f_div (x y : float64) : float64 := SFdiv 53 1024 x y.
Definition f_ltb (x y : float64) : bool := SFltb x y.
Definition f_leb (x y : float64) : bool := SFleb x y.

Declare Scope f64_scope.
Delimit Scope f64_scope with f64.
Infix "+" := f_add : f64_scope.
Infix "-" := f_sub : f64_scope.
Infix "*" := f_mul : f64_scope.
Infix "/" := f_div : f64_scope.
Infix "<?" := f_ltb : f64_scope.

(** [float64(n)] for an integer [n], rounded to nearest even. *)
Definition f_of_Z (n : Z) : float64 := binary_normalize 53 1024 n 0 false.

(** The constant [m * 2^e]. *)
Definition f_const (m e : Z) : float64 := binary_normalize 53 1024 m e false.

Definition f_zero : float64 := S754_zero false.
Definition f_one : float64 := f_of_Z 1.

(** Integer part and remainder of a magnitude [m * 2^e] with [e < 0]. *)
Definition int_part (m : positive) (e : Z) : Z := Z.pos m / 2 ^ (- e).
Definition frac_part (m : positive) (e : Z) : Z := Z.pos m mod 2 ^ (- e).

(** [math.Floor] *)
Definition Floor (x : float64) : float64 :=
  match x with
  | S754_finite s m e =>
      if 0 <=? e then x else
      if s : bool
      then f_of_Z (- (int_part m e + (if frac_part m e =? 0 then 0 else 1)))
      else f_of_Z (int_part m e)
  | _ => x
  end.

(** [math.Round]: half away from zero, keeping the sign of a zero result. *)
Definition Round (x : float64) : float64 :=
  match x with
  | S754_finite s m e =>
      if 0 <=? e then x else
      let q := int_part m e + (if 2 ^ (- e) <=? 2 * frac_part m e then 1 else 0) in
      if q =? 0 then S754_zero s else f_of_Z (if s : bool then - q else q)
  | _ => x
  end.

(** [math.Max] *)
Definition f_max (x y : float64) : float64 :=
  match x, y with
  | S754_infinity false, _ | _, S754_infinity false => S754_infinity false
  | S754_nan, _ | _, S754_nan => S754_nan
  | S754_zero true, S754_zero _ => y
  | S754_zero false, S754_zero _ => x
  | _, _ => if f_ltb y x then x else y
  end.

(** Truncation toward zero of a finite float. *)
Definition trunc_Z (x : float64) : option Z :=
  match x with
  | S754_zero _ => Some 0
  | S754_finite s m e =>
      let a := if 0 <=? e then Z.pos m * 2 ^ e else int_part m e in
      Some (if s : bool then - a else a)
  | _ => None
  end.

Class FloatConv := oor_int64 : float64 -> Z.

(** [int64(x)] *)
Definition int64_of_f `{FloatConv} (x : float64) : Z :=
  match trunc_Z x with
  | Some z => if decide (int64_range z) then z else oor_int64 x
  | None => oor_int64 x
  end.

(** The conversion instruction of amd64: the "integer indefinite" value. *)
#[export] Instance amd64_conv : FloatConv | 10 := fun _ => min_int64.

Example mul_ok : f_mul (f_of_Z 3) (f_const 1 (-1)) = f_const 3 (-1).
Proof. reflexivity. Qed.
Example floor_neg : Floor (f_const (-3) (-1)) = f_of_Z (-2).
Proof. reflexivity. Qed.
Example round_half : Round (f_const 5 (-1)) = f_of_Z 3.
Proof. reflexivity. Qed.
Example tenth_sum : f_add (f_div f_one (f_of_Z 10)) (f_div (f_of_Z 2) (f_of_Z 10)) <>
  f_div (f_of_Z 3) (f_of_Z 10).
Proof. vm_compute. discriminate. Qed.

(** ** Sign facts *)

(** Not a negative number: zero, positive, [+Inf] or NaN. *)
Definition f_not_negative (x : float64) : Prop :=
  match x with
  | S754_zero _ | S754_nan => True
  | S754_infinity s | S754_finite s _ _ => s = false
  end.

Lemma f_max_zero_leb x : f_leb f_zero (f_max f_zero x) = true \/ f_max f_zero x = S754_nan.
Proof. destruct x as [[]|[]| |[]]; auto. Qed.

Lemma trunc_nonneg x z : f_not_negative x -> trunc_Z x = Some z -> 0 <= z.
Proof.
  destruct x as [s|s| |s m e]; simpl; intros Hs [= <-]; [lia|]. subst s. unfold int_part.
  destruct (0 <=? e) eqn:E; bool_solve; [|apply Z.div_pos; lia].
  apply Z.mul_nonneg_nonneg; [|apply Z.pow_nonneg]; lia.
Qed.

Lemma binary_round_aux_sign s m e l :
  match binary_round_aux 53 1024 s m e l with
  | S754_zero s' | S754_infinity s' | S754_finite s' _ _ => s' = s
  | S754_nan => True
  end.
Proof.
  unfold binary_round_aux. destruct (shr_fexp _ _ m e l) as [r1 e1].
  destruct (shr_fexp _ _ _ e1 loc_Exact) as [r2 e2]. destruct (shr_m r2); try done.
  by destruct (_ <=? _).
Qed.

Lemma f_of_Z_nonneg n : 0 <= n -> f_not_negative (f_of_Z n).
Proof.
  intros Hn. destruct n as [|p|p]; [done| |lia]. unfold f_of_Z, binary_normalize, binary_round.
  destruct (shl_align _ _ _) as [mz ez].
  pose proof (binary_round_aux_sign false (Z.pos mz) ez loc_Exact) as Hs.
  destruct (binary_round_aux _ _ _ _ _ _); simpl; done.
Qed.

Lemma Round_nonneg x : f_not_negative x -> f_not_negative (Round x).
Proof.
  destruct x as [s|s| |s m e]; simpl; try done. intros ->.
  destruct (0 <=? e) eqn:E; [done|]. bool_solve. case_match; [done|]. apply f_of_Z_nonneg.
  unfold int_part. pose proof (Z.div_pos (Z.pos m) (2 ^ (- e)) ltac:(lia) ltac:(lia)).
  case_match; lia.
Qed.

Lemma f_mul_nonneg x y : f_not_negative x -> f_not_negative y -> f_not_negative (f_mul x y).
Proof.
  destruct x as [s|s| |s m e], y as [s'|s'| |s' m' e']; simpl; try done; try by intros -> ->.
  intros -> ->. pose proof (binary_round_aux_sign false (Z.pos (m * m')) (e + e') loc_Exact) as Hs.
  unfold f_mul; cbn [SFmul xorb]. destruct (binary_round_aux _ _ _ _ _ _); simpl; done.
Qed.
