(* ===== verification/GoEnv.v ===== *)
(** * GoEnv: the environment and time.ParseDuration

    [os.Getenv] reads a process environment, which is an argument of every
    definition that uses it.  [time.ParseDuration] is the standard library's
    parser of the interval settings, with its overflow checks and its float64
    fractions. *)
From S2P Require Import Prelude GoInt GoFloat.
From Stdlib Require Import Ascii.
Local Open Scope Z_scope.

(** ** Environment *)
Definition Environ : Type := string -> string.

Definition Getenv (env : Environ) (key : string) : string := env key.

(** The environment with no variable set. *)
Definition empty_env : Environ := fun _ => ""%string.

Definition set_env (key v : string) (env : Environ) : Environ :=
  fun k => if String.eqb k key then v else env k.

(** ** time.ParseDuration *)
Definition invalid_duration : error := ErrNew "time: invalid duration".
Definition missing_unit : error := ErrNew "time: missing unit in duration".
Definition unknown_unit : error := ErrNew "time: unknown unit in duration".

(** [leadingInt]: the digits at the front; overflow past [1<<63] is an error. *)
Fixpoint leadingInt (s : string) (x : Z) : error + (Z * string) :=
  match s with
  | EmptyString => inr (x, s)
  | String c s' =>
      match digit_value c with
      | None => inr (x, s)
      | Some d =>
          if 2^63 / 10 <? x then inl invalid_duration else
          if 2^63 <? x * 10 + d then inl invalid_duration else leadingInt s' (x * 10 + d)
      end
  end.

(** [leadingFraction]: digits that no longer fit are consumed and ignored. *)
Fixpoint leadingFraction (s : string) (x : Z) (scale : float64) (overflow : bool)
    : Z * float64 * string :=
  match s with
  | EmptyString => (x, scale, s)
  | String c s' =>
      match digit_value c with
      | None => (x, scale, s)
      | Some d =>
          if overflow then leadingFraction s' x scale true else
          if (2^63 - 1) / 10 <? x then leadingFraction s' x scale true else
          if 2^63 <? x * 10 + d then leadingFraction s' x scale true else
          leadingFraction s' (x * 10 + d) (f_mul scale (f_of_Z 10)) false
      end
  end.

Definition unit_char (c : ascii) : bool :=
  negb (Ascii.eqb c "."%char) && bool_decide (digit_value c = None).

(** The unit: everything up to the next dot or digit. *)
Fixpoint leading_unit (s : string) : string * string :=
  match s with
  | String c s' =>
      if unit_char c then let '(u, rest) := leading_unit s' in (String c u, rest) else (""%string, s)
  | EmptyString => (""%string, s)
  end.

(** The two spellings of "µs", U+00B5 and U+03BC, in UTF-8. *)
Definition micro_b5 : string := String (ascii_of_nat 194) (String (ascii_of_nat 181) "s").
Definition micro_bc : string := String (ascii_of_nat 206) (String (ascii_of_nat 188) "s").

Definition unitMap (u : string) : option Z :=
  if String.eqb u "ns" then Some 1 else
  if String.eqb u "us" || String.eqb u micro_b5 || String.eqb u micro_bc then Some Microsecond else
  if String.eqb u "ms" then Some Millisecond else
  if String.eqb u "s" then Some Second else
  if String.eqb u "m" then Some Minute else
  if String.eqb u "h" then Some Hour else None.

(** [uint64(float64(f) * (float64(unit) / scale))] *)
Definition frac_nanos (f unit : Z) (scale : float64) : Z :=
  match trunc_Z (f_mul (f_of_Z f) (f_div (f_of_Z unit) scale)) with
  | Some z => u64 z
  | None => 0
  end.

(** The optional fraction: (f, scale, rest, whether it has a digit). *)
Definition duration_fraction (s1 : string) : Z * float64 * string * bool :=
  match s1 with
  | String c s1' =>
      if Ascii.eqb c "."%char
      then let '(f, scale, s2) := leadingFraction s1' 0 f_one false in
           (f, scale, s2, negb (String.length s1' =? String.length s2)%nat)
      else (0, f_one, s1, false)
  | EmptyString => (0, f_one, s1, false)
  end.

(** One [<int>[.<frac>]<unit>] group, added to [d]. *)
Definition duration_group (s : string) (d : Z) : error + (Z * string) :=
  match s with
  | EmptyString => inl invalid_duration
  | String c0 _ =>
  if negb (Ascii.eqb c0 "."%char || bool_decide (is_Some (digit_value c0)))
  then inl invalid_duration else
  match leadingInt s 0 with
  | inl e => inl e
  | inr (v, s1) =>
    let pre := negb (String.length s =? String.length s1)%nat in
    let '(f, scale, s2, post) := duration_fraction s1 in
    if negb pre && negb post then inl invalid_duration else
    let '(u, s3) := leading_unit s2 in
    if String.eqb u "" then inl missing_unit else
    match unitMap u with
    | None => inl unknown_unit
    | Some unit =>
        if 2^63 / unit <? v then inl invalid_duration else
        let v1 := if 0 <? f then u64 (v * unit + frac_nanos f unit scale) else v * unit in
        if 2^63 <? v1 then inl invalid_duration else
        let d' := u64 (d + v1) in
        if 2^63 <? d' then inl invalid_duration else inr (d', s3)
    end
  end
  end.

(** The [for s != ""] loop: every group consumes at least one character, so the
    length of the string is enough fuel. *)
Fixpoint duration_groups (fuel : nat) (s : string) (d : Z) : error + Z :=
  match s, fuel with
  | EmptyString, _ => inr d
  | _, O => inl invalid_duration
  | _, S fuel' =>
      match duration_group s d with
      | inl e => inl e
      | inr (d', s') => duration_groups fuel' s' d'
      end
  end.

Definition ParseDuration (s0 : string) : error + Z :=
  let '(neg, s) :=
    match s0 with
    | String c s' =>
        if Ascii.eqb c "-"%char then (true, s')
        else if Ascii.eqb c "+"%char then (false, s') else (false, s0)
    | EmptyString => (false, s0)
    end in
  if String.eqb s "0" then inr 0 else
  if String.eqb s "" then inl invalid_duration else
  match duration_groups (String.length s) s 0 with
  | inl e => inl e
  | inr d =>
      if neg : bool then inr (wrap64 (- d)) else
      if max_int64 <? d then inl invalid_duration else inr d
  end.

Example parse_seconds : ParseDuration "30s" = inr (30 * Second).
Proof. reflexivity. Qed.
Example parse_compound : ParseDuration "1h15m30.918s" = inr (75 * Minute + 30918 * Millisecond).
Proof. vm_compute. reflexivity. Qed.
Example parse_fraction : ParseDuration "-1.5h" = inr (- (90 * Minute)).
Proof. vm_compute. reflexivity. Qed.
Example parse_micro : ParseDuration (String.append "2" micro_b5) = inr (2 * Microsecond).
Proof. reflexivity. Qed.
Example parse_no_unit : ParseDuration "30" = inl missing_unit.
Proof. reflexivity. Qed.
Example parse_overflow : ParseDuration "9223372037s" = inl invalid_duration.
Proof. reflexivity. Qed.

(** ** Fuel and range *)
Lemma leadingInt_length s x v s' :
  leadingInt s x = inr (v, s') -> (String.length s' <= String.length s)%nat.
Proof.
  revert x. induction s as [|c s IH]; intros x; simpl; [by intros [= _ <-]|].
  destruct (digit_value c); [|by intros [= _ <-]]. repeat case_match; try done.
  intros Hr. apply IH in Hr. lia.
Qed.

Lemma leadingFraction_length s x scale o :
  (String.length (leadingFraction s x scale o).2 <= String.length s)%nat.
Proof.
  revert x scale o. induction s as [|c s IH]; intros x scale o; simpl; [done|].
  destruct (digit_value c); [|done]. repeat case_match; etrans; try apply IH; lia.
Qed.

Lemma leading_unit_length s :
  let '(u, rest) := leading_unit s in
  (String.length rest + String.length u = String.length s)%nat.
Proof.
  induction s as [|c s IH]; [done|]. simpl. destruct (unit_char c); simpl; [|lia].
  destruct (leading_unit s) as [u rest]. simpl in *. lia.
Qed.

Lemma duration_fraction_length s :
  (String.length (duration_fraction s).1.2 <= String.length s)%nat.
Proof.
  destruct s as [|c s]; simpl; [done|]. destruct (Ascii.eqb c "."); simpl; [|done].
  pose proof (leadingFraction_length s 0 f_one false) as Hl.
  destruct (leadingFraction s 0 f_one false) as [[f scale] s2]. simpl in *. lia.
Qed.

(** Every group consumes input: the loop never runs out of fuel. *)
Lemma duration_group_spec s d d' s' :
  duration_group s d = inr (d', s') -> (String.length s' < String.length s)%nat /\ 0 <= d'.
Proof.
  unfold duration_group. destruct s as [|c0 s0]; [done|]. set (s := String c0 s0).
  case_match; [done|]. destruct (leadingInt s 0) as [|[v s1]] eqn:E1; [done|].
  apply leadingInt_length in E1. pose proof (duration_fraction_length s1) as E2.
  destruct (duration_fraction s1) as [[[f scale] s2] post]. cbn [fst snd] in E2.
  case_match; [done|]. pose proof (leading_unit_length s2) as E3.
  destruct (leading_unit s2) as [u s3]. destruct (String.eqb_spec u "") as [|Hu]; [done|].
  destruct (unitMap u) as [unit|]; [|done].
  destruct (2^63 / unit <? v); [done|]. destruct (2^63 <? _); [done|]. destruct (2^63 <? _); [done|].
  intros [= <- <-]. split; [|apply u64_range]. destruct u; simpl in *; (done || lia).
Qed.

(** More fuel than characters changes nothing. *)
Lemma duration_groups_fuel fuel1 fuel2 s d :
  (String.length s <= fuel1)%nat -> (String.length s <= fuel2)%nat ->
  duration_groups fuel1 s d = duration_groups fuel2 s d.
Proof.
  revert fuel2 s d. induction fuel1 as [|fuel1 IH]; intros fuel2 s d H1 H2;
    (destruct s as [|c s]; [by destruct fuel2|]); simpl in H1, H2; [lia|].
  destruct fuel2 as [|fuel2]; [lia|]. cbn [duration_groups].
  destruct (duration_group (String c s) d) as [|[d' s']] eqn:E; [done|].
  apply duration_group_spec in E as [Hlt _]. simpl in Hlt. apply IH; lia.
Qed.

Lemma duration_groups_nonneg fuel s d r : 0 <= d -> duration_groups fuel s d = inr r -> 0 <= r.
Proof.
  revert s d. induction fuel as [|fuel IH]; intros s d Hd; destruct s as [|c s];
    cbn [duration_groups]; try done; try by intros [= <-].
  destruct (duration_group (String c s) d) as [|[d' s']] eqn:E; [done|].
  apply duration_group_spec in E as [_ Hd']. by apply IH.
Qed.

Lemma ParseDuration_range s d : ParseDuration s = inr d -> int64_range d.
Proof.
  unfold ParseDuration. intros Hp.
  match type of Hp with (let '(_, _) := ?sign in _) = _ => destruct sign as [neg s1] end.
  destruct (String.eqb s1 "0"); [by simplify_eq|]. destruct (String.eqb s1 ""); [done|].
  destruct (duration_groups _ _ _) as [|r] eqn:E; [done|].
  apply duration_groups_nonneg in E; [|lia].
  destruct neg; [simplify_eq; apply wrap64_range|].
  destruct (max_int64 <? r) eqn:Hr; simplify_eq. bool_solve.
  unfold int64_range, min_int64 in *. lia.
Qed.
