(* ===== verification/Ingest.v ===== *)
(** * Ingest: the gRPC ingestion client (internal/ingest)

    [client.go], [config.go] and [metrics.go]: the reconnect loop, one cycle
    (dial, snapshot reconcile, stream consumption), event handling, backoff and
    the ingest metrics.  The client is written against the interface
    [DataStore]; what it relies on is the class [DataStoreSpec].

    The backend is not part of the repository's Go code: a cycle's replies
    (dial, ListItems, WatchItemEvents and the stream's messages) are the
    argument [cycle_env].  Clocks and random draws are the parameters [clock]
    and [Int64N]; cancellation of the context is the countdown [cancel] of
    the world, in number of looks at the context. *)
From S2P Require Import Prelude GoInt GoEnv Database Session Store.
Local Open Scope Z_scope.
Local Open Scope go_scope.

(** ** config.go *)
Record Config := { BackendAddr : string; BackoffBase : Z; BackoffMax : Z }.

Definition envString (env : Environ) (key def : string) : string :=
  let v := Getenv env key in if negb (String.eqb v "") then v else def.

Definition envDuration (env : Environ) (key : string) (def : Z) : Z :=
  let v := Getenv env key in
  if String.eqb v "" then def else
  match ParseDuration v with inl _ => def | inr d => d end.

Definition ConfigFromEnv (env : Environ) : Config :=
  {| BackendAddr := envString env "ANALYTICS_BACKEND_GRPC_ADDR" "localhost:50051";
     BackoffBase := envDuration env "ANALYTICS_INGEST_BACKOFF_BASE" Second;
     BackoffMax := envDuration env "ANALYTICS_INGEST_BACKOFF_MAX" (30 * Second) |}.

(** ** backoffDuration *)
Definition backoff_delay (attempt base maxDelay : Z) : Z :=
  let attempt := if attempt <? 1 then 1 else attempt in
  let base := if base <=? 0 then Second else base in
  let maxDelay := if maxDelay <=? 0 then 30 * Second else maxDelay in
  let shift := Z.min (attempt - 1) 30 in
  let delay := wrap64 (base * Z.shiftl 1 shift) in
  if (delay <=? 0) || (maxDelay <? delay) then maxDelay else delay.

Definition backoffDuration (Int64N : Z -> Z) (attempt base maxDelay : Z) : Z :=
  let half := Z.quot (backoff_delay attempt base maxDelay) 2 in
  wrap64 (half + Int64N (wrap64 (half + 1))).

(** ** The messages of items.proto, with Go's nil for an absent submessage *)
Record ProtoItem := { pi_id : Z; pi_name : string }.

Record ItemEvent := {
  pe_event_type : Z;
  pe_item : option ProtoItem;
  pe_event_time : option Z
}.

(** The getters: a nil message reads as its zero value, a nil Timestamp is the
    epoch. *)
Definition GetId (i : option ProtoItem) : Z := match i with Some i => pi_id i | None => 0 end.
Definition GetName (i : option ProtoItem) : string :=
  match i with Some i => pi_name i | None => ""%string end.
Definition AsTime (t : option Z) : Z := default 0 t.

Definition eventTypeNames (ty : Z) : option string :=
  if ty =? 1 then Some "created"%string else
  if ty =? 2 then Some "updated"%string else
  if ty =? 3 then Some "deleted"%string else None.

Definition errMalformedEvent : error := ErrNew "malformed event".

Definition persistRetryDelay : Z := Second.

(** ** The interface to the store *)
Class DataStore (D : Type) := {
  ds_ReconcileSnapshot : list SnapshotItem -> Z -> M D (Z * Z * option error);
  ds_IngestEvent : EventRecord -> M D (bool * option error)
}.

(** ** metrics.go: gauges and counters (all values are integers below 2^53) *)
Record Metrics := {
  streamConnected : Z;
  lastEventTimeSeconds : Z;
  eventsIngestedTotal : gmap string Z;
  eventsDeduplicatedTotal : Z;
  reconnectsTotal : Z;
  snapshotReconcilesTotal : Z;
  snapshotItems : Z;
  lastEventTimeUnix : Z
}.

Definition zero_metrics : Metrics :=
  {| streamConnected := 0; lastEventTimeSeconds := 0; eventsIngestedTotal := ∅;
     eventsDeduplicatedTotal := 0; reconnectsTotal := 0; snapshotReconcilesTotal := 0;
     snapshotItems := 0; lastEventTimeUnix := 0 |}.

Definition set_streamConnected v (m : Metrics) : Metrics :=
  {| streamConnected := v; lastEventTimeSeconds := lastEventTimeSeconds m;
     eventsIngestedTotal := eventsIngestedTotal m;
     eventsDeduplicatedTotal := eventsDeduplicatedTotal m; reconnectsTotal := reconnectsTotal m;
     snapshotReconcilesTotal := snapshotReconcilesTotal m; snapshotItems := snapshotItems m;
     lastEventTimeUnix := lastEventTimeUnix m |}.

Definition inc_ingested (ty : string) (m : Metrics) : Metrics :=
  {| streamConnected := streamConnected m; lastEventTimeSeconds := lastEventTimeSeconds m;
     eventsIngestedTotal :=
       <[ty := default 0 (eventsIngestedTotal m !! ty) + 1]> (eventsIngestedTotal m);
     eventsDeduplicatedTotal := eventsDeduplicatedTotal m; reconnectsTotal := reconnectsTotal m;
     snapshotReconcilesTotal := snapshotReconcilesTotal m; snapshotItems := snapshotItems m;
     lastEventTimeUnix := lastEventTimeUnix m |}.

Definition inc_deduplicated (m : Metrics) : Metrics :=
  {| streamConnected := streamConnected m; lastEventTimeSeconds := lastEventTimeSeconds m;
     eventsIngestedTotal := eventsIngestedTotal m;
     eventsDeduplicatedTotal := eventsDeduplicatedTotal m + 1; reconnectsTotal := reconnectsTotal m;
     snapshotReconcilesTotal := snapshotReconcilesTotal m; snapshotItems := snapshotItems m;
     lastEventTimeUnix := lastEventTimeUnix m |}.

Definition inc_reconnects (m : Metrics) : Metrics :=
  {| streamConnected := streamConnected m; lastEventTimeSeconds := lastEventTimeSeconds m;
     eventsIngestedTotal := eventsIngestedTotal m;
     eventsDeduplicatedTotal := eventsDeduplicatedTotal m; reconnectsTotal := reconnectsTotal m + 1;
     snapshotReconcilesTotal := snapshotReconcilesTotal m; snapshotItems := snapshotItems m;
     lastEventTimeUnix := lastEventTimeUnix m |}.

Definition snapshot_done (items : Z) (m : Metrics) : Metrics :=
  {| streamConnected := streamConnected m; lastEventTimeSeconds := lastEventTimeSeconds m;
     eventsIngestedTotal := eventsIngestedTotal m;
     eventsDeduplicatedTotal := eventsDeduplicatedTotal m; reconnectsTotal := reconnectsTotal m;
     snapshotReconcilesTotal := snapshotReconcilesTotal m + 1; snapshotItems := items;
     lastEventTimeUnix := lastEventTimeUnix m |}.

(** [t.Unix()] of a time in nanoseconds since the epoch. *)
Definition Unix (t : Z) : Z := t / Second.

(** advanceLastEventTime run without interference: the compare-and-swap of the
    first round succeeds. *)
Definition advanceLastEventTime (t : Z) (m : Metrics) : Metrics :=
  let next := Unix t in
  let current := lastEventTimeUnix m in
  if next <=? current then m else
  {| streamConnected := streamConnected m; lastEventTimeSeconds := next;
     eventsIngestedTotal := eventsIngestedTotal m;
     eventsDeduplicatedTotal := eventsDeduplicatedTotal m; reconnectsTotal := reconnectsTotal m;
     snapshotReconcilesTotal := snapshotReconcilesTotal m; snapshotItems := snapshotItems m;
     lastEventTimeUnix := next |}.

(** ** The client's world *)
Inductive log_entry :=
| LogBackoff (attempt wait : Z)      (* "ingest reconnecting after backoff" *)
| LogDiscarded                       (* "discarding malformed event" *)
| LogRetry (wait : Z)                (* "ingest event persist failed, retrying" *)
| LogCycle (connected : bool).       (* a cycle ended: the trace of Run *)

Record World (D : Type) := {
  w_store : D;
  w_metrics : Metrics;
  w_cancel : option nat;
  w_draws : nat;
  w_ticks : nat;
  w_log : list log_entry
}.
Arguments w_store {D} w.
Arguments w_metrics {D} w.
Arguments w_cancel {D} w.
Arguments w_draws {D} w.
Arguments w_ticks {D} w.
Arguments w_log {D} w.

Definition initial_world {D} (d : D) (cancel : option nat) : World D :=
  {| w_store := d; w_metrics := zero_metrics; w_cancel := cancel; w_draws := 0; w_ticks := 0;
     w_log := [] |}.

(** The replies of the backend during one cycle. *)
Record cycle_env := {
  ce_dial : option error;
  ce_list : error + list ProtoItem;
  ce_watch : option error;
  ce_events : list ItemEvent;
  ce_end : error
}.

Definition EOF : error := ErrNew "EOF".
Definition context_canceled : error := ErrNew "context canceled".

Section client.
Context {D : Type} `{DataStore D}.
Variable clock : nat -> Z.
Variable Int64N : nat -> Z -> Z.
Variable cfg : Config.

Definition on_store {A} (m : M D A) : M (World D) A := fun w =>
  let '(a, d) := m (w_store w) in
  (a, {| w_store := d; w_metrics := w_metrics w; w_cancel := w_cancel w; w_draws := w_draws w;
         w_ticks := w_ticks w; w_log := w_log w |}).

Definition on_metrics (f : Metrics -> Metrics) : M (World D) unit := fun w =>
  (tt, {| w_store := w_store w; w_metrics := f (w_metrics w); w_cancel := w_cancel w;
          w_draws := w_draws w; w_ticks := w_ticks w; w_log := w_log w |}).

Definition log (l : log_entry) : M (World D) unit := fun w =>
  (tt, {| w_store := w_store w; w_metrics := w_metrics w; w_cancel := w_cancel w;
          w_draws := w_draws w; w_ticks := w_ticks w; w_log := w_log w ++ [l] |}).

(** One look at the context: [ctx.Err()], or the [ctx.Done()] case of a select
    whose other case is a timer. *)
Definition ctx_Err : M (World D) (option error) := fun w =>
  (match w_cancel w with Some O => Some context_canceled | _ => None end,
   {| w_store := w_store w; w_metrics := w_metrics w;
      w_cancel := match w_cancel w with Some (S n) => Some n | c => c end;
      w_draws := w_draws w; w_ticks := w_ticks w; w_log := w_log w |}).

Definition time_Now : M (World D) Z := fun w =>
  (clock (w_ticks w),
   {| w_store := w_store w; w_metrics := w_metrics w; w_cancel := w_cancel w;
      w_draws := w_draws w; w_ticks := S (w_ticks w); w_log := w_log w |}).

Definition rand_backoff (attempt : Z) : M (World D) Z := fun w =>
  (backoffDuration (Int64N (w_draws w)) attempt (BackoffBase cfg) (BackoffMax cfg),
   {| w_store := w_store w; w_metrics := w_metrics w; w_cancel := w_cancel w;
      w_draws := S (w_draws w); w_ticks := w_ticks w; w_log := w_log w |}).

(** ** handleEvent *)
Definition event_record (ty : string) (event : ItemEvent) : EventRecord :=
  {| ev_ItemID := GetId (pe_item event); ev_ItemName := GetName (pe_item event);
     ev_EventType := ty; ev_EventTime := AsTime (pe_event_time event) |}.

Definition handleEvent (event : ItemEvent) : M (World D) (option error) :=
  match eventTypeNames (pe_event_type event) with
  | None => ret (Some (ErrWrap "unknown event type" errMalformedEvent))
  | Some eventType =>
      let ev := event_record eventType event in
      let! r := on_store (ds_IngestEvent ev) in
      match r with
      | (_, Some err) => ret (Some (ErrWrap "ingest event" err))
      | (inserted, None) =>
          let! _ := (if inserted : bool
                     then let! _ := on_metrics (inc_ingested eventType) in
                          on_metrics (advanceLastEventTime (ev_EventTime ev))
                     else on_metrics inc_deduplicated) in
          ret None
      end
  end.

(** ** snapshotReconcile *)
Definition snapshot_items (protoItems : list ProtoItem) : list SnapshotItem :=
  (fun i => {| si_ItemID := pi_id i; si_Name := pi_name i |}) <$> protoItems.

Definition snapshotReconcile (resp : error + list ProtoItem) : M (World D) (option error) :=
  match resp with
  | inl err => ret (Some (ErrWrap "ListItems" err))
  | inr protoItems =>
      let items := snapshot_items protoItems in
      let! now := time_Now in
      let! r := on_store (ds_ReconcileSnapshot items now) in
      match r with
      | (_, _, Some err) => ret (Some (ErrWrap "reconcile" err))
      | (_, _, None) =>
          let! _ := on_metrics (snapshot_done (Z.of_nat (length items))) in ret None
      end
  end.

(** ** cycle *)

(** The inner retry loop: [PersistFuel] is reached only by running out of fuel. *)
Inductive persist_result := PersistBreak | PersistCanceled (e : error) | PersistFuel.

Fixpoint persist_event (fuel : nat) (event : ItemEvent) : M (World D) persist_result :=
  match fuel with
  | O => ret PersistFuel
  | S fuel' =>
      let! handleErr := handleEvent event in
      match handleErr with
      | None => ret PersistBreak
      | Some e =>
          if errors_Is e errMalformedEvent
          then let! _ := log LogDiscarded in ret PersistBreak
          else let! _ := log (LogRetry persistRetryDelay) in
               let! done_ := ctx_Err in
               match done_ with
               | Some e => ret (PersistCanceled e)
               | None => persist_event fuel' event
               end
      end
  end.

(** The receive loop; [None] as a result means the fuel ran out. *)
Fixpoint recv_loop (fuel : nat) (events : list ItemEvent) (end_ : error)
    : M (World D) (option (bool * option error)) :=
  match events with
  | [] =>
      if errors_Is end_ EOF
      then ret (Some (true, Some (ErrWrap "stream closed by server" end_)))
      else ret (Some (true, Some (ErrWrap "stream recv" end_)))
  | event :: events' =>
      let! r := persist_event fuel event in
      match r with
      | PersistBreak => recv_loop fuel events' end_
      | PersistCanceled e => ret (Some (true, Some e))
      | PersistFuel => ret None
      end
  end.

Definition cycle (fuel : nat) (env : cycle_env) : M (World D) (option (bool * option error)) :=
  match ce_dial env with
  | Some err =>
      let! _ := on_metrics (set_streamConnected 0) in
      ret (Some (false, Some (ErrWrap ("dial " +:+ BackendAddr cfg) err)))
  | None =>
      let! reconcileErr := snapshotReconcile (ce_list env) in
      match reconcileErr with
      | Some err =>
          let! _ := on_metrics (set_streamConnected 0) in
          ret (Some (false, Some (ErrWrap "snapshot reconcile" err)))
      | None =>
          match ce_watch env with
          | Some err =>
              let! _ := on_metrics (set_streamConnected 0) in
              ret (Some (false, Some (ErrWrap "open watch stream" err)))
          | None =>
              let! _ := on_metrics (set_streamConnected 1) in
              defer (on_metrics (set_streamConnected 0))
                (recv_loop fuel (ce_events env) (ce_end env))
          end
      end
  end.

(** ** Run *)

(** The loop over the cycles the backend goes through: it stops when the context
    is done, and is [Running] with its attempt counter after the last cycle
    given. *)
Inductive run_result := Stopped | Running (attempt : Z) | RunFuel.

(** The wait before a retry; true if the context ended it. *)
Definition backoff_wait (attempt : Z) : M (World D) bool :=
  if 0 <? attempt then
    let! _ := on_metrics inc_reconnects in
    let! wait := rand_backoff attempt in
    let! _ := log (LogBackoff attempt wait) in
    let! done_ := ctx_Err in
    ret (bool_decide (is_Some done_))
  else ret false.

Fixpoint Run (fuel : nat) (envs : list cycle_env) (attempt : Z) : M (World D) run_result :=
  match envs with
  | [] => ret (Running attempt)
  | env :: envs' =>
      let! err := ctx_Err in
      match err with
      | Some _ => ret Stopped
      | None =>
          let! stop := backoff_wait attempt in
          if stop : bool then ret Stopped else
          let! r := cycle fuel env in
          match r with
          | None => ret RunFuel
          | Some (connected, _) =>
              let! _ := log (LogCycle connected) in
              let! err2 := ctx_Err in
              match err2 with
              | Some _ => ret Stopped
              | None =>
                  let attempt := if connected : bool then 0 else attempt in
                  Run fuel envs' (wrap64 (attempt + 1))
              end
          end
      end
  end.
End client.
