(* ===== verification/IngestProps.v ===== *)
(** * IngestProps: the contract of the ingestion client

    Backoff bounds, event handling on every branch, no event of a stream lost
    while the store has a finite number of failures ahead, the gauges, the
    attempt counter of the reconnect loop, and the watermark under interleaving. *)
From S2P Require Import Prelude GoInt GoEnv Database Tables Session.
From S2P Require Import Store StoreBatch BatchEquiv Invariant StoreProps Ingest.
Local Open Scope Z_scope.
Local Open Scope go_scope.

(** ** What the client relies on

    [faults] counts the failures still ahead; [room n] says the store can take
    [n] more events; [ready ev n] that it can take [ev] and [n] more; [landed]
    that an event is recorded; [evolves] that the store went through its own
    operations only. *)
Class DataStoreSpec (D : Type) `{DataStore D} := {
  faults : D -> nat;
  room : nat -> D -> Prop;
  ready : EventRecord -> nat -> D -> Prop;
  landed : EventRecord -> D -> Prop;
  evolves : D -> D -> Prop;
  evolves_refl : forall d, evolves d d;
  evolves_trans : forall d1 d2 d3, evolves d1 d2 -> evolves d2 d3 -> evolves d1 d3;
  landed_evolves : forall ev d d', evolves d d' -> landed ev d -> landed ev d';
  room_ready : forall ev n d, room (S n) d -> valid_event_type (ev_EventType ev) = true -> ready ev n d;
  room_weaken : forall n d, room (S n) d -> room n d;
  ingest_ok : forall ev n d b d', ready ev n d -> ds_IngestEvent ev d = ((b, None), d') ->
    room n d' /\ landed ev d' /\ evolves d d' /\ (faults d' <= faults d)%nat;
  ingest_err : forall ev n d b e d', ready ev n d -> ds_IngestEvent ev d = ((b, Some e), d') ->
    ready ev n d' /\ evolves d d' /\ (faults d' < faults d)%nat /\
    errors_Is e errMalformedEvent = false;
  reconcile_keeps : forall items t n d r d', room n d -> ds_ReconcileSnapshot items t d = (r, d') ->
    room n d' /\ evolves d d' /\ (faults d' <= faults d)%nat
}.

(** ** backoffDuration *)
Lemma backoff_delay_range attempt base maxDelay :
  int64_range base -> int64_range maxDelay ->
  0 < backoff_delay attempt base maxDelay <= (if maxDelay <=? 0 then 30 * Second else maxDelay).
Proof.
  intros Hb Hm. unfold backoff_delay. cbv zeta.
  set (M := if maxDelay <=? 0 then 30 * Second else maxDelay).
  assert (0 < M) by (subst M; case_match; bool_solve; [unfold Second; lia|lia]).
  destruct ((wrap64 _ <=? 0) || (M <? wrap64 _)) eqn:E; [lia|]. bool_solve. lia.
Qed.

Lemma backoff_delay_exact attempt base maxDelay :
  let b := if base <=? 0 then Second else base in
  let doubled := b * 2 ^ Z.min (Z.max attempt 1 - 1) 30 in
  doubled <= max_int64 ->
  backoff_delay attempt base maxDelay = Z.min doubled (if maxDelay <=? 0 then 30 * Second else maxDelay).
Proof.
  intros b doubled Hover. unfold backoff_delay. fold b. unfold doubled in *. clear doubled. cbv zeta.
  assert (0 < b) as Hb by (subst b; case_match; bool_solve; [unfold Second; lia|lia]).
  clearbody b. set (M := if maxDelay <=? 0 then _ else _).
  assert (0 < M) as Hm by (subst M; case_match; bool_solve; [unfold Second; lia|lia]). clearbody M.
  assert ((if attempt <? 1 then 1 else attempt) = Z.max attempt 1) as ->
    by (destruct (attempt <? 1) eqn:E; bool_solve; lia).
  set (k := Z.min (Z.max attempt 1 - 1) 30) in *. rewrite Z.shiftl_1_l.
  assert (1 <= 2 ^ k <= 2 ^ 30) as Hk.
  { split; [pose proof (Z.pow_pos_nonneg 2 k); lia|]. apply Z.pow_le_mono_r; lia. }
  rewrite wrap64_id by (unfold int64_range, min_int64, max_int64 in *; nia).
  destruct (_ || _) eqn:E; bool_solve; [|nia].
  apply orb_true_iff in E as [E|E]; bool_solve; nia.
Qed.

(** The result for a jitter draw. *)
Lemma backoff_draw (Int64N : Z -> Z) attempt base maxDelay :
  int64_range base -> int64_range maxDelay ->
  (forall n, 0 < n -> 0 <= Int64N n < n) ->
  let delay := backoff_delay attempt base maxDelay in
  delay / 2 <= backoffDuration Int64N attempt base maxDelay <= delay.
Proof.
  intros Hb Hm Hrand delay. pose proof (backoff_delay_range attempt base maxDelay Hb Hm) as Hd.
  fold delay in Hd.
  assert (delay <= max_int64) as Hmax.
  { destruct (maxDelay <=? 0); unfold int64_range, Second, max_int64 in *; lia. }
  unfold backoffDuration. fold delay. rewrite Z.quot_div_nonneg by lia.
  assert (0 <= delay / 2 /\ 2 * (delay / 2) <= delay) as [Hh1 Hh2]
    by (Z.to_euclidean_division_equations; lia).
  unfold max_int64 in Hmax.
  rewrite (wrap64_id (delay / 2 + 1)) by (unfold int64_range, min_int64, max_int64; lia).
  pose proof (Hrand (delay / 2 + 1) ltac:(lia)).
  rewrite wrap64_id by (unfold int64_range, min_int64, max_int64; lia). lia.
Qed.

(** ** The client against the interface *)
Definition well_formed (event : ItemEvent) : Prop := is_Some (eventTypeNames (pe_event_type event)).

Lemma eventTypeNames_valid n ty : eventTypeNames n = Some ty -> valid_event_type ty = true.
Proof. unfold eventTypeNames. repeat case_match; intros [= <-]; reflexivity. Qed.

Section client_lemmas.
Context {D : Type} {store : DataStore D} {spec : DataStoreSpec D}.
Variables (clock : nat -> Z) (Int64N : nat -> Z -> Z) (cfg : Config).

Lemma handleEvent_malformed event (w : World D) :
  eventTypeNames (pe_event_type event) = None ->
  handleEvent event w = (Some (ErrWrap "unknown event type" errMalformedEvent), w).
Proof. unfold handleEvent. by intros ->. Qed.

Lemma handleEvent_ready ty event n (w : World D) :
  eventTypeNames (pe_event_type event) = Some ty ->
  ready (event_record ty event) n (w_store w) ->
  let '(r, w') := handleEvent event w in
  evolves (w_store w) (w_store w') /\ w_cancel w' = w_cancel w /\
  (faults (w_store w') <= faults (w_store w))%nat /\
  match r with
  | None => room n (w_store w') /\ landed (event_record ty event) (w_store w')
  | Some e => errors_Is e errMalformedEvent = false /\
      ready (event_record ty event) n (w_store w') /\
      (faults (w_store w') < faults (w_store w))%nat
  end.
Proof.
  intros Hty Hready. unfold handleEvent. rewrite Hty. unfold bind, on_store.
  destruct (ds_IngestEvent _ (w_store w)) as [[b [e|]] d'] eqn:E.
  - destruct (ingest_err _ _ _ _ _ _ Hready E) as (Hr & Hev & Hf & Hmal). simpl.
    rewrite Hmal. split_and!; try done. lia.
  - destruct (ingest_ok _ _ _ _ _ Hready E) as (Hr & Hl & Hev & Hf). by destruct b.
Qed.

Lemma persist_event_ready fuel ty event n (w : World D) :
  eventTypeNames (pe_event_type event) = Some ty ->
  ready (event_record ty event) n (w_store w) -> (faults (w_store w) < fuel)%nat ->
  let '(r, w') := persist_event fuel event w in
  evolves (w_store w) (w_store w') /\ (faults (w_store w') <= faults (w_store w))%nat /\
  r <> PersistFuel /\
  (w_cancel w = None -> w_cancel w' = None /\ r = PersistBreak) /\
  (r = PersistBreak -> room n (w_store w') /\ landed (event_record ty event) (w_store w')).
Proof.
  intros Hty. revert w. induction fuel as [|fuel IH]; intros w Hready Hfuel; [lia|].
  simpl. unfold bind at 1. pose proof (handleEvent_ready ty event n w Hty Hready) as Hh.
  destruct (handleEvent event w) as [[e|] w1]; destruct Hh as (Hev & Hc & Hf & Hcase).
  2:{ simpl. split_and!; try done. by rewrite Hc. }
  destruct Hcase as (Hmal & Hready1 & Hlt). rewrite Hmal. unfold bind, log, ctx_Err; simpl.
  rewrite Hc. destruct (w_cancel w) as [[|k]|] eqn:Ek; simpl; [done|..];
    (match goal with |- context [persist_event fuel event ?w2] =>
       specialize (IH w2); destruct (persist_event fuel event w2) as [r w'] end);
    simpl in IH; destruct (IH Hready1 ltac:(lia)) as (Hev2 & Hf2 & Hr & Hnone & Hbrk);
    (split_and!; [by eapply evolves_trans|lia|done| |done]); [done|intros _; by apply Hnone].
Qed.

Lemma persist_event_malformed fuel event (w : World D) :
  eventTypeNames (pe_event_type event) = None ->
  exists w', persist_event (S fuel) event w = (PersistBreak, w') /\
    w_store w' = w_store w /\ w_cancel w' = w_cancel w /\ w_metrics w' = w_metrics w.
Proof.
  intros Hty. simpl. unfold bind at 1. rewrite handleEvent_malformed by done.
  simpl. unfold bind, log, ret. eexists. split; [done|]. done.
Qed.

Lemma recv_loop_spec fuel events end_ (w : World D) :
  room (length events) (w_store w) -> (faults (w_store w) < fuel)%nat ->
  let '(r, w') := recv_loop fuel events end_ w in
  evolves (w_store w) (w_store w') /\ (exists e, r = Some (true, Some e)) /\
  (w_cancel w = None -> w_cancel w' = None /\
    forall event ty, event ∈ events -> eventTypeNames (pe_event_type event) = Some ty ->
      landed (event_record ty event) (w_store w')).
Proof.
  revert w. induction events as [|event events IH]; intros w Hroom Hfuel.
  { simpl. destruct (errors_Is end_ EOF); simpl; split_and!; eauto using evolves_refl;
      intros Hc; split; try done; by intros ? ? ?%not_elem_of_nil. }
  cbn [recv_loop length] in *. unfold bind at 1.
  destruct (eventTypeNames (pe_event_type event)) as [ty|] eqn:Hty.
  - assert (ready (event_record ty event) (length events) (w_store w)) as Hready
      by (apply room_ready; [done|by eapply eventTypeNames_valid]).
    pose proof (persist_event_ready fuel ty event _ w Hty Hready Hfuel) as Hp.
    destruct (persist_event fuel event w) as [r w1].
    destruct Hp as (Hev & Hf & Hr & Hnone & Hbrk).
    destruct r as [|e|]; [| |done].
    + destruct (Hbrk eq_refl) as [Hroom1 Hland]. specialize (IH w1 Hroom1 ltac:(lia)).
      destruct (recv_loop fuel events end_ w1) as [r' w'].
      destruct IH as (Hev' & Hres & Hall). split_and!; [by eapply evolves_trans|done|].
      intros Hc. destruct (Hall (proj1 (Hnone Hc))) as [Hc' Hland']. split; [done|].
      intros event' ty' [->|Hin]%elem_of_cons Hty'; [|by eapply Hland'].
      simplify_eq. by eapply landed_evolves.
    + simpl. split_and!; [done|eauto|]. intros Hc. destruct (Hnone Hc) as [_ Heq]. done.
  - destruct fuel as [|fuel]; [lia|].
    destruct (persist_event_malformed fuel event w Hty) as (w1 & -> & Hs & Hc & _).
    specialize (IH w1). rewrite Hs, Hc in IH. specialize (IH (room_weaken _ _ Hroom) Hfuel).
    destruct (recv_loop (S fuel) events end_ w1) as [r' w'].
    destruct IH as (Hev' & Hres & Hall). split_and!; [done|done|].
    intros Hcw. destruct (Hall Hcw) as [Hc' Hland']. split; [done|].
    intros event' ty' [->|Hin]%elem_of_cons Hty'; [congruence|by eapply Hland'].
Qed.
End client_lemmas.

(** ** The store behind the interface *)

(** A PostgreSQL-backed store: its session, and how many transactions it has
    run (each at its own [now()]). *)
Record PgStore := { pg_session : Session; pg_txs : nat }.

Definition outcome_error (o : outcome) : option error :=
  match o with Delivered => None | Refused e | ReplyLost e => Some e end.

(** The sentinel of internal/ingest is private: no database error wraps it. *)
Definition clean (l : list outcome) : Prop :=
  Forall (fun o => forall e, outcome_error o = Some e -> errors_Is e errMalformedEvent = false) l.

Lemma clean_tail l : clean l -> clean (tail l).
Proof. unfold clean. destruct 1; simpl; [constructor|done]. Qed.

Lemma length_tail {A} (l : list A) : length (tail l) = (length l - 1)%nat.
Proof. destruct l; simpl; lia. Qed.

Lemma fails_clean s internal e :
  clean (oracle s) -> fails s internal e ->
  (forall e, internal e -> errors_Is e errMalformedEvent = false) ->
  errors_Is e errMalformedEvent = false.
Proof.
  intros Hclean Hf Hint. unfold clean in *.
  destruct Hf as [Hn|Hn|Hi]; [..|by apply Hint]; unfold next_outcome in Hn;
    (destruct (oracle s) as [|o l]; [done|]); subst o;
    inversion Hclean as [|?? Ho]; subst; by apply Ho.
Qed.

Section pg_store.
Context `{PgTime}.
Variable pg_clock : nat -> pg_time.

Definition pg_run {A} (m : pg_time -> M Session A) : M PgStore A := fun st =>
  let '(a, s) := m (pg_clock (pg_txs st)) (pg_session st) in
  (a, {| pg_session := s; pg_txs := S (pg_txs st) |}).

#[export] Instance pg_data_store : DataStore PgStore := {|
  ds_ReconcileSnapshot items t := pg_run (fun _ => ReconcileSnapshot items t);
  ds_IngestEvent ev := pg_run (fun now => IngestEvent now ev)
|}.

Lemma stmt_clean {A} (r : stmt_result A) e :
  r = SErr e -> (r = SErr check_violation \/ r = SErr bigint_out_of_range \/ exists a d, r = SOk a d) ->
  errors_Is e errMalformedEvent = false.
Proof. intros -> [[= ->]|[[= ->]|(? & ? & [=])]]; reflexivity. Qed.

(** Every call uses up an outcome, and every error is a wrapped cause that does
    not carry the private sentinel. *)
Definition spends (s : Session) (r : option error) (s' : Session) : Prop :=
  clean (oracle s') /\ (length (oracle s') <= length (oracle s))%nat /\
  (oracle s <> [] -> (length (oracle s') < length (oracle s))%nat) /\
  forall e, r = Some e -> errors_Is e errMalformedEvent = false.

Ltac oracle_done :=
  unfold spends; repeat match goal with H : oracle ?x = _ |- context [oracle ?x] => rewrite H end;
  rewrite ?length_tail; split_and!;
  [ repeat apply clean_tail; assumption | lia
  | match goal with |- oracle ?s <> [] -> _ => destruct (oracle s); [done|simpl; lia] end
  | ].

Lemma IngestEvent_spends now ev s :
  working s = None -> clean (oracle s) ->
  wp (IngestEvent now ev) (fun r s' => spends s r.2 s') s.
Proof.
  intros Hw Hclean. unfold IngestEvent. wp_run.
  all: intros; oracle_done; intros err Herr; first [discriminate Herr|injection Herr as <-].
  all: cbn [errors_Is]; rewrite bool_decide_false by done; simpl.
  all: match goal with Hf : fails _ _ ?e |- errors_Is ?e _ = false =>
         refine (fails_clean _ _ _ _ Hf _) end.
  all: first [ solve [repeat match goal with Ho : oracle ?x = _ |- context [oracle ?x] => rewrite Ho end;
                 repeat apply clean_tail; assumption]
             | intros e0 Hint; first [by destruct Hint | eapply stmt_clean; [exact Hint|]] ].
  all: unfold insert_item_event, upsert_bucket, upsert_current_item; repeat case_match; eauto.
Qed.

(** A snapshot reconcile only shortens the list of failures ahead. *)
Lemma ReconcileSnapshot_spends items t s :
  working s = None -> clean (oracle s) ->
  wp (ReconcileSnapshot items t)
    (fun _ s' => clean (oracle s') /\ (length (oracle s') <= length (oracle s))%nat) s.
Proof.
  intros Hw Hclean. unfold ReconcileSnapshot.
  assert (forall s1 s2 : Session, oracle s2 = tail (oracle s1) ->
    clean (oracle s1) /\ (length (oracle s1) <= length (oracle s))%nat ->
    clean (oracle s2) /\ (length (oracle s2) <= length (oracle s))%nat) as Hstep.
  { intros s1 s2 -> [Hc Hl]. rewrite length_tail. split; [by apply clean_tail|lia]. }
  wp_run; [|by eapply Hstep].
  eapply (wp_range_loop (fun _ _ s' => (exists d, working s' = Some d) /\
    clean (oracle s') /\ (length (oracle s') <= length (oracle s))%nat)).
  - split; [eauto|]. by eapply Hstep.
  - intros x l' n s1 ((d & Hw1) & Hs1). unfold reconcile_upsert. wp_run.
    + split; [eauto|]. by eapply Hstep.
    + intros s'' _ _ ->. by eapply Hstep.
  - intros n s1 ((d & Hw1) & Hs1). wp_run; intros s'' _ _ ->; eauto.
Qed.

(** ** The store meets what the client relies on *)
Definition bucket_room (n : nat) (d : DB) : Prop :=
  forall k, bucket_count (event_buckets d) k + Z.of_nat n <= int8_max.

Definition session_ok (s : Session) : Prop := working s = None /\ clean (oracle s).

Definition event_landed (ev : EventRecord) (d : DB) : Prop :=
  is_Some (item_events d !! event_input_key (encode_event ev)).

Definition db_ready (ev : EventRecord) (n : nat) (d : DB) : Prop :=
  valid_event_type (ev_EventType ev) = true /\ bucket_room n d /\
  (event_landed ev d \/ bucket_room (S n) d).

Definition pg_db (st : PgStore) : DB := committed (pg_session st).

Lemma bucket_room_weaken n d : bucket_room (S n) d -> bucket_room n d.
Proof. intros Hr k. specialize (Hr k). lia. Qed.

Lemma ingest_effect_ready now ev n d b d' :
  db_ready ev n d -> ingest_effect now ev d = SOk b d' ->
  bucket_room n d' /\ event_landed ev d'.
Proof.
  intros (Hv & Hroom & Hor) Heff. unfold event_landed in *.
  apply ingest_effect_cases in Heff as (_ & _ & _ & [(_ & Hk & He & Hb)|(_ & Hk & Hc & He & Hb)]).
  - unfold bucket_room. by rewrite He, Hb.
  - rewrite He, lookup_insert_eq. split; [|eauto]. destruct Hor as [[x Hx]|Hroom']; [congruence|].
    intros k. rewrite Hb. unfold bucket_count. rewrite lookup_insert.
    specialize (Hroom' k). unfold bucket_count in Hroom'. case_decide; subst; simpl; lia.
Qed.

Lemma ingest_ready_runs now ev n d :
  db_ready ev n d -> exists b d', ingest_effect now ev d = SOk b d'.
Proof.
  intros (Hv & Hroom & Hor).
  destruct (decide (rows_fit (er_name <$> item_events d) (bk_count <$> event_buckets d)
    [encode_event ev])) as [Hfit|Hno].
  { destruct (ingest_effect_ok now ev d Hfit) as (d' & He & _). eauto. }
  exfalso. apply Hno, rows_fit_cons. split; [done|]. split; [|apply rows_fit_nil].
  rewrite <- events_none_view. intros Hnone. rewrite <- bucket_count_view.
  destruct Hor as [[x Hx]|Hroom']; [congruence|].
  specialize (Hroom' (event_bucket_key (encode_event ev))). lia.
Qed.

Lemma op_after_landed ev op d d' :
  no_retention op -> op_after op d = Some d' -> event_landed ev d -> event_landed ev d'.
Proof.
  unfold event_landed. rewrite <- !not_eq_None_Some, !events_none_view, !not_eq_None_Some.
  intros Hop Haft Hin. destruct op as [now e|now evs|items t|cutoff|m]; cbn [op_after] in Haft.
  - apply ingest_after in Haft as (_ & -> & _). apply names_add_all_dom. by left.
  - apply batch_after in Haft as (_ & -> & _). apply names_add_all_dom. by left.
  - by apply reconcile_after in Haft as (-> & _).
  - done.
  - unfold upsert_seed_marker in Haft. by destruct (_ && _); simplify_eq/=.
Qed.

Definition pg_evolves (st st' : PgStore) : Prop :=
  rtc (store_step no_retention) (pg_db st) (pg_db st').

Lemma step_evolves (op : store_op) s err s' :
  no_retention op -> working s = None -> run_op op s = (err, s') ->
  rtc (store_step no_retention) (committed s) (committed s').
Proof. intros Hop Hs Hrun. apply rtc_once. by apply (store_step_op no_retention op s err s'). Qed.

Lemma landed_steps ev d d' :
  rtc (store_step no_retention) d d' -> event_landed ev d -> event_landed ev d'.
Proof.
  induction 1 as [|d1 d2 d3 Hs _ IH]; [done|]. intros Hl. apply IH.
  destruct Hs as [op s err s' Hop Hs Hrun].
  destruct (run_op_leaves _ _ _ _ Hs Hrun) as [->|Haft]; [done|]. by eapply op_after_landed.
Qed.

Lemma bucket_room_op op n d d' :
  op_after op d = Some d' ->
  match op with OpReconcile _ _ => True | _ => False end -> bucket_room n d -> bucket_room n d'.
Proof.
  destruct op; try done. cbn [op_after]. intros (_ & Hb & _)%reconcile_after _ Hroom.
  unfold bucket_room. by rewrite Hb.
Qed.

(** One ingestion by the store, in the client's terms. *)
Lemma pg_ingest_step ev n st r st' :
  session_ok (pg_session st) -> db_ready ev n (pg_db st) ->
  ds_IngestEvent (DataStore := pg_data_store) ev st = (r, st') ->
  session_ok (pg_session st') /\ pg_evolves st st' /\
  (length (oracle (pg_session st')) <= length (oracle (pg_session st)))%nat /\
  match r.2 with
  | None => bucket_room n (pg_db st') /\ event_landed ev (pg_db st')
  | Some e => db_ready ev n (pg_db st') /\
      (length (oracle (pg_session st')) < length (oracle (pg_session st)))%nat /\
      errors_Is e errMalformedEvent = false
  end.
Proof.
  intros [Hw Hclean] Hready Hrun. unfold ds_IngestEvent, pg_data_store, pg_run in Hrun.
  set (now := pg_clock (pg_txs st)) in *. set (s := pg_session st) in *.
  change (pg_db st) with (committed s) in *.
  destruct (IngestEvent now ev s) as [[b err] s'] eqn:E. injection Hrun as <- <-.
  unfold pg_evolves, pg_db; cbn [pg_session fst snd].
  pose proof (IngestEvent_leaves now ev s Hw) as Hl. rewrite E in Hl.
  destruct Hl as (Hw' & Hcom & Hok).
  pose proof (IngestEvent_spends now ev s Hw Hclean) as Hsp. unfold wp in Hsp. rewrite E in Hsp.
  destruct Hsp as (Hclean' & Hle & Hlt & Herr). cbn [fst snd] in *.
  split_and!; [done| |done|].
  { apply (step_evolves (OpIngest now ev) s err s'); [done..|].
    cbn [run_op]. unfold outcome_of, bind. by rewrite E. }
  destruct err as [e|]; cbn [snd].
  - split_and!; [|apply Hlt|by apply Herr].
    + destruct Hcom as [->|[b' Heff]]; [done|].
      destruct (ingest_effect_ready _ _ _ _ _ _ Hready Heff) as [Hroom Hland].
      destruct Hready as (Hv & _). by split_and!; [| |left].
    + (* with no failure ahead the transaction succeeds *)
      intros Hnil. destruct (ingest_ready_runs now ev n (committed s) Hready) as (b' & d' & Heff).
      pose proof (IngestEvent_computes now ev (committed s)) as Hc. rewrite Heff in Hc.
      assert (s = quiet_session (committed s)) as Hs.
      { destruct s as [c w o]; simpl in *. by subst. }
      rewrite Hs, Hc in E. done.
  - eapply ingest_effect_ready; [exact Hready|by apply Hok].
Qed.

#[export, refine] Instance pg_data_store_spec : @DataStoreSpec PgStore pg_data_store := {|
  faults st := length (oracle (pg_session st));
  room n st := session_ok (pg_session st) /\ bucket_room n (pg_db st);
  ready ev n st := session_ok (pg_session st) /\ db_ready ev n (pg_db st);
  landed ev st := event_landed ev (pg_db st);
  evolves := pg_evolves;
  evolves_refl := _; evolves_trans := _; landed_evolves := _; room_ready := _;
  room_weaken := _; ingest_ok := _; ingest_err := _; reconcile_keeps := _
|}.
Proof.
  - intros st. apply rtc_refl.
  - intros s1 s2 s3. unfold pg_evolves. by intros ? ?; etrans.
  - intros ev s1 s2 Hev. by apply landed_steps.
  - intros ev n st [Hok Hroom] Hv. split; [done|]. split_and!; [done| |by right].
    by apply bucket_room_weaken.
  - intros n st [Hok Hroom]. split; [done|]. by apply bucket_room_weaken.
  - intros ev n st b st' [Hok Hready] Hrun.
    destruct (pg_ingest_step ev n st _ st' Hok Hready Hrun) as (? & ? & ? & ? & ?). done.
  - intros ev n st b e st' [Hok Hready] Hrun.
    destruct (pg_ingest_step ev n st _ st' Hok Hready Hrun) as (? & ? & ? & ? & ? & ?). done.
  - intros items t n st r st' [[Hw Hclean] Hroom] Hrun.
    unfold ds_ReconcileSnapshot, pg_data_store, pg_run in Hrun.
    destruct (ReconcileSnapshot items t (pg_session st)) as [r' s'] eqn:E.
    injection Hrun as <- <-. unfold pg_db; cbn [pg_session].
    pose proof (ReconcileSnapshot_spends items t _ Hw Hclean) as Hsp. unfold wp in Hsp.
    rewrite E in Hsp. destruct Hsp as [Hclean' Hle].
    pose proof (ReconcileSnapshot_leaves items t _ Hw) as Hl. rewrite E in Hl.
    destruct r' as [[up tomb] err]. destruct Hl as (Hw' & Hcom & _).
    split; [split; [done|]|split; [|done]].
    + destruct Hcom as [Hcom|[a' Heff]]; [by rewrite Hcom|].
      eapply (bucket_room_op (OpReconcile items t)); [|done|exact Hroom].
      cbn [op_after]. unfold pg_db. by rewrite Heff.
    + apply (step_evolves (OpReconcile items t) _ err); [done..|].
      cbn [run_op]. unfold outcome_of, bind. by rewrite E.
Defined.
End pg_store.

(** ** The reconnect loop's trace *)

(** The trace of [Run] from a given attempt counter: a cycle after the first is
    preceded by one wait, at the current attempt number and within the cap; a
    connected cycle resets the counter. *)
Fixpoint trace_ok (cap attempt : Z) (waited : bool) (l : list log_entry) : Prop :=
  match l with
  | [] => True
  | LogBackoff a wait :: l' =>
      a = attempt /\ 0 < attempt /\ 0 <= wait <= cap /\ waited = false /\ trace_ok cap attempt true l'
  | LogCycle connected :: l' =>
      (attempt = 0 \/ waited = true) /\
      trace_ok cap ((if connected then 0 else attempt) + 1) false l'
  | _ :: l' => trace_ok cap attempt waited l'
  end.

(** The entries the inner loops append: neither waits nor cycle ends. *)
Definition inner_entry (e : log_entry) : Prop :=
  match e with LogDiscarded | LogRetry _ => True | _ => False end.

Lemma trace_ok_inner cap attempt waited l1 l2 :
  Forall inner_entry l1 -> trace_ok cap attempt waited (l1 ++ l2) <-> trace_ok cap attempt waited l2.
Proof. induction 1 as [|e l1 He _ IH]; [done|]. by destruct e. Qed.

Section trace.
Context {D : Type} {store : DataStore D}.
Variables (clock : nat -> Z) (Int64N : nat -> Z -> Z) (cfg : Config).

Definition appends {A} (m : M (World D) A) : Prop :=
  forall w, exists l, Forall inner_entry l /\ w_log (m w).2 = w_log w ++ l /\
    (w_cancel w = None -> w_cancel (m w).2 = None).

Lemma appends_ret {A} (a : A) : appends (ret a).
Proof. intros w. exists []. by rewrite app_nil_r. Qed.

Lemma appends_bind {A B} (m : M (World D) A) (k : A -> M (World D) B) :
  appends m -> (forall a, appends (k a)) -> appends (bind m k).
Proof.
  intros Hm Hk w. unfold bind. destruct (Hm w) as (l1 & H1 & Hl1 & Hc1).
  destruct (m w) as [a w1]. destruct (Hk a w1) as (l2 & H2 & Hl2 & Hc2).
  exists (l1 ++ l2). rewrite Hl2. cbn [snd] in *. rewrite Hl1, app_assoc.
  split_and!; [by apply Forall_app|done|auto].
Qed.

Lemma appends_on_store {A} (m : M D A) : appends (on_store m).
Proof.
  intros w. exists []. unfold on_store. rewrite app_nil_r. by destruct (m (w_store w)).
Qed.

Lemma appends_on_metrics f : appends (on_metrics f).
Proof. intros w. exists []. by rewrite app_nil_r. Qed.

Lemma appends_log e : inner_entry e -> appends (log e).
Proof. intros He w. exists [e]. split_and!; [by apply Forall_singleton|done..]. Qed.

Lemma appends_ctx_Err : appends ctx_Err.
Proof. intros w. exists []. rewrite app_nil_r. split_and!; [done..|]. simpl. by intros ->. Qed.

Lemma appends_time_Now : appends (time_Now clock).
Proof. intros w. exists []. by rewrite app_nil_r. Qed.

Create HintDb appends.
#[local] Hint Resolve appends_ret appends_bind appends_on_store appends_on_metrics appends_log
  appends_ctx_Err appends_time_Now : appends.

Ltac appends_run :=
  repeat first
    [ apply appends_bind; [|intros ?]
    | progress eauto with appends
    | match goal with |- appends (match ?x with _ => _ end) => destruct x end
    | apply appends_log; exact I ].

Lemma appends_handleEvent event : appends (handleEvent event).
Proof. unfold handleEvent. appends_run. Qed.

Lemma appends_persist fuel event : appends (persist_event fuel event).
Proof.
  induction fuel as [|fuel IH]; simpl; [auto with appends|].
  apply appends_bind; [apply appends_handleEvent|intros [e|]]; appends_run.
Qed.

Lemma appends_recv fuel events end_ : appends (recv_loop fuel events end_).
Proof.
  induction events as [|event events IH]; simpl; [appends_run|].
  apply appends_bind; [apply appends_persist|intros [|e|]]; appends_run.
Qed.

Lemma appends_cycle fuel env : appends (cycle clock cfg fuel env).
Proof.
  unfold cycle, snapshotReconcile, defer. destruct (ce_dial env); [appends_run|].
  apply appends_bind; [appends_run|intros [e|]]; [appends_run|].
  destruct (ce_watch env); [appends_run|].
  apply appends_bind; [appends_run|intros ?].
  apply appends_bind; [apply appends_recv|intros ?]. appends_run.
Qed.

Definition backoff_cap : Z := if BackoffMax cfg <=? 0 then 30 * Second else BackoffMax cfg.

Lemma ctx_Err_spec (w : World D) :
  let '(e, w') := ctx_Err w in
  w_log w' = w_log w /\ (w_cancel w = None -> e = None /\ w_cancel w' = None).
Proof. simpl. split; [done|]. by intros ->. Qed.

Lemma backoff_wait_spec attempt (w : World D) :
  int64_range (BackoffBase cfg) -> int64_range (BackoffMax cfg) ->
  (forall i n, 0 < n -> 0 <= Int64N i n < n) -> 0 <= attempt ->
  let '(stop, w') := backoff_wait Int64N cfg attempt w in
  (w_cancel w = None -> stop = false /\ w_cancel w' = None) /\
  exists l, w_log w' = w_log w ++ l /\
    ((attempt = 0 /\ l = []) \/
     exists wait, 0 < attempt /\ l = [LogBackoff attempt wait] /\ 0 <= wait <= backoff_cap).
Proof.
  intros Hb Hm Hrand Ha. unfold backoff_wait. destruct (0 <? attempt) eqn:E; bool_solve.
  - simpl. split; [by intros ->|]. eexists. split; [done|]. right. eexists.
    split_and!; [done|done| |].
    all: pose proof (backoff_draw (Int64N (w_draws w)) attempt _ _ Hb Hm (Hrand _)) as Hd;
      pose proof (backoff_delay_range attempt _ _ Hb Hm) as Hr; cbv zeta in Hd; unfold backoff_cap;
      pose proof (Z.div_pos (backoff_delay attempt (BackoffBase cfg) (BackoffMax cfg)) 2); lia.
  - simpl. split; [done|]. exists []. rewrite app_nil_r. split; [done|]. left. split; [lia|done].
Qed.

Lemma Run_trace fuel envs attempt (w : World D) :
  int64_range (BackoffBase cfg) -> int64_range (BackoffMax cfg) ->
  (forall i n, 0 < n -> 0 <= Int64N i n < n) ->
  0 <= attempt -> attempt + Z.of_nat (length envs) <= max_int64 ->
  let '(r, w') := Run clock Int64N cfg fuel envs attempt w in
  (exists l, w_log w' = w_log w ++ l /\ trace_ok backoff_cap attempt false l) /\
  (w_cancel w = None -> r <> Stopped).
Proof.
  intros Hb Hm Hrand. revert attempt w. induction envs as [|env envs IH]; intros attempt w Ha Hlen.
  { simpl. split; [|done]. exists []. by rewrite app_nil_r. }
  cbn [Run length] in *. unfold bind at 1. pose proof (ctx_Err_spec w) as H0.
  destruct (ctx_Err w) as [e0 w0]. destruct H0 as [Hl0 Hc0].
  destruct e0 as [e0|].
  { simpl. split; [|intros Hc; by destruct (Hc0 Hc)]. exists []. by rewrite app_nil_r. }
  unfold bind at 1. pose proof (backoff_wait_spec attempt w0 Hb Hm Hrand Ha) as H1.
  destruct (backoff_wait _ _ attempt w0) as [stop w1]. destruct H1 as (Hc1 & l1 & Hl1 & Hcase).
  rewrite Hl0 in Hl1.
  assert (forall l, trace_ok backoff_cap attempt true l \/ attempt = 0 /\ trace_ok backoff_cap attempt false l ->
    trace_ok backoff_cap attempt false (l1 ++ l)) as Hwait.
  { destruct Hcase as [[-> ->]|(wait & Hpos & -> & Hwait)]; simpl; [|naive_solver lia].
    intros l [Hl|[_ Hl]]; [|done]. clear -Hl. induction l as [|[] l IH]; simpl in *; naive_solver. }
  destruct stop.
  { simpl. split; [|intros Hc; destruct (Hc0 Hc) as [_ Hc']; by destruct (Hc1 Hc')].
    exists l1. split; [done|]. rewrite <- (app_nil_r l1). apply Hwait. by left. }
  unfold bind at 1. destruct (appends_cycle fuel env w1) as (l2 & Hi2 & Hl2 & Hc2).
  destruct (cycle _ _ fuel env w1) as [r w2]. cbn [snd] in Hl2, Hc2. rewrite Hl1 in Hl2.
  destruct r as [[connected err]|].
  2:{ simpl. split; [|done]. exists (l1 ++ l2). rewrite app_assoc. split; [done|].
      apply Hwait. left. rewrite <- (app_nil_r l2). by apply trace_ok_inner. }
  unfold bind at 1, log at 1. set (w3 := {| w_store := w_store w2 |}).
  unfold bind at 1. pose proof (ctx_Err_spec w3) as H3.
  destruct (ctx_Err w3) as [e3 w4]. destruct H3 as [Hl4 Hc4].
  change (w_log w3) with (w_log w2 ++ [LogCycle connected]) in Hl4. rewrite Hl2 in Hl4.
  change (w_cancel w3) with (w_cancel w2) in Hc4.
  assert (w_cancel w = None -> w_cancel w4 = None /\ e3 = None) as Hcw.
  { intros Hc. destruct (Hc0 Hc) as [_ Hcc]. destruct (Hc1 Hcc) as [_ Hccc].
    destruct (Hc4 (Hc2 Hccc)). done. }
  assert (forall l, trace_ok backoff_cap ((if connected then 0 else attempt) + 1) false l ->
    trace_ok backoff_cap attempt false (l1 ++ l2 ++ LogCycle connected :: l)) as Htrace.
  { intros l Hl. apply Hwait. rewrite !trace_ok_inner by done. simpl.
    destruct Hcase as [[-> _]|(? & ? & _)]; [right|left]; auto. }
  destruct e3 as [e3|].
  { simpl. split; [|intros Hc; by destruct (Hcw Hc)]. exists (l1 ++ l2 ++ [LogCycle connected]).
    rewrite Hl4, <- !app_assoc. split; [done|]. by apply Htrace. }
  cbv zeta. assert (0 <= (if connected then 0 else attempt) <= attempt) by (destruct connected; lia).
  rewrite wrap64_id by (unfold int64_range, min_int64; lia).
  specialize (IH ((if connected then 0 else attempt) + 1) w4 ltac:(lia) ltac:(lia)).
  destruct (Run _ _ _ fuel envs _ w4) as [r' w']. destruct IH as [(l & Hl & Hok) Hns].
  split; [|intros Hc; by apply Hns, Hcw].
  exists (l1 ++ l2 ++ LogCycle connected :: l). rewrite Hl, Hl4, <- !app_assoc. split; [done|].
  by apply Htrace.
Qed.
End trace.

(** ** One cycle *)
Section cycle_lemmas.
Context {D : Type} {store : DataStore D} {spec : DataStoreSpec D}.
Variables (clock : nat -> Z) (cfg : Config).

Lemma snapshotReconcile_room resp n (w : World D) :
  room n (w_store w) ->
  let '(r, w') := snapshotReconcile clock resp w in
  room n (w_store w') /\ evolves (w_store w) (w_store w') /\
  (faults (w_store w') <= faults (w_store w))%nat /\ w_cancel w' = w_cancel w.
Proof.
  intros Hroom. unfold snapshotReconcile. destruct resp as [e|protoItems].
  { simpl. split_and!; [done|apply evolves_refl|done|done]. }
  unfold bind, time_Now, on_store; simpl.
  destruct (ds_ReconcileSnapshot _ _ (w_store w)) as [[[up tomb] err] d] eqn:E.
  destruct (reconcile_keeps _ _ _ _ _ _ Hroom E) as (Hr & Hev & Hf). by destruct err.
Qed.

Lemma cycle_spec fuel env (w : World D) :
  w_cancel w = None -> room (length (ce_events env)) (w_store w) ->
  (faults (w_store w) < fuel)%nat ->
  let '(r, w') := cycle clock cfg fuel env w in
  evolves (w_store w) (w_store w') /\
  exists connected e, r = Some (connected, Some e) /\
    (connected = true -> forall event ty, event ∈ ce_events env ->
       eventTypeNames (pe_event_type event) = Some ty -> landed (event_record ty event) (w_store w')).
Proof.
  intros Hc Hroom Hf. unfold cycle.
  destruct (ce_dial env); [simpl; split; [apply evolves_refl|by eexists false, _]|].
  unfold bind at 1. pose proof (snapshotReconcile_room (ce_list env) _ w Hroom) as Hs.
  destruct (snapshotReconcile clock (ce_list env) w) as [[e|] w1].
  { destruct Hs as (_ & Hev & _). split; [exact Hev|]. by eexists false, _. }
  destruct Hs as (Hroom1 & Hev1 & Hf1 & Hc1).
  destruct (ce_watch env); [split; [exact Hev1|]; by eexists false, _|]. unfold defer, bind, on_metrics, ret; cbn [fst snd].
  set (w2 := {| w_store := w_store w1 |}).
  pose proof (recv_loop_spec fuel (ce_events env) (ce_end env) w2 Hroom1) as Hr.
  destruct (recv_loop fuel (ce_events env) (ce_end env) w2) as [r w3].
  destruct Hr as (Hev2 & [e ->] & Hall); [subst w2; simpl; lia|]. cbn [w_store].
  split; [by eapply evolves_trans|]. exists true, e. split; [done|]. intros _.
  apply Hall. subst w2. simpl. by rewrite Hc1.
Qed.
End cycle_lemmas.

(** The event handler never touches the stream gauge. *)
Section gauge.
Context {D : Type} {store : DataStore D}.

Lemma handleEvent_gauge event (w : World D) :
  streamConnected (w_metrics (handleEvent event w).2) = streamConnected (w_metrics w).
Proof.
  unfold handleEvent. destruct (eventTypeNames _); [|done]. unfold bind, on_store.
  destruct (ds_IngestEvent _ (w_store w)) as [[[] [e|]] d]; try done. simpl.
  unfold advanceLastEventTime. by case_match.
Qed.

Lemma persist_event_gauge fuel event (w : World D) :
  streamConnected (w_metrics (persist_event fuel event w).2) = streamConnected (w_metrics w).
Proof.
  revert w. induction fuel as [|fuel IH]; intros w; [done|]. simpl. unfold bind at 1.
  pose proof (handleEvent_gauge event w) as Hg.
  destruct (handleEvent event w) as [[e|] w1]; simpl in Hg; [|done].
  destruct (errors_Is e _); [done|]. unfold bind, log, ctx_Err; simpl.
  destruct (w_cancel w1) as [[|n]|]; simpl; [done|by rewrite IH..].
Qed.

Lemma recv_loop_gauge fuel events end_ (w : World D) :
  streamConnected (w_metrics (recv_loop fuel events end_ w).2) = streamConnected (w_metrics w).
Proof.
  revert w. induction events as [|event events IH]; intros w; simpl; [by case_match|].
  unfold bind. pose proof (persist_event_gauge fuel event w) as Hg.
  destruct (persist_event fuel event w) as [[|e|] w1]; simpl in Hg; [by rewrite IH|done..].
Qed.
End gauge.

(** ** Properties *)

(** C22: Backoff bounds. For every attempt number and every int64 base and cap, the
    wait is between half the delay and the delay, and the delay is positive and at
    most the cap (30 s if the cap is not positive).  The delay is the base (1 s if
    not positive) doubled once per attempt after the first, at most thirty times,
    and capped, whenever that product fits an int64; where it does not, the product
    wraps and only the bounds hold ([backoff_wraps]). *)
Theorem backoffDuration_bounds Int64N attempt base maxDelay :
  int64_range base -> int64_range maxDelay ->
  (forall n, 0 < n -> 0 <= Int64N n < n) ->
  let delay := backoff_delay attempt base maxDelay in
  delay / 2 <= backoffDuration Int64N attempt base maxDelay <= delay /\
  let cap := if maxDelay <=? 0 then 30 * Second else maxDelay in
  let doubled := (if base <=? 0 then Second else base) * 2 ^ Z.min (Z.max attempt 1 - 1) 30 in
  0 < delay <= cap /\ (doubled <= max_int64 -> delay = Z.min doubled cap).
Proof.
  intros Hb Hm Hrand delay. split; [by apply backoff_draw|]. cbv zeta.
  split; [by apply backoff_delay_range|]. by apply backoff_delay_exact.
Qed.

(** The multiply can overflow. The shift is capped at 30, but with a base of
    2^34 + 1 ns (17.2 s) the product wraps past 2^64 to a small positive number:
    the 31st and every later attempt waits at most 1.08 s, less than a tenth of
    the base, instead of the cap. *)
Theorem backoff_wraps Int64N attempt :
  (forall n, 0 < n -> 0 <= Int64N n < n) -> 31 <= attempt -> int64_range attempt ->
  let base := 2^34 + 1 in
  10 * backoffDuration Int64N attempt base (60 * Second) < base /\
  30 * Second - 1 <= backoffDuration Int64N 30 base (60 * Second).
Proof.
  intros Hrand Ha Hr base.
  assert (backoff_delay attempt base (60 * Second) = 2^30) as Hd.
  { unfold backoff_delay. rewrite (proj2 (Z.ltb_ge attempt 1)) by lia.
    rewrite Z.min_r by lia. reflexivity. }
  assert (forall a, let delay := backoff_delay a base (60 * Second) in
    delay / 2 <= backoffDuration Int64N a base (60 * Second) <= delay) as Hdraw
    by (intros a; apply backoff_draw; [unfold base, int64_range..|exact Hrand];
        vm_compute; split; discriminate).
  pose proof (Hdraw attempt) as H1. pose proof (Hdraw 30) as H2. cbv zeta in H1, H2.
  rewrite Hd in H1. change (backoff_delay 30 base (60 * Second)) with (60 * Second) in H2.
  unfold base, Second in *. Z.to_euclidean_division_equations. lia.
Qed.

Section properties.
Context {D : Type} {store : DataStore D}.

(** handleEvent, every branch. An unknown enum value is refused as
    malformed without a call to the store or any metric; a store failure is
    wrapped and counts nothing; a new event counts under its type and advances
    the watermark; a replayed one counts as deduplicated only. The store is asked
    with the message's item, name and time, absent submessages reading as zero. *)
Theorem handleEvent_branches event (w : World D) :
  match eventTypeNames (pe_event_type event) with
  | None => exists e, handleEvent event w = (Some e, w) /\ errors_Is e errMalformedEvent = true
  | Some ty =>
      let ev := {| ev_ItemID := GetId (pe_item event); ev_ItemName := GetName (pe_item event);
                   ev_EventType := ty; ev_EventTime := AsTime (pe_event_time event) |} in
      let '((inserted, err), d) := ds_IngestEvent ev (w_store w) in
      let '(r, w') := handleEvent event w in
      w_store w' = d /\ w_cancel w' = w_cancel w /\ w_log w' = w_log w /\
      match err with
      | Some e => r = Some (ErrWrap "ingest event" e) /\ w_metrics w' = w_metrics w
      | None => r = None /\ w_metrics w' =
          if inserted : bool
          then advanceLastEventTime (ev_EventTime ev) (inc_ingested ty (w_metrics w))
          else inc_deduplicated (w_metrics w)
      end
  end.
Proof.
  unfold handleEvent. destruct (eventTypeNames _) as [ty|]; [|eexists; split; reflexivity].
  cbv zeta. unfold bind, on_store, event_record.
  destruct (ds_IngestEvent _ (w_store w)) as [[inserted [e|]] d]; [done|].
  by destruct inserted.
Qed.

(** The stream gauge. While a stream's events are being received the gauge
    keeps the value 1 that opening the stream set, and whenever a cycle ends, on
    any of its paths, the gauge is 0. *)
Theorem stream_gauge clock cfg fuel env (w : World D) :
  streamConnected (w_metrics (cycle clock cfg fuel env w).2) = 0 /\
  forall fuel events end_ (w1 : World D),
    streamConnected (w_metrics (recv_loop fuel events end_ w1).2) = streamConnected (w_metrics w1).
Proof.
  split.
  - unfold cycle, snapshotReconcile, defer, bind, on_metrics, on_store, ret.
    repeat case_match; simplify_eq/=; done.
  - apply recv_loop_gauge.
Qed.

(** C15: No event of a stream is lost. Against any store that meets the
    interface and has finitely many failures ahead, with retries bounded by more
    than that number, a cycle that is not canceled always ends with an error
    (never by running out of retries), and if the stream was opened then every
    well-formed event it delivered is recorded in the store: a failing event is
    retried before the next one is received, a malformed one is skipped. *)
Theorem cycle_lands_every_event {spec : DataStoreSpec D} clock cfg fuel env (w : World D) :
  w_cancel w = None -> room (length (ce_events env)) (w_store w) ->
  (faults (w_store w) < fuel)%nat ->
  let '(r, w') := cycle clock cfg fuel env w in
  exists connected e, r = Some (connected, Some e) /\
    (connected = true -> forall event ty, event ∈ ce_events env ->
       eventTypeNames (pe_event_type event) = Some ty -> landed (event_record ty event) (w_store w')).
Proof.
  intros Hc Hroom Hf. pose proof (cycle_spec clock cfg fuel env w Hc Hroom Hf) as Hs.
  destruct (cycle clock cfg fuel env w) as [r w']. apply Hs.
Qed.

(** C21: The reconnect loop. Until the context is canceled Run never stops. Each
    cycle but the first is preceded by exactly one wait; its attempt number is
    one more than the number of cycles that failed to connect since the last one
    that did (a connected cycle resets it), and the wait is at most the cap. *)
Theorem Run_backoff_trace clock Int64N cfg fuel envs (d : D) cancel :
  int64_range (BackoffBase cfg) -> int64_range (BackoffMax cfg) ->
  (forall i n, 0 < n -> 0 <= Int64N i n < n) ->
  Z.of_nat (length envs) <= max_int64 ->
  let '(r, w') := Run clock Int64N cfg fuel envs 0 (initial_world d cancel) in
  trace_ok (backoff_cap cfg) 0 false (w_log w') /\ (cancel = None -> r <> Stopped).
Proof.
  intros Hb Hm Hrand Hlen.
  pose proof (Run_trace clock Int64N cfg fuel envs 0 (initial_world d cancel) Hb Hm Hrand) as Ht.
  destruct (Run _ _ _ fuel envs 0 _) as [r w'].
  destruct Ht as [(l & -> & Hok) Hns]; [lia|lia|done].
Qed.
End properties.

(** C3: Exactly-once ingestion end to end. Let the client run a cycle on the
    PostgreSQL store, from any database reached without retention, under any
    finite list of failures (refused calls, lost replies, ambiguous commits).
    Afterwards every bucket counts exactly its distinct raw events, and if the
    stream was opened every well-formed event it delivered is among them. *)
Theorem ingest_cycle_exactly_once `{PgTime} pg_clock clock cfg fuel env (w : World PgStore) :
  reachable no_retention (pg_db (w_store w)) -> session_ok (pg_session (w_store w)) ->
  bucket_room (length (ce_events env)) (pg_db (w_store w)) ->
  w_cancel w = None -> (length (oracle (pg_session (w_store w))) < fuel)%nat ->
  let '(r, w') := cycle (H := pg_data_store pg_clock) clock cfg fuel env w in
  let d' := pg_db (w_store w') in
  (forall k, raw_count (er_name <$> item_events d') k = bucket_count (event_buckets d') k) /\
  exists connected e, r = Some (connected, Some e) /\
    (connected = true -> forall event ty, event ∈ ce_events env ->
       eventTypeNames (pe_event_type event) = Some ty ->
       is_Some (item_events d' !! event_input_key (encode_event (event_record ty event)))).
Proof.
  intros Hreach Hok Hroom Hc Hf.
  pose proof (cycle_spec (store := pg_data_store pg_clock) (spec := pg_data_store_spec pg_clock)
    clock cfg fuel env w Hc (conj Hok Hroom) Hf) as Hs.
  destruct (cycle clock cfg fuel env w) as [r w']. destruct Hs as [Hev Hres]. cbv zeta.
  split; [|exact Hres]. apply no_retention_exact. unfold reachable in *.
  etrans; [exact Hreach|exact Hev].
Qed.

(** ** Witnesses *)
Lemma backoffDuration_bounds_witness :
  4 * Second / 2 <= backoffDuration (fun n => n - 1) 3 Second (30 * Second) <= 4 * Second.
Proof.
  apply (backoffDuration_bounds (fun n => n - 1) 3 Second (30 * Second)).
  - vm_compute. split; discriminate.
  - vm_compute. split; discriminate.
  - intros n Hn. lia.
Defined.

Lemma backoff_wraps_witness :
  10 * backoffDuration (fun n => n - 1) 40 (2^34 + 1) (60 * Second) < 2^34 + 1 /\
  30 * Second - 1 <= backoffDuration (fun n => n - 1) 30 (2^34 + 1) (60 * Second).
Proof.
  apply (backoff_wraps (fun n => n - 1) 40).
  - intros n Hn. lia.
  - lia.
  - vm_compute. split; discriminate.
Defined.

(** A store whose first commit is ambiguous, and a stream with a creation, a
    message of an unknown type and a deletion. *)
Definition demo_store : PgStore :=
  {| pg_session := {| committed := empty_db; working := None;
       oracle := repeat Delivered 7 ++ [ReplyLost (ErrNew "unexpected EOF")] |};
     pg_txs := 0 |}.

Definition demo_env : cycle_env :=
  {| ce_dial := None; ce_list := inr []; ce_watch := None;
     ce_events := [
       {| pe_event_type := 1; pe_item := Some {| pi_id := 7; pi_name := "lamp" |};
          pe_event_time := Some 5000000 |};
       {| pe_event_type := 9; pe_item := None; pe_event_time := None |};
       {| pe_event_type := 3; pe_item := Some {| pi_id := 7; pi_name := "lamp" |};
          pe_event_time := Some 6000000 |} ];
     ce_end := EOF |}.

Definition demo_cfg : Config := ConfigFromEnv empty_env.

Definition demo_clock (n : nat) : Z := Z.of_nat n.

Lemma demo_store_room n : (n <= 1000)%nat -> bucket_room n (pg_db demo_store).
Proof.
  intros Hn k. unfold bucket_count, pg_db, demo_store; simpl. rewrite lookup_empty.
  unfold int8_max. lia.
Defined.

Lemma demo_store_ok : session_ok (pg_session demo_store).
Proof.
  split; [reflexivity|]. unfold clean, demo_store; cbn [pg_session oracle repeat app].
  repeat (apply Forall_cons; split; [by intros e [=]|]).
  apply Forall_cons. split; [by intros e [= <-]|by apply Forall_nil].
Defined.

Lemma cycle_lands_every_event_witness :
  let '(r, w') := cycle (H := pg_data_store demo_clock) demo_clock demo_cfg 10 demo_env
                    (initial_world demo_store None) in
  exists connected e, r = Some (connected, Some e) /\
    (connected = true -> forall event ty, event ∈ ce_events demo_env ->
       eventTypeNames (pe_event_type event) = Some ty ->
       event_landed (event_record ty event) (pg_db (w_store w'))).
Proof.
  apply (cycle_lands_every_event (store := pg_data_store demo_clock)
    (spec := pg_data_store_spec demo_clock) demo_clock demo_cfg 10 demo_env
    (initial_world demo_store None)).
  - reflexivity.
  - split; [exact demo_store_ok|]. apply demo_store_room. simpl. lia.
  - simpl. lia.
Defined.

Lemma Run_backoff_trace_witness :
  let '(r, w') := Run (H := pg_data_store demo_clock) demo_clock (fun _ n => n - 1) demo_cfg 10
                    [demo_env; demo_env] 0 (initial_world demo_store (Some 20%nat)) in
  trace_ok (backoff_cap demo_cfg) 0 false (w_log w') /\ (Some 20%nat = None -> r <> Stopped).
Proof.
  apply (Run_backoff_trace (store := pg_data_store demo_clock) demo_clock (fun _ n => n - 1) demo_cfg 10
    [demo_env; demo_env] demo_store (Some 20%nat)).
  - vm_compute. split; discriminate.
  - vm_compute. split; discriminate.
  - intros i n Hn. lia.
  - vm_compute. discriminate.
Defined.

Lemma ingest_cycle_exactly_once_witness :
  let '(r, w') := cycle (H := pg_data_store demo_clock) demo_clock demo_cfg 10 demo_env
                    (initial_world demo_store None) in
  let d' := pg_db (w_store w') in
  (forall k, raw_count (er_name <$> item_events d') k = bucket_count (event_buckets d') k) /\
  exists connected e, r = Some (connected, Some e) /\
    (connected = true -> forall event ty, event ∈ ce_events demo_env ->
       eventTypeNames (pe_event_type event) = Some ty ->
       is_Some (item_events d' !! event_input_key (encode_event (event_record ty event)))).
Proof.
  apply (ingest_cycle_exactly_once demo_clock demo_clock demo_cfg 10 demo_env
    (initial_world demo_store None)).
  - apply rtc_refl.
  - exact demo_store_ok.
  - apply demo_store_room. simpl. lia.
  - reflexivity.
  - simpl. lia.
Defined.

(** What that run does: the ambiguous commit is retried and deduplicated. *)
Example demo_cycle_runs :
  let w' := (cycle (H := pg_data_store demo_clock) demo_clock demo_cfg 10 demo_env
               (initial_world demo_store None)).2 in
  w_log w' = [LogRetry Second; LogDiscarded] /\
  bucket_count (event_buckets (pg_db (w_store w'))) (0, "created") = 1 /\
  eventsDeduplicatedTotal (w_metrics w') = 1.
Proof. vm_compute. repeat split. Qed.
