(* ===== verification/Watermark.v ===== *)
(** * Watermark: advanceLastEventTime under interleaving (internal/ingest/metrics.go)

    [metrics.go] guards the watermark with a compare-and-swap loop so that it
    "stays correct" should a second writer ever appear.  The loop is modelled
    here step by step (load, compare-and-swap, gauge write) for any number of
    concurrent callers. *)
From S2P Require Import Prelude GoInt Ingest.
Local Open Scope Z_scope.

(** Where a caller is in the loop of [advanceLastEventTime]. *)
Inductive pc :=
| PLoad                    (* about to load *)
| PSwap (current : Z)      (* loaded [current]: compare, then swap *)
| PSet                     (* swapped: about to set the gauge *)
| PReturn.

Record thread := { th_next : Z; th_pc : pc }.

Record wstate := { ws_unix : Z; ws_gauge : Z; ws_threads : list thread }.

Definition at_pc (p : pc) (th : thread) : thread := {| th_next := th_next th; th_pc := p |}.

(** One atomic action of a caller: (caller, lastEventTimeUnix, gauge) after it. *)
Definition thread_step (th : thread) (unix gauge : Z) : option (thread * Z * Z) :=
  match th_pc th with
  | PLoad => Some (at_pc (PSwap unix) th, unix, gauge)
  | PSwap current =>
      if th_next th <=? current then Some (at_pc PReturn th, unix, gauge)
      else if unix =? current then Some (at_pc PSet th, th_next th, gauge)
      else Some (at_pc PLoad th, unix, gauge)
  | PSet => Some (at_pc PReturn th, unix, th_next th)
  | PReturn => None
  end.

Inductive wstep : wstate -> wstate -> Prop :=
| wstep_thread i th th' unix gauge threads unix' gauge' :
    threads !! i = Some th -> thread_step th unix gauge = Some (th', unix', gauge') ->
    wstep {| ws_unix := unix; ws_gauge := gauge; ws_threads := threads |}
          {| ws_unix := unix'; ws_gauge := gauge'; ws_threads := <[i := th']> threads |}.

(** Callers about to report the given times, on a watermark at [unix0]. *)
Definition wstart (unix0 gauge0 : Z) (nexts : list Z) : wstate :=
  {| ws_unix := unix0; ws_gauge := gauge0;
     ws_threads := (fun n => {| th_next := n; th_pc := PLoad |}) <$> nexts |}.

Definition all_returned (s : wstate) : Prop := Forall (fun th => th_pc th = PReturn) (ws_threads s).

(** ** Invariant of every interleaving *)
Definition thread_inv (unix : Z) (th : thread) : Prop :=
  match th_pc th with
  | PLoad => True
  | PSwap current => current <= unix
  | PSet | PReturn => th_next th <= unix
  end.

Definition watermark_inv (unix0 : Z) (nexts : list Z) (s : wstate) : Prop :=
  th_next <$> ws_threads s = nexts /\
  unix0 <= ws_unix s /\ ws_unix s ∈ unix0 :: nexts /\
  Forall (thread_inv (ws_unix s)) (ws_threads s).

Lemma thread_inv_mono u u' th : u <= u' -> thread_inv u th -> thread_inv u' th.
Proof. unfold thread_inv. destruct (th_pc th); lia. Qed.

Lemma thread_step_inv th unix gauge th' unix' gauge' :
  thread_inv unix th -> thread_step th unix gauge = Some (th', unix', gauge') ->
  unix <= unix' /\ thread_inv unix' th' /\ th_next th' = th_next th /\
  (unix' = unix \/ unix' = th_next th).
Proof.
  unfold thread_step, thread_inv. destruct (th_pc th) as [|c| |]; intros Hinv Hs;
    repeat (case_match; simplify_eq/=); bool_solve; simpl; auto with lia.
Qed.

Lemma watermark_step unix0 nexts s s' :
  watermark_inv unix0 nexts s -> wstep s s' -> watermark_inv unix0 nexts s'.
Proof.
  intros (Hn & Hle & Hin & Hall) Hs. destruct Hs as [i th th' u g ths u' g' Hi Hth]. simpl in *.
  pose proof (proj1 (Forall_lookup _ _) Hall i th Hi) as Hinv.
  destruct (thread_step_inv _ _ _ _ _ _ Hinv Hth) as (Hu & Hinv' & Hnext & Hor).
  unfold watermark_inv; simpl. split_and!.
  - rewrite list_fmap_insert, Hnext. rewrite list_insert_id; [done|].
    by rewrite list_lookup_fmap, Hi.
  - lia.
  - destruct Hor as [->| ->]; [done|]. right. rewrite <- Hn. apply list_elem_of_fmap_2.
    by eapply list_elem_of_lookup_2.
  - apply Forall_insert; [|done]. eapply Forall_impl; [exact Hall|].
    intros x. by apply thread_inv_mono.
Qed.

Lemma watermark_reach unix0 nexts s s' :
  watermark_inv unix0 nexts s -> rtc wstep s s' -> watermark_inv unix0 nexts s'.
Proof. intros Hinv. induction 1; [done|]. eauto using watermark_step. Qed.

Lemma watermark_start unix0 gauge0 nexts : watermark_inv unix0 nexts (wstart unix0 gauge0 nexts).
Proof.
  unfold watermark_inv, wstart; simpl. split_and!; [|lia|by left|].
  - rewrite <- list_fmap_compose. apply list_fmap_id.
  - apply Forall_fmap, Forall_true. done.
Qed.

(** ** Properties *)

(** C23: The atomic watermark. However the calls of advanceLastEventTime
    interleave, once all have returned lastEventTimeUnix is the maximum of its
    initial value and the reported times. *)
Theorem watermark_is_max unix0 gauge0 nexts s :
  rtc wstep (wstart unix0 gauge0 nexts) s -> all_returned s ->
  ws_unix s ∈ unix0 :: nexts /\ forall t, t ∈ unix0 :: nexts -> t <= ws_unix s.
Proof.
  intros Hr Hret. pose proof (watermark_reach _ _ _ _ (watermark_start unix0 gauge0 nexts) Hr)
    as (Hn & Hle & Hin & Hall).
  split; [done|]. intros t [->|Ht]%elem_of_cons; [done|]. rewrite <- Hn in Ht.
  apply list_elem_of_fmap in Ht as (th & -> & Hth). unfold all_returned in Hret.
  rewrite Forall_forall in Hret, Hall. specialize (Hall th Hth). unfold thread_inv in Hall.
  by rewrite (Hret th Hth) in Hall.
Qed.

(** The gauge has no such guarantee. With two callers, the gauge write that
    follows the compare-and-swap can be overtaken: both calls return, the atomic
    watermark is at the newer time and the exported gauge at the older one. *)
Theorem watermark_gauge_regresses :
  exists s, rtc wstep (wstart 0 0 [10; 20]) s /\ all_returned s /\
    ws_unix s = 20 /\ ws_gauge s = 10.
Proof.
  eexists. split; [|split; [|split]].
  - unfold wstart; simpl.
    eapply rtc_l; [eapply (wstep_thread 0); reflexivity|simpl].
    eapply rtc_l; [eapply (wstep_thread 0); reflexivity|simpl].
    eapply rtc_l; [eapply (wstep_thread 1); reflexivity|simpl].
    eapply rtc_l; [eapply (wstep_thread 1); reflexivity|simpl].
    eapply rtc_l; [eapply (wstep_thread 1); reflexivity|simpl].
    eapply rtc_l; [eapply (wstep_thread 0); reflexivity|simpl].
    apply rtc_refl.
  - repeat constructor.
  - reflexivity.
  - reflexivity.
Qed.

(** A single writer. With one caller at a time, as the service runs it, the
    step-by-step loop ends exactly where [advanceLastEventTime] does, and the
    watermark never goes back. *)
Theorem watermark_single_writer t m s :
  rtc wstep (wstart (lastEventTimeUnix m) (lastEventTimeSeconds m) [Unix t]) s -> all_returned s ->
  ws_unix s = lastEventTimeUnix (advanceLastEventTime t m) /\
  ws_gauge s = lastEventTimeSeconds (advanceLastEventTime t m) /\
  lastEventTimeUnix m <= ws_unix s.
Proof.
  set (u := lastEventTimeUnix m). set (g := lastEventTimeSeconds m). set (n := Unix t).
  intros Hr Hret.
  assert (s = wstart u g [n] \/
    s = {| ws_unix := u; ws_gauge := g; ws_threads := [{| th_next := n; th_pc := PSwap u |}] |} \/
    (u < n /\ s = {| ws_unix := n; ws_gauge := g; ws_threads := [{| th_next := n; th_pc := PSet |}] |}) \/
    (u < n /\ s = {| ws_unix := n; ws_gauge := n; ws_threads := [{| th_next := n; th_pc := PReturn |}] |}) \/
    (n <= u /\ s = {| ws_unix := u; ws_gauge := g; ws_threads := [{| th_next := n; th_pc := PReturn |}] |}))
    as Hcases.
  { clear Hret. pattern s. revert s Hr. apply rtc_ind_r; [by left|]. intros s1 s2 _ Hs IH.
    destruct Hs as [[|i] th th' u1 g1 ths u' g' Hi Hth];
      (destruct IH as [IH|[IH|[[Hlt IH]|[[Hlt IH]|[Hlt IH]]]]]; unfold wstart in IH; simplify_eq/=);
      unfold thread_step in Hth; simpl in Hth; repeat (case_match; simplify_eq/=); bool_solve; naive_solver lia. }
  unfold advanceLastEventTime. fold u n g.
  unfold all_returned in Hret. destruct Hcases as [->|[->|[[_ ->]|[[Hlt ->]|[Hle ->]]]]]; simpl in *;
    try by inversion Hret.
  - rewrite (proj2 (Z.leb_gt n u)) by done. simpl. lia.
  - rewrite (proj2 (Z.leb_le n u)) by done. subst u g. lia.
Qed.

(** ** Witnesses *)
Lemma watermark_is_max_witness :
  exists s, rtc wstep (wstart 3 3 [7]) s /\ ws_unix s ∈ [3; 7] /\
    forall t, t ∈ [3; 7] -> t <= ws_unix s.
Proof.
  eexists. assert (rtc wstep (wstart 3 3 [7])
    {| ws_unix := 7; ws_gauge := 7; ws_threads := [{| th_next := 7; th_pc := PReturn |}] |}) as Hr.
  { unfold wstart; simpl.
    eapply rtc_l; [eapply (wstep_thread 0); reflexivity|simpl].
    eapply rtc_l; [eapply (wstep_thread 0); reflexivity|simpl].
    eapply rtc_l; [eapply (wstep_thread 0); reflexivity|simpl]. apply rtc_refl. }
  split; [exact Hr|]. apply (watermark_is_max 3 3 [7] _ Hr). repeat constructor.
Defined.

Lemma watermark_single_writer_witness :
  7 = lastEventTimeUnix (advanceLastEventTime (7 * Second) zero_metrics) /\
  7 = lastEventTimeSeconds (advanceLastEventTime (7 * Second) zero_metrics) /\ 0 <= 7.
Proof.
  apply (watermark_single_writer (7 * Second) zero_metrics
    {| ws_unix := 7; ws_gauge := 7; ws_threads := [{| th_next := 7; th_pc := PReturn |}] |}).
  - unfold wstart; simpl.
    eapply rtc_l; [eapply (wstep_thread 0); reflexivity|simpl].
    eapply rtc_l; [eapply (wstep_thread 0); reflexivity|simpl].
    eapply rtc_l; [eapply (wstep_thread 0); reflexivity|simpl]. apply rtc_refl.
  - repeat constructor.
Defined.
