(* ===== verification/Retention.v ===== *)
(** * Retention: the data lifecycle job (internal/retention)

    [config.go], [metrics.go] and [retention.go]: reading the configuration, one
    retention pass, and the loop that runs one pass at startup and one per tick.
    The runner is written against the interface [RetentionStore]; [pg_retention]
    is the store of [Store.v] behind it. *)
From S2P Require Import Prelude GoInt GoFloat GoEnv Database Session Store Invariant StoreProps.
Local Open Scope Z_scope.
Local Open Scope go_scope.

(** ** config.go *)
Record Config := { Interval : Z; RetentionDays : Z }.

Definition envDuration (env : Environ) (key : string) (def : Z) : Z :=
  let v := Getenv env key in
  if String.eqb v "" then def else
  match ParseDuration v with
  | inl _ => def
  | inr d => if d <=? 0 then def else d
  end.

Definition envInt (env : Environ) (key : string) (def : Z) : Z :=
  let v := Getenv env key in
  if String.eqb v "" then def else
  match Atoi v with
  | inl _ => def
  | inr n => if n <=? 0 then def else n
  end.

Definition ConfigFromEnv (env : Environ) : Config :=
  {| Interval := envDuration env "ANALYTICS_RETENTION_INTERVAL" Hour;
     RetentionDays := envInt env "ANALYTICS_RETENTION_DAYS" 7 |}.

(** ** The interface to the store *)
Class RetentionStore (D : Type) := {
  ds_DeleteEventsOlderThan : Z -> M D (Z * option error)
}.

#[export] Instance pg_retention `{PgTime} : RetentionStore Session := {|
  ds_DeleteEventsOlderThan := DeleteEventsOlderThan
|}.

(** ** metrics.go *)
Record Metrics := {
  runs_success : Z;
  runs_failure : Z;
  deletedRowsTotal : Z;
  lastSuccessTimestampSeconds : Z;
  runDurations : list Z          (* the observations of the histogram *)
}.

Definition zero_metrics : Metrics :=
  {| runs_success := 0; runs_failure := 0; deletedRowsTotal := 0;
     lastSuccessTimestampSeconds := 0; runDurations := [] |}.

Definition run_failed (duration : Z) (m : Metrics) : Metrics :=
  {| runs_success := runs_success m; runs_failure := runs_failure m + 1;
     deletedRowsTotal := deletedRowsTotal m;
     lastSuccessTimestampSeconds := lastSuccessTimestampSeconds m;
     runDurations := runDurations m ++ [duration] |}.

Definition run_succeeded (start duration deleted : Z) (m : Metrics) : Metrics :=
  {| runs_success := runs_success m + 1; runs_failure := runs_failure m;
     deletedRowsTotal := deletedRowsTotal m + deleted;
     lastSuccessTimestampSeconds := start / Second;
     runDurations := runDurations m ++ [duration] |}.

(** [t.AddDate(0, 0, days)] in UTC: whole days on the int64 seconds of the time,
    which wrap; the nanoseconds within the second are kept. *)
Definition AddDate_days (t days : Z) : Z :=
  wrap64 (t / Second + days * 86400) * Second + t mod Second.

Record World (D : Type) := { w_store : D; w_metrics : Metrics; w_ticks : nat }.
Arguments w_store {D} w.
Arguments w_metrics {D} w.
Arguments w_ticks {D} w.

(** What the [select] of the loop saw. *)
Inductive select_case := CtxDone | Tick.

(** [time.NewTicker] panics on an interval that is not positive. *)
Inductive run_result := Returned | Ticking | Panicked.

Section runner.
Context {D : Type} `{RetentionStore D}.
Variable clock : nat -> Z.
Variable cfg : Config.

Definition on_store {A} (m : M D A) : M (World D) A := fun w =>
  let '(a, d) := m (w_store w) in
  (a, {| w_store := d; w_metrics := w_metrics w; w_ticks := w_ticks w |}).

Definition on_metrics (f : Metrics -> Metrics) : M (World D) unit := fun w =>
  (tt, {| w_store := w_store w; w_metrics := f (w_metrics w); w_ticks := w_ticks w |}).

Definition time_Now : M (World D) Z := fun w =>
  (clock (w_ticks w),
   {| w_store := w_store w; w_metrics := w_metrics w; w_ticks := S (w_ticks w) |}).

Definition runOnce : M (World D) unit :=
  let! start := time_Now in
  let cutoff := AddDate_days start (- RetentionDays cfg) in
  let! r := on_store (ds_DeleteEventsOlderThan cutoff) in
  let! finish := time_Now in
  let duration := finish - start in
  match r with
  | (_, Some err) => on_metrics (run_failed duration)
  | (deleted, None) => on_metrics (run_succeeded start duration deleted)
  end.

Definition RunOnce : M (World D) unit := runOnce.

Fixpoint tick_loop (selects : list select_case) : M (World D) run_result :=
  match selects with
  | [] => ret Ticking
  | CtxDone :: _ => ret Returned
  | Tick :: selects' => let! _ := runOnce in tick_loop selects'
  end.

Definition Run (selects : list select_case) : M (World D) run_result :=
  let! _ := runOnce in
  if Interval cfg <=? 0 then ret Panicked else tick_loop selects.
End runner.

(** ** Lemmas *)
Lemma AddDate_days_exact t days :
  int64_range (t / Second + days * 86400) -> AddDate_days t days = t + days * 86400 * Second.
Proof.
  intros Hr. unfold AddDate_days. rewrite wrap64_id by done.
  pose proof (Z.div_mod t Second ltac:(unfold Second; lia)). lia.
Qed.

(** On the range of a timestamptz the seconds of the cutoff do not wrap. *)
Lemma cutoff_seconds t days :
  timestamptz_range (t - days * (24 * Hour)) -> int64_range (t / Second + - days * 86400).
Proof.
  intros [Hlo Hhi]. replace (t - days * (24 * Hour)) with (t + - days * 86400 * Second) in *
    by (unfold Hour, Minute, Second; lia).
  assert ((t + - days * 86400 * Second) / Second = t / Second + - days * 86400) as <-
    by (apply Z.div_add; unfold Second; lia).
  revert Hlo Hhi. generalize (t + - days * 86400 * Second). intros c.
  unfold int64_range, min_int64, max_int64, Second. Z.to_euclidean_division_equations. lia.
Qed.

(** The ticks the loop serves before the context is done. *)
Fixpoint ticks_served (selects : list select_case) : nat :=
  match selects with
  | Tick :: selects' => S (ticks_served selects')
  | _ => O
  end.

Section lemmas.
Context {D : Type} {store : RetentionStore D}.
Variables (clock : nat -> Z) (cfg : Config).

Definition runs (m : Metrics) : Z := runs_success m + runs_failure m.

Lemma runOnce_counts (w : World D) :
  let '(_, w') := runOnce clock cfg w in
  runs (w_metrics w') = runs (w_metrics w) + 1 /\
  length (runDurations (w_metrics w')) = S (length (runDurations (w_metrics w))).
Proof.
  unfold runOnce, bind, time_Now, on_store; simpl.
  destruct (ds_DeleteEventsOlderThan _ (w_store w)) as [[n [e|]] d]; simpl;
    rewrite length_app; unfold runs; simpl; lia.
Qed.

Lemma tick_loop_counts selects (w : World D) :
  let '(r, w') := tick_loop clock cfg selects w in
  runs (w_metrics w') = runs (w_metrics w) + Z.of_nat (ticks_served selects) /\
  (r = Returned <-> CtxDone ∈ selects) /\ r <> Panicked.
Proof.
  revert w. induction selects as [|[] selects IH]; intros w; simpl.
  - split_and!; [lia|split; [done|by intros ?%not_elem_of_nil]|done].
  - split_and!; [lia|split; [left|done]|done].
  - unfold bind. pose proof (runOnce_counts w) as H1. destruct (runOnce clock cfg w) as [[] w1].
    specialize (IH w1). destruct (tick_loop clock cfg selects w1) as [r w'].
    destruct H1 as [H1 _], IH as (H2 & H3 & H4). split_and!; [lia| |done].
    rewrite H3, elem_of_cons. naive_solver.
Qed.
End lemmas.

Lemma config_interval env : 0 < Interval (ConfigFromEnv env) <= max_int64.
Proof.
  unfold ConfigFromEnv, envDuration; cbn [Interval]. generalize (Getenv env "ANALYTICS_RETENTION_INTERVAL").
  assert (0 < Hour <= max_int64) by (vm_compute; split; [reflexivity|discriminate]).
  intros v. destruct (String.eqb v ""); [done|]. destruct (ParseDuration v) as [|d] eqn:E; [done|].
  apply ParseDuration_range in E. unfold int64_range in E.
  destruct (d <=? 0) eqn:Hd; bool_solve; [done|lia].
Qed.

Lemma config_days env : 0 < RetentionDays (ConfigFromEnv env) <= max_int64.
Proof.
  unfold ConfigFromEnv, envInt; cbn [RetentionDays]. generalize (Getenv env "ANALYTICS_RETENTION_DAYS").
  assert (0 < 7 <= max_int64) by (unfold max_int64; lia).
  intros v. destruct (String.eqb v ""); [done|]. destruct (Atoi v) as [|n] eqn:E; [done|].
  apply ParseInt_range in E. unfold int64_range in E.
  destruct (n <=? 0) eqn:Hn; bool_solve; [done|lia].
Qed.

(** ** Properties *)

(** The configuration is always usable: whatever the environment says, the
    interval and the horizon are positive int64 values (an unset, unparsable,
    zero or negative setting falls back to one hour and seven days), so the
    ticker can be created. *)
Theorem retention_config_positive env :
  let cfg := ConfigFromEnv env in
  0 < Interval cfg <= max_int64 /\ 0 < RetentionDays cfg <= max_int64.
Proof. split; [apply config_interval|apply config_days]. Qed.

(** C27: One pass on the PostgreSQL store. With no failure ahead, runOnce
    deletes exactly the raw events older than RetentionDays * 24 hours before
    its start, leaves buckets, items and marker alone, and counts one success and
    the deleted rows; if the call fails it counts one failure and touches neither
    the row counter nor the success timestamp. The duration is observed once
    either way.  The start and the cutoff are times a timestamptz can hold: with
    RetentionDays beyond some 2.4 million the cutoff lies before 4713 BC. *)
Theorem runOnce_spec `{PgTime} clock cfg (w : World Session) :
  let start := clock (w_ticks w) in
  let d := committed (w_store w) in
  let m := w_metrics w in
  timestamptz_range start -> timestamptz_range (start - RetentionDays cfg * (24 * Hour)) ->
  let '(_, w') := runOnce clock cfg w in
  let d' := committed (w_store w') in
  let m' := w_metrics w' in
  length (runDurations m') = S (length (runDurations m)) /\
  match next_outcome (w_store w) with
  | Delivered =>
      (forall id ty t, item_events d' !! (id, ty, t) =
        if decide (t < pg_ts (start - RetentionDays cfg * (24 * Hour))) then None
        else item_events d !! (id, ty, t)) /\
      event_buckets d' = event_buckets d /\ current_items d' = current_items d /\
      seed_marker d' = seed_marker d /\
      runs_success m' = runs_success m + 1 /\ runs_failure m' = runs_failure m /\
      deletedRowsTotal m' = deletedRowsTotal m +
        Z.of_nat (size (item_events d)) - Z.of_nat (size (item_events d'))
  | Refused _ | ReplyLost _ =>
      runs_failure m' = runs_failure m + 1 /\ runs_success m' = runs_success m /\
      deletedRowsTotal m' = deletedRowsTotal m /\
      lastSuccessTimestampSeconds m' = lastSuccessTimestampSeconds m
  end.
Proof.
  cbv zeta. intros Hs Hc. unfold runOnce, bind, time_Now, on_store; cbn [w_store w_metrics w_ticks].
  rewrite AddDate_days_exact by (by apply cutoff_seconds).
  clear Hs Hc. replace (clock (w_ticks w) + - RetentionDays cfg * 86400 * Second)
    with (clock (w_ticks w) - RetentionDays cfg * (24 * Hour)) by (unfold Hour, Minute; lia).
  set (cutoff := clock (w_ticks w) - _).
  cbn [ds_DeleteEventsOlderThan pg_retention]. unfold DeleteEventsOlderThan, pool_Exec, bind, ret.
  destruct (next_outcome (w_store w)) eqn:E; simpl; rewrite length_app; simpl.
  - split; [lia|]. split_and!; try done.
    + intros id ty t. apply delete_lookup.
    + pose proof (delete_size (pg_ts cutoff) (committed (w_store w))) as Hs. simpl in Hs. lia.
  - split; [lia|done].
  - split; [lia|done].
Qed.

(** C28: The loop. Run always makes one pass before looking at the ticker or the
    context, then one per tick, and returns exactly when the context is done; with
    a configuration read from the environment it never panics. *)
Theorem retention_Run_passes {D} {store : RetentionStore D} clock env selects (w : World D) :
  let cfg := ConfigFromEnv env in
  let '(r, w') := Run clock cfg selects w in
  runs (w_metrics w') = runs (w_metrics w) + 1 + Z.of_nat (ticks_served selects) /\
  (r = Returned <-> CtxDone ∈ selects) /\ r <> Panicked.
Proof.
  cbv zeta. unfold Run, bind. set (cfg := ConfigFromEnv env).
  pose proof (runOnce_counts clock cfg w) as H1. destruct (runOnce clock cfg w) as [[] w1].
  destruct H1 as [H1 _]. pose proof (config_interval env) as [Hi _]. fold cfg in Hi.
  rewrite (proj2 (Z.leb_gt _ _) Hi).
  pose proof (tick_loop_counts clock cfg selects w1) as H2.
  destruct (tick_loop clock cfg selects w1) as [r w']. destruct H2 as (H2 & H3 & H4).
  split_and!; [lia|done|done].
Qed.

(** The horizon in days is not bounded above. For a start within 2^40 s (some
    34 000 years) of the epoch: as long as days * 86400 fits
    the int64 seconds the cutoff lies exactly that far in the past; beyond, the
    arithmetic wraps, and a configured horizon of 1.5 * 10^14 days puts the cutoff
    in the future. *)
Theorem retention_cutoff_range t days :
  0 <= t / Second <= 2^40 -> 0 < days ->
  (days * 86400 <= 2^63 -> AddDate_days t (- days) = t - days * (24 * Hour) /\
     AddDate_days t (- days) < t) /\
  (days = 150000000000000 -> t < AddDate_days t (- days)).
Proof.
  intros Ht Hd. split.
  - intros Hle. rewrite AddDate_days_exact.
    + unfold Hour, Minute, Second. lia.
    + unfold int64_range, min_int64, max_int64. lia.
  - intros ->. unfold AddDate_days.
    pose proof (Z.div_mod t Second ltac:(unfold Second; lia)) as Hdm. revert Hdm Ht.
    generalize (t / Second) (t mod Second). intros q r Hdm Hq.
    assert (wrap64 (q + - (150000000000000) * 86400) = q - 150000000000000 * 86400 + 2^64) as ->;
      [|unfold Second in *; lia].
    rewrite <- (wrap64_id (q - 150000000000000 * 86400 + 2^64))
      by (unfold int64_range, min_int64, max_int64; lia).
    apply wrap64_mod. rewrite <- (Z_mod_plus_full _ 1 (2^64)). f_equal.
Qed.

(** ** Witnesses *)
Definition demo_retention_world : World Session :=
  {| w_store := quiet_session batch_db; w_metrics := zero_metrics; w_ticks := 0 |}.

Lemma runOnce_spec_witness :
  let '(_, w') := runOnce (fun n => 700000 * Second + Z.of_nat n)
    {| Interval := Hour; RetentionDays := 7 |} demo_retention_world in
  length (runDurations (w_metrics w')) = 1%nat /\ runs_success (w_metrics w') = 1.
Proof.
  destruct (runOnce_spec (fun n => 700000 * Second + Z.of_nat n)
    {| Interval := Hour; RetentionDays := 7 |} demo_retention_world) as (Hl & _ & _ & _ & _ & Hs & _).
  - vm_compute. split; [discriminate|reflexivity].
  - vm_compute. split; [discriminate|reflexivity].
  - split; [exact Hl|exact Hs].
Defined.

Lemma retention_cutoff_range_witness :
  AddDate_days (1700000000 * Second) (-7) = 1700000000 * Second - 7 * (24 * Hour).
Proof.
  apply (retention_cutoff_range (1700000000 * Second) 7).
  - vm_compute. split; discriminate.
  - lia.
  - vm_compute. discriminate.
Defined.
