(* ===== verification/Worker.v ===== *)
(** * Worker: the two goroutines of the process, step by step

    [Ingest.Run] and [Retention.Run] are functions over a whole run.  Here the same
    loops are step relations whose places are the lines at which the goroutine
    waits or looks at something outside: its context, a timer, a reply of the
    backend, a store operation.  The process of Serve.v interleaves these steps;
    the last part shows that every run of the functions is a run of the steps. *)
From S2P Require Import Prelude GoInt Database Session Store Invariant Ingest IngestProps Retention.
Local Open Scope Z_scope.

(** What a step of a goroutine does or sees. *)
Inductive observation :=
| OCtx (done : bool)                          (* [ctx.Err()], and whether it was done *)
| OCtxDone                                    (* a select taken by [ctx.Done()] *)
| OTimer                                      (* a select taken by [time.After] *)
| OTick                                       (* a select taken by the ticker *)
| ODial (err : option error)
| OList (resp : error + list ProtoItem)
| OWatch (err : option error)
| ORecv (msg : error + ItemEvent)
| ODiscard                                    (* a malformed event *)
| OStore (op : store_op) (err : option error). (* a store operation and its result *)

(** One store operation on an idle connection to the tables, under any failures. *)
Definition op_run `{PgTime} (op : store_op) (d : DB) (err : option error) (d' : DB) : Prop :=
  exists s s', working s = None /\ committed s = d /\ run_op op s = (err, s') /\ committed s' = d'.

(** ** The ingest goroutine (Run, cycle, snapshotReconcile and handleEvent of client.go)

    [a] is the attempt counter. *)
Inductive ingest_pc :=
| IRunCheck (a : Z)                           (* the condition of the loop of Run *)
| IBackoff (a : Z)                            (* its select *)
| IDial (a : Z)
| IListItems (a : Z)
| IReconcile (a : Z) (items : list ProtoItem)
| IWatch (a : Z)
| IRecv (a : Z)
| IHandle (a : Z) (event : ItemEvent)
| IRetry (a : Z) (event : ItemEvent)          (* the select after a failed persist *)
| ICycleDone (a : Z) (connected : bool).      (* the check after the cycle *)

(** The place after a persist attempt: break, or wait to retry the same event. *)
Definition after_handle (a : Z) (event : ItemEvent) (handleErr : option error) : ingest_pc :=
  match handleErr with
  | None => IRecv a
  | Some e => if errors_Is e errMalformedEvent then IRecv a else IRetry a event
  end.

Inductive ingest_step `{PgTime} (done : bool) :
    ingest_pc -> DB -> observation -> option ingest_pc -> DB -> Prop :=
| run_go a d : done = false ->
    ingest_step done (IRunCheck a) d (OCtx false) (Some (if 0 <? a then IBackoff a else IDial a)) d
| run_stop a d : done = true -> ingest_step done (IRunCheck a) d (OCtx true) None d
| backoff_over a d : ingest_step done (IBackoff a) d OTimer (Some (IDial a)) d
| backoff_stop a d : done = true -> ingest_step done (IBackoff a) d OCtxDone None d
| dialed a d err :
    ingest_step done (IDial a) d (ODial err)
      (Some (match err with Some _ => ICycleDone a false | None => IListItems a end)) d
| listed a d resp :
    ingest_step done (IListItems a) d (OList resp)
      (Some (match resp with inl _ => ICycleDone a false | inr items => IReconcile a items end)) d
| reconciled a items d now err d' :
    op_run (OpReconcile (snapshot_items items) now) d err d' ->
    ingest_step done (IReconcile a items) d (OStore (OpReconcile (snapshot_items items) now) err)
      (Some (match err with Some _ => ICycleDone a false | None => IWatch a end)) d'
| watched a d err :
    ingest_step done (IWatch a) d (OWatch err)
      (Some (match err with Some _ => ICycleDone a false | None => IRecv a end)) d
| received a d msg :
    ingest_step done (IRecv a) d (ORecv msg)
      (Some (match msg with inl _ => ICycleDone a true | inr event => IHandle a event end)) d
| discarded a event d :
    eventTypeNames (pe_event_type event) = None ->
    ingest_step done (IHandle a event) d ODiscard
      (Some (after_handle a event (Some (ErrWrap "unknown event type" errMalformedEvent)))) d
| persisted a event ty d now err d' :
    eventTypeNames (pe_event_type event) = Some ty ->
    op_run (OpIngest now (event_record ty event)) d err d' ->
    ingest_step done (IHandle a event) d (OStore (OpIngest now (event_record ty event)) err)
      (Some (after_handle a event (ErrWrap "ingest event" <$> err))) d'
| retry_over a event d : ingest_step done (IRetry a event) d OTimer (Some (IHandle a event)) d
| retry_stop a event d :
    done = true -> ingest_step done (IRetry a event) d OCtxDone (Some (ICycleDone a true)) d
| cycle_stop a connected d : done = true -> ingest_step done (ICycleDone a connected) d (OCtx true) None d
| cycle_again a (connected : bool) d : done = false ->
    ingest_step done (ICycleDone a connected) d (OCtx false)
      (Some (IRunCheck (wrap64 ((if connected then 0 else a) + 1)))) d.

(** ** The retention goroutine (Run and runOnce of retention.go) *)
Inductive retention_pc := RPass | RSelect.

Inductive retention_step `{PgTime} (cfg : Retention.Config) (done : bool) :
    retention_pc -> DB -> observation -> option retention_pc -> DB -> Prop :=
| passed start d err d' :
    let op := OpRetention (AddDate_days start (- RetentionDays cfg)) in
    op_run op d err d' -> retention_step cfg done RPass d (OStore op err) (Some RSelect) d'
| ticked d : retention_step cfg done RSelect d OTick (Some RPass) d
| select_stop d : done = true -> retention_step cfg done RSelect d OCtxDone None d.

(** ** After cancellation

    A step that takes a timer, a tick or a message.  Taken although the context is
    done it is late: both cases of the select were ready, or the message had
    arrived before. *)
Definition arrival (o : observation) : bool :=
  match o with OTimer | OTick | ORecv (inr _) => true | _ => false end.

(** How many steps remain once the context is done. *)
Definition ingest_left (p : ingest_pc) : nat :=
  match p with
  | IRunCheck _ | ICycleDone _ _ => 1 | IRecv _ | IRetry _ _ => 2 | IHandle _ _ | IWatch _ => 3
  | IReconcile _ _ => 4 | IListItems _ => 5 | IDial _ => 6 | IBackoff _ => 7
  end.

Definition retention_left (p : retention_pc) : nat := match p with RPass => 2 | RSelect => 1 end.

Section progress.
Context `{PgTime}.

Lemma op_run_total op d : exists err d', op_run op d err d'.
Proof.
  destruct (run_op op (quiet_session d)) as [err s'] eqn:E. exists err, (committed s').
  by exists (quiet_session d), s'.
Qed.

Lemma op_run_step (allowed : store_op -> Prop) op d err d' :
  allowed op -> op_run op d err d' -> store_step allowed d d'.
Proof. intros Ha (s & s' & Hw & <- & Hrun & <-). by apply (store_step_op allowed op s err s'). Qed.

Lemma after_handle_left a event err : (ingest_left (after_handle a event err) <= 2)%nat.
Proof. unfold after_handle. repeat case_match; simpl; lia. Qed.

Lemma ingest_left_step p d o p' d' :
  ingest_step true p d o p' d' ->
  (default 0 (ingest_left <$> p') + 1 <= ingest_left p + (if arrival o then 2 else 0))%nat.
Proof.
  inversion 1; subst; simpl; try done; try lia;
    try (repeat case_match; simpl; lia);
    match goal with |- context [ingest_left (after_handle ?a ?e ?r)] =>
      pose proof (after_handle_left a e r); lia end.
Qed.

Lemma retention_left_step cfg p d o p' d' :
  retention_step cfg true p d o p' d' ->
  (default 0 (retention_left <$> p') + 1 <= retention_left p + (if arrival o then 2 else 0))%nat.
Proof. inversion 1; subst; simpl; lia. Qed.

(** Once the context is done the goroutine can always go on without an arrival: a
    blocked call on the done context returns, with its error. *)
Lemma ingest_enabled p d : exists o p' d', ingest_step true p d o p' d' /\ arrival o = false.
Proof.
  destruct p as [a|a|a|a|a items|a|a|a event|a event|a c].
  - do 3 eexists. split; [by apply run_stop|done].
  - do 3 eexists. split; [by apply backoff_stop|done].
  - exists (ODial None). do 2 eexists. split; [apply dialed|done].
  - exists (OList (inl context_canceled)). do 2 eexists. split; [apply listed|done].
  - destruct (op_run_total (OpReconcile (snapshot_items items) 0) d) as (err & d' & Ho).
    do 3 eexists. split; [by apply reconciled|done].
  - exists (OWatch (Some context_canceled)). do 2 eexists. split; [apply watched|done].
  - exists (ORecv (inl context_canceled)). do 2 eexists. split; [apply received|done].
  - destruct (eventTypeNames (pe_event_type event)) as [ty|] eqn:Ht.
    + destruct (op_run_total (OpIngest 0 (event_record ty event)) d) as (err & d' & Ho).
      do 3 eexists. split; [by apply persisted|done].
    + do 3 eexists. split; [by apply discarded|done].
  - do 3 eexists. split; [by apply retry_stop|done].
  - do 3 eexists. split; [by apply cycle_stop|done].
Qed.

Lemma retention_enabled cfg p d :
  exists o p' d', retention_step cfg true p d o p' d' /\ arrival o = false.
Proof.
  destruct p.
  - destruct (op_run_total (OpRetention (AddDate_days 0 (- RetentionDays cfg))) d) as (err & d' & Ho).
    do 3 eexists. split; [by apply passed|done].
  - do 3 eexists. split; [by apply select_stop|done].
Qed.

(** A goroutine returns only when it has seen its context done. *)
Lemma ingest_returns done p d o d' : ingest_step done p d o None d' -> done = true.
Proof. by inversion 1. Qed.
Lemma retention_returns cfg done p d o d' : retention_step cfg done p d o None d' -> done = true.
Proof. by inversion 1. Qed.
End progress.

(** ** Runs of the steps

    Each step of a path has the flag of the context at its time. *)
Definition flagged : Type := bool * observation.

Inductive ingest_path `{PgTime} : option ingest_pc -> DB -> list flagged -> option ingest_pc -> DB -> Prop :=
| ingest_path_nil p d : ingest_path p d [] p d
| ingest_path_cons p d done o p1 d1 l p2 d2 :
    ingest_step done p d o p1 d1 -> ingest_path p1 d1 l p2 d2 ->
    ingest_path (Some p) d ((done, o) :: l) p2 d2.

Inductive retention_path `{PgTime} (cfg : Retention.Config) :
    option retention_pc -> DB -> list flagged -> option retention_pc -> DB -> Prop :=
| retention_path_nil p d : retention_path cfg p d [] p d
| retention_path_cons p d done o p1 d1 l p2 d2 :
    retention_step cfg done p d o p1 d1 -> retention_path cfg p1 d1 l p2 d2 ->
    retention_path cfg (Some p) d ((done, o) :: l) p2 d2.

(** The looks of the client at its context: [ctx.Err()] and the selects. *)
Definition look (o : observation) : bool :=
  match o with OCtx _ | OCtxDone | OTimer => true | _ => false end.

Definition is_done (cancel : option nat) : bool := match cancel with Some O => true | _ => false end.
Definition looked (o : observation) (cancel : option nat) : option nat :=
  if look o then match cancel with Some (S n) => Some n | c => c end else cancel.

(** The flags of a path are those of a context that is done after [cancel] looks,
    from then on; [cancel'] looks are left. *)
Fixpoint cancels (cancel : option nat) (l : list flagged) (cancel' : option nat) : Prop :=
  match l with
  | [] => cancel' = cancel
  | (done, o) :: l' => done = is_done cancel /\ cancels (looked o cancel) l' cancel'
  end.

(** The replies of the backend in a path, and the replies a cycle may go through. *)
Definition is_reply (o : observation) : bool :=
  match o with ODial _ | OList _ | OWatch _ | ORecv _ => true | _ => false end.
Definition replies (l : list flagged) : list observation := filter (fun o => is_reply o = true) l.*2.

Definition script (env : cycle_env) : list observation :=
  ODial (ce_dial env) :: (if ce_dial env is Some _ then [] else
  OList (ce_list env) :: (if ce_list env is inl _ then [] else
  OWatch (ce_watch env) :: (if ce_watch env is Some _ then [] else
  ((fun event => ORecv (inr event)) <$> ce_events env) ++ [ORecv (inl (ce_end env))]))).

Section paths.
Context `{PgTime}.

Lemma ingest_path_app p d l1 p1 d1 l2 p2 d2 :
  ingest_path p d l1 p1 d1 -> ingest_path p1 d1 l2 p2 d2 -> ingest_path p d (l1 ++ l2) p2 d2.
Proof. induction 1 as [|p d dn o p1 d1 l p3 d3 Hs _ IH]; [done|]. intros Hl. econstructor; [exact Hs|auto]. Qed.

Lemma retention_path_app cfg p d l1 p1 d1 l2 p2 d2 :
  retention_path cfg p d l1 p1 d1 -> retention_path cfg p1 d1 l2 p2 d2 ->
  retention_path cfg p d (l1 ++ l2) p2 d2.
Proof. induction 1 as [|p d dn o p1 d1 l p3 d3 Hs _ IH]; [done|]. intros Hl. econstructor; [exact Hs|auto]. Qed.

Lemma cancels_app c l1 c1 l2 c2 : cancels c l1 c1 -> cancels c1 l2 c2 -> cancels c (l1 ++ l2) c2.
Proof.
  revert c. induction l1 as [|[dn o] l1 IH]; intros c; simpl; [by intros ->|].
  intros [-> Hl] Hr. split; [done|]. by apply IH.
Qed.

Lemma replies_app l1 l2 : replies (l1 ++ l2) = replies l1 ++ replies l2.
Proof. unfold replies. by rewrite fmap_app, filter_app. Qed.
End paths.

(** ** Every run of the client is such a path *)
Section client.
Context `{PgTime}.
Variable pg_clock : nat -> pg_time.
Variables (clock : nat -> Z) (Int64N : nat -> Z -> Z) (cfg : Ingest.Config).
#[local] Instance client_store : DataStore PgStore := pg_data_store pg_clock.
Abbreviation World := (Ingest.World PgStore).

Definition tables (w : World) : DB := pg_db (Ingest.w_store w).
Definition idle (w : World) : Prop := working (pg_session (Ingest.w_store w)) = None.

(** From one world to another along a path, with the replies [rs]. *)
Definition goes (p : ingest_pc) (w : World) (rs : list observation) (p' : option ingest_pc) (w' : World) : Prop :=
  idle w' /\ exists l, ingest_path (Some p) (tables w) l p' (tables w') /\
    cancels (Ingest.w_cancel w) l (Ingest.w_cancel w') /\ replies l = rs.

Lemma goes_step p w o p' w' :
  ingest_step (is_done (Ingest.w_cancel w)) p (tables w) o p' (tables w') ->
  Ingest.w_cancel w' = looked o (Ingest.w_cancel w) -> idle w' ->
  goes p w (filter (fun o => is_reply o = true) [o]) p' w'.
Proof.
  intros Hs Hc Hw. split; [done|]. exists [(is_done (Ingest.w_cancel w), o)]. split_and!.
  - econstructor; [exact Hs|constructor].
  - by split.
  - done.
Qed.

Lemma goes_trans p w rs p1 w1 rs1 p2 w2 :
  goes p w rs (Some p1) w1 -> goes p1 w1 rs1 p2 w2 -> goes p w (rs ++ rs1) p2 w2.
Proof.
  intros (_ & l & Hl & Hc & <-) (Hw & l1 & Hl1 & Hc1 & <-). split; [done|]. exists (l ++ l1). split_and!.
  - by eapply ingest_path_app.
  - by eapply cancels_app.
  - apply replies_app.
Qed.

(** Metrics, the clock, the random draws and the log are not part of the tables. *)
Definition same (w w' : World) : Prop :=
  Ingest.w_store w' = Ingest.w_store w /\ Ingest.w_cancel w' = Ingest.w_cancel w.

Lemma goes_same p w w1 rs p' w' : same w w1 -> goes p w1 rs p' w' -> goes p w rs p' w'.
Proof. unfold goes, tables. by intros [-> ->]. Qed.

Lemma goes_same_r p w rs p' w1 w' : goes p w rs p' w1 -> same w1 w' -> goes p w rs p' w'.
Proof. unfold goes, tables, idle. intros Hg [-> ->]. exact Hg. Qed.

(** The two operations of the client as store operations. *)
Lemma leaves_op_run {A} op (m : M Session (A * option error)) eff s :
  leaves m eff -> run_op op = outcome_of m -> working s = None ->
  let '((_, err), s') := m s in op_run op (committed s) err (committed s') /\ working s' = None.
Proof.
  intros Hl Hop Hw. specialize (Hl s Hw). destruct (m s) as [[a err] s'] eqn:E.
  destruct Hl as (Hw' & _). split; [|done]. exists s, s'. split_and!; [done|done| |done].
  rewrite Hop. unfold outcome_of, bind. by rewrite E.
Qed.

Lemma ingest_op_run ev st :
  working (pg_session st) = None ->
  let '((_, err), st') := ds_IngestEvent ev st in
  op_run (OpIngest (pg_clock (pg_txs st)) ev) (pg_db st) err (pg_db st') /\
  working (pg_session st') = None.
Proof.
  intros Hw. cbn [ds_IngestEvent client_store pg_data_store]. unfold pg_run.
  pose proof (leaves_op_run (OpIngest (pg_clock (pg_txs st)) ev) _ _ (pg_session st)
    (IngestEvent_leaves _ _) eq_refl Hw) as Hl.
  by destruct (IngestEvent _ ev (pg_session st)) as [[b err] s'].
Qed.

Lemma reconcile_op_run items t st :
  working (pg_session st) = None ->
  let '((_, err), st') := ds_ReconcileSnapshot items t st in
  op_run (OpReconcile items t) (pg_db st) err (pg_db st') /\ working (pg_session st') = None.
Proof.
  intros Hw. cbn [ds_ReconcileSnapshot client_store pg_data_store]. unfold pg_run.
  pose proof (leaves_op_run (OpReconcile items t) (ReconcileSnapshot items t) _ (pg_session st)
    (ReconcileSnapshot_leaves _ _) eq_refl Hw) as Hl.
  by destruct (ReconcileSnapshot items t (pg_session st)) as [[[u v] err] s'].
Qed.

Lemma goes_nil p w : idle w -> goes p w [] (Some p) w.
Proof. intros Hw. split; [done|]. exists []. split_and!; [constructor|done|done]. Qed.

(** One look at the context. *)
Definition after_look (w : World) : World :=
  {| Ingest.w_store := Ingest.w_store w; Ingest.w_metrics := Ingest.w_metrics w;
     Ingest.w_cancel := looked OCtxDone (Ingest.w_cancel w);
     Ingest.w_draws := Ingest.w_draws w; Ingest.w_ticks := Ingest.w_ticks w;
     Ingest.w_log := Ingest.w_log w |}.

Lemma ctx_Err_eq w :
  ctx_Err w = (if is_done (Ingest.w_cancel w) then Some context_canceled else None, after_look w).
Proof. unfold ctx_Err, after_look. by destruct (Ingest.w_cancel w) as [[|n]|]. Qed.

(** handleEvent is one step. *)
Lemma handle_goes a event w :
  idle w ->
  let '(err, w') := handleEvent event w in
  goes (IHandle a event) w [] (Some (after_handle a event err)) w'.
Proof.
  intros Hw. unfold handleEvent. destruct (eventTypeNames (pe_event_type event)) as [ty|] eqn:Ht.
  2:{ apply (goes_step _ w ODiscard); [by apply discarded|done|done]. }
  unfold bind, Ingest.on_store. pose proof (ingest_op_run (event_record ty event) _ Hw) as Ho.
  destruct (ds_IngestEvent _ (Ingest.w_store w)) as [[b err] st']. destruct Ho as [Ho Hw'].
  pose proof (persisted (is_done (Ingest.w_cancel w)) a event ty (tables w) _ err _ Ht Ho) as Hs.
  destruct err as [e|]; cbn [fmap option_fmap option_map] in Hs.
  - eapply (goes_step _ w (OStore _ (Some e))); [exact Hs|done|exact Hw'].
  - destruct b; cbn; (eapply (goes_step _ w (OStore _ None)); [exact Hs|done|exact Hw']).
Qed.

Definition persist_end (a : Z) (event : ItemEvent) (r : persist_result) : ingest_pc :=
  match r with
  | PersistBreak => IRecv a | PersistCanceled _ => ICycleDone a true | PersistFuel => IHandle a event
  end.

Lemma persist_goes fuel a event w :
  idle w ->
  let '(r, w') := persist_event fuel event w in
  goes (IHandle a event) w [] (Some (persist_end a event r)) w'.
Proof.
  revert w. induction fuel as [|fuel IH]; intros w Hw; cbn [persist_event].
  { by apply goes_nil. }
  unfold bind at 1. pose proof (handle_goes a event w Hw) as Hh.
  destruct (handleEvent event w) as [[e|] w1]; [|exact Hh]. unfold after_handle in Hh.
  pose proof (proj1 Hh) as Hw1. destruct (errors_Is e errMalformedEvent); [exact Hh|].
  set (w2 := (Ingest.log (LogRetry persistRetryDelay) w1).2).
  assert (same w1 w2) as Hsame by done. rewrite (bind_run _ _ w1 tt w2) by done.
  rewrite (bind_run _ _ w2 _ (after_look w2) (ctx_Err_eq w2)).
  assert (goes (IRetry a event) w1 [] (Some (if is_done (Ingest.w_cancel w2) then ICycleDone a true
    else IHandle a event)) (after_look w2)) as H2.
  { eapply goes_same; [exact Hsame|]. destruct (is_done (Ingest.w_cancel w2)) eqn:Hd.
    - apply (goes_step _ w2 OCtxDone); [rewrite Hd; by apply retry_stop|done|exact Hw1].
    - apply (goes_step _ w2 OTimer); [apply retry_over|done|exact Hw1]. }
  pose proof (goes_trans _ _ _ _ _ _ _ _ Hh H2) as H3.
  destruct (is_done (Ingest.w_cancel w2)); [exact H3|].
  specialize (IH (after_look w2) (proj1 H2)). destruct (persist_event fuel event (after_look w2)) as [r w'].
  exact (goes_trans _ _ [] _ _ _ _ _ H3 IH).
Qed.

(** Where a cycle that ran ends. *)
Definition cycle_end (a : Z) (r : option (bool * option error)) (p : ingest_pc) : Prop :=
  match r with Some (connected, _) => p = ICycleDone a connected | None => exists event, p = IHandle a event end.

Definition stream (events : list ItemEvent) (end_ : error) : list observation :=
  ((fun event => ORecv (inr event)) <$> events) ++ [ORecv (inl end_)].

Lemma recv_goes fuel a events end_ w :
  idle w ->
  let '(r, w') := recv_loop fuel events end_ w in
  exists rs p, goes (IRecv a) w rs (Some p) w' /\ rs `prefix_of` stream events end_ /\ cycle_end a r p.
Proof.
  revert w. induction events as [|event events IH]; intros w Hw; cbn [recv_loop].
  { assert (goes (IRecv a) w [ORecv (inl end_)] (Some (ICycleDone a true)) w) as Hg
      by (by apply (goes_step _ w (ORecv (inl end_))); [apply received|..]).
    destruct (errors_Is end_ EOF); cbn; eauto. }
  assert (goes (IRecv a) w [ORecv (inr event)] (Some (IHandle a event)) w) as Hg
    by (by apply (goes_step _ w (ORecv (inr event))); [apply received|..]).
  unfold bind. pose proof (persist_goes fuel a event w Hw) as Hp.
  destruct (persist_event fuel event w) as [r w1]. pose proof (goes_trans _ _ _ _ _ _ _ _ Hg Hp) as H1.
  pose proof (proj1 Hp) as Hw1. destruct r as [|e|]; cbn [persist_end] in H1.
  - specialize (IH w1 Hw1). destruct (recv_loop fuel events end_ w1) as [r w'].
    destruct IH as (rs & p & H2 & Hpre & Hend). exists ([ORecv (inr event)] ++ rs), p.
    split_and!; [exact (goes_trans _ _ _ _ _ _ _ _ H1 H2)| |done]. by apply prefix_cons.
  - eexists _, _. split_and!; [exact H1| |done]. eexists. done.
  - eexists _, _. split_and!; [exact H1| |by eexists]. eexists. done.
Qed.

Lemma reconcile_goes a items w :
  idle w ->
  let '(err, w') := snapshotReconcile clock (inr items) w in
  goes (IReconcile a items) w [] (Some (match err with Some _ => ICycleDone a false | None => IWatch a end)) w'.
Proof.
  intros Hw. cbn [snapshotReconcile]. unfold bind, Ingest.time_Now, Ingest.on_store; cbn [Ingest.w_store].
  pose proof (reconcile_op_run (snapshot_items items) (clock (Ingest.w_ticks w)) _ Hw) as Ho.
  destruct (ds_ReconcileSnapshot _ _ (Ingest.w_store w)) as [[[u v] err] st']. destruct Ho as [Ho Hw'].
  pose proof (reconciled (is_done (Ingest.w_cancel w)) a items (tables w) _ err _ Ho) as Hs.
  destruct err as [e|]; cbn; (eapply (goes_step _ w (OStore _ _)); [exact Hs|done|exact Hw']).
Qed.

(** A cycle, from the dial: its replies are a prefix of the script. *)
Lemma cycle_goes fuel a env w :
  idle w ->
  let '(r, w') := cycle clock cfg fuel env w in
  exists rs p, goes (IDial a) w rs (Some p) w' /\ rs `prefix_of` script env /\ cycle_end a r p.
Proof.
  intros Hw. unfold cycle, script.
  pose proof (goes_step _ w _ _ w (dialed (is_done (Ingest.w_cancel w)) a (tables w) (ce_dial env)) eq_refl Hw)
    as Hd. destruct (ce_dial env) as [e|].
  { eexists _, _. split_and!; [|done|done]. by eapply goes_same_r. }
  pose proof (goes_step _ w _ _ w (listed (is_done (Ingest.w_cancel w)) a (tables w) (ce_list env)) eq_refl Hw)
    as Hl. pose proof (goes_trans _ _ _ _ _ _ _ _ Hd Hl) as H1. destruct (ce_list env) as [e|items].
  { eexists _, _. split_and!; [|done|done]. by eapply goes_same_r. }
  unfold bind at 1. pose proof (reconcile_goes a items w Hw) as Hr.
  destruct (snapshotReconcile clock (inr items) w) as [err w1].
  pose proof (goes_trans _ _ _ _ _ _ _ _ H1 Hr) as H2. pose proof (proj1 Hr) as Hw1.
  destruct err as [e|].
  { eexists _, _. split_and!; [by eapply goes_same_r| |done]. cbn. by do 2 apply prefix_cons; apply prefix_nil. }
  pose proof (goes_step _ w1 _ _ w1 (watched (is_done (Ingest.w_cancel w1)) a (tables w1) (ce_watch env)) eq_refl Hw1)
    as Hwa. pose proof (goes_trans _ _ _ _ _ _ _ _ H2 Hwa) as H3. destruct (ce_watch env) as [e|].
  { eexists _, _. split_and!; [|done|done]. by eapply goes_same_r. }
  unfold defer, bind, Ingest.on_metrics.
  set (w2 := {| Ingest.w_store := Ingest.w_store w1 |}).
  pose proof (recv_goes fuel a (ce_events env) (ce_end env) w2 Hw1) as Hv.
  destruct (recv_loop fuel (ce_events env) (ce_end env) w2) as [r w3].
  destruct Hv as (rs & p & Hg & Hpre & Hend).
  assert (same w1 w2) as Hsame by done.
  pose proof (goes_trans _ _ _ _ _ _ _ _ H3 (goes_same _ _ _ _ _ _ Hsame Hg)) as H4.
  eexists _, p. split_and!; [by eapply goes_same_r| |done].
  cbn. by do 3 apply prefix_cons.
Qed.

(** The wait before a retry. *)
Lemma backoff_goes a w :
  idle w ->
  let '(stop, w') := backoff_wait Int64N cfg a w in
  goes (if 0 <? a then IBackoff a else IDial a) w [] (if stop then None else Some (IDial a)) w'.
Proof.
  intros Hw. unfold backoff_wait. destruct (0 <? a); [|by apply goes_nil].
  set (w1 := (Ingest.on_metrics inc_reconnects w).2).
  rewrite (bind_run _ _ w tt w1) by done. set (w2 := (rand_backoff Int64N cfg a w1).2).
  rewrite (bind_run _ _ w1 (rand_backoff Int64N cfg a w1).1 w2) by done.
  set (w3 := (Ingest.log (LogBackoff a (rand_backoff Int64N cfg a w1).1) w2).2).
  rewrite (bind_run _ _ w2 tt w3) by done. rewrite (bind_run _ _ w3 _ (after_look w3) (ctx_Err_eq w3)).
  assert (same w w3) as Hsame by done. unfold ret.
  eapply goes_same; [exact Hsame|]. destruct (is_done (Ingest.w_cancel w3)) eqn:Hd.
  - apply (goes_step _ w3 OCtxDone); [rewrite Hd; by apply backoff_stop|done|exact Hw].
  - apply (goes_step _ w3 OTimer); [apply backoff_over|done|exact Hw].
Qed.

Definition run_end (r : Ingest.run_result) (p : option ingest_pc) : Prop :=
  match r with
  | Stopped => p = None
  | Ingest.Running a => p = Some (IRunCheck a)
  | RunFuel => exists a event, p = Some (IHandle a event)
  end.

Lemma Run_goes fuel envs a w :
  idle w ->
  let '(r, w') := Ingest.Run clock Int64N cfg fuel envs a w in
  exists cycles p, goes (IRunCheck a) w (concat cycles) p w' /\
    Forall2 prefix cycles (script <$> take (length cycles) envs) /\ run_end r p /\
    (forall a', r = Ingest.Running a' -> length cycles = length envs).
Proof.
  revert a w. induction envs as [|env envs IH]; intros a w Hw; cbn [Ingest.Run].
  { exists [], (Some (IRunCheck a)). split_and!; [by apply goes_nil|constructor|done|done]. }
  rewrite (bind_run _ _ w _ (after_look w) (ctx_Err_eq w)).
  destruct (is_done (Ingest.w_cancel w)) eqn:Hd.
  { exists [], None. split_and!; [|constructor|done|done].
    apply (goes_step _ w (OCtx true)); [by apply run_stop|done|exact Hw]. }
  assert (goes (IRunCheck a) w [] (Some (if 0 <? a then IBackoff a else IDial a)) (after_look w)) as H1
    by (apply (goes_step _ w (OCtx false)); [by apply run_go|done|exact Hw]).
  unfold bind at 1. pose proof (backoff_goes a (after_look w) Hw) as Hb.
  destruct (backoff_wait Int64N cfg a (after_look w)) as [[] w1];
    pose proof (goes_trans _ _ _ _ _ _ _ _ H1 Hb) as H2.
  { exists [], None. split_and!; [exact H2|constructor|done|done]. }
  unfold bind at 1. pose proof (cycle_goes fuel a env w1 (proj1 Hb)) as Hc.
  destruct (cycle clock cfg fuel env w1) as [[[connected err]|] w2];
    destruct Hc as (rs & p & Hg & Hpre & Hend); pose proof (goes_trans _ _ _ _ _ _ _ _ H2 Hg) as H3.
  2:{ exists [rs], (Some p). split_and!; [by rewrite concat_cons, app_nil_r|by repeat constructor| |done].
      destruct Hend as [event ->]. by eexists _, _. }
  cbn in Hend. subst p. set (w3 := (Ingest.log (LogCycle connected) w2).2). rewrite (bind_run _ _ w2 tt w3) by done.
  rewrite (bind_run _ _ w3 _ (after_look w3) (ctx_Err_eq w3)).
  assert (same w2 w3) as Hsame by done. pose proof (proj1 Hg) as Hw2.
  destruct (is_done (Ingest.w_cancel w3)) eqn:Hd3.
  { exists [rs], None. split_and!; [|by repeat constructor|done|done]. rewrite concat_cons.
    eapply goes_trans; [exact H3|]. eapply goes_same; [exact Hsame|].
    apply (goes_step _ w3 (OCtx true)); [by apply cycle_stop|done|exact Hw2]. }
  set (a' := wrap64 _).
  assert (goes (ICycleDone a connected) w2 [] (Some (IRunCheck a')) (after_look w3)) as H4.
  { eapply goes_same; [exact Hsame|].
    apply (goes_step _ w3 (OCtx false)); [by apply cycle_again|done|exact Hw2]. }
  specialize (IH a' (after_look w3) (proj1 H4)).
  destruct (Ingest.Run clock Int64N cfg fuel envs a' (after_look w3)) as [r w'].
  destruct IH as (cycles & p & H5 & Hf & He & Hn). exists (rs :: cycles), p.
  pose proof (goes_trans _ _ _ _ _ _ _ _ H3 H4) as H34. rewrite app_nil_r in H34.
  split_and!; [exact (goes_trans _ _ _ _ _ _ _ _ H34 H5)|by constructor|done|].
  intros a'' Ha. simpl. by rewrite (Hn a'').
Qed.
End client.

(** ** Every run of the runner is such a path *)

(** What the selects of a path took; the context is done exactly when one took it. *)
Definition selects_of (l : list flagged) : list select_case :=
  omap (fun o => match o with OTick => Some Tick | OCtxDone => Some CtxDone | _ => None end) l.*2.
Definition done_when_taken (step : flagged) : Prop :=
  step.1 = match step.2 with OCtxDone => true | _ => false end.

Section runner.
Context `{PgTime}.
Variables (clock : nat -> Z) (cfg : Retention.Config).
Abbreviation World := (Retention.World Session).

Definition runner_goes (p : retention_pc) (w : World) (selects : list select_case)
    (p' : option retention_pc) (w' : World) : Prop :=
  working (Retention.w_store w') = None /\
  exists l, retention_path cfg (Some p) (committed (Retention.w_store w)) l p' (committed (Retention.w_store w')) /\
    selects_of l = selects /\ Forall done_when_taken l.

Lemma runner_trans p w l1 p1 w1 l2 p2 w2 :
  runner_goes p w l1 (Some p1) w1 -> runner_goes p1 w1 l2 p2 w2 -> runner_goes p w (l1 ++ l2) p2 w2.
Proof.
  intros (_ & k1 & H1 & <- & Hf1) (Hw & k2 & H2 & <- & Hf2). split; [done|]. exists (k1 ++ k2).
  split_and!; [by eapply retention_path_app| |by apply Forall_app; split].
  unfold selects_of. by rewrite fmap_app, omap_app.
Qed.

Lemma runner_step p (w : World) o p' :
  retention_step cfg (match o with OCtxDone => true | _ => false end) p (committed (Retention.w_store w)) o p'
    (committed (Retention.w_store w)) ->
  working (Retention.w_store w) = None ->
  runner_goes p w (selects_of [(true, o)]) p' w.
Proof.
  intros Hs Hw. split; [done|]. exists [(match o with OCtxDone => true | _ => false end, o)].
  split_and!; [|done|by constructor]. econstructor; [exact Hs|constructor].
Qed.

Lemma runOnce_goes (w : World) :
  working (Retention.w_store w) = None -> runner_goes RPass w [] (Some RSelect) (runOnce clock cfg w).2.
Proof.
  intros Hw. unfold runOnce, bind, Retention.time_Now, Retention.on_store; cbn [Retention.w_store].
  set (start := clock _). set (cutoff := AddDate_days _ _).
  cbn [ds_DeleteEventsOlderThan pg_retention].
  pose proof (leaves_op_run (OpRetention cutoff) _ _ _ (DeleteEventsOlderThan_leaves cutoff) eq_refl Hw) as Ho.
  destruct (DeleteEventsOlderThan cutoff (Retention.w_store w)) as [[n err] s']. destruct Ho as [Ho Hw'].
  assert (retention_path cfg (Some RPass) (committed (Retention.w_store w))
    [(false, OStore (OpRetention cutoff) err)] (Some RSelect) (committed s')) as Hp
    by (econstructor; [by apply (passed cfg false start)|constructor]).
  destruct err as [e|]; cbn; (split; [exact Hw'|]); eexists; (split_and!; [exact Hp|done|by constructor]).
Qed.

Lemma tick_loop_goes selects (w : World) :
  working (Retention.w_store w) = None ->
  let '(r, w') := tick_loop clock cfg selects w in
  exists taken p, runner_goes RSelect w taken p w' /\ taken `prefix_of` selects /\
    match r with
    | Returned => p = None | Ticking => p = Some RSelect /\ taken = selects | Panicked => False
    end.
Proof.
  revert w. induction selects as [|[] selects IH]; intros w Hw; cbn [tick_loop].
  - exists [], (Some RSelect). split_and!; [|done..]. split; [done|]. exists [].
    split_and!; [constructor|done|constructor].
  - exists [CtxDone], None. split_and!; [|by apply prefix_cons, prefix_nil|done].
    by apply (runner_step RSelect w OCtxDone); [apply select_stop|].
  - unfold bind. assert (runner_goes RSelect w [Tick] (Some RPass) w) as Ht
      by (by apply (runner_step RSelect w OTick); [apply ticked|]).
    pose proof (runOnce_goes w Hw) as H1. destruct (runOnce clock cfg w) as [[] w1]. cbn [snd] in H1.
    pose proof (runner_trans _ _ _ _ _ _ _ _ Ht H1) as H2. specialize (IH w1 (proj1 H1)).
    destruct (tick_loop clock cfg selects w1) as [r w']. destruct IH as (taken & p & H3 & Hpre & Hr).
    exists (Tick :: taken), p. split_and!; [exact (runner_trans _ _ _ _ _ _ _ _ H2 H3)|by apply prefix_cons|].
    destruct r; [done| |done]. by destruct Hr as [-> ->].
Qed.

Lemma runner_Run_goes selects (w : World) :
  0 < Interval cfg -> working (Retention.w_store w) = None ->
  let '(r, w') := Retention.Run clock cfg selects w in
  exists taken p, runner_goes RPass w taken p w' /\ taken `prefix_of` selects /\
    match r with
    | Returned => p = None | Ticking => p = Some RSelect /\ taken = selects | Panicked => False
    end.
Proof.
  intros Hi Hw. unfold Retention.Run, bind. pose proof (runOnce_goes w Hw) as H1.
  destruct (runOnce clock cfg w) as [[] w1]. cbn [snd] in H1. rewrite (proj2 (Z.leb_gt _ _) Hi).
  pose proof (tick_loop_goes selects w1 (proj1 H1)) as H2.
  destruct (tick_loop clock cfg selects w1) as [r w']. destruct H2 as (taken & p & H2 & Hpre & Hr).
  exists taken, p. split_and!; [exact (runner_trans _ _ _ _ _ _ _ _ H1 H2)|done|done].
Qed.
End runner.
