(* ===== verification/Migrate.v ===== *)
(** * Migrate: connecting to PostgreSQL and migrating the schema
      (internal/store/pool.go, internal/store/migrate.go)

    What executing a migration's SQL text does to the schema is PostgreSQL's
    business: the parameter [sql_exec], which may fail.  The bookkeeping table
    [schema_migrations], the order, the transactions and the retries are the
    code's, and are modelled, under the failure oracle of [Session.v]. *)
From S2P Require Import Prelude GoInt Session.
Local Open Scope Z_scope.
Local Open Scope go_scope.

(** ** strings.HasSuffix, strings.TrimSuffix *)
Definition HasSuffix (s suffix : string) : bool :=
  (String.length suffix <=? String.length s)%nat &&
  String.eqb (String.substring (String.length s - String.length suffix) (String.length suffix) s) suffix.

Definition TrimSuffix (s suffix : string) : string :=
  if HasSuffix s suffix
  then String.substring 0 (String.length s - String.length suffix) s else s.

(** [sort.Strings] *)
Definition sort_Strings (l : list string) : list string := merge_sort String.le l.

(** ** The database of the migration runner *)
Record MigDB (S : Type) := {
  versions : option (list string);   (* schema_migrations, None before it exists *)
  schema : S
}.
Arguments versions {S} m.
Arguments schema {S} m.

Record MigWorld (S : Type) := {
  mw_committed : MigDB S;
  mw_working : option (MigDB S);
  mw_oracle : list outcome
}.
Arguments mw_committed {S} m.
Arguments mw_working {S} m.
Arguments mw_oracle {S} m.

Definition quiet_mig {S} (d : MigDB S) : MigWorld S :=
  {| mw_committed := d; mw_working := None; mw_oracle := [] |}.

Definition mw_next {S} (w : MigWorld S) : outcome :=
  match mw_oracle w with [] => Delivered | o :: _ => o end.

Definition undefined_table : error := ErrNew "relation schema_migrations does not exist".
Definition unique_violation : error := ErrNew "duplicate key value violates unique constraint".
Definition sql_error : error := ErrNew "syntax or execution error".

Section migrate.
Context {S : Type}.
Variable sql_exec : string -> S -> option S.

(** The embedded directory: its entries (name, is a directory), and file
    contents. *)
Variable read_dir : error + list (string * bool).
Variable read_file : string -> error + string.

Abbreviation MW := (M (MigWorld S)).

(** ** Statements *)
Definition create_table (d : MigDB S) : error + MigDB S :=
  inr {| versions := Some (default [] (versions d)); schema := schema d |}.

Definition version_exists (v : string) (d : MigDB S) : error + bool :=
  match versions d with
  | None => inl undefined_table
  | Some vs => inr (bool_decide (v ∈ vs))
  end.

Definition exec_sql (sql : string) (d : MigDB S) : error + MigDB S :=
  match sql_exec sql (schema d) with
  | None => inl sql_error
  | Some s => inr {| versions := versions d; schema := s |}
  end.

Definition insert_version (v : string) (d : MigDB S) : error + MigDB S :=
  match versions d with
  | None => inl undefined_table
  | Some vs =>
      if bool_decide (v ∈ vs) then inl unique_violation
      else inr {| versions := Some (vs ++ [v]); schema := schema d |}
  end.

(** ** Calls *)
Definition mw_set (c : MigDB S) (t : option (MigDB S)) (w : MigWorld S) : MigWorld S :=
  {| mw_committed := c; mw_working := t; mw_oracle := tail (mw_oracle w) |}.

Definition mig_pool_Exec (stmt : MigDB S -> error + MigDB S) : MW (option error) := fun w =>
  let c := mw_committed w in
  match mw_next w, stmt c with
  | Refused e, _ => (Some e, mw_set c (mw_working w) w)
  | _, inl e => (Some e, mw_set c (mw_working w) w)
  | Delivered, inr d => (None, mw_set d (mw_working w) w)
  | ReplyLost e, inr d => (Some e, mw_set d (mw_working w) w)
  end.

Definition mig_pool_Query {A} (q : MigDB S -> error + A) : MW (error + A) := fun w =>
  (match mw_next w with
   | Delivered => q (mw_committed w)
   | Refused e | ReplyLost e => inl e
   end, mw_set (mw_committed w) (mw_working w) w).

Definition mig_Begin : MW (option error) := fun w =>
  let c := mw_committed w in
  match mw_next w with
  | Delivered => (None, mw_set c (Some c) w)
  | Refused e | ReplyLost e => (Some e, mw_set c (mw_working w) w)
  end.

Definition mig_Exec (stmt : MigDB S -> error + MigDB S) : MW (option error) := fun w =>
  let c := mw_committed w in
  match mw_next w, mw_working w with
  | Refused e, _ | ReplyLost e, _ => (Some e, mw_set c None w)
  | Delivered, None => (Some tx_aborted, mw_set c None w)
  | Delivered, Some t =>
      match stmt t with
      | inl e => (Some e, mw_set c None w)
      | inr d => (None, mw_set c (Some d) w)
      end
  end.

Definition mig_Commit : MW (option error) := fun w =>
  let c := mw_committed w in
  match mw_next w, mw_working w with
  | Delivered, Some d => (None, mw_set d None w)
  | ReplyLost e, Some d => (Some e, mw_set d None w)
  | Refused e, _ => (Some e, mw_set c None w)
  | _, None => (Some tx_closed, mw_set c None w)
  end.

Definition mig_Rollback : MW unit := fun w =>
  (tt, {| mw_committed := mw_committed w; mw_working := None; mw_oracle := mw_oracle w |}).

(** ** applyOne *)
Definition applyOne (version sql : string) : MW (option error) :=
  let! err := mig_Begin in
  match err with
  | Some err => ret (Some (ErrWrap ("begin migration " +:+ version) err))
  | None => defer mig_Rollback (
      let! err := mig_Exec (exec_sql sql) in
      match err with
      | Some err => ret (Some (ErrWrap ("apply migration " +:+ version) err))
      | None =>
          let! err := mig_Exec (insert_version version) in
          match err with
          | Some err => ret (Some (ErrWrap ("record migration " +:+ version) err))
          | None =>
              let! err := mig_Commit in
              match err with
              | Some err => ret (Some (ErrWrap ("commit migration " +:+ version) err))
              | None => ret None
              end
          end
      end)
  end.

(** ** Migrate *)
Definition migration_names (entries : list (string * bool)) : list string :=
  sort_Strings (filter (fun n => HasSuffix n ".sql" = true)
    (fst <$> filter (fun e : string * bool => e.2 = false) entries)).

Fixpoint migrate_loop (names : list string) : MW (option error) :=
  match names with
  | [] => ret None
  | name :: names' =>
      let version := TrimSuffix name ".sql" in
      let! applied := mig_pool_Query (version_exists version) in
      match applied with
      | inl err => ret (Some (ErrWrap ("check migration " +:+ version) err))
      | inr true => migrate_loop names'
      | inr false =>
          match read_file ("migrations/" +:+ name) with
          | inl err => ret (Some (ErrWrap ("read migration " +:+ name) err))
          | inr sql =>
              let! err := applyOne version sql in
              match err with
              | Some err => ret (Some err)
              | None => migrate_loop names'
              end
          end
      end
  end.

Definition Migrate : MW (option error) :=
  let! err := mig_pool_Exec create_table in
  match err with
  | Some err => ret (Some (ErrWrap "create schema_migrations" err))
  | None =>
      match read_dir with
      | inl err => ret (Some (ErrWrap "read migrations dir" err))
      | inr entries => migrate_loop (migration_names entries)
      end
  end.
End migrate.

(** ** Connect *)

(** One attempt: the pool cannot be created, it is created but the ping fails,
    or it is up. *)
Inductive connect_try := NewFails (e : error) | PingFails (e : error) | PoolUp.

Record Dialer := {
  dial_tries : list connect_try;       (* what the next attempts meet; then PoolUp *)
  dial_cancel : option nat;            (* waits before the context is done *)
  dial_count : Z;                      (* attempts made *)
  dial_open : Z;                       (* pools opened and not closed *)
  dial_waits : Z
}.

Inductive connect_result :=
| Connected
| ConnectCanceled
| ConnectFailed (lastErr : option error).  (* "connect to postgres after %d attempts" *)

#[export] Instance connect_result_eq_dec : EqDecision connect_result.
Proof. solve_decision. Defined.

(** [pgxpool.New], then [pool.Ping], then [pool.Close] if the ping failed. *)
Definition try_pool : M Dialer (option error) := fun s =>
  let after opened :=
    {| dial_tries := tail (dial_tries s); dial_cancel := dial_cancel s;
       dial_count := dial_count s + 1; dial_open := dial_open s + opened;
       dial_waits := dial_waits s |} in
  match hd PoolUp (dial_tries s) with
  | NewFails e => (Some e, after 0)
  | PingFails e => (Some e, after (1 - 1))
  | PoolUp => (None, after 1)
  end.

(** [select { case <-ctx.Done(): ... case <-time.After(delay): }]; true if done. *)
Definition dial_wait : M Dialer bool := fun s =>
  (bool_decide (dial_cancel s = Some 0%nat),
   {| dial_tries := dial_tries s;
      dial_cancel := match dial_cancel s with Some (Datatypes.S n) => Some n | c => c end;
      dial_count := dial_count s; dial_open := dial_open s; dial_waits := dial_waits s + 1 |}).

(** [for i := range attempts]: [n] attempts left. *)
Fixpoint connect_loop (n : nat) (lastErr : option error) : M Dialer connect_result :=
  match n with
  | O => ret (ConnectFailed lastErr)
  | Datatypes.S n' =>
      let! err := try_pool in
      match err with
      | None => ret Connected
      | Some err =>
          if (n' =? 0)%nat then ret (ConnectFailed (Some err)) else
          let! done_ := dial_wait in
          if done_ : bool then ret ConnectCanceled else connect_loop n' (Some err)
      end
  end.

Definition Connect (attempts : Z) : M Dialer connect_result :=
  connect_loop (Z.to_nat attempts) None.

(** ** What a migration run amounts to *)
Section spec.
Context {S : Type}.
Variable sql_exec : string -> S -> option S.
Variable read_file : string -> error + string.

Definition version_of (name : string) : string := TrimSuffix name ".sql".

(** Apply one file, unless its version is recorded. *)
Definition mig_apply (d : MigDB S) (name : string) : option (MigDB S) :=
  match versions d with
  | None => None
  | Some vs =>
      if bool_decide (version_of name ∈ vs) then Some d else
      match read_file ("migrations/" +:+ name) with
      | inl _ => None
      | inr sql =>
          s ← sql_exec sql (schema d);
          Some {| versions := Some (vs ++ [version_of name]); schema := s |}
      end
  end.

Fixpoint mig_fold (names : list string) (d : MigDB S) : option (MigDB S) :=
  match names with
  | [] => Some d
  | name :: names' => d' ← mig_apply d name; mig_fold names' d'
  end.

Definition recorded (v : string) (d : MigDB S) : Prop := exists vs, versions d = Some vs /\ v ∈ vs.

Lemma mig_apply_recorded d name d' :
  mig_apply d name = Some d' ->
  recorded (version_of name) d' /\ forall v, recorded v d -> recorded v d'.
Proof.
  unfold mig_apply, recorded. destruct (versions d) as [vs|] eqn:E; [|done].
  case_bool_decide as Hin.
  - intros [= <-]. rewrite E. naive_solver.
  - destruct (read_file _) as [|sql]; [done|]. destruct (sql_exec sql (schema d)); intros [= <-]. simpl.
    split; [exists (vs ++ [version_of name]); set_solver|].
    intros v (vs' & [= <-] & Hv). eexists; split; [done|]. set_solver.
Qed.

Lemma mig_fold_app l1 l2 d : mig_fold (l1 ++ l2) d = d' ← mig_fold l1 d; mig_fold l2 d'.
Proof.
  revert d. induction l1 as [|n l1 IH]; intros d; [done|]. simpl.
  destruct (mig_apply d n); simpl; [apply IH|done].
Qed.

Lemma mig_fold_recorded names d d' :
  mig_fold names d = Some d' ->
  (forall n, n ∈ names -> recorded (version_of n) d') /\ forall v, recorded v d -> recorded v d'.
Proof.
  revert d. induction names as [|n names IH]; intros d; simpl.
  { intros [= <-]. split; [|done]. by intros ? ?%not_elem_of_nil. }
  destruct (mig_apply d n) as [d1|] eqn:E; simpl; [|done]. intros (Hall & Hk)%IH.
  apply mig_apply_recorded in E as [Hn Hk1]. split; [|by auto].
  intros m [->|Hm]%elem_of_cons; auto.
Qed.

(** Files whose versions are recorded are skipped. *)
Lemma mig_fold_skip names d :
  versions d <> None -> (forall n, n ∈ names -> recorded (version_of n) d) ->
  mig_fold names d = Some d.
Proof.
  intros Hv. induction names as [|n names IH]; intros Hall; [done|]. simpl.
  unfold mig_apply at 1. destruct (versions d) as [vs|] eqn:E; [|done].
  destruct (Hall n ltac:(by left)) as (vs' & Hvs & Hin). rewrite E in Hvs. simplify_eq.
  rewrite bool_decide_true by done. simpl. apply IH. intros m Hm. apply Hall. by right.
Qed.

Lemma mig_fold_versions names d d' :
  mig_fold names d = Some d' -> versions d <> None -> versions d' <> None.
Proof.
  revert d. induction names as [|n names IH]; intros d; simpl; [by intros [= <-]|].
  destruct (mig_apply d n) as [d1|] eqn:E; simpl; [|done]. intros Hf _. apply (IH d1 Hf).
  apply mig_apply_recorded in E as [(vs & -> & _) _]. done.
Qed.

(** Going on after any prefix ends where the uninterrupted run ends. *)
Lemma mig_fold_resume names k d d1 d2 :
  versions d <> None -> mig_fold (take k names) d = Some d1 -> mig_fold names d = Some d2 ->
  mig_fold names d1 = Some d2.
Proof.
  intros Hv H1 H2. rewrite <- (take_drop k names) in H2. rewrite mig_fold_app, H1 in H2. simpl in H2.
  rewrite <- (take_drop k names), mig_fold_app.
  rewrite (mig_fold_skip (take k names) d1); [done|exact (mig_fold_versions _ _ _ H1 Hv)|].
  by apply (proj1 (mig_fold_recorded _ _ _ H1)).
Qed.

Lemma mig_fold_NoDup names d d' :
  mig_fold names d = Some d' -> NoDup (default [] (versions d)) -> NoDup (default [] (versions d')).
Proof.
  revert d. induction names as [|n names IH]; intros d; simpl; [by intros [= <-]|].
  destruct (mig_apply d n) as [d1|] eqn:E; simpl; [|done]. intros Hf Hnd. apply (IH d1 Hf).
  unfold mig_apply in E. destruct (versions d) as [vs|] eqn:Ev; [|done].
  case_bool_decide as Hin; [by simplify_eq; rewrite Ev|].
  destruct (read_file _) as [|sql]; [done|]. destruct (sql_exec sql (schema d)); simplify_eq/=.
  apply NoDup_app. split_and!; [done| |apply NoDup_singleton].
  intros v Hv ->%list_elem_of_singleton. done.
Qed.
End spec.

(** ** The runner follows it *)
Section runs.
Context {S : Type}.
Variable sql_exec : string -> S -> option S.
Variable read_file : string -> error + string.
Abbreviation apply1 := (mig_apply sql_exec read_file).
Abbreviation fold := (mig_fold sql_exec read_file).

(** One migration transaction: recorded and applied, or neither. *)
Lemma applyOne_spec version sql (w : MigWorld S) :
  mw_working w = None ->
  let '(err, w') := applyOne sql_exec version sql w in
  let d := mw_committed w in
  let d' := match versions d, sql_exec sql (schema d) with
            | Some vs, Some s => if bool_decide (version ∈ vs) then None
                                 else Some {| versions := Some (vs ++ [version]); schema := s |}
            | _, _ => None
            end in
  mw_working w' = None /\
  (mw_committed w' = d \/ Some (mw_committed w') = d') /\
  (err = None -> Some (mw_committed w') = d') /\
  (mw_oracle w = [] -> mw_oracle w' = [] /\ (is_Some d' -> err = None)).
Proof.
  intros Hw. unfold applyOne, defer, bind, ret, mig_Begin, mw_next.
  destruct w as [c t o]; simpl in *; subst t.
  destruct o as [|[|e|e] o]; simpl; try by split_and!; auto.
  all: unfold mig_Exec, exec_sql, insert_version, mig_Commit, mig_Rollback, mw_next, mw_set; simpl.
  all: destruct (sql_exec sql (schema c)) as [s|] eqn:Es; simpl.
  all: destruct (versions c) as [vs|] eqn:Ev; simpl.
  all: repeat (case_match; simplify_eq/=); split_and!; auto; try done; try by intros [? [=]].
Qed.

(** A check that ends the loop leaves the database alone. *)
Definition loop_post (names : list string) (w : MigWorld S) (err : option error) (w' : MigWorld S) : Prop :=
  mw_working w' = None /\
  (exists k, fold (take k names) (mw_committed w) = Some (mw_committed w') /\
     (err = None -> take k names = names)) /\
  (mw_oracle w = [] -> is_Some (fold names (mw_committed w)) -> err = None /\ mw_oracle w' = []).

Lemma loop_post_stop names w w1 err :
  mw_working w1 = None -> mw_committed w1 = mw_committed w -> err <> None ->
  (mw_oracle w = [] -> ~ is_Some (fold names (mw_committed w))) ->
  loop_post names w err w1.
Proof.
  intros Hw1 Hc Herr Hno. split_and!; [done| |intros Ho Hs; by destruct (Hno Ho)].
  exists 0%nat. by rewrite Hc.
Qed.

(** One name handled, the rest of the loop to go. *)
Lemma loop_post_step n names w w1 w' err :
  apply1 (mw_committed w) n = Some (mw_committed w1) ->
  (mw_oracle w = [] -> mw_oracle w1 = []) ->
  loop_post names w1 err w' -> loop_post (n :: names) w err w'.
Proof.
  intros Happ Ho (Hw' & (k & Hk & Herr) & Hq). split_and!; [done| |].
  - exists (Datatypes.S k). simpl. rewrite Happ. split; [exact Hk|]. intros He. by rewrite Herr.
  - intros Ho' Hs. simpl in Hs. rewrite Happ in Hs. apply Hq; [by apply Ho|exact Hs].
Qed.

Lemma migrate_loop_spec names (w : MigWorld S) :
  mw_working w = None ->
  let '(err, w') := migrate_loop sql_exec read_file names w in loop_post names w err w'.
Proof.
  revert w. induction names as [|n names IH]; intros w Hw; cbn [migrate_loop].
  { split_and!; [done| |done]. by exists 0%nat. }
  unfold bind at 1, mig_pool_Query, version_exists.
  set (w1 := mw_set (mw_committed w) (mw_working w) w).
  assert (mw_working w1 = None) as Hw1 by done.
  assert (mw_committed w1 = mw_committed w) as Hc1 by done.
  assert (mw_oracle w = [] -> mw_oracle w1 = []) as Ho1 by (subst w1; simpl; by intros ->).
  destruct (mw_next w) as [|e|e] eqn:Eo; simpl.
  2,3: apply loop_post_stop; [done..|]; intros Ho; unfold mw_next in Eo; by rewrite Ho in Eo.
  destruct (versions (mw_committed w)) as [vs|] eqn:Ev; simpl.
  2:{ apply loop_post_stop; [done..|]. intros _. simpl. unfold mig_apply. rewrite Ev. by intros [? [=]]. }
  change (TrimSuffix n ".sql") with (version_of n).
  destruct (bool_decide (version_of n ∈ vs)) eqn:Hin.
  - specialize (IH w1 Hw1). destruct (migrate_loop _ _ names w1) as [err w'].
    apply (loop_post_step n names w w1); [|done|done].
    unfold mig_apply. by rewrite Ev, Hin, Hc1.
  - destruct (read_file _) as [e|sql] eqn:Er.
    { apply loop_post_stop; [done..|]. intros _. simpl. unfold mig_apply.
      rewrite Ev, Hin, Er. by intros [? [=]]. }
    unfold bind. pose proof (applyOne_spec (version_of n) sql w1 Hw1) as Ha.
    destruct (applyOne sql_exec (version_of n) sql w1) as [err w2].
    cbv zeta in Ha. rewrite Hc1, Ev, Hin in Ha.
    assert (apply1 (mw_committed w) n = match sql_exec sql (schema (mw_committed w)) with
      | Some s => Some {| versions := Some (vs ++ [version_of n]); schema := s |} | None => None end)
      as Happ by (unfold mig_apply; rewrite Ev, Hin, Er; by destruct (sql_exec sql _)).
    rewrite <- Happ in Ha. destruct Ha as (Hw2 & Hcom & Hok & Hq).
    destruct err as [err|].
    + split_and!; [done| |].
      * destruct Hcom as [->|Hcom]; [by exists 0%nat|]. exists 1%nat. simpl. by rewrite <- Hcom.
      * intros Ho (d' & Hs). simpl in Hs. destruct (apply1 (mw_committed w) n) eqn:Ea; [|done].
        destruct (Hq (Ho1 Ho)) as [_ Hq2]. discriminate (Hq2 (mk_is_Some _ _ eq_refl)).
    + specialize (IH w2 Hw2). destruct (migrate_loop _ _ names w2) as [err w'].
      apply (loop_post_step n names w w2); [by rewrite (Hok eq_refl)| |done].
      intros Ho. by apply Hq, Ho1.
Qed.
End runs.

(** Migrate as a whole: the table, then the files in order. *)
Definition with_table {S} (d : MigDB S) : MigDB S :=
  {| versions := Some (default [] (versions d)); schema := schema d |}.

Section whole.
Context {S : Type}.
Variable sql_exec : string -> S -> option S.
Variable read_file : string -> error + string.
Variable entries : list (string * bool).
Abbreviation names := (migration_names entries).
Abbreviation migrate := (Migrate sql_exec (inr entries) read_file).
Abbreviation target d := (mig_fold sql_exec read_file names (with_table d)).

Lemma with_table_idem (d : MigDB S) : versions d <> None -> with_table d = d.
Proof. destruct d as [[vs|] s]; [done|by intros []]. Qed.

(** Under any failures: nothing, or the table and some of the files. *)
Lemma Migrate_path (w : MigWorld S) :
  mw_working w = None ->
  let '(err, w') := migrate w in
  mw_working w' = None /\
  (err <> None /\ mw_committed w' = mw_committed w \/
   exists k, mig_fold sql_exec read_file (take k names) (with_table (mw_committed w)) =
     Some (mw_committed w') /\ (err = None -> take k names = names)) /\
  (err = None -> Some (mw_committed w') = target (mw_committed w)) /\
  (mw_oracle w = [] -> is_Some (target (mw_committed w)) -> err = None /\ mw_oracle w' = []).
Proof.
  intros Hw. unfold Migrate, bind, mig_pool_Exec, create_table. fold (with_table (mw_committed w)).
  set (d0 := with_table (mw_committed w)).
  destruct (mw_next w) as [|e|e] eqn:Eo.
  - set (w1 := mw_set d0 (mw_working w) w).
    pose proof (migrate_loop_spec sql_exec read_file names w1 Hw) as Hl.
    destruct (migrate_loop sql_exec read_file names w1) as [err w'].
    destruct Hl as (Hw' & (k & Hk & Herr) & Hq). change (mw_committed w1) with d0 in *.
    split_and!; [done|by right; exists k| |].
    + intros He. by rewrite <- Hk, Herr.
    + intros Ho. apply Hq. subst w1. simpl. by rewrite Ho.
  - simpl. split_and!; [done|by left|done|]. intros Ho. unfold mw_next in Eo. by rewrite Ho in Eo.
  - simpl. split_and!; [done|right; by exists 0%nat|done|].
    intros Ho. unfold mw_next in Eo. by rewrite Ho in Eo.
Qed.

Lemma Migrate_quiet (d d2 : MigDB S) :
  target d = Some d2 -> migrate (quiet_mig d) = (None, quiet_mig d2).
Proof.
  intros Ht. pose proof (Migrate_path (quiet_mig d) eq_refl) as Hp.
  destruct (migrate (quiet_mig d)) as [err w']. destruct Hp as (Hw' & _ & Hok & Hq).
  cbn [mw_committed mw_oracle quiet_mig] in Hok, Hq.
  destruct (Hq eq_refl) as [-> Ho]; [by rewrite Ht|]. specialize (Hok eq_refl). rewrite Ht in Hok.
  destruct w' as [c t o]; simpl in *. by simplify_eq.
Qed.

Lemma quiet_reaches (d d2 : MigDB S) :
  migrate (quiet_mig d) = (None, quiet_mig d2) -> target d = Some d2.
Proof.
  intros Hrun. pose proof (Migrate_path (quiet_mig d) eq_refl) as Hp.
  rewrite Hrun in Hp. destruct Hp as (_ & _ & Hok & _). symmetry. by apply Hok.
Qed.

(** A rerun from where a run stopped, at any prefix. *)
Lemma rerun_reaches (d d1 d2 : MigDB S) (err : option error) :
  d1 = d \/ (exists k, mig_fold sql_exec read_file (take k names) (with_table d) = Some d1) ->
  (err = None -> Some d1 = target d) -> target d = Some d2 ->
  migrate (quiet_mig d1) = (None, quiet_mig d2) /\ (err = None -> d1 = d2) /\
  migrate (quiet_mig d2) = (None, quiet_mig d2).
Proof.
  intros Hpath Hok Ht. split_and!.
  - apply Migrate_quiet. destruct Hpath as [->|[k Hk]]; [done|]. rewrite with_table_idem.
    + eapply mig_fold_resume; [|exact Hk|exact Ht]. done.
    + eapply mig_fold_versions; [exact Hk|done].
  - intros He. specialize (Hok He). congruence.
  - assert (versions d2 <> None) as Hv2 by (eapply mig_fold_versions; [exact Ht|done]).
    apply Migrate_quiet. rewrite with_table_idem by done.
    apply mig_fold_skip; [done|]. apply (mig_fold_recorded _ _ _ _ _ Ht).
Qed.
End whole.

(** ** Fresh databases, file names, dialing *)
Lemma mig_fold_fresh {S} (sql_exec : string -> S -> option S) read_file l (d d' : MigDB S) vs :
  mig_fold sql_exec read_file l d = Some d' -> versions d = Some vs ->
  NoDup (version_of <$> l) -> (forall v, v ∈ vs -> v ∉ (version_of <$> l)) ->
  versions d' = Some (vs ++ (version_of <$> l)) /\
  Some (schema d') = foldl (fun o n => s ← o;
    match read_file ("migrations/" +:+ n) with inl _ => None | inr sql => sql_exec sql s end)
    (Some (schema d)) l.
Proof.
  revert d vs. induction l as [|n l IH]; intros d vs; simpl.
  { intros [= <-] Hv. by rewrite app_nil_r. }
  unfold mig_apply at 1. intros Hf Hv [Hn Hnd]%NoDup_cons Hnew. rewrite Hv in Hf.
  rewrite bool_decide_false in Hf by (intros Hin; apply (Hnew _ Hin); by left).
  destruct (read_file _) as [|sql]; [done|]. destruct (sql_exec sql (schema d)) as [s1|] eqn:Es; [|done].
  simpl in Hf. eapply IH in Hf as [Hv' Hs']; [|done|done|].
  - by rewrite Hv', <- app_assoc, Hs'.
  - intros v [Hin| ->%list_elem_of_singleton]%elem_of_app Hl; [|done].
    apply (Hnew v Hin). by right.
Qed.

Lemma migration_names_in entries n :
  n ∈ migration_names entries <-> (n, false) ∈ entries /\ HasSuffix n ".sql" = true.
Proof.
  unfold migration_names, sort_Strings. rewrite merge_sort_Permutation, list_elem_of_filter, list_elem_of_fmap.
  split.
  - intros [Hs ([n' b] & -> & [Hb Hin]%list_elem_of_filter)]. simpl in *. by subst.
  - intros [Hin Hs]. split; [done|]. exists (n, false). split; [done|]. by apply list_elem_of_filter.
Qed.

Lemma migration_names_sorted entries : StronglySorted String.le (migration_names entries).
Proof. apply StronglySorted_merge_sort; apply _. Qed.

(** The [k]-th coming attempt finds the database up. *)
Definition up_at (l : list connect_try) (k : nat) : Prop := l !! k = Some PoolUp \/ l !! k = None.

Lemma up_at_tail l k : up_at (tail l) k <-> up_at l (Datatypes.S k).
Proof. unfold up_at. by rewrite lookup_tail. Qed.

Lemma try_pool_spec (s : Dialer) :
  let '(err, s1) := try_pool s in
  dial_tries s1 = tail (dial_tries s) /\ dial_cancel s1 = dial_cancel s /\
  dial_count s1 = dial_count s + 1 /\ dial_waits s1 = dial_waits s /\
  dial_open s1 = dial_open s + (match err with Some _ => 0 | None => 1 end) /\
  (err = None <-> up_at (dial_tries s) 0).
Proof.
  unfold try_pool, up_at. destruct (dial_tries s) as [|[e|e|] l]; simpl;
    (split_and!; [done..|lia|]); naive_solver.
Qed.

Lemma dial_wait_spec (s : Dialer) :
  let '(b, s1) := dial_wait s in
  dial_tries s1 = dial_tries s /\ dial_count s1 = dial_count s /\ dial_open s1 = dial_open s /\
  dial_waits s1 = dial_waits s + 1 /\
  (dial_cancel s = None -> b = false /\ dial_cancel s1 = None).
Proof. unfold dial_wait. simpl. split_and!; try done. by intros ->. Qed.

Lemma connect_loop_spec n lastErr (s : Dialer) :
  let '(r, s') := connect_loop n lastErr s in
  dial_count s' - dial_count s <= Z.of_nat n /\
  dial_waits s' - dial_waits s <= Z.max 0 (Z.of_nat n - 1) /\
  dial_open s' = dial_open s + (if decide (r = Connected) then 1 else 0) /\
  (dial_cancel s = None -> (r = Connected <-> exists k, (k < n)%nat /\ up_at (dial_tries s) k)).
Proof.
  revert lastErr s. induction n as [|n IH]; intros lastErr s.
  { simpl. split_and!; [lia|lia|lia|]. intros _. split; [done|]. intros (k & Hk & _). lia. }
  cbn [connect_loop]. unfold bind at 1. pose proof (try_pool_spec s) as Ht.
  destruct (try_pool s) as [[err|] s1]; destruct Ht as (Ht & Hc & Hn & Hw & Ho & Hup).
  2:{ simpl. split_and!; [lia|lia|lia|]. intros _. split; [intros _|done].
      exists 0%nat. split; [lia|]. by apply Hup. }
  assert (forall m, (exists k, (k < Datatypes.S m)%nat /\ up_at (dial_tries s) k) <->
      exists k, (k < m)%nat /\ up_at (dial_tries s1) k) as Hshift.
  { intros m. rewrite Ht. split.
    - intros ([|k] & Hk & Hor); [by apply Hup in Hor|]. exists k. rewrite up_at_tail. split; [lia|done].
    - intros (k & Hk & Hor). apply up_at_tail in Hor. exists (Datatypes.S k). split; [lia|done]. }
  destruct (Nat.eqb_spec n 0) as [->|Hn0].
  { simpl. split_and!; [lia|lia|lia|]. intros _. split; [done|].
    intros Hk. apply (Hshift 0%nat) in Hk as (k & Hk & _). lia. }
  unfold bind. pose proof (dial_wait_spec s1) as Hwt. destruct (dial_wait s1) as [done_ s2].
  destruct Hwt as (Ht2 & Hn2 & Ho2 & Hw2 & Hc2). destruct done_.
  { simpl. split_and!; [lia|lia|lia|]. intros Hcn. rewrite <- Hc in Hcn. by destruct (Hc2 Hcn). }
  specialize (IH (Some err) s2). destruct (connect_loop n _ s2) as [r s'].
  destruct IH as (I1 & I2 & I3 & I4). split_and!; [lia|lia|lia|].
  intros Hcn. rewrite (Hshift n), <- Ht2. apply I4. rewrite <- Hc in Hcn. by apply Hc2.
Qed.

(** ** Properties *)

(** C29: Migrations are resumable and idempotent. Let Migrate run under any
    failures (refused calls, lost replies, ambiguous commits, files that cannot be
    read or whose SQL fails).  It leaves no transaction open, and the database is
    the one it started from (with an error reported), or the files of a prefix of
    the sorted directory have been gone through in order: each was skipped if its
    version was recorded, or its SQL was applied and its version recorded together;
    every version of the prefix is recorded, and success means the prefix is the
    whole directory.  If an undisturbed run from the same database would succeed,
    calling Migrate again without failures succeeds too and reaches the very
    database the undisturbed run reaches; the disturbed run had reached it already
    if it reported success; and one more call changes nothing. *)
Theorem Migrate_resumes {S} (sql_exec : string -> S -> option S) read_file entries
    (w : MigWorld S) :
  mw_working w = None ->
  let migrate := Migrate sql_exec (inr entries) read_file in
  let names := migration_names entries in
  let d := mw_committed w in
  let '(err, w') := migrate w in
  let d' := mw_committed w' in
  mw_working w' = None /\
  (err <> None /\ d' = d \/
   exists k, mig_fold sql_exec read_file (take k names) (with_table d) = Some d' /\
     (forall n, n ∈ take k names -> recorded (version_of n) d') /\
     (err = None -> take k names = names)) /\
  (forall d2, migrate (quiet_mig d) = (None, quiet_mig d2) ->
     migrate (quiet_mig d') = (None, quiet_mig d2) /\
     (err = None -> d' = d2) /\
     migrate (quiet_mig d2) = (None, quiet_mig d2)).
Proof.
  intros Hw migrate names d. pose proof (Migrate_path sql_exec read_file entries w Hw) as Hp.
  fold migrate names d in Hp. destruct (migrate w) as [err w'] eqn:Em. destruct Hp as (Hw' & Hpath & Hok & _).
  split_and!; [done| |].
  - destruct Hpath as [?|(k & Hk & He)]; [by left|right]. exists k. split_and!; [done| |done].
    apply (mig_fold_recorded _ _ _ _ _ Hk).
  - intros d2 Hrun. apply quiet_reaches in Hrun as Ht. apply (rerun_reaches _ _ _ d); [|done|done].
    destruct Hpath as [[_ ?]|(k & Hk & _)]; [by left|right; by exists k].
Qed.

(** Each migration once, in file-name order. After a successful run from a
    database without the bookkeeping table, the recorded versions are those of the
    .sql files of the directory, without repetition, in byte order of the file
    names, and the schema is the files' SQL applied in that order (for file names
    with distinct versions). *)
Theorem Migrate_fresh {S} (sql_exec : string -> S -> option S) read_file entries s0 d' :
  NoDup (version_of <$> migration_names entries) ->
  Migrate sql_exec (inr entries) read_file (quiet_mig {| versions := None; schema := s0 |}) =
    (None, quiet_mig d') ->
  versions d' = Some (version_of <$> migration_names entries) /\
  StronglySorted String.le (migration_names entries) /\
  (forall n, n ∈ migration_names entries <-> (n, false) ∈ entries /\ HasSuffix n ".sql" = true) /\
  Some (schema d') = foldl (fun o n => s ← o;
    match read_file ("migrations/" +:+ n) with inl _ => None | inr sql => sql_exec sql s end)
    (Some s0) (migration_names entries).
Proof.
  intros Hnd Hrun.
  pose proof (Migrate_path sql_exec read_file entries
    (quiet_mig {| versions := None; schema := s0 |}) eq_refl) as Hp.
  rewrite Hrun in Hp. destruct Hp as (_ & _ & Hok & _). specialize (Hok eq_refl).
  cbn [mw_committed quiet_mig] in Hok. symmetry in Hok.
  apply (mig_fold_fresh sql_exec read_file) with (vs := []) in Hok as [Hv Hs];
    [|done|done|by intros v ?%not_elem_of_nil].
  split_and!; [done|apply migration_names_sorted|apply migration_names_in|done].
Qed.

(** Connecting is bounded and leaks nothing. Connect makes at most [attempts]
    tries and waits only between them; a pool whose ping fails is closed, so one
    more pool is open exactly on success; and, unless the context is done first,
    it succeeds if and only if one of those tries finds the database up. *)
Theorem Connect_bounded attempts (s : Dialer) :
  let '(r, s') := Connect attempts s in
  dial_count s' - dial_count s <= Z.max 0 attempts /\
  dial_waits s' - dial_waits s <= Z.max 0 (attempts - 1) /\
  dial_open s' = dial_open s + (if decide (r = Connected) then 1 else 0) /\
  (dial_cancel s = None -> (r = Connected <-> exists k, Z.of_nat k < attempts /\
     up_at (dial_tries s) k)).
Proof.
  unfold Connect. pose proof (connect_loop_spec (Z.to_nat attempts) None s) as Hl.
  destruct (connect_loop _ None s) as [r s']. destruct Hl as (H1 & H2 & H3 & H4).
  split_and!; [lia|lia|done|]. intros Hc. rewrite (H4 Hc). split; intros (k & Hk & Hor);
    exists k; (split; [lia|done]).
Qed.

(** ** Witnesses *)

(** The service's four migrations, with a schema that is the list of files run. *)
Definition demo_entries : list (string * bool) :=
  [("0001_init.sql", false); ("0003_seed_marker.sql", false); ("README", false);
   ("0002_current_items.sql", false); ("0004_grafana_readonly.sql", false); ("old", true)]%string.
Definition demo_read (path : string) : error + string := inr path.
Definition demo_exec (sql : string) (s : list string) : option (list string) := Some (s ++ [sql]).

Example demo_names : version_of <$> migration_names demo_entries =
  ["0001_init"; "0002_current_items"; "0003_seed_marker"; "0004_grafana_readonly"]%string.
Proof. vm_compute. reflexivity. Qed.

Definition demo_target : MigDB (list string) :=
  {| versions := Some (version_of <$> migration_names demo_entries);
     schema := (fun n => "migrations/" +:+ n) <$> migration_names demo_entries |}.

(** The commit of the second migration is ambiguous, the retry of the command
    meets no failure. *)
Lemma Migrate_resumes_witness :
  let w := {| mw_committed := {| versions := None; schema := [] |}; mw_working := None;
              mw_oracle := repeat Delivered 10 ++ [ReplyLost (ErrNew "unexpected EOF")] |} in
  let '(err, w') := Migrate demo_exec (inr demo_entries) demo_read w in
  err <> None /\ recorded "0002_current_items" (mw_committed w') /\
  Migrate demo_exec (inr demo_entries) demo_read (quiet_mig (mw_committed w')) =
    (None, quiet_mig demo_target).
Proof.
  intros w. pose proof (Migrate_resumes demo_exec demo_read demo_entries w eq_refl) as H.
  destruct (Migrate demo_exec (inr demo_entries) demo_read w) as [err w'] eqn:Em.
  destruct H as (_ & _ & Hrun).
  destruct (Hrun demo_target ltac:(vm_compute; reflexivity)) as [Hagain _]. clear Hrun.
  vm_compute in Em. injection Em as <- <-. split_and!; [done| |exact Hagain].
  eexists. split; [reflexivity|]. apply (bool_decide_unpack _). vm_compute. exact I.
Defined.

Lemma Migrate_fresh_witness :
  versions demo_target = Some (version_of <$> migration_names demo_entries) /\
  StronglySorted String.le (migration_names demo_entries).
Proof.
  edestruct (Migrate_fresh demo_exec demo_read demo_entries [] demo_target) as (Hv & Hs & _).
  - apply (bool_decide_unpack _). vm_compute. exact I.
  - vm_compute. reflexivity.
  - exact (conj Hv Hs).
Defined.
