(* ===== verification/GoMath.v ===== *)
(** * GoMath: Go's math.Cos

    The standard library's pure-Go cosine: octant reduction in three parts and
    two minimax polynomials, in float64 operations.  Arguments of [2^29] and more
    take its Payne-Hanek path, which the service's phases never reach; it is the
    parameter [trig_reduce]. *)
From S2P Require Import Prelude GoInt GoFloat.
Local Open Scope Z_scope.

Definition PI4A : float64 := f_const (7074237412016128) (-53).
Definition PI4B : float64 := f_const (5704459598430208) (-77).
Definition PI4C : float64 := f_const (6833020653556080) (-101).
Definition sin0 : float64 := f_const (6149556183080141) (-85).
Definition sin1 : float64 := f_const (-7571123942793053) (-78).
Definition sin2 : float64 := f_const (6506786710177953) (-71).
Definition sin3 : float64 := f_const (-7320136532877059) (-65).
Definition sin4 : float64 := f_const (4803839602522064) (-59).
Definition sin5 : float64 := f_const (-6004799503160648) (-55).
Definition cos0 : float64 := f_const (-7030593573755547) (-89).
Definition cos1 : float64 := f_const (5047434750082821) (-81).
Definition cos2 : float64 := f_const (-5205429473528774) (-74).
Definition cos3 : float64 := f_const (7320136533427445) (-68).
Definition cos4 : float64 := f_const (-6405119470030737) (-62).
Definition cos5 : float64 := f_const (6004799503160651) (-57).

(** [4 / Pi] and [2 * Pi], the constants rounded once. *)
Definition four_over_Pi : float64 := f_const 5734161139222659 (-52).
Definition two_Pi : float64 := f_const 7074237752028440 (-50).

Definition reduceThreshold : float64 := f_const 1 29.

(** (octant, remainder) of a huge argument. *)
Class TrigReduce := trig_reduce : float64 -> Z * float64.

#[export] Instance no_huge_phase : TrigReduce | 10 := fun _ => (0, S754_nan).

Definition horner (coeffs : list float64) (zz : float64) : float64 :=
  match coeffs with
  | [] => f_zero
  | c :: cs => fold_left (fun acc c => f_add (f_mul acc zz) c) cs c
  end.

Section cos.
Context `{TrigReduce}.

(** The octant [j] (already mapped to the nearest even one) and the remainder. *)
Definition cos_reduce (x : float64) : Z * float64 :=
  if SFleb reduceThreshold x then trig_reduce x else
  let j := default 0 (trunc_Z (f_mul x four_over_Pi)) in
  let y := f_of_Z j in
  let '(j, y) := if Z.odd j then (j + 1, f_add y f_one) else (j, y) in
  (Z.land j 7,
   f_sub (f_sub (f_sub x (f_mul y PI4A)) (f_mul y PI4B)) (f_mul y PI4C)).

Definition Cos (x : float64) : float64 :=
  match x with
  | S754_nan | S754_infinity _ => S754_nan
  | _ =>
      let '(j, z) := cos_reduce (SFabs x) in
      let '(j, sign) := if 3 <? j then (j - 4, true) else (j, false) in
      let sign := if 1 <? j then negb sign else sign in
      let zz := f_mul z z in
      let y :=
        if (j =? 1) || (j =? 2)
        then f_add z (f_mul (f_mul z zz) (horner [sin0; sin1; sin2; sin3; sin4; sin5] zz))
        else f_add (f_sub f_one (f_mul (f_const 1 (-1)) zz))
               (f_mul (f_mul zz zz) (horner [cos0; cos1; cos2; cos3; cos4; cos5] zz)) in
      if sign then SFopp y else y
  end.
End cos.

Example cos_zero : Cos f_zero = f_one.
Proof. vm_compute. reflexivity. Qed.
(** [math.Cos(math.Pi)] is exactly [-1]. *)
Example cos_pi : Cos (f_const 7074237752028440 (-51)) = f_of_Z (-1).
Proof. vm_compute. reflexivity. Qed.
