(* ===== verification/GoRound.v ===== *)
(** * GoRound: bounds on rounded float64 results

    Correct rounding never crosses a representable bound: if the exact result of
    an operation is at most [b * 2^E], with [b] a 53-bit mantissa, so is the
    rounded one.  Magnitudes are compared as integers, scaled by [2^4000]. *)
From S2P Require Import Prelude GoInt GoFloat.
Local Open Scope Z_scope.

(** [m * 2^e] in units of [2^-4000]. *)
Definition mag (m e : Z) : Z := m * 2 ^ (e + 4000).

(** The magnitude of a float is at most [b * 2^E]; it is finite. *)
Definition f_upto (x : float64) (b E : Z) : Prop :=
  match x with
  | S754_zero _ => True
  | S754_finite _ m e => -1074 <= e /\ mag (Z.pos m) e <= mag b E
  | _ => False
  end.

(** A bound a float can have: representable and far from overflow. *)
Definition f_bound (b E : Z) : Prop := 0 < b < 2 ^ 53 /\ -1074 <= E /\ mag b E < mag 1 972.

Lemma mag_shift m e k : 0 <= k -> -4000 <= e -> mag m (e + k) = mag (m * 2 ^ k) e.
Proof.
  intros Hk He. unfold mag. rewrite <- Z.mul_assoc, <- Z.pow_add_r by lia. do 2 f_equal. lia.
Qed.

Lemma mag_mono m m' e : m <= m' -> mag m e <= mag m' e.
Proof. intros Hm. apply Z.mul_le_mono_nonneg_r; [|done]. apply Z.pow_nonneg. lia. Qed.

Lemma mag_lt_inv m m' e : mag m e < mag m' e -> m < m'.
Proof. unfold mag. intros Hlt. pose proof (Z.pow_nonneg 2 (e + 4000) ltac:(lia)). nia. Qed.

Lemma mag_le_inv m m' e : -4000 <= e -> mag m e <= mag m' e -> m <= m'.
Proof.
  unfold mag. intros He. apply Z.mul_le_mono_pos_r. apply Z.pow_pos_nonneg; lia.
Qed.

(** A bound whose exponent is not below the grid's is a multiple of the grid. *)
Lemma mag_grid b E e : -4000 <= e <= E -> mag b E = mag (b * 2 ^ (E - e)) e.
Proof. intros He. rewrite <- mag_shift by lia. f_equal. lia. Qed.

(** ** Digits and shifts *)
Lemma digits2_pos_bounds p :
  2 ^ (Z.pos (digits2_pos p) - 1) <= Z.pos p < 2 ^ Z.pos (digits2_pos p).
Proof.
  induction p as [p IH|p IH|]; cbn [digits2_pos]; [| |done];
    rewrite Pos2Z.inj_succ; unfold Z.succ;
    replace (Z.pos (digits2_pos p) + 1 - 1) with (Z.pos (digits2_pos p) - 1 + 1) by lia;
    rewrite !Z.pow_add_r by lia; change (2 ^ 1) with 2; lia.
Qed.

Definition inexact (mrs : shr_record) : bool := shr_r mrs || shr_s mrs.

Lemma shr_1_spec mrs :
  0 <= shr_m mrs ->
  let mrs' := shr_1 mrs in
  0 <= shr_m mrs' /\
  exists r, shr_m mrs = 2 * shr_m mrs' + r /\ 0 <= r < 2 /\
    (inexact mrs' = true -> 0 < r \/ inexact mrs = true).
Proof.
  destruct mrs as [[|[p|p|]|p] r s]; cbn; intros Hm; try lia; (split; [lia|]).
  - exists 0. cbn. repeat split; try lia. by destruct r, s; auto.
  - exists 1. repeat split; try lia.
  - exists 0. repeat split; try lia. by destruct r, s; auto.
  - exists 1. repeat split; try lia.
Qed.

Lemma shr_iter_spec n mrs :
  0 <= shr_m mrs ->
  let mrs' := iter_pos shr_1 n mrs in
  0 <= shr_m mrs' /\
  exists r, shr_m mrs = 2 ^ Z.pos n * shr_m mrs' + r /\ 0 <= r < 2 ^ Z.pos n /\
    (inexact mrs' = true -> 0 < r \/ inexact mrs = true).
Proof.
  revert mrs. induction n as [n IH|n IH|]; intros mrs Hm; cbn [iter_pos].
  - destruct (shr_1_spec mrs Hm) as (H1&r1&E1&B1&I1).
    destruct (IH _ H1) as (H2&r2&E2&B2&I2). destruct (IH _ H2) as (H3&r3&E3&B3&I3).
    split; [done|]. exists (2 * (2 ^ Z.pos n * r3 + r2) + r1).
    rewrite (Pos2Z.inj_xI n), Z.pow_add_r by lia.
    replace (2 ^ (2 * Z.pos n)) with (2 ^ Z.pos n * 2 ^ Z.pos n)
      by (rewrite <- Z.pow_add_r by lia; f_equal; lia).
    change (2 ^ 1) with 2. set (w := 2 ^ Z.pos n) in *.
    assert (0 < w) by (apply Z.pow_pos_nonneg; lia).
    split_and!; [nia|nia|nia|]. intros Hx. apply I3 in Hx as [Hx|Hx]; [left; nia|].
    apply I2 in Hx as [Hx|Hx]; [left; nia|]. apply I1 in Hx as [Hx|Hx]; [left; nia|by right].
  - destruct (IH _ Hm) as (H2&r2&E2&B2&I2). destruct (IH _ H2) as (H3&r3&E3&B3&I3).
    split; [done|]. exists (2 ^ Z.pos n * r3 + r2). rewrite (Pos2Z.inj_xO n).
    replace (2 ^ (2 * Z.pos n)) with (2 ^ Z.pos n * 2 ^ Z.pos n)
      by (rewrite <- Z.pow_add_r by lia; f_equal; lia).
    set (w := 2 ^ Z.pos n) in *. assert (0 < w) by (apply Z.pow_pos_nonneg; lia).
    split_and!; [nia|nia|nia|]. intros Hx. apply I3 in Hx as [Hx|Hx]; [left; nia|].
    apply I2 in Hx as [Hx|Hx]; [left; nia|by right].
  - destruct (shr_1_spec mrs Hm) as (H1&r1&E1&B1&I1). split; [done|]. exists r1. by split_and!; try lia.
Qed.

(** ** One normalisation step keeps a bound *)
Definition ulp_up (x : bool) : Z := if x then 1 else 0.

Lemma loc_record m l :
  shr_m (shr_record_of_loc m l) = m /\
  inexact (shr_record_of_loc m l) = negb (match l with loc_Exact => true | _ => false end).
Proof. by destruct l as [|[]]. Qed.

Lemma shr_fexp_upto m e l b E mrs e' :
  f_bound b E -> 0 <= m -> -4000 <= e ->
  mag (m + ulp_up (inexact (shr_record_of_loc m l))) e <= mag b E ->
  shr_fexp 53 1024 m e l = (mrs, e') ->
  Z.max e (-1074) <= e' /\ 0 <= shr_m mrs /\ mag (shr_m mrs + ulp_up (inexact mrs)) e' <= mag b E.
Proof.
  intros (Hb&HE&_) Hm He Hle. unfold shr_fexp.
  set (k := fexp 53 1024 (Zdigits2 m + e) - e). pose proof (loc_record m l) as [Hrm _].
  destruct k as [|p|p] eqn:Hk; cbn [shr]; intros [= <- <-]; rewrite ?Hrm;
    try (by split_and!; [unfold fexp, emin in k; lia|lia|done]).
  destruct (shr_iter_spec p (shr_record_of_loc m l)) as (Hpos&r&Heq&Hr&Hx); [by rewrite Hrm|].
  set (mrs := iter_pos shr_1 p _) in *. rewrite Hrm in Heq.
  split_and!; [unfold fexp, emin in k; lia|done|].
  assert (e + Z.pos p <= E) as Hgrid.
  { assert (e + Z.pos p = Z.max (Zdigits2 m + e - 53) (-1074)) as Hfe
      by (unfold fexp, emin in k; subst k; lia).
    destruct (Z.le_gt_cases (Zdigits2 m + e - 53) (-1074)) as [|Hbig]; [lia|].
    destruct m as [|q|q]; [simpl in *; lia| |lia]. simpl in Hbig, Hfe.
    pose proof (digits2_pos_bounds q) as [Hq _].
    assert (mag (2 ^ (Z.pos (digits2_pos q) - 1)) e <= mag b E) as H1.
    { etrans; [|exact Hle]. apply mag_mono. destruct (inexact _); simpl; lia. }
    assert (mag b E < mag (2 ^ 53) E) as H2.
    { unfold mag. apply Z.mul_lt_mono_pos_r; [apply Z.pow_pos_nonneg|]; lia. }
    assert (mag (2 ^ (Z.pos (digits2_pos q) - 1)) e < mag (2 ^ 53) E) as H3 by lia.
    unfold mag in H3. rewrite <- !Z.pow_add_r in H3 by lia.
    apply Z.pow_lt_mono_r_iff in H3; lia. }
  rewrite (mag_grid b E (e + Z.pos p)) in Hle |- * by lia.
  set (B := b * 2 ^ (E - (e + Z.pos p))) in *. rewrite !(mag_shift _ e) in * by lia.
  apply mag_le_inv in Hle; [|lia]. apply mag_mono.
  set (w := 2 ^ Z.pos p) in *. assert (0 < w) by (apply Z.pow_pos_nonneg; lia).
  apply Z.mul_le_mono_pos_r; [done|].
  destruct (inexact mrs) eqn:Hi; simpl.
  - destruct (Hx eq_refl) as [Hr0|Hr0].
    + destruct (inexact (shr_record_of_loc m l)); simpl in Hle; nia.
    + rewrite Hr0 in Hle. simpl in Hle. nia.
  - destruct (inexact (shr_record_of_loc m l)); simpl in Hle; nia.
Qed.

Lemma round_nearest_even_bounds mrs :
  shr_m mrs <= round_nearest_even (shr_m mrs) (loc_of_shr_record mrs) <=
  shr_m mrs + ulp_up (inexact mrs).
Proof. destruct mrs as [m [] []]; simpl; try lia. case_match; lia. Qed.

(** Rounding an exact (or truncated) magnitude below a bound stays below it. *)
Lemma binary_round_aux_upto s m e l b E :
  f_bound b E -> 0 <= m -> -4000 <= e ->
  mag (m + ulp_up (inexact (shr_record_of_loc m l))) e <= mag b E ->
  f_upto (binary_round_aux 53 1024 s m e l) b E.
Proof.
  intros HB Hm He Hle. unfold binary_round_aux.
  destruct (shr_fexp 53 1024 m e l) as [r1 e1] eqn:H1.
  destruct (shr_fexp_upto _ _ _ _ _ _ _ HB Hm He Hle H1) as (He1&Hm1&Hle1).
  pose proof (round_nearest_even_bounds r1) as Hrn. set (m2 := round_nearest_even _ _) in *.
  destruct (shr_fexp 53 1024 m2 e1 loc_Exact) as [r2 e2] eqn:H2.
  assert (mag (m2 + ulp_up (inexact (shr_record_of_loc m2 loc_Exact))) e1 <= mag b E) as Hle2.
  { etrans; [|exact Hle1]. apply mag_mono. simpl. lia. }
  destruct (shr_fexp_upto m2 e1 loc_Exact _ _ _ _ HB ltac:(lia) ltac:(lia) Hle2 H2) as (He2&Hm2&Hle3).
  assert (mag (shr_m r2) e2 <= mag b E) as Hle4.
  { etrans; [|exact Hle3]. apply mag_mono. destruct (inexact r2); simpl; lia. }
  destruct (shr_m r2) as [|p|p]; [done| |lia].
  destruct (Z.leb_spec e2 (1024 - 53)) as [|Hbig]; [by split; [lia|]|].
  destruct HB as (_&_&Hmax). assert (mag 1 972 <= mag (Z.pos p) e2); [|lia].
  unfold mag. apply Z.mul_le_mono_nonneg; [lia|lia|apply Z.pow_nonneg; lia|].
  apply Z.pow_le_mono_r; lia.
Qed.

(** ** The operations *)
Lemma mag_mul m e bx Ex m' e' :
  0 <= m' -> -1100 <= e -> -1100 <= Ex -> -1100 <= e' ->
  mag m e <= mag bx Ex -> mag (m * m') (e + e') <= mag (bx * m') (Ex + e').
Proof.
  intros Hm' He HEx He' Hle. unfold mag in *.
  assert (0 < 2 ^ 2000) as Hw by (apply Z.pow_pos_nonneg; lia).
  assert (0 <= 2 ^ (e' + 2000)) as Hv by (apply Z.pow_nonneg; lia).
  apply (Z.mul_le_mono_pos_r _ _ (2 ^ 2000) Hw). rewrite <- !Z.mul_assoc, <- !Z.pow_add_r by lia.
  replace (e + e' + 4000 + 2000) with ((e + 4000) + (e' + 2000)) by lia.
  replace (Ex + e' + 4000 + 2000) with ((Ex + 4000) + (e' + 2000)) by lia.
  rewrite (Z.pow_add_r 2 (e + 4000)), (Z.pow_add_r 2 (Ex + 4000)) by lia.
  generalize dependent (2 ^ (e' + 2000)). generalize dependent (2 ^ (e + 4000)).
  generalize dependent (2 ^ (Ex + 4000)). intros c a Hle v Hv.
  transitivity ((m * a) * (m' * v)); [lia|].
  transitivity ((bx * c) * (m' * v)); [|lia]. apply Z.mul_le_mono_nonneg_r; [by apply Z.mul_nonneg_nonneg|done].
Qed.

Lemma f_mul_upto x y bx Ex s' m' e' b E :
  f_upto x bx Ex -> -1100 <= Ex -> y = S754_finite s' m' e' -> -1074 <= e' ->
  f_bound b E -> mag (bx * Z.pos m') (Ex + e') <= mag b E -> f_upto (f_mul x y) b E.
Proof.
  intros Hx HEx -> He' HB Hle. destruct x as [s|s| |s m e]; simpl; try done.
  destruct Hx as [He Hm]. apply binary_round_aux_upto; [done|lia|lia|]. simpl.
  rewrite Z.add_0_r, Pos2Z.inj_mul. etrans; [|exact Hle]. apply mag_mul; (done || lia).
Qed.

(** Truncation toward zero does not increase the magnitude. *)
Lemma trunc_mag s m e z :
  -1074 <= e -> trunc_Z (S754_finite s m e) = Some z -> mag (Z.abs z) 0 <= mag (Z.pos m) e.
Proof.
  intros He. cbn [trunc_Z]. intros [= <-].
  assert (0 <= if 0 <=? e then Z.pos m * 2 ^ e else int_part m e) as Hpos.
  { destruct (Z.leb_spec 0 e); [apply Z.mul_nonneg_nonneg; [lia|apply Z.pow_nonneg; lia]|]. unfold int_part. apply Z.div_pos; [lia|]. apply Z.pow_pos_nonneg; lia. }
  transitivity (mag (if 0 <=? e then Z.pos m * 2 ^ e else int_part m e) 0).
  { apply mag_mono. destruct s; lia. }
  destruct (Z.leb_spec 0 e) as [He'|He'].
  - rewrite <- mag_shift by lia. done.
  - unfold int_part, mag. replace (0 + 4000) with (- e + (e + 4000)) by lia.
    rewrite Z.pow_add_r, Z.mul_assoc by lia. apply Z.mul_le_mono_nonneg_r; [apply Z.pow_nonneg; lia|].
    rewrite Z.mul_comm. apply Z.mul_div_le, Z.pow_pos_nonneg; lia.
Qed.

Lemma trunc_upto x b E z :
  f_upto x b E -> 0 <= b -> -1100 <= E <= 0 -> f_not_negative x -> trunc_Z x = Some z ->
  0 <= z <= b / 2 ^ (- E).
Proof.
  intros Hx Hb HE Hn Ht. pose proof (trunc_nonneg _ _ Hn Ht). split; [done|].
  assert (0 < 2 ^ (- E)) as Hw by (apply Z.pow_pos_nonneg; lia).
  destruct x as [s|s| |s m e]; [simpl in *; simplify_eq; by apply Z.div_pos|done|done|].
  destruct Hx as [He Hm]. pose proof (trunc_mag _ _ _ _ He Ht) as Hz.
  apply Z.div_le_lower_bound; [done|]. rewrite Z.abs_eq in Hz by done.
  apply (mag_le_inv _ _ E); [lia|]. etrans; [|exact Hm]. etrans; [|exact Hz].
  rewrite Z.mul_comm, <- mag_shift by lia. by replace (E + - E) with 0 by lia.
Qed.

Lemma shl_align_mag p e e' :
  -1100 <= e' -> let '(q, e2) := shl_align p e e' in
  Z.min e (-1100) <= e2 /\ (-4000 <= e -> mag (Z.pos q) e2 = mag (Z.pos p) e).
Proof.
  intros He'. unfold shl_align. destruct (e' - e) as [|d|d] eqn:Hd; [by split; [lia|]..|].
  split; [lia|]. intros He. replace e with (e' + Z.pos d) by lia. rewrite mag_shift by lia. f_equal.
  clear. revert p. induction d as [|d IH] using Pos.peano_ind; intros p; [simpl; lia|].
  rewrite Pos.iter_succ, Pos2Z.inj_xO, IH, Pos2Z.inj_succ, Z.pow_succ_r by lia. lia.
Qed.

Lemma binary_normalize_upto m e z b E :
  f_bound b E -> -2200 <= e -> mag (Z.abs m) e <= mag b E ->
  f_upto (binary_normalize 53 1024 m e z) b E.
Proof.
  intros HB He Hle.
  assert (forall s p, mag (Z.pos p) e <= mag b E -> f_upto (binary_round 53 1024 s p e) b E) as Hr.
  { clear Hle. intros s p Hle. unfold binary_round.
    pose proof (shl_align_mag p e (fexp 53 1024 (Z.pos (digits2_pos p) + e))) as Hs.
    destruct (shl_align _ _ _) as [q e2]. destruct Hs as [He2 Hq]; [unfold fexp, emin; lia|].
    apply binary_round_aux_upto; [done|lia|lia|]. simpl. rewrite Z.add_0_r, Hq by lia. done. }
  destruct m as [|p|p]; simpl; auto.
Qed.

Lemma f_of_Z_upto n : 0 < n < 2 ^ 53 -> f_upto (f_of_Z n) n 0.
Proof.
  intros Hn. apply binary_normalize_upto; [|lia|rewrite Z.abs_eq by lia; done].
  split; [done|split; [lia|]]. unfold mag. apply Z.lt_trans with (2 ^ 53 * 2 ^ 4000); [nia|].
  rewrite <- Z.pow_add_r, Z.mul_1_l by lia. apply Z.pow_lt_mono_r; lia.
Qed.

Lemma new_location_exact n r :
  0 < n -> 0 <= r < n -> ulp_up (inexact (shr_record_of_loc 0 (new_location n r))) <= r.
Proof.
  intros Hn Hr. unfold new_location, new_location_even, new_location_odd.
  destruct (Z.eqb_spec r 0) as [-> |]; [by destruct (Z.even n)|].
  transitivity 1; [|lia]. by destruct (inexact _).
Qed.

(** A quotient below a bound. *)
Lemma f_div_upto x y bx Ex s' m' e' b E :
  f_upto x bx Ex -> -1100 <= Ex -> y = S754_finite s' m' e' -> -1074 <= e' <= 100 -> -1100 <= E ->
  f_bound b E -> mag bx Ex <= mag (b * Z.pos m') (E + e') -> f_upto (f_div x y) b E.
Proof.
  intros Hx HEx -> He' HE HB Hle. destruct x as [s|s| |s m e]; simpl; try done.
  destruct Hx as [He Hm].
  assert (mag (Z.pos m) e <= mag (b * Z.pos m') (E + e')) as Hlem by lia. clear Hm Hle.
  unfold f_div. cbn [SFdiv]. unfold SFdiv_core_binary.
  set (g := Z.min _ (e - e')).
  assert (-1200 <= g) as Hg by (unfold g, fexp, emin; lia).
  assert (g <= E) as HgE.
  { pose proof (digits2_pos_bounds m) as [Hd1 _]. pose proof (digits2_pos_bounds m') as [_ Hd2].
    destruct HB as ([Hb1 Hb2]&HE1&_).
    assert (mag (2 ^ (Z.pos (digits2_pos m) - 1)) e <= mag (Z.pos m) e) as H1 by (by apply mag_mono).
    assert (mag (b * Z.pos m') (E + e') < mag (2 ^ (53 + Z.pos (digits2_pos m'))) (E + e')) as H2.
    { unfold mag. apply Z.mul_lt_mono_pos_r; [apply Z.pow_pos_nonneg; lia|]. rewrite Z.pow_add_r; nia. }
    assert (mag (2 ^ (Z.pos (digits2_pos m) - 1)) e < mag (2 ^ (53 + Z.pos (digits2_pos m'))) (E + e'))
      as H3 by lia.
    unfold mag in H3. rewrite <- !Z.pow_add_r in H3 by lia.
    apply Z.pow_lt_mono_r_iff in H3; [|lia|lia]. unfold g, fexp, emin. cbn [Zdigits2]. lia. }
  set (t := e - e' - g). assert (0 <= t) as Ht by (unfold t, g; lia).
  replace (match t with Z0 => Z.pos m | Z.pos _ => Z.shiftl (Z.pos m) t | Z.neg _ => 0 end)
    with (Z.pos m * 2 ^ t) by (destruct t; [lia|by rewrite Z.shiftl_mul_pow2 by lia|lia]).
  pose proof (Z_div_mod (Z.pos m * 2 ^ t) (Z.pos m') ltac:(lia)) as Hdm.
  destruct (Z.div_eucl _ _) as [q r]. destruct Hdm as [Hq Hr].
  replace e with (g + e' + t) in Hlem by lia.
  replace (E + e') with (g + e' + (E - g)) in Hlem by lia.
  rewrite (mag_shift _ (g + e') t), (mag_shift _ (g + e') (E - g)) in Hlem by lia. apply mag_le_inv in Hlem; [|lia].
  assert (0 <= 2 ^ t) by (apply Z.pow_nonneg; lia).
  apply binary_round_aux_upto; [done|nia|lia|]. rewrite (mag_grid b E g) by lia. apply mag_mono.
  pose proof (new_location_exact (Z.pos m') r ltac:(lia) ltac:(lia)) as Hup.
  set (B := b * 2 ^ (E - g)) in *.
  replace (b * Z.pos m' * 2 ^ (E - g)) with (B * Z.pos m') in Hlem by lia.
  replace (inexact (shr_record_of_loc q (new_location (Z.pos m') r)))
    with (inexact (shr_record_of_loc 0 (new_location (Z.pos m') r)))
    by (by destruct (new_location _ _) as [|[]]).
  destruct (inexact _); simpl in Hup |- *; nia.
Qed.

Lemma f_div_nonneg x y m' e' : f_not_negative x -> y = S754_finite false m' e' -> f_not_negative (f_div x y).
Proof.
  intros Hx ->. destruct x as [s|s| |s m e]; simpl in *; try done; [by subst|]. subst s.
  unfold f_div. cbn [SFdiv xorb]. destruct (SFdiv_core_binary _ _ _ _) as [[q g] l].
  pose proof (binary_round_aux_sign false q g l) as Hs. by destruct (binary_round_aux _ _ _ _ _ _).
Qed.

(** Subtracting one from a number between zero and two stays within one. *)
Lemma f_sub_one_upto x : f_not_negative x -> f_upto x 2 0 -> f_upto (f_sub x f_one) 1 0.
Proof.
  intros Hn Hx. assert (f_bound 1 0) as HB by (split; [lia|split; [lia|by vm_compute]]).
  destruct x as [s|s| |s m e]; [|done..|].
  - change (-1074 <= -52 /\ mag 4503599627370496 (-52) <= mag 1 0). split; [lia|by vm_compute].
  - simpl in Hn. subst s. destruct Hx as [He Hm]. change f_one with (S754_finite false 4503599627370496 (-52)).
    unfold f_sub. cbn [SFsub cond_Zopp]. set (ez := Z.min e (-52)).
    pose proof (shl_align_mag m e ez) as H1. pose proof (shl_align_mag 4503599627370496 (-52) ez) as H2.
    assert (snd (shl_align m e ez) = ez /\ snd (shl_align 4503599627370496 (-52) ez) = ez) as [E1 E2]
      by (unfold shl_align, ez; split; destruct (_ - _) eqn:Hd; simpl; lia).
    destruct (shl_align m e ez) as [q1 z1], (shl_align 4503599627370496 (-52) ez) as [q2 z2].
    simpl in E1, E2 |- *. subst z1 z2. destruct H1 as [_ H1]; [lia|]. destruct H2 as [_ H2]; [lia|].
    rewrite <- H1 in Hm by lia. clear H1.
    assert (mag (Z.pos q2) ez = mag 1 0) as Hq2 by (rewrite H2 by lia; by vm_compute). clear H2.
    apply binary_normalize_upto; [done|lia|]. rewrite <- Hq2. apply mag_mono.
    assert (Z.pos q1 <= 2 * Z.pos q2); [|lia]. apply (mag_le_inv _ _ ez); [lia|].
    etrans; [exact Hm|]. unfold mag in *. lia.
Qed.

(** ** Integers below [2^53] are exact *)
Lemma digits2_pos_shift p d :
  Z.pos (digits2_pos (Pos.iter xO p d)) = Z.pos (digits2_pos p) + Z.pos d.
Proof.
  revert p. induction d as [|d IH] using Pos.peano_ind; intros p; [simpl; lia|].
  rewrite Pos.iter_succ. cbn [digits2_pos]. rewrite !Pos2Z.inj_succ, IH. lia.
Qed.

Lemma binary_round_aux_exact s m e :
  Z.pos (digits2_pos m) = 53 -> -1074 <= e <= 971 ->
  binary_round_aux 53 1024 s (Z.pos m) e loc_Exact = S754_finite s m e.
Proof.
  intros Hd He. unfold binary_round_aux, shr_fexp. cbn [Zdigits2]. rewrite Hd.
  replace (fexp 53 1024 (53 + e) - e) with 0 by (unfold fexp, emin; lia). cbn.
  rewrite Hd. replace (fexp 53 1024 (53 + e) - e) with 0 by (unfold fexp, emin; lia). cbn.
  destruct (Z.leb_spec e (1024 - 53)); [done|lia].
Qed.

(** An integer below [2^53] is rounded to itself. *)
Lemma binary_round_int s p :
  Z.pos p < 2 ^ 53 ->
  exists m e, binary_round 53 1024 s p 0 = S754_finite s m e /\ -52 <= e <= 0 /\ Z.pos m = Z.pos p * 2 ^ (- e).
Proof.
  intros Hn. unfold binary_round. pose proof (digits2_pos_bounds p) as [Hd _].
  assert (Z.pos (digits2_pos p) <= 53) as H53.
  { destruct (Z.le_gt_cases (Z.pos (digits2_pos p)) 53) as [|Hgt]; [done|].
    assert (2 ^ 53 <= 2 ^ (Z.pos (digits2_pos p) - 1)) by (apply Z.pow_le_mono_r; lia). lia. }
  rewrite Z.add_0_r. unfold shl_align, fexp, emin.
  replace (Z.max (Z.pos (digits2_pos p) - 53) (3 - 1024 - 53) - 0)
    with (Z.pos (digits2_pos p) - 53) by lia.
  destruct (Z.pos (digits2_pos p) - 53) as [|k|k] eqn:Hk; [|lia|].
  - rewrite binary_round_aux_exact by lia. exists p, 0. split; [done|]. simpl. lia.
  - rewrite binary_round_aux_exact by (rewrite ?digits2_pos_shift; lia).
    replace (Z.max (Z.neg k) (3 - 1024 - 53)) with (Z.neg k) by lia.
    eexists _, _. split; [done|]. split; [lia|]. change (- Z.neg k) with (Z.pos k).
    clear. revert p. induction k as [|k IH] using Pos.peano_ind; intros p; [simpl; lia|].
    rewrite Pos.iter_succ, Pos2Z.inj_xO, IH, Pos2Z.inj_succ, Z.pow_succ_r by lia. lia.
Qed.

Lemma trunc_exact s m e n : e <= 0 -> Z.pos m = Z.pos n * 2 ^ (- e) ->
  trunc_Z (S754_finite s m e) = Some (if s then Z.neg n else Z.pos n).
Proof.
  intros He Hm. assert ((if 0 <=? e then Z.pos m * 2 ^ e else int_part m e) = Z.pos n) as Ha.
  - destruct (Z.leb_spec 0 e) as [H0|H0].
    + replace e with 0 in * by lia. simpl in *. lia.
    + unfold int_part. rewrite Hm. apply Z.div_mul, Z.pow_nonzero; lia.
  - cbn [trunc_Z]. rewrite Ha. by destruct s.
Qed.

Lemma trunc_f_of_Z n : 0 < n < 2 ^ 53 -> trunc_Z (f_of_Z n) = Some n.
Proof.
  intros Hn. destruct n as [|p|p]; [lia| |lia].
  destruct (binary_round_int false p) as (m & e & Hr & He & Hm); [lia|].
  change (f_of_Z (Z.pos p)) with (binary_round 53 1024 false p 0). rewrite Hr.
  apply (trunc_exact false); [lia|exact Hm].
Qed.
