(* ===== verification/LoadShape.v ===== *)
(** * LoadShape: the shared load profile (internal/loadshape)

    [ParseProfile]'s validation, [Rate] and its factors, and the anomaly windows,
    in the float64 operations of the source, in its order.  Decoding the JSON
    bytes is the standard library's; [RawProfile] is what it decodes. *)
From S2P Require Import Prelude GoInt GoFloat GoMath GoRound.
Local Open Scope Z_scope.

Definition secondsPerDay : float64 := f_of_Z 86400.
Definition secondsPerHour : float64 := f_of_Z 3600.

(** ** Data *)
Record Diurnal := { Amplitude : float64; PhaseHours : float64 }.
Record Trend := { PctPerDay : float64 }.
Record Anomaly := {
  an_Name : string;
  an_Type : string;
  OffsetDays : float64;
  DurationHours : float64;
  Multiplier : float64
}.
Record Profile := {
  BaseRatePerS : float64;
  p_Diurnal : Diurnal;
  WeekdayCoefficients : list float64;    (* the array [7]float64 *)
  NoisePct : float64;
  p_Trend : Trend;
  Anomalies : list Anomaly
}.

(** ** ParseProfile *)

(** The decoded document: [weekday_coefficients] at its own length (the slice of
    the second decoding). *)
Record RawProfile := {
  raw_base : float64;
  raw_diurnal : Diurnal;
  raw_weekdays : list float64;
  raw_noise : float64;
  raw_trend : Trend;
  raw_anomalies : list Anomaly
}.

Definition zero_profile : Profile :=
  {| BaseRatePerS := f_zero; p_Diurnal := {| Amplitude := f_zero; PhaseHours := f_zero |};
     WeekdayCoefficients := repeat f_zero 7; NoisePct := f_zero;
     p_Trend := {| PctPerDay := f_zero |}; Anomalies := [] |}.

(** Decoding into [7]float64: extra elements are dropped, missing ones zero. *)
Definition to_array7 (l : list float64) : list float64 := take 7 (l ++ repeat f_zero 7).

Definition decode_profile (r : RawProfile) : Profile :=
  {| BaseRatePerS := raw_base r; p_Diurnal := raw_diurnal r;
     WeekdayCoefficients := to_array7 (raw_weekdays r); NoisePct := raw_noise r;
     p_Trend := raw_trend r; Anomalies := raw_anomalies r |}.

Definition known_anomaly_type (ty : string) : bool :=
  bool_decide (ty ∈ ["spike"; "outage"; "degradation"]%string).

Definition err_weekdays : error := ErrNew "weekday_coefficients must have exactly 7 values".
Definition err_anomaly_type : error := ErrNew "anomaly has unknown type".

Fixpoint check_anomalies (l : list Anomaly) : option error :=
  match l with
  | [] => None
  | a :: l' => if known_anomaly_type (an_Type a) then check_anomalies l' else Some err_anomaly_type
  end.

Definition ParseProfile (doc : error + RawProfile) : Profile * option error :=
  match doc with
  | inl err => (zero_profile, Some err)
  | inr raw =>
      let p := decode_profile raw in
      if negb (length (raw_weekdays raw) =? 7)%nat then (zero_profile, Some err_weekdays) else
      match check_anomalies (Anomalies p) with
      | Some err => (zero_profile, Some err)
      | None => (p, None)
      end
  end.

(** ** The factors of Rate *)
Section rate.
Context `{FloatConv} `{TrigReduce}.
Local Open Scope f64_scope.

Definition hourOfDay (profileTime : float64) : float64 :=
  let daysSinceEpoch := Floor (profileTime / secondsPerDay) in
  let secOfDay := profileTime - daysSinceEpoch * secondsPerDay in
  secOfDay / secondsPerHour.

(** Go's [%] truncates: [Z.rem]. *)
Definition monday_of_day (daysSinceEpoch : Z) : Z :=
  let idx := (Z.rem (Z.rem daysSinceEpoch 7 + 3) 7 + 7)%Z in
  Z.rem idx 7.

Definition mondayIndex (profileTime : float64) : Z :=
  monday_of_day (int64_of_f (Floor (profileTime / secondsPerDay))).

Definition splitmix64 (seed : Z) : Z :=
  let z := u64 (seed + 0x9e3779b97f4a7c15) in
  let z := u64 (Z.lxor z (Z.shiftr z 30) * 0xbf58476d1ce4e5b9) in
  let z := u64 (Z.lxor z (Z.shiftr z 27) * 0x94d049bb133111eb) in
  Z.lxor z (Z.shiftr z 31).

Definition noise_value (h : Z) : float64 :=
  let modded := (h mod 2000001)%Z in
  f_of_Z modded / f_of_Z 1000000 - f_one.

Definition noiseSample (profileTime : float64) : float64 :=
  let bucket := int64_of_f (Floor (profileTime / f_of_Z 60)) in
  noise_value (splitmix64 (u64 bucket)).

Definition anomalyFactor (a : Anomaly) (profileTime refUnixSeconds : float64) : float64 :=
  let start := refUnixSeconds + OffsetDays a * secondsPerDay in
  let end_ := start + DurationHours a * secondsPerHour in
  if (profileTime <? start) || (end_ <? profileTime) then f_one else
  if String.eqb (an_Type a) "spike" || String.eqb (an_Type a) "outage" then Multiplier a else
  if String.eqb (an_Type a) "degradation" then
    let duration := end_ - start in
    let frac := if f_zero <? duration then (profileTime - start) / duration else f_one in
    f_one + frac * (Multiplier a - f_one)
  else f_one.

Definition profile_time (unixSeconds refUnixSeconds scale : float64) : float64 :=
  refUnixSeconds + (unixSeconds - refUnixSeconds) * scale.

Definition diurnal_factor (d : Diurnal) (profileTime : float64) : float64 :=
  f_one + Amplitude d * Cos (two_Pi * (hourOfDay profileTime - PhaseHours d) / f_of_Z 24).

(** [None] is an index-out-of-range panic on the weekday array. *)
Definition Rate (unixSeconds : float64) (profile : Profile) (refUnixSeconds scale : float64)
    : option float64 :=
  let profileTime := profile_time unixSeconds refUnixSeconds scale in
  let diurnalFactor := diurnal_factor (p_Diurnal profile) profileTime in
  weekdayFactor ← go_index (WeekdayCoefficients profile) (mondayIndex profileTime);
  let daysSinceRef := (profileTime - refUnixSeconds) / secondsPerDay in
  let trendFactor := f_one + PctPerDay (p_Trend profile) * daysSinceRef in
  let noiseFactor := f_one + NoisePct profile * noiseSample profileTime in
  let anomaly := fold_left (fun acc a => acc * anomalyFactor a profileTime refUnixSeconds)
                   (Anomalies profile) f_one in
  let raw := BaseRatePerS profile * diurnalFactor * weekdayFactor * trendFactor
               * noiseFactor * anomaly in
  Some (f_max f_zero raw).

(** ** AnomalyRealWindow *)
Definition AnomalyRealWindow (a : Anomaly) (refUnixSeconds scale : float64) : float64 * float64 :=
  let profileStart := refUnixSeconds + OffsetDays a * secondsPerDay in
  let profileEnd := profileStart + DurationHours a * secondsPerHour in
  (refUnixSeconds + (profileStart - refUnixSeconds) / scale,
   refUnixSeconds + (profileEnd - refUnixSeconds) / scale).
End rate.

(** ** The checked-in profile and the parity goldens *)

(** [loadprofile/profile.json]; a decimal [n / 10^k] is rounded once. *)
Definition dec (n k : Z) : float64 := f_div (f_of_Z n) (f_of_Z (10 ^ k)).

Definition story_profile : RawProfile :=
  {| raw_base := f_of_Z 8;
     raw_diurnal := {| Amplitude := dec 35 2; PhaseHours := f_of_Z 14 |};
     raw_weekdays := [dec 105 2; dec 108 2; dec 11 1; dec 11 1; dec 115 2; dec 85 2; dec 75 2];
     raw_noise := dec 5 2;
     raw_trend := {| PctPerDay := dec 15 4 |};
     raw_anomalies := [
       {| an_Name := "traffic-spike"; an_Type := "spike"; OffsetDays := f_of_Z (-10);
          DurationHours := f_of_Z 6; Multiplier := f_of_Z 4 |};
       {| an_Name := "ingestion-outage"; an_Type := "outage"; OffsetDays := f_of_Z (-6);
          DurationHours := f_of_Z 4; Multiplier := f_zero |};
       {| an_Name := "gradual-degradation"; an_Type := "degradation"; OffsetDays := f_of_Z (-2);
          DurationHours := f_of_Z 48; Multiplier := dec 3 1 |} ] |}.

(** [%.9f] of a non-negative float, in units of 10^-9: the exact value rounded to
    nearest, ties to even. *)
Definition nanos_of (x : float64) : option Z :=
  match x with
  | S754_zero _ => Some 0
  | S754_finite false m e =>
      if 0 <=? e then Some (Z.pos m * 2 ^ e * 10 ^ 9) else
      let n := Z.pos m * 10 ^ 9 in
      let d := 2 ^ (- e) in
      let q := n / d in
      let r := n mod d in
      Some (if (d <? 2 * r) || ((d =? 2 * r) && Z.odd q) then q + 1 else q)
  | _ => None
  end.

Definition golden_row (scale : Z) (ts : Z) : option Z :=
  let '(p, err) := ParseProfile (inr story_profile) in
  match err with
  | Some _ => None
  | None => r ← Rate (f_of_Z ts) p (f_of_Z 1767571200) (f_of_Z scale); nanos_of r
  end.

(** Every twelfth row (one per six hours) of [golden-scale1.csv] and
    [golden-scale24.csv]: (unix_ts, rate in units of 10^-9). *)
Definition golden_scale1 : list (Z * Z) :=
  [(1766361600, 5933702542); (1766383200, 6661070212); (1766404800, 10214868330);
   (1766426400, 9834242843); (1766448000, 5958811985); (1766469600, 7286244392);
   (1766491200, 10767087252); (1766512800, 9771003031); (1766534400, 6258409074);
   (1766556000, 7045253745); (1766577600, 11329819792); (1766599200, 10261252313);
   (1766620800, 5886600883); (1766642400, 7404833120); (1766664000, 11575024423);
   (1766685600, 9735218941); (1766707200, 25512358521); (1766728800, 31094942557);
   (1766750400, 12006935904); (1766772000, 10669529041); (1766793600, 4763786287);
   (1766815200, 5753915654); (1766836800, 8648673335); (1766858400, 7704379123);
   (1766880000, 4110501213); (1766901600, 4995038582); (1766923200, 7424705692);
   (1766944800, 6940152140); (1766966400, 5965322950); (1766988000, 6576055461);
   (1767009600, 10626881117); (1767031200, 10181308520); (1767052800, 0);
   (1767074400, 6734144005); (1767096000, 11271479169); (1767117600, 9775088589);
   (1767139200, 5865457889); (1767160800, 7119934039); (1767182400, 11652875277);
   (1767204000, 9817417513); (1767225600, 6115980790); (1767247200, 7170645397);
   (1767268800, 11618589075); (1767290400, 10172701186); (1767312000, 6136530042);
   (1767333600, 7723203520); (1767355200, 11941403916); (1767376800, 10628563437);
   (1767398400, 4829129148); (1767420000, 5358774174); (1767441600, 7154820096);
   (1767463200, 6138390359); (1767484800, 2642080415); (1767506400, 2659172451);
   (1767528000, 3643852905); (1767549600, 2612867289); (1767571200, 1772997475)].

Definition golden_scale24 : list (Z * Z) :=
  [(1766361600, 2858741516); (1766383200, 2013746649); (1766404800, 2533569025);
   (1766426400, 3255067208); (1766448000, 3120229473); (1766469600, 3163308874);
   (1766491200, 3278416729); (1766512800, 3377532929); (1766534400, 2412532826);
   (1766556000, 2730313848); (1766577600, 3772638726); (1766599200, 3735411327);
   (1766620800, 3821123077); (1766642400, 3787360611); (1766664000, 3769813025);
   (1766685600, 2708619620); (1766707200, 3016827132); (1766728800, 4041644838);
   (1766750400, 4113550568); (1766772000, 3949666755); (1766793600, 4271203063);
   (1766815200, 3855243541); (1766836800, 2943469638); (1766858400, 3189229827);
   (1766880000, 4729563119); (1766901600, 4245593732); (1766923200, 4421378708);
   (1766944800, 4392484704); (1766966400, 4392135706); (1766988000, 3292506872);
   (1767009600, 3636783847); (1767031200, 4889367546); (1767052800, 4928282748);
   (1767074400, 4978110240); (1767096000, 4907478685); (1767117600, 4972104074);
   (1767139200, 3395320676); (1767160800, 4070194275); (1767182400, 5528563640);
   (1767204000, 5036103327); (1767225600, 5287335416); (1767247200, 4994369130);
   (1767268800, 5110407419); (1767290400, 3788686577); (1767312000, 4069163952);
   (1767333600, 5662786777); (1767355200, 5786334524); (1767376800, 5406601273);
   (1767398400, 5667897806); (1767420000, 5524360495); (1767441600, 3791839489);
   (1767463200, 4636748096); (1767484800, 5986491756); (1767506400, 5958215754);
   (1767528000, 6258409074); (1767549600, 0); (1767571200, 1772997475)].

(** ** splitmix64 is invertible *)
Definition splitmix64_inv (h : Z) : Z :=
  let unshift z k := Z.lxor (Z.lxor z (Z.shiftr z k)) (Z.shiftr z (2 * k)) in
  let z := unshift h 31 in
  let z := unshift (u64 (z * 0x319642b2d24d8ec3)) 27 in
  let z := unshift (u64 (z * 0x96de1b173f119089)) 30 in
  u64 (z - 0x9e3779b97f4a7c15).

Lemma u64_small z : 0 <= z < 2^64 -> u64 z = z.
Proof. apply Z.mod_small. Qed.

Lemma u64_lt z : 0 <= z -> z < 2^64 <-> Z.shiftr z 64 = 0.
Proof.
  intros Hz. rewrite Z.shiftr_div_pow2 by lia. split; intros Hs.
  - apply Z.div_small. lia.
  - pose proof (Z.div_mod z (2^64) ltac:(lia)). pose proof (Z.mod_pos_bound z (2^64) ltac:(lia)). lia.
Qed.

Lemma xorshift_range z k : 0 <= k -> 0 <= z < 2^64 -> 0 <= Z.lxor z (Z.shiftr z k) < 2^64.
Proof.
  intros Hk [Hz1 Hz2].
  assert (0 <= Z.lxor z (Z.shiftr z k)) as Hpos
    by (apply Z.lxor_nonneg; rewrite Z.shiftr_nonneg; lia).
  split; [done|]. apply u64_lt; [done|].
  apply (u64_lt z) in Hz2; [|done].
  by rewrite Z.shiftr_lxor, (Z.shiftr_shiftr _ k 64), Z.add_comm,
    <- (Z.shiftr_shiftr _ 64 k), Hz2, Z.shiftr_0_l by lia.
Qed.

(** Undoing [z ^= z >> k] when three shifts clear 64 bits. *)
Lemma unshift_xorshift z k :
  22 <= k -> 0 <= z < 2^64 ->
  let y := Z.lxor z (Z.shiftr z k) in
  Z.lxor (Z.lxor y (Z.shiftr y k)) (Z.shiftr y (2 * k)) = z.
Proof.
  intros Hk Hz y. subst y.
  assert (Z.shiftr z (3 * k) = 0) as H3.
  { apply Z.shiftr_eq_0; [lia|]. destruct (decide (z = 0)) as [->|Hne]; [simpl; lia|].
    pose proof (proj1 (Z.log2_lt_pow2 z 64 ltac:(lia)) ltac:(lia)). lia. }
  rewrite !Z.shiftr_lxor, !Z.shiftr_shiftr by lia.
  replace (k + k) with (2 * k) by lia. replace (k + 2 * k) with (3 * k) by lia. rewrite H3.
  rewrite Z.lxor_0_r. generalize (Z.shiftr z k) (Z.shiftr z (2 * k)). intros a b.
  apply Z.bits_inj'. intros n Hn. rewrite !Z.lxor_spec.
  by destruct (Z.testbit z n), (Z.testbit a n), (Z.testbit b n).
Qed.

Lemma u64_mul_inv a m minv :
  0 <= a < 2^64 -> u64 (m * minv) = 1 -> u64 (u64 (a * m) * minv) = a.
Proof.
  unfold u64. intros Ha Hinv. rewrite Z.mul_mod_idemp_l by lia.
  rewrite <- Z.mul_assoc, <- Z.mul_mod_idemp_r, Hinv, Z.mul_1_r by lia. by apply Z.mod_small.
Qed.

Lemma splitmix64_inv_l s : 0 <= s < 2^64 -> splitmix64_inv (splitmix64 s) = s.
Proof.
  intros Hs. unfold splitmix64_inv, splitmix64. cbv zeta.
  set (z1 := u64 (s + 0x9e3779b97f4a7c15)). pose proof (u64_range (s + 0x9e3779b97f4a7c15)) as H1.
  fold z1 in H1. set (x1 := Z.lxor z1 (Z.shiftr z1 30)).
  assert (0 <= x1 < 2^64) as Hx1 by (apply xorshift_range; [lia|done]).
  set (z2 := u64 (x1 * 0xbf58476d1ce4e5b9)). pose proof (u64_range (x1 * 0xbf58476d1ce4e5b9)) as H2.
  fold z2 in H2. set (x2 := Z.lxor z2 (Z.shiftr z2 27)).
  assert (0 <= x2 < 2^64) as Hx2 by (apply xorshift_range; [lia|done]).
  set (z3 := u64 (x2 * 0x94d049bb133111eb)). pose proof (u64_range (x2 * 0x94d049bb133111eb)) as H3.
  fold z3 in H3.
  rewrite (unshift_xorshift z3 31) by lia. unfold z3. rewrite u64_mul_inv by done.
  unfold x2. rewrite (unshift_xorshift z2 27) by lia.
  unfold z2. rewrite u64_mul_inv by done.
  unfold x1. rewrite (unshift_xorshift z1 30) by lia.
  subst z1. unfold u64. rewrite Zminus_mod_idemp_l, Z.add_simpl_r. by apply Z.mod_small.
Qed.

(** ** Lemmas on the factors *)
Lemma Zrem_mod_nonneg a b : 0 <= a -> 0 < b -> Z.rem a b = a mod b.
Proof. intros Ha Hb. by apply Z.rem_mod_nonneg. Qed.

Lemma monday_of_day_mod d : monday_of_day d = (d + 3) mod 7.
Proof.
  unfold monday_of_day. pose proof (Z.rem_bound_abs d 7 ltac:(lia)).
  pose proof (Z.quot_rem' d 7). set (r := Z.rem d 7) in *.
  pose proof (Z.rem_bound_abs (r + 3) 7 ltac:(lia)). pose proof (Z.quot_rem' (r + 3) 7).
  set (r2 := Z.rem (r + 3) 7) in *. rewrite Zrem_mod_nonneg by lia.
  replace (r2 + 7) with (d + 3 + (1 - Z.quot d 7 - Z.quot (r + 3) 7) * 7) by lia.
  by rewrite Z_mod_plus_full.
Qed.

Lemma monday_of_day_range d : 0 <= monday_of_day d < 7.
Proof. rewrite monday_of_day_mod. apply Z.mod_pos_bound. lia. Qed.

Lemma check_anomalies_None l :
  check_anomalies l = None <-> Forall (fun a => known_anomaly_type (an_Type a) = true) l.
Proof.
  induction l as [|a l IH]; simpl; [done|]. rewrite Forall_cons. destruct (known_anomaly_type _); [|naive_solver].
  rewrite IH. naive_solver.
Qed.

(** A zero times a finite number is a zero, and stays one. *)
Definition f_is_zero (x : float64) : bool := match x with S754_zero _ => true | _ => false end.
Definition f_is_finite (x : float64) : bool :=
  match x with S754_zero _ | S754_finite _ _ _ => true | _ => false end.

Lemma f_mul_zero_l x y : f_is_zero x = true -> f_is_finite y = true -> f_is_zero (f_mul x y) = true.
Proof. by destruct x, y. Qed.

Lemma f_mul_zero_r x y : f_is_finite x = true -> f_is_zero y = true -> f_is_zero (f_mul x y) = true.
Proof. by destruct x, y. Qed.

Lemma f_max_zero x : f_is_zero x = true -> f_max f_zero x = f_zero.
Proof. by destruct x. Qed.

Lemma fold_mul_zero {A} (f : A -> float64) l acc :
  f_is_zero acc = true -> Forall (fun a => f_is_finite (f a) = true) l ->
  f_is_zero (fold_left (fun acc a => f_mul acc (f a)) l acc) = true.
Proof.
  intros Hz Hl. revert acc Hz. induction Hl as [|a l Ha Hl IH]; intros acc Hz; simpl; [done|].
  apply IH. by apply f_mul_zero_l.
Qed.

Lemma profile_time_ref ref scale s m e :
  ref = S754_finite s m e -> f_is_finite scale = true -> profile_time ref ref scale = ref.
Proof.
  intros -> Hs. unfold profile_time, f_sub. cbn [SFsub].
  assert (forall k a, cond_Zopp s (Z.pos a) - cond_Zopp s (Z.pos a) = 0 /\
            binary_normalize 53 1024 0 k false = S754_zero false) as Hz by (intros; split; [lia|done]).
  unfold SFsub. destruct (shl_align m e _) as [a ?]. simpl fst.
  destruct (Hz (Z.min e e) a) as [-> Hn]. rewrite Hn.
  by destruct scale, s.
Qed.

Lemma ParseProfile_weekdays doc p :
  ParseProfile doc = (p, None) -> length (WeekdayCoefficients p) = 7%nat.
Proof.
  destruct doc as [e|raw]; [done|]. unfold ParseProfile.
  destruct (Nat.eqb_spec (length (raw_weekdays raw)) 7) as [Hl|]; [|done]. cbn [negb].
  destruct (check_anomalies _); [done|]. intros [= <-]. cbn [decode_profile WeekdayCoefficients].
  unfold to_array7. rewrite length_take, length_app, Hl. done.
Qed.

Lemma to_array7_id l : length l = 7%nat -> to_array7 l = l.
Proof. intros Hl. unfold to_array7. by rewrite take_app_le, take_ge by lia. Qed.

Lemma ParseProfile_accepts raw p :
  ParseProfile (inr raw) = (p, None) -> p = decode_profile raw /\ raw_weekdays raw = WeekdayCoefficients p.
Proof.
  unfold ParseProfile. destruct (Nat.eqb_spec (length (raw_weekdays raw)) 7) as [Hl|]; [|done]. simpl.
  destruct (check_anomalies _); [done|]. intros [= <-]. split; [done|]. simpl. by rewrite to_array7_id.
Qed.

Section total.
Context `{FloatConv} `{TrigReduce}.

Lemma Rate_total p t ref scale :
  length (WeekdayCoefficients p) = 7%nat ->
  exists w, go_index (WeekdayCoefficients p) (mondayIndex (profile_time t ref scale)) = Some w.
Proof.
  intros Hl. apply go_index_is_Some. rewrite Hl. unfold mondayIndex.
  pose proof (monday_of_day_range (int64_of_f (Floor (f_div (profile_time t ref scale) secondsPerDay)))).
  lia.
Qed.
End total.

Lemma noise_value_bounded h : f_upto (noise_value h) 1 0.
Proof.
  unfold noise_value. pose proof (Z.mod_pos_bound h 2000001 ltac:(lia)) as Hm.
  set (n := h mod 2000001) in *. apply f_sub_one_upto.
  - eapply f_div_nonneg; [apply f_of_Z_nonneg; lia|reflexivity].
  - destruct (decide (n = 0)) as [-> |Hn]; [done|].
    apply (f_div_upto (f_of_Z n) (f_of_Z 1000000) n 0 false 8589934592000000 (-33));
      [apply f_of_Z_upto; lia|lia|reflexivity|lia|lia| |].
    + split; [lia|split; [lia|by vm_compute]].
    + transitivity (mag 2000000 0); [apply mag_mono; lia|by vm_compute].
Qed.

(** * Properties *)

(** C31: [ParseProfile] accepts a decoded document exactly when it has seven
    weekday coefficients and only known anomaly types, keeps every value of it
    (the array is the document's list), and returns the zero profile with an error
    otherwise; a profile it accepts never makes [Rate] panic on an index out of
    range, below or above, at any time, reference and scale (NaN and infinities and
    days before 1970 included), and the rate is at least zero or, where a factor is
    not a number, NaN (math.Max passes it on). *)
Theorem parsed_profile_rate_total `{FloatConv} `{TrigReduce} raw :
  let '(p, err) := ParseProfile (inr raw) in
  (err = None <->
     length (raw_weekdays raw) = 7%nat /\
     Forall (fun a => an_Type a ∈ ["spike"; "outage"; "degradation"]%string) (raw_anomalies raw)) /\
  (if err is None
   then WeekdayCoefficients p = raw_weekdays raw /\ Anomalies p = raw_anomalies raw /\
        forall t ref scale, exists r, Rate t p ref scale = Some r /\ (f_leb f_zero r = true \/ r = S754_nan)
   else p = zero_profile).
Proof.
  unfold ParseProfile. destruct (Nat.eqb_spec (length (raw_weekdays raw)) 7) as [Hl|Hl]; simpl.
  2:{ split; [|done]. naive_solver. }
  destruct (check_anomalies (raw_anomalies raw)) eqn:Hc.
  - split; [|done]. split; [done|]. intros [_ Hf].
    assert (check_anomalies (raw_anomalies raw) = None) as Hc'; [|congruence].
    apply check_anomalies_None. eapply Forall_impl; [done|]. intros a Ha. by apply bool_decide_eq_true.
  - apply check_anomalies_None in Hc. split.
    { split; [|done]. split; [done|]. eapply Forall_impl; [done|].
      intros a Ha. by apply bool_decide_eq_true in Ha. }
    pose proof (to_array7_id _ Hl) as Ha.
    cbn [WeekdayCoefficients Anomalies decode_profile]. split_and!; [done|done|]. intros t ref scale.
    destruct (Rate_total (decode_profile raw) t ref scale) as [w Hw].
    { cbn [WeekdayCoefficients decode_profile]. by rewrite Ha. }
    eexists. unfold Rate. rewrite Hw. cbn [mbind option_bind]. split; [done|]. apply f_max_zero_leb.
Qed.

(** The checked-in profile evaluated at the golden reference time gives, to the
    nine decimals printed, the golden rates of every twelfth checked-in row (one
    per six hours of the fourteen days), at scale 1 and at scale 24: a test of the
    definitions. *)
Example Rate_reproduces_goldens :
  Forall (fun '(ts, rate) => golden_row 1 ts = Some rate) golden_scale1 /\
  Forall (fun '(ts, rate) => golden_row 24 ts = Some rate) golden_scale24.
Proof.
  split; apply Forall_forall; intros [ts rate] Hin; revert ts rate Hin.
  - assert (forallb (fun '(ts, rate) => bool_decide (golden_row 1 ts = Some rate)) golden_scale1 = true)
      as Hall by (vm_compute; reflexivity).
    rewrite forallb_forall in Hall. intros ts rate Hin. apply list_elem_of_In, Hall in Hin.
    by apply bool_decide_eq_true in Hin.
  - assert (forallb (fun '(ts, rate) => bool_decide (golden_row 24 ts = Some rate)) golden_scale24 = true)
      as Hall by (vm_compute; reflexivity).
    rewrite forallb_forall in Hall. intros ts rate Hin. apply list_elem_of_In, Hall in Hin.
    by apply bool_decide_eq_true in Hin.
Qed.

(** history and live traffic join at the reference time: there the profile
    time is the reference itself, so the rate does not depend on the scale. *)
Theorem Rate_seam `{FloatConv} `{TrigReduce} p ref s m e scale1 scale2 :
  ref = S754_finite s m e -> f_is_finite scale1 = true -> f_is_finite scale2 = true ->
  Rate ref p ref scale1 = Rate ref p ref scale2.
Proof. intros Hr H1 H2. unfold Rate. by rewrite !(profile_time_ref ref _ s m e). Qed.

Lemma Rate_seam_witness :
  let p := (ParseProfile (inr story_profile)).1 in
  Rate (f_of_Z 1767571200) p (f_of_Z 1767571200) f_one
  = Rate (f_of_Z 1767571200) p (f_of_Z 1767571200) (f_of_Z 24).
Proof.
  intros p. eapply (Rate_seam p (f_of_Z 1767571200)); [vm_compute; reflexivity|..]; reflexivity.
Defined.

(** an active outage (or spike) with multiplier zero silences the rate
    completely, window ends included, whatever the other anomalies are, as long as
    no other factor overflowed. *)
Theorem outage_silences_rate `{FloatConv} `{TrigReduce} p t ref scale l1 a l2 :
  let pt := profile_time t ref scale in
  let start := f_add ref (f_mul (OffsetDays a) secondsPerDay) in
  let stop := f_add start (f_mul (DurationHours a) secondsPerHour) in
  length (WeekdayCoefficients p) = 7%nat ->
  Anomalies p = l1 ++ a :: l2 ->
  an_Type a = "outage"%string \/ an_Type a = "spike"%string ->
  f_is_zero (Multiplier a) = true ->
  f_ltb pt start = false -> f_ltb stop pt = false ->
  f_is_finite (fold_left (fun acc b => f_mul acc (anomalyFactor b pt ref)) l1 f_one) = true ->
  Forall (fun b => f_is_finite (anomalyFactor b pt ref) = true) l2 ->
  (forall w, w ∈ WeekdayCoefficients p ->
     f_is_finite (f_mul (f_mul (f_mul (f_mul (BaseRatePerS p) (diurnal_factor (p_Diurnal p) pt)) w)
       (f_add f_one (f_mul (PctPerDay (p_Trend p)) (f_div (f_sub pt ref) secondsPerDay))))
       (f_add f_one (f_mul (NoisePct p) (noiseSample pt)))) = true) ->
  Rate t p ref scale = Some f_zero.
Proof.
  intros pt start stop Hlen Hl Hty Hm H1 H2 Hpre Hpost Hload.
  destruct (Rate_total p t ref scale Hlen) as [w Hw]. unfold Rate. fold pt in Hw |- *.
  rewrite Hw. cbn [mbind option_bind]. f_equal. apply f_max_zero. apply f_mul_zero_r.
  { apply Hload. apply go_index_Some in Hw as [_ Hw]. by apply list_elem_of_lookup_2 in Hw. }
  rewrite Hl, fold_left_app. cbn [fold_left]. apply fold_mul_zero; [|done].
  apply f_mul_zero_r; [done|]. unfold anomalyFactor. fold start. fold stop. rewrite H1, H2. simpl.
  by destruct Hty as [-> | ->].
Qed.

Lemma outage_silences_rate_witness :
  Rate (f_of_Z 1767060000) (ParseProfile (inr story_profile)).1 (f_of_Z 1767571200) f_one = Some f_zero.
Proof.
  eapply (outage_silences_rate _ _ _ _ (take 1 (raw_anomalies story_profile)) _
            (drop 2 (raw_anomalies story_profile)));
    [reflexivity|reflexivity|left; reflexivity|reflexivity|vm_compute; reflexivity
    |vm_compute; reflexivity|vm_compute; reflexivity|..].
  - repeat constructor; vm_compute; reflexivity.
  - intros w Hw. vm_compute in Hw.
    repeat (apply elem_of_cons in Hw as [-> |Hw]; [vm_compute; reflexivity|]). by apply elem_of_nil in Hw.
Defined.

(** C33: the weekday index is the civil weekday for every day number, before the
    epoch too, despite Go's truncating [%]; the noise hash is invertible, so two
    different minutes never share a hash, and it never leaves uint64; and the noise
    sample is a number between -1 and 1 at every time, so the noise factor stays
    within [NoisePct]. *)
Theorem weekday_and_noise `{FloatConv} d s t :
  monday_of_day d = (d + 3) mod 7 /\
  0 <= splitmix64 s < 2 ^ 64 /\
  splitmix64_inv (splitmix64 (u64 s)) = u64 s /\
  f_upto (noiseSample t) 1 0.
Proof.
  split_and!; [apply monday_of_day_mod| | | |].
  - unfold splitmix64. cbv zeta. apply xorshift_range; [lia|apply u64_range].
  - unfold splitmix64. cbv zeta. apply xorshift_range; [lia|apply u64_range].
  - apply splitmix64_inv_l, u64_range.
  - apply noise_value_bounded.
Qed.
