(* ===== verification/Parity.v ===== *)
(** * Parity: loadprofile/shape.js against internal/loadshape

    The load generator's copy of the rate function, in the operations of
    JavaScript: Numbers are float64, the noise hash works on BigInts (unbounded
    integers masked to 64 bits), a failed conversion or a missing reference time
    throws, an index outside an array reads undefined.  ECMAScript leaves the
    accuracy of Math.cos to the engine, so it is the parameter [js_cos].  JSON.parse
    gives the decoded document, [RawProfile]; shape.js does not validate it. *)
From S2P Require Import Prelude GoInt GoFloat GoMath GoRound LoadShape.
Local Open Scope Z_scope.

(** ** JavaScript *)
Definition TypeError : error := ErrNew "TypeError".
Definition RangeError : error := ErrNew "RangeError".

Class MathCos := js_cos : float64 -> float64.

(** A Number that is an integer, as that integer. *)
Definition integer_of (x : float64) : option Z :=
  match x with
  | S754_finite _ m e => if (0 <=? e) || (frac_part m e =? 0) then trunc_Z x else None
  | _ => trunc_Z x
  end.

(** [BigInt(x)]: a Number that is not an integer throws. *)
Definition BigInt (x : float64) : error + Z :=
  match integer_of x with Some z => inr z | None => inl RangeError end.

(** [x % y] on Numbers: exact, with the sign of [x]. *)
Definition js_rem (x y : float64) : float64 :=
  match x, y with
  | S754_nan, _ | _, S754_nan | S754_infinity _, _ | _, S754_zero _ => S754_nan
  | S754_zero _, _ | _, S754_infinity _ => x
  | S754_finite s m e, S754_finite _ m' e' =>
      let e0 := Z.min e e' in
      let r := (Z.pos m * 2 ^ (e - e0)) mod (Z.pos m' * 2 ^ (e' - e0)) in
      if r =? 0 then S754_zero s
      else binary_normalize 53 1024 (if s : bool then - r else r) e0 false
  end.

(** [a[x]] used as a Number: undefined is NaN. *)
Definition js_index (a : list float64) (x : float64) : float64 :=
  default S754_nan (z ← integer_of x; if 0 <=? z then a !! Z.to_nat z else None).

(** [Math.max(x, y)] *)
Definition js_max (x y : float64) : float64 :=
  match x, y with
  | S754_nan, _ | _, S754_nan => S754_nan
  | S754_zero true, S754_zero _ => y
  | S754_zero _, S754_zero _ => x
  | _, _ => if f_ltb y x then x else y
  end.

Definition isFinite (x : float64) : bool := f_is_finite x.

(** ** shape.js *)
Definition SECONDS_PER_DAY : float64 := f_of_Z 86400.
Definition SECONDS_PER_HOUR : float64 := f_of_Z 3600.
Definition Math_PI : float64 := f_const 7074237752028440 (-51).

Definition MASK64 : Z := Z.shiftl 1 64 - 1.
Definition GOLDEN_GAMMA : Z := 0x9e3779b97f4a7c15.
Definition MIX1 : Z := 0xbf58476d1ce4e5b9.
Definition MIX2 : Z := 0x94d049bb133111eb.

Definition js_splitmix64 (seed : Z) : Z :=
  let z := Z.land (seed + GOLDEN_GAMMA) MASK64 in
  let z := Z.land (Z.lxor z (Z.shiftr z 30) * MIX1) MASK64 in
  let z := Z.land (Z.lxor z (Z.shiftr z 27) * MIX2) MASK64 in
  let z := Z.lxor z (Z.shiftr z 31) in
  Z.land z MASK64.

Section shape.
Context `{MathCos}.
Local Open Scope f64_scope.

Definition js_noiseSample (profileTime : float64) : error + float64 :=
  match BigInt (Floor (profileTime / f_of_Z 60)) with
  | inl e => inl e
  | inr bucket =>
      let h := js_splitmix64 bucket in
      let modded := Z.rem h 2000001 in
      inr (f_of_Z modded / f_of_Z 1000000 - f_one)
  end.

(** The index of a day number, a Number as well. *)
Definition js_monday_of_day (daysSinceEpoch : float64) : float64 :=
  js_rem (js_rem (js_rem daysSinceEpoch (f_of_Z 7) + f_of_Z 3) (f_of_Z 7) + f_of_Z 7) (f_of_Z 7).

Definition js_mondayIndex (profileTime : float64) : float64 :=
  let daysSinceEpoch := Floor (profileTime / SECONDS_PER_DAY) in
  js_monday_of_day daysSinceEpoch.

Definition js_hourOfDay (profileTime : float64) : float64 :=
  let daysSinceEpoch := Floor (profileTime / SECONDS_PER_DAY) in
  let secOfDay := profileTime - daysSinceEpoch * SECONDS_PER_DAY in
  secOfDay / SECONDS_PER_HOUR.

Definition js_anomalyFactor (a : Anomaly) (profileTime refUnixSeconds : float64) : float64 :=
  let start := refUnixSeconds + OffsetDays a * SECONDS_PER_DAY in
  let end_ := start + DurationHours a * SECONDS_PER_HOUR in
  if (profileTime <? start) || (end_ <? profileTime) then f_one else
  if String.eqb (an_Type a) "spike" then Multiplier a else
  if String.eqb (an_Type a) "outage" then Multiplier a else
  if String.eqb (an_Type a) "degradation" then
    let duration := end_ - start in
    let frac := if f_zero <? duration then (profileTime - start) / duration else f_one in
    f_one + frac * (Multiplier a - f_one)
  else f_one.

(** The argument of the cosine. *)
Definition js_phase (profileTime phase_hours : float64) : float64 :=
  f_of_Z 2 * Math_PI * (js_hourOfDay profileTime - phase_hours) / f_of_Z 24.

(** The options object: an absent [scale] is 1, an absent [refUnixSeconds] is not
    finite. *)
Definition js_rate (unixSeconds : float64) (profile : RawProfile) (opt_scale opt_ref : option float64)
    : error + float64 :=
  let scale := default f_one opt_scale in
  let refUnixSeconds := default S754_nan opt_ref in
  if negb (isFinite refUnixSeconds) then inl TypeError else
  let ref := refUnixSeconds in
  let profileTime := ref + (unixSeconds - ref) * scale in
  let diurnalFactor :=
    f_one + Amplitude (raw_diurnal profile) * js_cos (js_phase profileTime (PhaseHours (raw_diurnal profile))) in
  let weekdayFactor := js_index (raw_weekdays profile) (js_mondayIndex profileTime) in
  let daysSinceRef := (profileTime - ref) / SECONDS_PER_DAY in
  let trendFactor := f_one + PctPerDay (raw_trend profile) * daysSinceRef in
  match js_noiseSample profileTime with
  | inl e => inl e
  | inr noise =>
      let noiseFactor := f_one + raw_noise profile * noise in
      let anomaly := fold_left (fun acc a => acc * js_anomalyFactor a profileTime ref)
                       (raw_anomalies profile) f_one in
      let raw := raw_base profile * diurnalFactor * weekdayFactor * trendFactor * noiseFactor * anomaly in
      inr (js_max f_zero raw)
  end.
End shape.

(** ** The hash *)
Lemma land_mask z : Z.land z MASK64 = u64 z.
Proof. change MASK64 with (Z.ones 64). by apply Z.land_ones. Qed.

Lemma js_splitmix64_eq z : js_splitmix64 z = splitmix64 (u64 z).
Proof.
  unfold js_splitmix64, splitmix64. rewrite !land_mask. unfold GOLDEN_GAMMA, MIX1, MIX2.
  replace (u64 (u64 z + 0x9e3779b97f4a7c15)) with (u64 (z + 0x9e3779b97f4a7c15))
    by (unfold u64; by rewrite Zplus_mod_idemp_l).
  apply u64_small, xorshift_range; [lia|apply u64_range].
Qed.

Lemma js_noise_eq h : 0 <= h -> f_sub (f_div (f_of_Z (Z.rem h 2000001)) (f_of_Z 1000000)) f_one = noise_value h.
Proof. intros Hh. unfold noise_value. by rewrite Zrem_mod_nonneg by lia. Qed.

(** ** Integers as Numbers *)

(** [x] is the integer [z], with no digit below [2^-52]. *)
Definition is_int (x : float64) (z : Z) : Prop :=
  match x with
  | S754_zero _ => z = 0
  | S754_finite s m e =>
      -52 <= e /\ exists n, 0 < n /\ z = (if s then - n else n) /\ Z.pos m * 2 ^ (e + 52) = n * 2 ^ 52
  | _ => False
  end.

Lemma is_int_trunc x z : is_int x z -> trunc_Z x = Some z /\ integer_of x = Some z.
Proof.
  destruct x as [s|s| |s m e]; try done; [by intros ->|]. intros (He & n & Hn & -> & Hm).
  assert (trunc_Z (S754_finite s m e) = Some (if s then - n else n) /\ (0 <=? e) || (frac_part m e =? 0) = true)
    as [Ht Hi].
  - unfold trunc_Z, frac_part. destruct (Z.leb_spec 0 e) as [H0|H0]; simpl orb.
    + rewrite Z.pow_add_r, Z.mul_assoc in Hm by lia. apply Z.mul_cancel_r in Hm; [|lia]. by rewrite Hm.
    + assert (Z.pos m = n * 2 ^ (- e)) as Hm'.
      { replace (2 ^ 52) with (2 ^ (- e) * 2 ^ (e + 52)) in Hm by (rewrite <- Z.pow_add_r by lia; f_equal; lia).
        rewrite Z.mul_assoc in Hm. apply Z.mul_cancel_r in Hm; [done|]. apply Z.pow_nonzero; lia. }
      unfold int_part. rewrite Hm', Z.div_mul, Z_mod_mult by (apply Z.pow_nonzero; lia). done.
  - split; [done|]. unfold integer_of. by rewrite Hi.
Qed.

Lemma f_of_Z_int n : Z.abs n < 2 ^ 53 -> is_int (f_of_Z n) n.
Proof.
  intros Hn. destruct n as [|p|p]; [done|..].
  - destruct (binary_round_int false p) as (m & e & Hr & He & Hm); [lia|].
    change (f_of_Z (Z.pos p)) with (binary_round 53 1024 false p 0). rewrite Hr. split; [lia|].
    exists (Z.pos p). split_and!; [lia|done|]. rewrite Hm, <- Z.mul_assoc, <- Z.pow_add_r by lia. do 2 f_equal. lia.
  - destruct (binary_round_int true p) as (m & e & Hr & He & Hm); [lia|].
    change (f_of_Z (Z.neg p)) with (binary_round 53 1024 true p 0). rewrite Hr. split; [lia|].
    exists (Z.pos p). split_and!; [lia|done|]. rewrite Hm, <- Z.mul_assoc, <- Z.pow_add_r by lia. do 2 f_equal. lia.
Qed.

(** Rounding down a number of moderate size gives an integer. *)
Lemma Floor_int y : f_upto y 1 52 -> exists z, is_int (Floor y) z /\ Z.abs z <= 2 ^ 52 + 1.
Proof.
  destruct y as [s|s| |s m e]; try done; [by exists 0|]. intros [He Hm]. unfold Floor.
  assert (forall z, trunc_Z (S754_finite s m e) = Some z -> Z.abs z <= 2 ^ 52) as Hz.
  { intros z Hz. pose proof (trunc_mag _ _ _ _ He Hz) as Hmag.
    apply (mag_le_inv _ _ 0); [lia|]. etrans; [exact Hmag|]. etrans; [exact Hm|]. by vm_compute. }
  unfold trunc_Z in Hz. destruct (Z.leb_spec 0 e) as [H0|H0].
  - specialize (Hz _ eq_refl). exists (if s then - (Z.pos m * 2 ^ e) else Z.pos m * 2 ^ e).
    split; [|destruct s; lia]. split; [lia|]. exists (Z.pos m * 2 ^ e).
    split_and!; [apply Z.mul_pos_pos; [|apply Z.pow_pos_nonneg]; lia|done|].
    by rewrite Z.pow_add_r, Z.mul_assoc by lia.
  - specialize (Hz _ eq_refl). assert (0 <= int_part m e) as Hpos
      by (unfold int_part; apply Z.div_pos; [lia|apply Z.pow_pos_nonneg; lia]).
    destruct s.
    + eexists. split; [apply f_of_Z_int|]; case_match; lia.
    + eexists. split; [apply f_of_Z_int|]; lia.
Qed.

(** ** The weekday *)
Definition small_int (s : bool) (k : Z) : float64 :=
  if k =? 0 then S754_zero s else f_of_Z (if s then - k else k).

Lemma seven_cases (P : Z -> Prop) k :
  P 0 -> P 1 -> P 2 -> P 3 -> P 4 -> P 5 -> P 6 -> 0 <= k < 7 -> P k.
Proof.
  intros H0 H1 H2 H3 H4 H5 H6 Hk.
  assert (k = 0 \/ k = 1 \/ k = 2 \/ k = 3 \/ k = 4 \/ k = 5 \/ k = 6) as Hc by lia.
  destruct Hc as [->|[->|[->|[->|[->|[->| ->]]]]]]; done.
Qed.

Lemma small_round (s : bool) k j :
  0 <= k < 7 -> j = 50 \/ j = 51 \/ j = 52 ->
  (if k * 2 ^ j =? 0 then S754_zero s
   else binary_normalize 53 1024 (if s then - (k * 2 ^ j) else k * 2 ^ j) (- j) false) = small_int s k.
Proof.
  intros Hk Hj. revert k Hk. destruct Hj as [->|[->| ->]], s; intros k Hk;
    pattern k; apply seven_cases; try exact Hk; vm_compute; reflexivity.
Qed.

Lemma js_rem_seven x z :
  is_int x z -> exists s k, 0 <= k < 7 /\ Z.rem z 7 = (if s : bool then - k else k) /\
    js_rem x (f_of_Z 7) = small_int s k.
Proof.
  destruct x as [s|s| |s m e]; try done.
  { intros ->. exists s, 0. split; [lia|]. by destruct s. }
  intros (He & n & Hn & -> & Hm). exists s, (n mod 7).
  pose proof (Z.mod_pos_bound n 7 ltac:(lia)) as Hk. split; [done|]. split.
  { destruct s; [rewrite Z.rem_opp_l by lia|]; by rewrite Z.rem_mod_nonneg by lia. }
  change (f_of_Z 7) with (S754_finite false 7881299347898368 (-50)). cbn [js_rem].
  set (e0 := Z.min e (-50)). set (j := - e0).
  assert (j = 50 \/ j = 51 \/ j = 52) as Hj by lia.
  assert (Z.pos m * 2 ^ (e - e0) = n * 2 ^ j) as ->.
  { assert (2 ^ 52 = 2 ^ j * 2 ^ (52 - j)) as H52 by (rewrite <- Z.pow_add_r by lia; f_equal; lia).
    replace (e + 52) with (e - e0 + (52 - j)) in Hm by lia.
    rewrite H52, Z.pow_add_r, !Z.mul_assoc in Hm by lia. apply Z.mul_cancel_r in Hm; [done|].
    apply Z.pow_nonzero; lia. }
  assert (Z.pos 7881299347898368 * 2 ^ (-50 - e0) = 7 * 2 ^ j) as ->.
  { replace (-50 - e0) with (j - 50) by lia. destruct Hj as [->|[->| ->]]; by vm_compute. }
  rewrite Zmult_mod_distr_r. replace e0 with (- j) by lia. by apply small_round.
Qed.

Lemma js_weekday (a : list float64) x z :
  is_int x z -> js_index a (js_monday_of_day x) = default S754_nan (go_index a (monday_of_day z)).
Proof.
  intros (s & k & Hk & Hrem & Hx)%js_rem_seven. unfold js_monday_of_day, monday_of_day. rewrite Hx, Hrem.
  clear Hx Hrem x z. revert k Hk. destruct s; intros k Hk; pattern k; apply seven_cases;
    try exact Hk; reflexivity.
Qed.

(** ** The rate *)
Lemma js_max_zero x : js_max f_zero x = f_max f_zero x.
Proof. by destruct x as [[]|[]| |[]]. Qed.

Lemma js_anomaly_eq a t ref : js_anomalyFactor a t ref = anomalyFactor a t ref.
Proof.
  unfold js_anomalyFactor, anomalyFactor. destruct (_ || _); [done|].
  destruct (String.eqb (an_Type a) "spike"); [done|]. by destruct (String.eqb (an_Type a) "outage").
Qed.

Lemma js_phase_eq t h :
  js_phase t h = f_div (f_mul two_Pi (f_sub (hourOfDay t) h)) (f_of_Z 24).
Proof. unfold js_phase. change (f_mul (f_of_Z 2) Math_PI) with two_Pi. done. Qed.

(** A time of at most [2^52] seconds. *)
Definition clock_time (t : float64) : Prop := f_upto t 1 52.

Lemma clock_div t n m e :
  clock_time t -> f_of_Z n = S754_finite false m e -> -100 <= e <= 0 -> 2 ^ (- e) <= Z.pos m ->
  f_upto (f_div t (f_of_Z n)) 1 52.
Proof.
  intros Ht -> He Hm. apply (f_div_upto t _ 1 52 false m e); [done|lia|done|lia|lia| |].
  - split; [lia|split; [lia|by vm_compute]].
  - replace 52 with (52 + e + - e) at 1 by lia. rewrite mag_shift by lia. apply mag_mono. lia.
Qed.

Section rates.
Context `{FloatConv} `{TrigReduce} `{MathCos}.

Lemma js_noise_clock t :
  clock_time t -> js_noiseSample t = inr (noiseSample t).
Proof.
  intros Ht. assert (f_upto (f_div t (f_of_Z 60)) 1 52) as Hd.
  { eapply clock_div; [done|vm_compute; reflexivity|lia|by vm_compute]. }
  destruct (Floor_int _ Hd) as (z & Hz & Hb). destruct (is_int_trunc _ _ Hz) as [Htr Hint].
  unfold js_noiseSample, BigInt. rewrite Hint. rewrite js_splitmix64_eq, js_noise_eq.
  - unfold noiseSample, int64_of_f. rewrite Htr. rewrite decide_True; [done|].
    unfold int64_range, min_int64, max_int64. lia.
  - unfold splitmix64. cbv zeta. apply xorshift_range; [lia|apply u64_range].
Qed.

Lemma js_weekday_clock a t :
  clock_time t -> js_index a (js_mondayIndex t) = default S754_nan (go_index a (mondayIndex t)).
Proof.
  intros Ht. assert (f_upto (f_div t secondsPerDay) 1 52) as Hd.
  { eapply clock_div; [done|vm_compute; reflexivity|lia|by vm_compute]. }
  destruct (Floor_int _ Hd) as (z & Hz & Hb). destruct (is_int_trunc _ _ Hz) as [Htr _].
  unfold js_mondayIndex, mondayIndex, int64_of_f. change SECONDS_PER_DAY with secondsPerDay.
  rewrite (js_weekday _ _ _ Hz), Htr. rewrite decide_True; [done|].
  unfold int64_range, min_int64, max_int64. lia.
Qed.
End rates.

(** * Properties *)

(** C30: The two implementations of the load shape agree.  For every document that
    ParseProfile accepts, every finite reference time, and every time and scale
    that keep the profile time within 2^52 seconds of the epoch (before it too),
    shape.js does not throw and gives bit for bit the rate of the Go function, if
    the two math libraries agree on the one cosine it takes; without a reference
    time it throws; and an absent scale is the scale 1. *)
Theorem shape_parity `{FloatConv} `{TrigReduce} `{MathCos} raw p unix ref scale :
  ParseProfile (inr raw) = (p, None) -> isFinite ref = true ->
  let t := profile_time unix ref scale in
  let phase := js_phase t (PhaseHours (raw_diurnal raw)) in
  clock_time t -> js_cos phase = Cos phase ->
  exists r, js_rate unix raw (Some scale) (Some ref) = inr r /\ Rate unix p ref scale = Some r /\
    js_rate unix raw None (Some ref) = js_rate unix raw (Some f_one) (Some ref) /\
    js_rate unix raw (Some scale) None = inl TypeError.
Proof.
  intros Hp Href t phase Ht Hcos. pose proof (ParseProfile_weekdays _ _ Hp) as Hlen.
  destruct (Rate_total p unix ref scale Hlen) as [w Hw].
  assert (p = decode_profile raw /\ raw_weekdays raw = WeekdayCoefficients p) as [-> Hwk]
    by (by apply ParseProfile_accepts).
  assert (exists r, js_rate unix raw (Some scale) (Some ref) = inr r /\
    Rate unix (decode_profile raw) ref scale = Some r) as (r & Hjs & Hgo); [|by exists r].
  unfold js_rate. change (default S754_nan (Some ref)) with ref. change (default f_one (Some scale)) with scale.
  rewrite Href. cbn [negb]. fold (profile_time unix ref scale). fold t phase. fold t in Hw.
  rewrite (js_noise_clock t Ht), Hwk, (js_weekday_clock _ t Ht), Hw, Hcos. unfold phase. rewrite js_phase_eq.
  eexists. split; [reflexivity|]. unfold Rate. fold t. rewrite Hw. cbn [mbind option_bind].
  f_equal. rewrite js_max_zero. cbn [Anomalies decode_profile].
  by rewrite (fold_left_ext (fun acc a => f_mul acc (js_anomalyFactor a t ref))
    (fun acc a => f_mul acc (anomalyFactor a t ref))) by (intros; by rewrite js_anomaly_eq).
Qed.

(** They part where the profile time is not a finite number: shape.js throws,
    the Go function returns whatever the conversion to int64 makes of it. *)
Theorem parity_not_finite `{FloatConv} `{TrigReduce} `{MathCos} raw p unix ref scale :
  ParseProfile (inr raw) = (p, None) -> isFinite ref = true ->
  isFinite (profile_time unix ref scale) = false ->
  js_rate unix raw (Some scale) (Some ref) = inl RangeError /\ exists r, Rate unix p ref scale = Some r.
Proof.
  intros Hp Href Ht. split.
  - unfold js_rate. change (default S754_nan (Some ref)) with ref. change (default f_one (Some scale)) with scale.
    rewrite Href. cbn [negb]. fold (profile_time unix ref scale). set (t := profile_time unix ref scale) in *.
    assert (js_noiseSample t = inl RangeError) as ->; [|done].
    unfold js_noiseSample. by destruct t as [s|[]| |s m e].
  - destruct (Rate_total p unix ref scale (ParseProfile_weekdays _ _ Hp)) as [w Hw].
    unfold Rate. rewrite Hw. by eexists.
Qed.

(** ** Witness: an engine whose cosine is Go's *)
#[local] Instance go_cos : MathCos := Cos.

(** Noon of 2026-01-01 at scale 24, before the reference time of the goldens. *)
Definition demo_unix : float64 := f_of_Z 1767268800.
Definition demo_ref : float64 := f_of_Z 1767571200.

Lemma shape_parity_witness :
  exists r, js_rate demo_unix story_profile (Some (f_of_Z 24)) (Some demo_ref) = inr r /\
    nanos_of r = Some 5110407419.
Proof.
  destruct (shape_parity story_profile (decode_profile story_profile) demo_unix demo_ref (f_of_Z 24))
    as (r & Hjs & Hgo & _).
  - vm_compute. reflexivity.
  - reflexivity.
  - split; vm_compute; congruence.
  - reflexivity.
  - exists r. split; [exact Hjs|]. vm_compute in Hgo. injection Hgo as <-. vm_compute. reflexivity.
Defined.

Lemma parity_not_finite_witness :
  js_rate demo_unix story_profile (Some S754_nan) (Some demo_ref) = inl RangeError.
Proof.
  apply (parity_not_finite story_profile (decode_profile story_profile));
    [vm_compute; reflexivity|reflexivity|vm_compute; reflexivity].
Defined.
