(* ===== verification/GoRand.v ===== *)
(** * GoRand: math/rand/v2 over a PCG source

    [rand.New(rand.NewPCG(seed1, seed2))] and the two draws the seeder makes:
    [Float64] and [IntN].  The generator's 128-bit state is one integer.  [IntN]
    rejects draws until one is acceptable; the loop is run with [2^128] rounds of
    fuel, and since the generator has full period they are always enough. *)
From S2P Require Import Prelude GoInt GoFloat GoRound.
Local Open Scope Z_scope.

(** ** The PCG-DXSM generator *)
Definition pcg_mul : Z := 2549297995355413924 * 2 ^ 64 + 4865540595714422341.
Definition pcg_inc : Z := 6364136223846793005 * 2 ^ 64 + 1442695040888963407.

Definition PCG := Z.

Definition NewPCG (seed1 seed2 : Z) : PCG := u64 seed1 * 2 ^ 64 + u64 seed2.

Definition pcg_next (p : PCG) : PCG := (p * pcg_mul + pcg_inc) mod 2 ^ 128.

(** The output permutation ("double xorshift multiply"). *)
Definition pcg_output (p : PCG) : Z :=
  let hi := p / 2 ^ 64 in
  let lo := p mod 2 ^ 64 in
  let hi := Z.lxor hi (Z.shiftr hi 32) in
  let hi := u64 (hi * 0xda942042e4dd58b5) in
  let hi := Z.lxor hi (Z.shiftr hi 48) in
  u64 (hi * Z.lor lo 1).

Definition Uint64 (p : PCG) : Z * PCG := let p' := pcg_next p in (pcg_output p', p').

(** ** Draws *)
Definition Float64 (p : PCG) : float64 * PCG :=
  let '(u, p) := Uint64 p in (f_div (f_of_Z (u mod 2 ^ 53)) (f_of_Z (2 ^ 53)), p).

(** A loop with binary fuel: [inl] is the state after that many rounds, [inr] an
    exit before. *)
Fixpoint pos_loop {A B} (fuel : positive) (body : A -> A + B) (a : A) : A + B :=
  match fuel with
  | xH => body a
  | xO n => match pos_loop n body a with inl a' => pos_loop n body a' | r => r end
  | xI n =>
      match body a with
      | inl a1 => match pos_loop n body a1 with inl a2 => pos_loop n body a2 | r => r end
      | r => r
      end
  end.

Definition pcg_period : positive := 340282366920938463463374607431768211456.

(** [for lo < thresh { hi, lo = bits.Mul64(r.Uint64(), n) }], the state being the
    last 128-bit product and the generator. *)
Definition reject_body (n thresh : Z) (st : Z * PCG) : (Z * PCG) + (Z * PCG) :=
  let '(prod, p) := st in
  if prod mod 2 ^ 64 <? thresh
  then let '(u, p) := Uint64 p in inl (u * n, p)
  else inr (prod / 2 ^ 64, p).

(** [r.uint64n(n)]; [None] would be a loop that never ends. *)
Definition uint64n (n : Z) (p : PCG) : option (Z * PCG) :=
  if Z.land n (n - 1) =? 0
  then let '(u, p) := Uint64 p in Some (Z.land u (n - 1), p)
  else
    let '(u, p) := Uint64 p in
    let prod := u * n in
    if prod mod 2 ^ 64 <? n
    then match pos_loop pcg_period (reject_body n (Z.rem (u64 (- n)) n)) (prod, p) with
         | inr r => Some r
         | inl _ => None
         end
    else Some (prod / 2 ^ 64, p).

(** [rng.IntN(n)] for a positive int [n]. *)
Definition IntN (n : Z) (p : PCG) : option (Z * PCG) := uint64n (u64 n) p.

(** The first outputs of [NewPCG(1, 2)]. *)
Example pcg_outputs :
  let '(a, p) := Uint64 (NewPCG 1 2) in
  let '(b, p) := Uint64 p in
  let '(c, p) := Uint64 p in
  (a, b, c) = (0xc4f5a58656eef510, 0x9dcec3ad077dec6c, 0xc8d04605312f8088).
Proof. vm_compute. reflexivity. Qed.

Example intn_six : fst <$> IntN 6 (NewPCG 1 2) = Some 4.
Proof. vm_compute. reflexivity. Qed.

(** ** The generator has full period *)
Fixpoint nat_loop {A B} (fuel : nat) (body : A -> A + B) (a : A) : A + B :=
  match fuel with
  | O => inl a
  | S n => match body a with inl a' => nat_loop n body a' | r => r end
  end.

Lemma nat_loop_add {A B} (body : A -> A + B) n m a :
  nat_loop (n + m) body a =
  match nat_loop n body a with inl a' => nat_loop m body a' | r => r end.
Proof. revert a. induction n as [|n IH]; intros a; simpl; [done|]. by destruct (body a). Qed.

Lemma pos_loop_nat {A B} (body : A -> A + B) n a :
  pos_loop n body a = nat_loop (Pos.to_nat n) body a.
Proof.
  revert a. induction n as [n IH|n IH|]; intros a; cbn [pos_loop].
  - replace (Pos.to_nat n~1) with (S (Pos.to_nat n + Pos.to_nat n)) by lia. cbn [nat_loop].
    destruct (body a) as [a1|]; [|done]. rewrite nat_loop_add, IH. by destruct (nat_loop _ _ a1).
  - replace (Pos.to_nat n~0) with (Pos.to_nat n + Pos.to_nat n)%nat by lia.
    rewrite nat_loop_add, IH. by destruct (nat_loop _ _ a).
  - simpl. by destruct (body a).
Qed.

(** [2^j] steps of an affine map [x -> a x + c] with [a = 1 (mod 4)] and [c] odd
    move a point by an odd multiple of [2^j]. *)
Lemma affine_pow a c :
  a mod 4 = 1 -> c mod 2 = 1 ->
  forall j, exists A C k u,
    (forall x, Nat.iter (2 ^ j) (fun x => x * a + c) x = A * x + C) /\
    A = 1 + 4 * k * 2 ^ Z.of_nat j /\ C = 2 ^ Z.of_nat j * (2 * u + 1).
Proof.
  intros Ha Hc. induction j as [|j (A&C&k&u&Hit&HA&HC)].
  - exists a, c, (a / 4), (c / 2). split_and!; [intros x; simpl; lia| |].
    + pose proof (Z.div_mod a 4). simpl. lia.
    + pose proof (Z.div_mod c 2). simpl. lia.
  - set (w := 2 ^ Z.of_nat j) in *.
    exists (A * A), ((A + 1) * C), (k + 2 * k * k * w), (u + k * w * (2 * u + 1)). split_and!.
    + intros x. replace (2 ^ S j)%nat with (2 ^ j + 2 ^ j)%nat by (simpl; lia).
      rewrite Nat.iter_add, !Hit. lia.
    + rewrite Nat2Z.inj_succ, Z.pow_succ_r by lia. fold w. rewrite HA. ring.
    + rewrite Nat2Z.inj_succ, Z.pow_succ_r by lia. fold w. rewrite HA, HC. ring.
Qed.

Lemma affine_reaches a c :
  a mod 4 = 1 -> c mod 2 = 1 ->
  forall j x t, exists n, (n < 2 ^ j)%nat /\
    (Nat.iter n (fun x => x * a + c) x - t) mod 2 ^ Z.of_nat j = 0.
Proof.
  intros Ha Hc. induction j as [|j IH]; intros x t.
  { exists O. split; [simpl; lia|]. apply Z.mod_1_r. }
  destruct (IH x t) as (n&Hn&Hm). set (y := Nat.iter n _ x) in *.
  apply Z.div_exact in Hm; [|pose proof (Z.pow_pos_nonneg 2 (Z.of_nat j)); lia].
  set (w := 2 ^ Z.of_nat j) in *. set (d := (y - t) / w) in *.
  rewrite Nat2Z.inj_succ, Z.pow_succ_r by lia. fold w.
  destruct (Z.Even_or_Odd d) as [[q Hq]|[q Hq]].
  - exists n. split; [simpl; lia|]. fold y. rewrite Hm, Hq.
    replace (w * (2 * q)) with (q * (2 * w)) by lia. apply Z_mod_mult.
  - destruct (affine_pow a c Ha Hc j) as (A&C&k&u&Hit&HA&HC). fold w in HA, HC.
    exists (2 ^ j + n)%nat. split; [simpl; lia|]. rewrite Nat.iter_add. fold y. rewrite Hit, HA, HC.
    replace ((1 + 4 * k * w) * y + w * (2 * u + 1) - t) with ((y - t) + w * (4 * k * y + 2 * u + 1)) by lia.
    rewrite Hm, Hq. replace (w * (2 * q + 1) + w * (4 * k * y + 2 * u + 1))
      with ((q + 2 * k * y + u + 1) * (2 * w)) by ring. apply Z_mod_mult.
Qed.

Lemma pcg_next_iter n p :
  Nat.iter n pcg_next p mod 2 ^ 128 = Nat.iter n (fun x => x * pcg_mul + pcg_inc) p mod 2 ^ 128.
Proof.
  induction n as [|n IH]; [done|].
  change (pcg_next (Nat.iter n pcg_next p) mod 2 ^ 128 =
    (Nat.iter n (fun x => x * pcg_mul + pcg_inc) p * pcg_mul + pcg_inc) mod 2 ^ 128).
  set (x := Nat.iter n pcg_next p) in *. set (y := Nat.iter n _ p) in *. clearbody x y.
  unfold pcg_next. rewrite Zmod_mod, Z.add_mod, Z.mul_mod, IH by lia.
  by rewrite <- Z.mul_mod, <- Z.add_mod by lia.
Qed.

Lemma pcg_full_period p t :
  0 <= t < 2 ^ 128 -> exists n, (0 < n <= Pos.to_nat pcg_period)%nat /\ Nat.iter n pcg_next p = t.
Proof.
  intros Ht. destruct (affine_reaches pcg_mul pcg_inc ltac:(by vm_compute) ltac:(by vm_compute)
    128 (pcg_next p) t) as (n&Hn&Hm).
  exists (S n). split.
  { split; [lia|]. assert (2 ^ 128 = Pos.to_nat pcg_period)%nat as <-; [|lia].
    apply Nat2Z.inj. rewrite Nat2Z.inj_pow, positive_nat_Z. by vm_compute. }
  assert (Nat.iter (S n) pcg_next p mod 2 ^ 128 = t) as Hmod.
  { rewrite Nat.iter_succ_r, pcg_next_iter. change (Z.of_nat 128) with 128 in Hm.
    apply Z.div_exact in Hm; [|lia]. rewrite <- (Z.mod_small t (2 ^ 128)) by done.
    set (y := Nat.iter n _ _) in *. replace y with (t + (y - t) / 2 ^ 128 * 2 ^ 128) by lia.
    apply Z_mod_plus_full. }
  rewrite <- Hmod. cbn [Nat.iter]. symmetry. apply Z.mod_small. apply Z.mod_pos_bound. lia.
Qed.

(** ** Draws are in range, and drawing always ends *)
Lemma pcg_output_range p : 0 <= pcg_output p < 2 ^ 64.
Proof. unfold pcg_output. apply u64_range. Qed.

(** A state whose output is 1. *)
Definition pcg_one : PCG := 0x8b838d03df69589e * 2 ^ 64.

Lemma reject_runs n thresh N prod p st :
  nat_loop N (reject_body n thresh) (prod, p) = inl st ->
  forall k, (0 < k < N)%nat -> pcg_output (Nat.iter k pcg_next p) * n mod 2 ^ 64 < thresh.
Proof.
  revert prod p. induction N as [|N IH]; intros prod p; cbn [nat_loop]; [lia|].
  unfold reject_body at 1. destruct (Z.ltb_spec (prod mod 2 ^ 64) thresh) as [Hlt|]; [|done].
  cbn [Uint64]. intros Hloop k Hk. destruct k as [|k]; [lia|].
  rewrite Nat.iter_succ_r. destruct k as [|k]; [|apply (IH _ _ Hloop); lia].
  cbn [Nat.iter]. destruct N as [|N]; [lia|]. cbn [nat_loop] in Hloop. unfold reject_body at 1 in Hloop.
  simpl in Hloop. by destruct (Z.ltb_spec (pcg_output (pcg_next p) * n mod 2 ^ 64) thresh).
Qed.

Lemma nat_loop_exit n thresh N prod p v p' :
  0 < n -> 0 <= prod < n * 2 ^ 64 ->
  nat_loop N (reject_body n thresh) (prod, p) = inr (v, p') -> 0 <= v < n.
Proof.
  intros Hn. revert prod p. induction N as [|N IH]; intros prod p Hp; cbn [nat_loop]; [done|].
  unfold reject_body at 1. destruct (_ <? _); cbn [Uint64].
  - apply IH. pose proof (pcg_output_range (pcg_next p)). nia.
  - intros [= <- _]. split; [apply Z.div_pos; lia|]. apply Z.div_lt_upper_bound; lia.
Qed.

Lemma land_le_l a b : 0 <= a -> Z.land a b <= a.
Proof.
  intros Ha. assert (Z.land (Z.ldiff a b) (Z.land a b) = 0) as Hd.
  { apply Z.bits_inj'. intros k Hk. rewrite !Z.land_spec, Z.ldiff_spec, Z.bits_0.
    by destruct (Z.testbit a k), (Z.testbit b k). }
  pose proof (Z.lor_ldiff_and a b) as Hs. rewrite <- (Z.lxor_lor _ _ Hd), <- (Z.add_nocarry_lxor _ _ Hd) in Hs.
  assert (0 <= Z.ldiff a b) by (apply Z.ldiff_nonneg; lia). lia.
Qed.

Lemma pcg_one_range : 0 <= pcg_one < 2 ^ 128.
Proof. unfold pcg_one. lia. Qed.

Lemma pcg_one_output : pcg_output pcg_one = 1.
Proof. vm_compute. reflexivity. Qed.

(** Some round of the loop is accepted before the fuel ends. *)
Lemma reject_ends n thresh p st :
  0 < n < 2 ^ 64 -> thresh < n ->
  nat_loop (Pos.to_nat pcg_period) (reject_body n thresh) (pcg_output (pcg_next p) * n, pcg_next p)
    = inl st -> False.
Proof.
  intros Hn Hth Hl. destruct (pcg_full_period p pcg_one pcg_one_range) as (k&Hk&Hone).
  assert (pcg_output pcg_one * n mod 2 ^ 64 = n) as Hacc
    by (rewrite pcg_one_output, Z.mul_1_l; apply Z.mod_small; lia).
  generalize dependent (Pos.to_nat pcg_period). intros N Hl Hk.
  destruct k as [|[|k]]; [lia| |].
  - cbn [Nat.iter] in Hone. change (pcg_next p = pcg_one) in Hone. rewrite Hone in Hl.
    destruct N as [|N]; [lia|]. cbn [nat_loop] in Hl. unfold reject_body at 1 in Hl. rewrite Hacc in Hl.
    destruct (Z.ltb_spec n thresh); [lia|done].
  - rewrite Nat.iter_succ_r in Hone.
    pose proof (reject_runs _ _ _ _ _ _ Hl (S k) ltac:(lia)) as Hr. rewrite Hone in Hr. lia.
Qed.

Lemma IntN_total n p :
  0 < n <= max_int64 -> exists v p', IntN n p = Some (v, p') /\ 0 <= v < n.
Proof.
  unfold max_int64. intros Hn. unfold IntN, u64. rewrite Z.mod_small by lia. unfold uint64n, Uint64.
  pose proof (pcg_output_range (pcg_next p)) as Ho.
  case_match; bool_solve.
  { eexists _, _. split; [done|]. split; [apply Z.land_nonneg; lia|].
    rewrite Z.land_comm. pose proof (land_le_l (n - 1) (pcg_output (pcg_next p)) ltac:(lia)). lia. }
  case_match; bool_solve.
  2:{ eexists _, _. split; [done|]. split; [apply Z.div_pos; nia|]. apply Z.div_lt_upper_bound; nia. }
  set (thresh := Z.rem (u64 (- n)) n).
  assert (thresh < n) as Hth.
  { unfold thresh. pose proof (u64_range (- n)). pose proof (Z.rem_bound_pos (u64 (- n)) n). lia. }
  rewrite pos_loop_nat. generalize (reject_ends n thresh p).
  generalize dependent (Pos.to_nat pcg_period). intros N Hends.
  destruct (nat_loop N _ _) as [st|[v p']] eqn:Hl.
  - exfalso. eapply Hends; [lia|lia|reflexivity].
  - eexists _, _. split; [done|]. eapply nat_loop_exit; [| |exact Hl]; [lia|].
    split; [apply Z.mul_nonneg_nonneg; lia|]. rewrite Z.mul_comm. apply Z.mul_lt_mono_pos_l; lia.
Qed.

(** A draw of [Float64] is in [0, 1): at most [1 - 2^-53]. *)
Lemma Float64_range p :
  let f := fst (Float64 p) in f_not_negative f /\ f_upto f (2 ^ 53 - 1) (-53).
Proof.
  change (fst (Float64 p))
    with (f_div (f_of_Z (pcg_output (pcg_next p) mod 2 ^ 53)) (f_of_Z (2 ^ 53))).
  pose proof (Z.mod_pos_bound (pcg_output (pcg_next p)) (2 ^ 53) ltac:(lia)).
  cbv zeta. generalize dependent (pcg_output (pcg_next p) mod 2 ^ 53). intros m Hm0. split.
  - eapply f_div_nonneg; [apply f_of_Z_nonneg; lia|vm_compute; reflexivity].
  - destruct (decide (m = 0)) as [-> |Hm]; [done|].
    apply (f_div_upto _ _ m 0 false 4503599627370496 1);
      [apply f_of_Z_upto; lia|lia|vm_compute; reflexivity|lia|lia| |].
    + split; [lia|split; [lia|by vm_compute]].
    + change (mag m (-52 + 52) <= mag ((2 ^ 53 - 1) * 2 ^ 52) (-52)).
      rewrite mag_shift by lia. apply mag_mono. apply Z.mul_le_mono_nonneg_r; lia.
Qed.
