(* ===== verification/Seeder.v ===== *)
(** * Seeder: the historical seeder (internal/seeder)

    [Run] generates the events hour by hour from the load profile and writes them
    in batches through the interface [BatchStore].  The variables its closures
    capture ([pending], [totalWritten]) and the context are fields of the world.
    Cancellation is the countdown [sw_cancel], in number of looks at the context;
    a store call made under a canceled context is one that fails.  A result [None]
    would be an index panic or a random draw that never ends. *)
From S2P Require Import Prelude GoInt GoFloat GoMath GoRound.
From S2P Require Import GoRand LoadShape Database Session Store StoreBatch.
Local Open Scope Z_scope.
Local Open Scope go_scope.

Definition defaultBatchSize : Z := 8000.

Definition createdWeight : float64 := f_const 1 (-1).

Class BatchStore (D : Type) := {
  bs_IngestEventsBatch : list EventRecord -> M D (BatchResult * option error)
}.

Record Item := { it_ID : Z; it_Name : string }.

(** [cfg_Days] and [cfg_SeedValue] are ints, [cfg_RefTime] is in nanoseconds since
    the epoch. *)
Record Config := {
  cfg_Days : Z;
  cfg_SeedValue : Z;
  cfg_Scale : float64;
  cfg_RefTime : Z;
  cfg_BatchSize : Z
}.

Record Result := { EventsWritten : Z }.

(** ** The window *)

(** [t.Truncate(time.Hour)] *)
Definition TruncateHour (t : Z) : Z := t - t mod Hour.

(** [-time.Duration(cfg.Days) * 24 * time.Hour] *)
Definition window_offset (cfg : Config) : Z := wrap64 (wrap64 (wrap64 (- cfg_Days cfg) * 24) * Hour).

Definition windowEnd (cfg : Config) : Z := TruncateHour (cfg_RefTime cfg).
Definition windowStart (cfg : Config) : Z := windowEnd cfg + window_offset cfg.

(** [t.Sub(u)] saturates. *)
Definition Sub (t u : Z) : Z := Z.min max_int64 (Z.max min_int64 (t - u)).

(** [d.Hours()] *)
Definition Hours (d : Z) : float64 :=
  f_add (f_of_Z (Z.quot d Hour)) (f_div (f_of_Z (Z.rem d Hour)) (f_of_Z Hour)).

(** ** The world of a run *)
Record World (D : Type) := {
  sw_store : D;
  sw_cancel : option nat;
  sw_pending : list EventRecord;
  sw_total : Z
}.
Arguments sw_store {D} w.
Arguments sw_cancel {D} w.
Arguments sw_pending {D} w.
Arguments sw_total {D} w.

Section seeder.
Context `{FloatConv} `{TrigReduce}.

Definition totalHours (cfg : Config) : Z := int64_of_f (Hours (Sub (windowEnd cfg) (windowStart cfg))).

Definition hourStart (cfg : Config) (h : Z) : Z := windowStart cfg + wrap64 (h * Hour).

(** The number of events of hour [h]: the rate at its middle, times 3600. *)
Definition hour_events (cfg : Config) (profile : Profile) (h : Z) : option Z :=
  let refUnix := f_of_Z (cfg_RefTime cfg / Second) in
  let bucketMid := hourStart cfg h + 30 * Minute in
  rate ← Rate (f_of_Z (bucketMid / Second)) profile refUnix (cfg_Scale cfg);
  Some (int64_of_f (Round (f_mul rate (f_of_Z 3600)))).

(** [drawEventType] *)
Definition drawEventType (p : PCG) : string * PCG :=
  let '(x, p) := Float64 p in (if f_ltb x createdWeight then "created" else "deleted", p)%string.

(** [time.Duration(offsetSeconds * float64(time.Second))] *)
Definition offset_ns (offsetSeconds : float64) : Z := int64_of_f (f_mul offsetSeconds (f_of_Z Second)).

(** One synthetic event of the hour that starts at [start]. *)
Definition draw_event (items : list Item) (start : Z) (p : PCG) : option (EventRecord * PCG) :=
  let '(x, p) := Float64 p in
  let offsetSeconds := f_mul x (f_of_Z 3600) in
  '(i, p) ← IntN (Z.of_nat (length items)) p;
  item ← items !! Z.to_nat i;
  let '(ty, p) := drawEventType p in
  Some ({| ev_ItemID := it_ID item; ev_ItemName := it_Name item; ev_EventType := ty;
           ev_EventTime := start + offset_ns offsetSeconds |}, p).

(** ** Run *)
Definition context_canceled : error := ErrNew "context canceled".
Definition err_no_items : error := ErrNew "no backend items available".
Definition err_days : error := ErrNew "days must be positive".

Section run.
Context {D : Type} `{BatchStore D}.
Variable cfg : Config.
Variable profile : Profile.
Variable items : list Item.

Definition ctx_Err : M (World D) (option error) := fun w =>
  (match sw_cancel w with Some O => Some context_canceled | _ => None end,
   {| sw_store := sw_store w;
      sw_cancel := match sw_cancel w with Some (S n) => Some n | c => c end;
      sw_pending := sw_pending w; sw_total := sw_total w |}).

Definition append (ev : EventRecord) : M (World D) unit := fun w =>
  (tt, {| sw_store := sw_store w; sw_cancel := sw_cancel w; sw_pending := sw_pending w ++ [ev];
          sw_total := sw_total w |}).

Definition get_total : M (World D) Z := fun w => (sw_total w, w).
Definition len_pending : M (World D) Z := fun w => (Z.of_nat (length (sw_pending w)), w).

Definition flush : M (World D) (option error) := fun w =>
  if (length (sw_pending w) =? 0)%nat then (None, w) else
  let '((res, err), d) := bs_IngestEventsBatch (sw_pending w) (sw_store w) in
  match err with
  | Some e => (Some (ErrWrap "ingest batch" e),
               {| sw_store := d; sw_cancel := sw_cancel w; sw_pending := sw_pending w;
                  sw_total := sw_total w |})
  | None => (None, {| sw_store := d; sw_cancel := sw_cancel w; sw_pending := [];
                      sw_total := wrap64 (sw_total w + Inserted res) |})
  end.

(** The detached flush; its outcome is only logged. *)
Definition flushDetachedOnCancel : M (World D) unit := let! _ := flush in ret tt.

(** What leaves the function: its return values, or [None] for no return. *)
Definition outcome : Type := option (Result * option error).

Definition return_ {A} (err : option error) : M (World D) (outcome + A) :=
  let! total := get_total in ret (inl (Some ({| EventsWritten := total |}, err))).

Definition batchSize : Z := if cfg_BatchSize cfg <=? 0 then defaultBatchSize else cfg_BatchSize cfg.

(** [if err := flush(ctx); err != nil { ... }], with the message of the call site. *)
Definition flush_or_return (msg : string) : M (World D) (outcome + unit) :=
  let! err := flush in
  match err with
  | None => ret (inr tt)
  | Some e =>
      let! canceled := ctx_Err in
      match canceled with
      | Some c => let! _ := flushDetachedOnCancel in return_ (Some (ErrWrap msg c))
      | None => return_ (Some e)
      end
  end.

Fixpoint event_loop (n : nat) (start : Z) (p : PCG) : M (World D) (outcome + PCG) :=
  match n with
  | O => ret (inr p)
  | S n' =>
      match draw_event items start p with
      | None => ret (inl None)
      | Some (ev, p') =>
          let! _ := append ev in
          let! len := len_pending in
          let! r := (if batchSize <=? len then flush_or_return "seed canceled after hours"
                     else ret (inr tt)) in
          match r with
          | inl out => ret (inl out)
          | inr _ => event_loop n' start p'
          end
      end
  end.

Fixpoint hour_loop (hours : nat) (h : Z) (p : PCG) : M (World D) (outcome + PCG) :=
  match hours with
  | O => ret (inr p)
  | S hours' =>
      let! canceled := ctx_Err in
      match canceled with
      | Some c =>
          let! _ := flushDetachedOnCancel in
          return_ (Some (ErrWrap "seed canceled after hours" c))
      | None =>
          match hour_events cfg profile h with
          | None => ret (inl None)
          | Some n =>
              let! r := event_loop (Z.to_nat n) (hourStart cfg h) p in
              match r with
              | inl out => ret (inl out)
              | inr p' => hour_loop hours' (h + 1) p'
              end
          end
      end
  end.

Definition new_rng : PCG := NewPCG (cfg_SeedValue cfg) (Z.lxor (u64 (cfg_SeedValue cfg)) 0x9e3779b97f4a7c15).

Definition Run : M (World D) outcome :=
  if (length items =? 0)%nat then ret (Some ({| EventsWritten := 0 |}, Some err_no_items)) else
  if cfg_Days cfg <=? 0 then ret (Some ({| EventsWritten := 0 |}, Some err_days)) else
  let! r := hour_loop (Z.to_nat (totalHours cfg)) 0 new_rng in
  match r with
  | inl out => ret out
  | inr _ =>
      let! r := flush_or_return "seed canceled at final flush" in
      match r with
      | inl out => ret out
      | inr _ => let! total := get_total in ret (Some ({| EventsWritten := total |}, None))
      end
  end.
End run.

Definition initial_world {D} (d : D) (cancel : option nat) : World D :=
  {| sw_store := d; sw_cancel := cancel; sw_pending := []; sw_total := 0 |}.

(** ** The events of a run: a function of the configuration, profile and items *)
Section generate.
Variable cfg : Config.
Variable profile : Profile.
Variable items : list Item.

Fixpoint gen_events (n : nat) (start : Z) (p : PCG) : option (list EventRecord * PCG) :=
  match n with
  | O => Some ([], p)
  | S n' =>
      '(ev, p) ← draw_event items start p;
      '(evs, p) ← gen_events n' start p;
      Some (ev :: evs, p)
  end.

Fixpoint gen_hours (hours : nat) (h : Z) (p : PCG) : option (list (list EventRecord)) :=
  match hours with
  | O => Some []
  | S hours' =>
      n ← hour_events cfg profile h;
      '(evs, p) ← gen_events (Z.to_nat n) (hourStart cfg h) p;
      rest ← gen_hours hours' (h + 1) p;
      Some (evs :: rest)
  end.

Definition generated : option (list (list EventRecord)) :=
  gen_hours (Z.to_nat (totalHours cfg)) 0 (new_rng cfg).
End generate.
End seeder.
