(* ===== verification/SeederProps.v ===== *)
(** * SeederProps: what a seed run generates and writes *)
From S2P Require Import Prelude GoInt GoFloat GoMath GoRound GoRand LoadShape Database.
From S2P Require Import Tables Session Store StoreBatch BatchEquiv Invariant StoreProps IngestProps Seeder.
Local Open Scope Z_scope.

(** ** The offset of an event within its hour *)
Lemma f_mul_pos_bound x b E : f_not_negative x -> f_upto x b E -> 0 <= b -> -1100 <= E <= 0 ->
  b / 2 ^ (- E) <= max_int64 ->
  forall `{FloatConv}, 0 <= int64_of_f x <= b / 2 ^ (- E).
Proof.
  intros Hn Hx Hb HE Hmax Hconv. unfold int64_of_f.
  destruct (trunc_Z x) as [z|] eqn:Hz.
  - pose proof (trunc_upto _ _ _ _ Hx Hb HE Hn Hz). rewrite decide_True; [done|].
    unfold int64_range, min_int64. lia.
  - destruct x; simpl in *; done.
Qed.

Lemma offset_in_hour `{FloatConv} p :
  0 <= offset_ns (f_mul (fst (Float64 p)) (f_of_Z 3600)) < Hour.
Proof.
  change (fst (Float64 p))
    with (f_div (f_of_Z (pcg_output (pcg_next p) mod 2 ^ 53)) (f_of_Z (2 ^ 53))).
  pose proof (Z.mod_pos_bound (pcg_output (pcg_next p)) (2 ^ 53) ltac:(lia)) as Hm.
  revert Hm. generalize (pcg_output (pcg_next p) mod 2 ^ 53). intros m Hm. unfold offset_ns.
  destruct (decide (m = 2 ^ 53 - 1)) as [-> |H1]; [by vm_compute|].
  destruct (decide (m = 2 ^ 53 - 2)) as [-> |H2]; [by vm_compute|].
  destruct (decide (m = 0)) as [-> |H0]; [by vm_compute|].
  assert (f_not_negative (f_div (f_of_Z m) (f_of_Z (2 ^ 53)))) as Hn
    by (eapply f_div_nonneg; [apply f_of_Z_nonneg; lia|vm_compute; reflexivity]).
  assert (f_upto (f_div (f_of_Z m) (f_of_Z (2 ^ 53))) (2 ^ 53 - 3) (-53)) as Hx.
  { apply (f_div_upto _ _ m 0 false 4503599627370496 1);
      [apply f_of_Z_upto; lia|lia|vm_compute; reflexivity|lia|lia| |].
    - split; [lia|split; [lia|by vm_compute]].
    - change (mag m (-52 + 52) <= mag ((2 ^ 53 - 3) * 2 ^ 52) (-52)).
      rewrite mag_shift by lia. apply mag_mono. apply Z.mul_le_mono_nonneg_r; lia. }
  set (x := f_div _ _) in *. clearbody x.
  assert (f_upto (f_mul x (f_of_Z 3600)) 7916483719987198 (-41)) as Hy.
  { apply (f_mul_upto _ _ _ _ false 7916483719987200 (-41) _ _ Hx); [lia|reflexivity|lia| |by vm_compute].
    split; [lia|split; [lia|by vm_compute]]. }
  assert (f_upto (f_mul (f_mul x (f_of_Z 3600)) (f_of_Z Second)) 7372799999999999 (-11)) as Hz.
  { apply (f_mul_upto _ _ _ _ false 8388608000000000 (-23) _ _ Hy); [lia|reflexivity|lia| |by vm_compute].
    split; [lia|split; [lia|by vm_compute]]. }
  assert (0 <= int64_of_f (f_mul (f_mul x (f_of_Z 3600)) (f_of_Z Second))
            <= 7372799999999999 / 2 ^ (- -11)) as Hb.
  { apply f_mul_pos_bound; [|done|lia|lia|by vm_compute].
    apply f_mul_nonneg; [apply f_mul_nonneg; [done|]|]; by vm_compute. }
  change (7372799999999999 / 2 ^ (- -11)) with 3599999999999 in Hb. change Hour with 3600000000000. lia.
Qed.

(** ** The generated events *)
Section generate.
Context `{FloatConv} `{TrigReduce}.
Variable cfg : Config.
Variable profile : Profile.
Variable items : list Item.
Hypothesis Hitems : items <> [].
Hypothesis Hlen : Z.of_nat (length items) <= max_int64.

(** A well-formed synthetic event of the hour that starts at [start]. *)
Definition seeded_at (start : Z) (e : EventRecord) : Prop :=
  start <= ev_EventTime e < start + Hour /\
  (ev_EventType e = "created" \/ ev_EventType e = "deleted")%string /\
  exists it, it ∈ items /\ ev_ItemID e = it_ID it /\ ev_ItemName e = it_Name it.

Lemma draw_event_total start p :
  exists e p', draw_event items start p = Some (e, p') /\ seeded_at start e.
Proof.
  unfold draw_event. pose proof (offset_in_hour p) as Hoff.
  destruct (Float64 p) as [x p1]. cbn [fst] in Hoff.
  destruct (IntN_total (Z.of_nat (length items)) p1) as (i&p2&Hi&Hr).
  { split; [|done]. destruct items; [done|simpl; lia]. }
  rewrite Hi. cbn [mbind option_bind].
  destruct (lookup_lt_is_Some_2 items (Z.to_nat i)) as [it Hit]; [lia|]. rewrite Hit.
  cbn [mbind option_bind]. unfold drawEventType. destruct (Float64 p2) as [y p3]. eexists _, _. split; [done|].
  unfold seeded_at; cbn [ev_EventTime ev_EventType ev_ItemID ev_ItemName]. split_and!; [lia|lia|case_match; auto|].
  exists it. split; [by eapply list_elem_of_lookup_2|done].
Qed.

Lemma gen_events_total n start p :
  exists evs p', gen_events items n start p = Some (evs, p') /\
    length evs = n /\ Forall (seeded_at start) evs.
Proof.
  revert p. induction n as [|n IH]; intros p; [by eexists _, _|].
  destruct (draw_event_total start p) as (e&p1&He&Hs). destruct (IH p1) as (evs&p2&Hg&Hl&Hf).
  exists (e :: evs), p2. cbn [gen_events]. rewrite He. cbn [mbind option_bind]. rewrite Hg.
  cbn. split_and!; [done|lia|by constructor].
Qed.

(** The events of hour [h]: as many as the rate says, all within the hour. *)
Definition hour_ok (h : Z) (evs : list EventRecord) : Prop :=
  (exists n, hour_events cfg profile h = Some n /\ length evs = Z.to_nat n) /\
  Forall (seeded_at (hourStart cfg h)) evs.

Hypothesis Hprofile : length (WeekdayCoefficients profile) = 7%nat.

Lemma hour_events_total h : exists n, hour_events cfg profile h = Some n.
Proof.
  unfold hour_events.
  destruct (Rate_total profile (f_of_Z ((hourStart cfg h + 30 * Minute) / Second))
    (f_of_Z (cfg_RefTime cfg / Second)) (cfg_Scale cfg) Hprofile) as [w Hw].
  unfold Rate. rewrite Hw. cbn [mbind option_bind]. by eexists.
Qed.

Lemma gen_hours_total hours h p :
  exists l, gen_hours cfg profile items hours h p = Some l /\ length l = hours /\
    forall i evs, l !! i = Some evs -> hour_ok (h + Z.of_nat i) evs.
Proof.
  revert h p. induction hours as [|hours IH]; intros h p.
  { exists []. split_and!; [done|done|]. by intros i evs. }
  destruct (hour_events_total h) as [n Hn].
  destruct (gen_events_total (Z.to_nat n) (hourStart cfg h) p) as (evs&p1&He&Hle&Hf).
  destruct (IH (h + 1) p1) as (l&Hl&Hll&Hok). exists (evs :: l). cbn [gen_hours].
  rewrite Hn. cbn [mbind option_bind]. rewrite He. cbn [mbind option_bind]. rewrite Hl.
  split_and!; [done|simpl; lia|]. intros [|i] evs'; cbn [lookup list_lookup].
  - intros [= <-]. rewrite Z.add_0_r. split; [exists n; by split|exact Hf].
  - intros Hi. rewrite Nat2Z.inj_succ, <- Z.add_1_l, Z.add_assoc. exact (Hok i evs' Hi).
Qed.
End generate.

(** ** The interface: what a run relies on *)
Section keys.
Context `{PgTime}.

(** The raw-event keys of a list of events. *)
Definition keys_of (evs : list EventRecord) : gset event_key :=
  list_to_set ((fun e => event_input_key (encode_event e)) <$> evs).

Lemma keys_of_app l1 l2 : keys_of (l1 ++ l2) = keys_of l1 ∪ keys_of l2.
Proof. unfold keys_of. by rewrite fmap_app, list_to_set_app_L. Qed.

Lemma keys_of_prefix l1 l2 : l1 `prefix_of` l2 -> keys_of l1 ⊆ keys_of l2.
Proof. intros [k ->]. rewrite keys_of_app. set_solver. Qed.

(** A successful batch adds exactly its keys and reports how many were new; a
    failed one added all of them or none. *)
Class BatchStoreSpec (D : Type) `{BatchStore D} := {
  bs_ok : D -> Prop;
  bs_keys : D -> gset event_key;
  batch_lands : forall evs d r err d',
    bs_ok d -> bs_IngestEventsBatch evs d = ((r, err), d') ->
    bs_ok d' /\
    match err with
    | None => bs_keys d' = bs_keys d ∪ keys_of evs /\
              Inserted r = Z.of_nat (size (bs_keys d')) - Z.of_nat (size (bs_keys d))
    | Some _ => bs_keys d' = bs_keys d \/ bs_keys d' = bs_keys d ∪ keys_of evs
    end
}.
End keys.

(** ** The run keeps the store and the counter in step *)
Section run.
Context `{FloatConv} `{TrigReduce} `{PgTime} {D : Type} `{!BatchStore D} `{!BatchStoreSpec D}.
Variable cfg : Config.
Variable profile : Profile.
Variable items : list Item.
Variable K0 : gset event_key.

(** The counter after the events [F]: the rows they added. *)
Definition written (F : list EventRecord) : Z :=
  wrap64 (Z.of_nat (size (K0 ∪ keys_of F)) - Z.of_nat (size K0)).

(** [G] generated so far: a written part, and the pending rest. *)
Definition in_step (G : list EventRecord) (w : World D) : Prop :=
  bs_ok (sw_store w) /\ exists F, G = F ++ sw_pending w /\
    bs_keys (sw_store w) = K0 ∪ keys_of F /\ sw_total w = written F.

(** After a failed flush: the pending rest may have been written too. *)
Definition unsure (G : list EventRecord) (w : World D) : Prop :=
  bs_ok (sw_store w) /\ exists F, G = F ++ sw_pending w /\
    (bs_keys (sw_store w) = K0 ∪ keys_of F \/ bs_keys (sw_store w) = K0 ∪ keys_of G) /\
    sw_total w = written F.

(** At an early return. *)
Definition partial (G : list EventRecord) (total : Z) (w : World D) : Prop :=
  bs_ok (sw_store w) /\ exists F, F `prefix_of` G /\ total = written F /\
    K0 ∪ keys_of F ⊆ bs_keys (sw_store w) /\ bs_keys (sw_store w) ⊆ K0 ∪ keys_of G.

Definition left_early (G : list EventRecord) (out : outcome) (w : World D) : Prop :=
  exists r e, out = Some (r, Some e) /\ partial G (EventsWritten r) w.

Lemma in_step_unsure G w : in_step G w -> unsure G w.
Proof. intros (Hok&F&HG&Hk&Ht). split; [done|]. exists F. auto. Qed.

Lemma left_early_mono G G' out w : G `prefix_of` G' -> left_early G out w -> left_early G' out w.
Proof.
  intros Hp (r&e&->&Hok&F&HF&Ht&Hlo&Hup). exists r, e. split; [done|]. split; [done|].
  exists F. split_and!; [by etrans|done|done|]. pose proof (keys_of_prefix _ _ Hp). set_solver.
Qed.

Lemma written_add F P d r d' :
  bs_keys d = K0 ∪ keys_of F -> bs_keys d' = bs_keys d ∪ keys_of P ->
  Inserted r = Z.of_nat (size (bs_keys d')) - Z.of_nat (size (bs_keys d)) ->
  wrap64 (written F + Inserted r) = written (F ++ P).
Proof.
  intros Hk Hk' ->. unfold written. rewrite wrap64_add_l, keys_of_app, Hk', Hk, union_assoc_L.
  f_equal. lia.
Qed.

Lemma flush_spec G w err w' :
  in_step G w -> flush w = (err, w') ->
  match err with None => in_step G w' /\ sw_pending w' = [] | Some _ => unsure G w' end.
Proof.
  intros Hin. pose proof Hin as (Hok&F&HG&Hk&Ht). unfold flush.
  destruct (Nat.eqb_spec (length (sw_pending w)) 0) as [Hnil|_].
  { intros [= <- <-]. split; [done|]. by apply nil_length_inv. }
  destruct (bs_IngestEventsBatch _ _) as [[r e] d'] eqn:Hrun.
  apply batch_lands in Hrun as [Hok' Hb]; [|done].
  destruct e as [e|]; intros [= <- <-].
  - split; [done|]. exists F. cbn. split_and!; [done| |done]. rewrite HG, keys_of_app.
    destruct Hb as [-> | ->]; [by left|right]. by rewrite Hk, union_assoc_L.
  - destruct Hb as [Hk' Hi]. split; [|done]. split; [done|]. exists G. cbn.
    rewrite app_nil_r. split_and!; [done|by rewrite Hk', Hk, HG, keys_of_app, union_assoc_L|].
    rewrite Ht, HG. by apply (written_add F (sw_pending w) (sw_store w) r d').
Qed.

Lemma detached_spec G w u w' :
  unsure G w -> flushDetachedOnCancel w = (u, w') -> partial G (sw_total w') w'.
Proof.
  intros (Hok&F&HG&Hk&Ht). unfold flushDetachedOnCancel, bind, flush.
  assert (F `prefix_of` G) as Hpre by (rewrite HG; by apply prefix_app_r).
  pose proof (keys_of_prefix _ _ Hpre) as Hsub.
  destruct (_ =? 0)%nat; [intros [= <- <-]|].
  { split; [done|]. exists F. split_and!; [done|done|..]; destruct Hk as [-> | ->]; set_solver. }
  destruct (bs_IngestEventsBatch _ _) as [[r e] d'] eqn:Hrun.
  apply batch_lands in Hrun as [Hok' Hb]; [|done].
  assert (keys_of G = keys_of F ∪ keys_of (sw_pending w)) as HkG by (by rewrite HG, keys_of_app).
  destruct e as [e|]; intros [= <- <-]; (split; [done|]); cbn [sw_store sw_total].
  - exists F. split_and!; [done|done|..]; destruct Hb as [-> | ->], Hk as [-> | ->]; set_solver.
  - destruct Hb as [Hk' Hi]. assert (bs_keys d' = K0 ∪ keys_of G) as HkG'.
    { rewrite Hk'. destruct Hk as [-> | ->]; rewrite HkG; clear; set_solver. }
    assert (K0 ∪ keys_of F ⊆ K0 ∪ keys_of G) as HFG by (clear - Hsub; set_solver).
    destruct Hk as [Hk|Hk].
    + exists G. rewrite HkG'. split_and!; [done| |done|done]. rewrite Ht, HG.
      by apply (written_add F (sw_pending w) (sw_store w) r d').
    + exists F. rewrite HkG'. split_and!; [done| |done|done].
      rewrite Hi, HkG', Hk, Z.sub_diag, Z.add_0_r, Ht. apply wrap64_id, wrap64_range.
Qed.

Lemma flush_or_return_spec G msg w r w' :
  in_step G w -> flush_or_return msg w = (r, w') ->
  match r with
  | inl out => left_early G out w'
  | inr _ => in_step G w' /\ sw_pending w' = []
  end.
Proof.
  intros Hin. unfold flush_or_return, bind. destruct (flush w) as [err w1] eqn:Hf.
  pose proof (flush_spec G w err w1 Hin Hf) as Hspec. destruct err as [e|].
  2:{ by intros [= <- <-]. }
  unfold ctx_Err. set (w2 := Build_World _ _ _ _ _).
  assert (unsure G w2) as Hw2 by exact Hspec.
  destruct (sw_cancel w1) as [[|n]|].
  1: destruct (flushDetachedOnCancel w2) as [u w3] eqn:Hd; pose proof (detached_spec G w2 u w3 Hw2 Hd) as Hp.
  1: by intros [= <- <-]; eexists _, _.
  all: intros [= <- <-]; eexists _, _; split; [done|]; destruct Hw2 as (Hok&F&HG&Hk&Ht).
  all: split; [done|]; exists F; split_and!; [rewrite HG; by apply prefix_app_r|done|..].
  all: pose proof (keys_of_prefix F G ltac:(rewrite HG; by apply prefix_app_r)) as Hsub.
  all: destruct Hk as [-> | ->]; clear - Hsub; set_solver.
Qed.

Lemma event_loop_spec n start p G w evs p' r w' :
  in_step G w -> gen_events items n start p = Some (evs, p') ->
  event_loop cfg items n start p w = (r, w') ->
  match r with
  | inl out => left_early (G ++ evs) out w'
  | inr p2 => p2 = p' /\ in_step (G ++ evs) w'
  end.
Proof.
  revert p G w evs. induction n as [|n IH]; intros p G w evs Hin; cbn [gen_events event_loop].
  { intros [= <- <-] [= <- <-]. by rewrite app_nil_r. }
  destruct (draw_event items start p) as [[e p1]|]; cbn [mbind option_bind]; [|done].
  destruct (gen_events items n start p1) as [[evs1 p2]|] eqn:Hg; [|done]. intros [= <- <-].
  unfold bind, append, len_pending. set (w1 := Build_World _ _ _ _ _).
  assert (in_step (G ++ [e]) w1) as Hin1.
  { destruct Hin as (Hok&F&HG&Hk&Ht). split; [done|]. exists F. cbn.
    by rewrite HG, (assoc_L (++)). }
  replace (G ++ e :: evs1) with ((G ++ [e]) ++ evs1) by (by rewrite <- (assoc_L (++))).
  destruct (_ <=? _).
  - destruct (flush_or_return _ w1) as [r1 w2] eqn:Hf.
    pose proof (flush_or_return_spec _ _ _ _ _ Hin1 Hf) as Hs. destruct r1 as [out|[]].
    + intros [= <- <-]. eapply left_early_mono; [|exact Hs]. by apply prefix_app_r.
    + intros Hrun. eapply IH; [apply Hs|exact Hg|exact Hrun].
  - intros Hrun. eapply IH; [exact Hin1|exact Hg|exact Hrun].
Qed.

Lemma hour_loop_spec hours h p G w l r w' :
  in_step G w -> gen_hours cfg profile items hours h p = Some l ->
  hour_loop cfg profile items hours h p w = (r, w') ->
  match r with
  | inl out => left_early (G ++ concat l) out w'
  | inr _ => in_step (G ++ concat l) w'
  end.
Proof.
  revert h p G w l r w'. induction hours as [|hours IH]; intros h p G w l r w' Hin; cbn [gen_hours hour_loop].
  { intros [= <-] [= <- <-]. by rewrite app_nil_r. }
  destruct (hour_events cfg profile h) as [n|] eqn:Hn; cbn [mbind option_bind]; [|done].
  destruct (gen_events _ _ _ p) as [[evs p1]|] eqn:He; cbn [mbind option_bind]; [|done].
  destruct (gen_hours _ _ _ hours _ p1) as [rest|] eqn:Hg; [|done]. intros [= <-].
  unfold bind, ctx_Err. set (w1 := Build_World _ _ _ _ _).
  assert (in_step G w1) as Hin1 by exact Hin. cbn [concat]. rewrite (assoc_L (++)).
  assert (forall r w', (let '(a, s') := event_loop cfg items (Z.to_nat n) (hourStart cfg h) p w1 in
    match a with inl out => ret (inl out) | inr p' => hour_loop cfg profile items hours (h + 1) p' end s')
      = (r, w') -> match r with
                   | inl out => left_early ((G ++ evs) ++ concat rest) out w'
                   | inr _ => in_step ((G ++ evs) ++ concat rest) w' end) as Hgo.
  { clear r w'. intros r w'. destruct (event_loop _ _ _ _ p w1) as [r1 w2] eqn:Hl.
    pose proof (event_loop_spec _ _ _ _ _ _ _ _ _ Hin1 He Hl) as Hs. destruct r1 as [out|p2].
    - intros [= <- <-]. eapply left_early_mono; [|exact Hs]. by apply prefix_app_r.
    - destruct Hs as [-> Hs]. apply (IH _ _ _ _ _ _ _ Hs Hg). }
  destruct (sw_cancel w) as [[|k]|]; [|apply Hgo..].
  destruct (flushDetachedOnCancel w1) as [u w2] eqn:Hd.
  pose proof (detached_spec G w1 u w2 (in_step_unsure _ _ Hin1) Hd) as Hp.
  intros [= <- <-]. eapply (left_early_mono G); [by rewrite <- (assoc_L (++)); apply prefix_app_r|].
  by eexists _, _.
Qed.
End run.

(** ** The window *)
Lemma window_offset_exact cfg :
  0 < cfg_Days cfg <= 106751 -> window_offset cfg = - (cfg_Days cfg * 24 * Hour).
Proof.
  intros Hd. unfold window_offset, Hour, Minute, Second.
  rewrite (wrap64_id (- cfg_Days cfg)) by (unfold int64_range, min_int64, max_int64; lia).
  rewrite (wrap64_id (- cfg_Days cfg * 24)) by (unfold int64_range, min_int64, max_int64; lia).
  rewrite wrap64_id by (unfold int64_range, min_int64, max_int64; lia). lia.
Qed.

Lemma totalHours_exact `{FloatConv} cfg :
  0 < cfg_Days cfg <= 106751 -> totalHours cfg = cfg_Days cfg * 24.
Proof.
  intros Hd. unfold totalHours, windowStart. rewrite window_offset_exact by done.
  assert (Sub (windowEnd cfg) (windowEnd cfg + - (cfg_Days cfg * 24 * Hour)) = cfg_Days cfg * 24 * Hour)
    as ->.
  { unfold Sub, max_int64, min_int64, Hour, Minute, Second in *. lia. }
  unfold Hours. rewrite Z.quot_mul, Z.rem_mul by (unfold Hour, Minute, Second; lia).
  pose proof (trunc_f_of_Z (cfg_Days cfg * 24) ltac:(lia)) as Ht.
  change (f_div (f_of_Z 0) (f_of_Z Hour)) with (S754_zero false).
  assert (f_add (f_of_Z (cfg_Days cfg * 24)) (S754_zero false) = f_of_Z (cfg_Days cfg * 24)) as ->.
  { unfold f_add. destruct (f_of_Z (cfg_Days cfg * 24)) as [[]| | |]; try done.
    simpl in Ht. injection Ht as Ht. lia. }
  unfold int64_of_f. rewrite Ht, decide_True; [done|]. unfold int64_range, min_int64, max_int64. lia.
Qed.

(** ** The store in PostgreSQL *)
Lemma new_rows_size rows n :
  Z.of_nat (size (names_add_all rows n)) = Z.of_nat (size n) + Z.of_nat (length (new_rows n rows)).
Proof.
  revert n. induction rows as [|e rows IH]; intros n; cbn [new_rows]; [simpl; lia|].
  change (names_add_all (e :: rows) n) with (names_add_all rows (names_add e n)). rewrite IH.
  unfold names_add. destruct (n !! event_input_key e) eqn:E; [done|].
  rewrite map_size_insert_None by done. cbn [length]. lia.
Qed.

Section pg_batch.
Context `{PgTime}.
Variable pg_clock : nat -> pg_time.

#[export] Instance pg_batch_store : BatchStore PgStore := {|
  bs_IngestEventsBatch evs := pg_run pg_clock (fun now => IngestEventsBatch now evs)
|}.

Lemma batch_effect_keys now ev d r d' :
  batch_effect now ev d = SOk r d' ->
  dom (item_events d') = dom (item_events d) ∪ keys_of ev /\
  Inserted r = Z.of_nat (size (dom (item_events d'))) - Z.of_nat (size (dom (item_events d))).
Proof.
  intros Heff. destruct (batch_effect_spec now ev d) as [Hok Herr].
  destruct (decide (rows_fit (er_name <$> item_events d) (bk_count <$> event_buckets d)
    (encode_event <$> ev))) as [Hfit|Hfit]; [|destruct (Herr Hfit) as [e He]; congruence].
  destruct (Hok Hfit) as (r1 & d1 & He & Hr & Hn & _). rewrite He in Heff. injection Heff as -> ->.
  clear Hok Herr. split.
  - apply set_eq. intros k. rewrite elem_of_union, !elem_of_dom, <- !not_eq_None_Some,
      !(events_none_view (item_events _)), Hn, !not_eq_None_Some, names_add_all_dom.
    unfold keys_of. rewrite elem_of_list_to_set, list_elem_of_fmap. setoid_rewrite list_elem_of_fmap.
    naive_solver.
  - rewrite !size_dom, Hr, <- (map_size_fmap er_name (item_events d')), Hn, new_rows_size, map_size_fmap.
    lia.
Qed.

#[export, refine] Instance pg_batch_store_spec : BatchStoreSpec PgStore := {|
  bs_ok st := working (pg_session st) = None;
  bs_keys st := dom (item_events (pg_db st));
  batch_lands := _
|}.
Proof.
  intros evs st r err st' Hw Hrun. unfold bs_IngestEventsBatch, pg_batch_store, pg_run in Hrun.
  destruct (IngestEventsBatch _ evs (pg_session st)) as [[r0 e0] s'] eqn:E. injection Hrun as -> -> <-.
  pose proof (IngestEventsBatch_leaves (pg_clock (pg_txs st)) evs (pg_session st) Hw) as Hl.
  rewrite E in Hl. destruct Hl as (Hw' & Hcom & Hsucc). unfold pg_db; cbn [pg_session].
  split; [done|]. destruct err as [e|].
  - destruct Hcom as [-> |[a Heff]]; [by left|right]. by destruct (batch_effect_keys _ _ _ _ _ Heff).
  - by apply (batch_effect_keys (pg_clock (pg_txs st))), Hsucc.
Defined.
End pg_batch.

(** ** A whole run *)
Lemma Run_written `{FloatConv} `{TrigReduce} `{PgTime} {D} `{!BatchStore D} `{!BatchStoreSpec D}
    cfg profile items hours (d : D) cancel :
  bs_ok d -> items <> [] -> 0 < cfg_Days cfg -> generated cfg profile items = Some hours ->
  let '(out, w) := Run cfg profile items (initial_world d cancel) in
  exists r err F,
    out = Some (r, err) /\
    bs_ok (sw_store w) /\
    F `prefix_of` concat hours /\
    EventsWritten r = written (bs_keys d) F /\
    bs_keys d ∪ keys_of F ⊆ bs_keys (sw_store w) /\
    bs_keys (sw_store w) ⊆ bs_keys d ∪ keys_of (concat hours) /\
    (err = None -> F = concat hours).
Proof.
  intros Hok Hne Hdays Hgen.
  unfold Run. rewrite (proj2 (Nat.eqb_neq _ _)) by (by destruct items).
  rewrite (proj2 (Z.leb_gt _ _)) by done. unfold bind.
  assert (in_step (bs_keys d) [] (initial_world d cancel)) as Hin.
  { split; [done|]. exists []. cbn. unfold written, keys_of. cbn. rewrite union_empty_r_L, Z.sub_diag.
    by split_and!. }
  destruct (hour_loop _ _ _ _ _ _ _) as [r1 w1] eqn:Hrun.
  pose proof (hour_loop_spec _ _ _ _ _ _ _ _ _ _ _ _ Hin Hgen Hrun) as Hs. cbn [app] in Hs.
  assert (forall out w, left_early (bs_keys d) (concat hours) out w -> exists r err F,
    out = Some (r, err) /\ bs_ok (sw_store w) /\ F `prefix_of` concat hours /\
    EventsWritten r = written (bs_keys d) F /\ bs_keys d ∪ keys_of F ⊆ bs_keys (sw_store w) /\
    bs_keys (sw_store w) ⊆ bs_keys d ∪ keys_of (concat hours) /\ (err = None -> F = concat hours))
    as Hearly.
  { intros out w (r & e & -> & Hok' & F & HF & Ht & Hlo & Hup). by exists r, (Some e), F. }
  destruct r1 as [out|p]; [by apply Hearly|].
  destruct (flush_or_return _ w1) as [r2 w2] eqn:Hf.
  pose proof (flush_or_return_spec _ _ _ _ _ _ Hs Hf) as Hs2. destruct r2 as [out|[]]; [by apply Hearly|].
  destruct Hs2 as [(Hok2&F&HF&Hk&Ht) Hp]. rewrite Hp, app_nil_r in HF. subst F.
  eexists _, None, (concat hours). by rewrite Hk.
Qed.

(** * Properties *)

(** C2: A seed run, whatever fails and whenever it is canceled, always returns
    (no index panic, no endless draw), and works on the events the configuration
    determines: one list per hour, with as many events as the load profile's rate
    at the middle of the hour says, each a "created" or "deleted" event of one of
    the given items at a time inside its hour.  If it succeeds, exactly those
    events' keys were added to the store and [EventsWritten] is the number of new
    rows; if it returns an error, a prefix of the events is in the store, that
    prefix is what [EventsWritten] counts, and nothing else was added. *)
Theorem seed_run_spec `{FloatConv} `{TrigReduce} `{PgTime} {D} `{!BatchStore D} `{!BatchStoreSpec D}
    cfg profile items (d : D) cancel :
  bs_ok d -> items <> [] -> Z.of_nat (length items) <= max_int64 -> 0 < cfg_Days cfg ->
  length (WeekdayCoefficients profile) = 7%nat ->
  exists hours,
    generated cfg profile items = Some hours /\
    length hours = Z.to_nat (totalHours cfg) /\
    (forall i evs, hours !! i = Some evs ->
      (exists n, hour_events cfg profile (Z.of_nat i) = Some n /\ length evs = Z.to_nat n) /\
      Forall (seeded_at items (hourStart cfg (Z.of_nat i))) evs) /\
    let '(out, w) := Run cfg profile items (initial_world d cancel) in
    exists r err F,
      out = Some (r, err) /\
      bs_ok (sw_store w) /\
      F `prefix_of` concat hours /\
      EventsWritten r =
        wrap64 (Z.of_nat (size (bs_keys d ∪ keys_of F)) - Z.of_nat (size (bs_keys d))) /\
      bs_keys d ∪ keys_of F ⊆ bs_keys (sw_store w) /\
      bs_keys (sw_store w) ⊆ bs_keys d ∪ keys_of (concat hours) /\
      (err = None -> F = concat hours).
Proof.
  intros Hok Hne Hlen Hdays Hprof.
  destruct (gen_hours_total cfg profile items Hne Hlen Hprof (Z.to_nat (totalHours cfg)) 0 (new_rng cfg))
    as (hours & Hgen & Hl & Hspec).
  exists hours. split_and!; [exact Hgen|exact Hl|exact Hspec|]. by apply Run_written.
Qed.

(** C34: A history of up to 106751 days covers exactly [Days] times 24 whole hours,
    back to back and aligned, the last one ending at the reference time truncated
    to the hour: no seeded event lies after the reference time. *)
Theorem seed_window `{FloatConv} cfg h :
  0 < cfg_Days cfg <= 106751 -> 0 <= h < totalHours cfg ->
  totalHours cfg = cfg_Days cfg * 24 /\
  windowEnd cfg <= cfg_RefTime cfg < windowEnd cfg + Hour /\
  hourStart cfg 0 = windowEnd cfg - cfg_Days cfg * 24 * Hour /\
  hourStart cfg h mod Hour = 0 /\
  hourStart cfg h = hourStart cfg 0 + h * Hour /\
  hourStart cfg h + Hour <= windowEnd cfg.
Proof.
  intros Hd Hh. rewrite (totalHours_exact cfg Hd) in Hh |- *.
  assert (windowEnd cfg = cfg_RefTime cfg / Hour * Hour) as HE.
  { unfold windowEnd, TruncateHour. rewrite Z.mod_eq by (unfold Hour, Minute, Second; lia). lia. }
  pose proof (Z.mod_pos_bound (cfg_RefTime cfg) Hour ltac:(unfold Hour, Minute, Second; lia)) as Hm.
  assert (forall k, 0 <= k < cfg_Days cfg * 24 ->
    hourStart cfg k = windowEnd cfg - cfg_Days cfg * 24 * Hour + k * Hour) as Hs.
  { intros k Hk. unfold hourStart, windowStart. rewrite window_offset_exact by done.
    rewrite wrap64_id by (unfold int64_range, min_int64, max_int64, Hour, Minute, Second in *; lia). lia. }
  rewrite !Hs by lia.
  split_and!; [done|unfold windowEnd, TruncateHour; lia|unfold windowEnd, TruncateHour; lia|lia| |lia|].
  - rewrite HE. replace (_ + h * Hour) with ((cfg_RefTime cfg / Hour - cfg_Days cfg * 24 + h) * Hour) by lia.
    apply Z_mod_mult.
  - unfold Hour, Minute, Second in *. lia.
Qed.

(** C35: Beyond that the duration wraps: a run asked for 200000 days of history
    generates nothing, writes nothing and still reports success. *)
Theorem seed_days_overflow `{FloatConv} `{TrigReduce} {D} `{!BatchStore D}
    cfg profile items (d : D) cancel :
  cfg_Days cfg = 200000 -> items <> [] ->
  totalHours cfg < 0 /\
  Run cfg profile items (initial_world d cancel) =
    (Some ({| EventsWritten := 0 |}, None), initial_world d cancel).
Proof.
  intros Hd Hne. assert (totalHours cfg = -324095) as HT.
  { unfold totalHours, windowStart. set (e := windowEnd cfg). unfold window_offset. rewrite Hd.
    set (o := wrap64 _). vm_compute in o. subst o. unfold Sub.
    replace (e - (e + _)) with (-1166744073709551616) by lia. vm_compute. reflexivity. }
  rewrite HT. split; [done|]. unfold Run.
  rewrite (proj2 (Nat.eqb_neq _ _)) by (by destruct items). rewrite Hd, HT. reflexivity.
Qed.

(** * Concrete inputs *)

(** A flat profile of about one event an hour, and a day of history. *)
Definition demo_profile : Profile :=
  {| BaseRatePerS := dec 3 4; p_Diurnal := {| Amplitude := f_zero; PhaseHours := f_zero |};
     WeekdayCoefficients := repeat f_one 7; NoisePct := f_zero; p_Trend := {| PctPerDay := f_zero |};
     Anomalies := [] |}.

Definition demo_cfg : Config :=
  {| cfg_Days := 1; cfg_SeedValue := 42; cfg_Scale := f_one; cfg_RefTime := 1767571200000000000;
     cfg_BatchSize := 10 |}.

Definition demo_items : list Item := [{| it_ID := 1; it_Name := "a" |}; {| it_ID := 2; it_Name := "b" |}].

Definition pg_empty : PgStore := {| pg_session := quiet_session empty_db; pg_txs := 0 |}.

Definition demo_store : BatchStore PgStore := pg_batch_store (fun _ => 0).

(** A whole run, and one canceled at its eighth look at the context: the seven
    hours generated before are flushed. *)
Example demo_runs :
  (let '(out, w) := Run (H1 := demo_store) demo_cfg demo_profile demo_items (initial_world pg_empty None) in
   (out, size (item_events (pg_db (sw_store w))))) = (Some ({| EventsWritten := 24 |}, None), 24%nat) /\
  (let '(out, w) := Run (H1 := demo_store) demo_cfg demo_profile demo_items
     (initial_world pg_empty (Some 7%nat)) in
   (out, size (item_events (pg_db (sw_store w))))) =
  (Some ({| EventsWritten := 7 |}, Some (ErrWrap "seed canceled after hours" context_canceled)), 7%nat).
Proof. split; vm_compute; reflexivity. Qed.

Lemma seed_run_spec_witness :
  exists hours, generated demo_cfg demo_profile demo_items = Some hours /\
    length hours = Z.to_nat (totalHours demo_cfg).
Proof.
  destruct (seed_run_spec (BatchStoreSpec0 := pg_batch_store_spec (fun _ => 0))
    demo_cfg demo_profile demo_items pg_empty None) as (hours & Hg & Hl & _).
  - reflexivity.
  - discriminate.
  - vm_compute. discriminate.
  - reflexivity.
  - reflexivity.
  - exists hours. split; [exact Hg|exact Hl].
Defined.

Lemma seed_window_witness :
  hourStart demo_cfg 23 mod Hour = 0 /\ hourStart demo_cfg 23 + Hour <= windowEnd demo_cfg.
Proof.
  destruct (seed_window demo_cfg 23) as (_ & _ & _ & Hm & _ & Hle).
  - vm_compute. split; [reflexivity|discriminate].
  - vm_compute. split; [discriminate|reflexivity].
  - split; [exact Hm|exact Hle].
Defined.

Lemma seed_days_overflow_witness :
  (Run (H1 := demo_store)
    {| cfg_Days := 200000; cfg_SeedValue := 42; cfg_Scale := f_one; cfg_RefTime := 1767571200000000000;
       cfg_BatchSize := 0 |} demo_profile demo_items (initial_world pg_empty None)).1
  = Some ({| EventsWritten := 0 |}, None).
Proof.
  edestruct (seed_days_overflow (BatchStore0 := demo_store)) as [_ Hrun]; [..|rewrite Hrun; reflexivity].
  - reflexivity.
  - discriminate.
Defined.
