(* ===== verification/HttpServer.v ===== *)
(** * HttpServer: the HTTP surface (internal/httpserver)

    The routes, the handlers and the readiness gauge.  The handlers are written
    against the interfaces [Pinger] and [ItemsStore]; the store in PostgreSQL
    implements both.  A request is its method and its path, cleaned and split
    into decoded segments as [net/http.ServeMux] does.  A JSON body is kept as the
    value given to the encoder; the encoder refuses a NaN or infinite number and a
    year outside 0..9999, and then nothing is written after the header.  Where no
    pattern matches, net/http's mux answers with a line of text.  A response is
    what the handler writes; net/http drops the body of an answer to HEAD.  The
    Prometheus handler of /metrics is not this repository's code: its response is
    the parameter [metrics]. *)
From S2P Require Import Prelude GoInt GoFloat Database Session Store StoreBatch Invariant StoreProps.
From Stdlib Require Import Ascii.
Local Open Scope Z_scope.
Local Open Scope go_scope.

(** ** Requests and responses *)
Record Request := { rq_method : string; rq_path : list string }.

Record itemResponse := {
  ir_ItemID : Z; ir_Name : string; ir_FirstSeen : Z; ir_LastSeen : Z; ir_Tombstoned : bool
}.
Record statEntry := { se_EventType : string; se_Count : Z }.
Record seedMarkerResponse := {
  sm_Scale : float64; sm_RefUnix : Z; sm_Seed : Z; sm_Days : Z; sm_SeededAt : Z; sm_EventsWritten : Z
}.

Inductive json :=
| JItem (r : itemResponse)
| JStats (l : list statEntry)
| JMarker (r : seedMarkerResponse).

(** A body is the encoded value or a line of text; [rs_body] is [None] when
    nothing was written, [rs_type] when no Content-Type was set. *)
Inductive body := Json (j : json) | Text (line : string).
Record Response := { rs_status : Z; rs_type : option string; rs_body : option body }.

Definition StatusOK : Z := 200.
Definition StatusBadRequest : Z := 400.
Definition StatusNotFound : Z := 404.
Definition StatusMethodNotAllowed : Z := 405.
Definition StatusInternalServerError : Z := 500.
Definition StatusServiceUnavailable : Z := 503.

(** [w.WriteHeader(status)] alone. *)
Definition header_only (status : Z) : Response :=
  {| rs_status := status; rs_type := None; rs_body := None |}.

(** net/http's [Error(w, line, status)], with which the mux answers. *)
Definition http_Error (line : string) (status : Z) : Response :=
  {| rs_status := status; rs_type := Some "text/plain; charset=utf-8"%string;
     rs_body := Some (Text (line +:+ String (Ascii.ascii_of_nat 10) "")) |}.

(** What the encoder accepts: a time of the years 0 to 9999 (nanoseconds since
    the epoch), a finite number. *)
Definition json_time (t : Z) : bool :=
  (-62167219200 * Second <=? t) && (t <? 253402300800 * Second).
Definition json_number (x : float64) : bool :=
  match x with S754_zero _ | S754_finite _ _ _ => true | _ => false end.

Definition encodable (b : json) : bool :=
  match b with
  | JItem r => json_time (ir_FirstSeen r) && json_time (ir_LastSeen r)
  | JStats _ => true
  | JMarker r => json_number (sm_Scale r) && json_time (sm_SeededAt r)
  end.

Definition writeJSON (status : Z) (body : json) : Response :=
  {| rs_status := status; rs_type := Some "application/json"%string;
     rs_body := if encodable body then Some (Json body) else None |}.

(** ** The interfaces *)
Class Pinger (D : Type) := Ping : M D (option error).

Class ItemsStore (D : Type) := {
  is_GetCurrentItem : Z -> M D (CurrentItem * bool * option error);
  is_StatsLast24h : M D (list BucketStat * option error);
  is_GetSeedMarker : M D (SeedMarker * bool * option error)
}.

(** ** The server's world: the database and the gauge analytics_db_up *)
Record World (D : Type) := { hw_store : D; dbUp : Z }.
Arguments hw_store {D} w.
Arguments dbUp {D} w.

Inductive route :=
| RHealthz | RReadyz | RMetrics | RItem (item_id : string) | RStats | RSeedMarker
| RMethodNotAllowed | RNotFound.

(** The patterns of [New]; a GET pattern also serves HEAD. *)
Definition route_of (req : Request) : route :=
  let get (r : route) :=
    if bool_decide (rq_method req ∈ ["GET"; "HEAD"]%string) then r else RMethodNotAllowed in
  match rq_path req with
  | [a] => if String.eqb a "healthz" then RHealthz
           else if String.eqb a "readyz" then RReadyz
           else if String.eqb a "metrics" then RMetrics else RNotFound
  | [a; b; c] =>
      if String.eqb a "api" && String.eqb b "v1" then
        if String.eqb c "stats" then get RStats
        else if String.eqb c "seed-marker" then get RSeedMarker else RNotFound
      else RNotFound
  | [a; b; c; item_id] =>
      if String.eqb a "api" && String.eqb b "v1" && String.eqb c "items" then get (RItem item_id)
      else RNotFound
  | _ => RNotFound
  end.

(** [Handler]'s filter: is the request traced? *)
Definition traced (req : Request) : bool :=
  negb (bool_decide (rq_path req ∈ [["healthz"]; ["readyz"]; ["metrics"]]%string)).

Section server.
Context {D : Type} `{Pinger D} `{ItemsStore D}.
Variable metrics : Response.

Definition on_store {A} (m : M D A) : M (World D) A := fun w =>
  let '(a, d) := m (hw_store w) in (a, {| hw_store := d; dbUp := dbUp w |}).

Definition dbUp_Set (v : Z) : M (World D) unit := fun w => (tt, {| hw_store := hw_store w; dbUp := v |}).

Definition handleHealthz : M (World D) Response := ret (header_only StatusOK).

Definition handleReadyz : M (World D) Response :=
  let! err := on_store Ping in
  match err with
  | Some _ => let! _ := dbUp_Set 0 in ret (header_only StatusServiceUnavailable)
  | None => let! _ := dbUp_Set 1 in ret (header_only StatusOK)
  end.

Definition handleGetItem (item_id : string) : M (World D) Response :=
  match ParseInt item_id with
  | inl _ => ret (header_only StatusBadRequest)
  | inr itemID =>
      let! r := on_store (is_GetCurrentItem itemID) in
      match r with
      | (_, _, Some _) => ret (header_only StatusInternalServerError)
      | (item, found, None) =>
          if negb found then ret (header_only StatusNotFound) else
          ret (writeJSON StatusOK (JItem
            {| ir_ItemID := ItemID item; ir_Name := Name item; ir_FirstSeen := FirstSeen item;
               ir_LastSeen := LastSeen item; ir_Tombstoned := Tombstoned item |}))
      end
  end.

Definition handleStats : M (World D) Response :=
  let! r := on_store is_StatsLast24h in
  match r with
  | (_, Some _) => ret (header_only StatusInternalServerError)
  | (stats, None) =>
      let entries := (fun stat => {| se_EventType := bs_EventType stat; se_Count := bs_Count stat |})
                       <$> stats in
      ret (writeJSON StatusOK (JStats entries))
  end.

Definition handleSeedMarker : M (World D) Response :=
  let! r := on_store is_GetSeedMarker in
  match r with
  | (_, _, Some _) => ret (header_only StatusInternalServerError)
  | (marker, found, None) =>
      if negb found then ret (header_only StatusNotFound) else
      ret (writeJSON StatusOK (JMarker
        {| sm_Scale := Scale marker; sm_RefUnix := RefUnix marker; sm_Seed := Seed marker;
           sm_Days := Days marker; sm_SeededAt := SeededAt marker;
           sm_EventsWritten := EventsWritten marker |}))
  end.

Definition ServeHTTP (req : Request) : M (World D) Response :=
  match route_of req with
  | RHealthz => handleHealthz
  | RReadyz => handleReadyz
  | RMetrics => ret metrics
  | RItem item_id => handleGetItem item_id
  | RStats => handleStats
  | RSeedMarker => handleSeedMarker
  | RMethodNotAllowed => ret (http_Error "Method Not Allowed" StatusMethodNotAllowed)
  | RNotFound => ret (http_Error "404 page not found" StatusNotFound)
  end.
End server.

(** ** The store in PostgreSQL *)
Definition pg_Ping : M Session (option error) := fun s =>
  (match next_outcome s with Delivered => None | Refused e | ReplyLost e => Some e end, consume s).

#[export] Instance pg_pinger : Pinger Session := pg_Ping.

#[export] Instance pg_items_store `{PgTime} (now : pg_time) : ItemsStore Session := {|
  is_GetCurrentItem := GetCurrentItem;
  is_StatsLast24h := StatsLast24h now;
  is_GetSeedMarker := GetSeedMarker
|}.

Definition get (path : list string) : Request := {| rq_method := "GET"; rq_path := path |}.
Definition get_item (id : Z) : Request := get ["api"; "v1"; "items"; pretty id].

(** ** Reads do not write *)
Definition reads_only {A} (m : M Session A) : Prop := forall s, committed (m s).2 = committed s.

Lemma rows_step_reads : reads_only rows_step.
Proof. intros s. unfold rows_step. by destruct (next_outcome s). Qed.

Lemma pool_Query_reads {A} (q : DB -> A) : reads_only (pool_Query q).
Proof. intros s. unfold pool_Query. by destruct (next_outcome s). Qed.

Lemma reads_bind {A B} (m : M Session A) (k : A -> M Session B) :
  reads_only m -> (forall a, reads_only (k a)) -> reads_only (bind m k).
Proof.
  intros Hm Hk s. unfold bind. specialize (Hm s). destruct (m s) as [a s1]. simpl in Hm.
  by rewrite Hk.
Qed.

Lemma reads_ret {A} (a : A) : reads_only (ret a).
Proof. done. Qed.

Lemma reads_range {A St R} (l : list A) st (body : A -> St -> M Session (R + St)) k :
  (forall x st, reads_only (body x st)) -> (forall st, reads_only (k st)) ->
  reads_only (range_loop l st body k).
Proof.
  intros Hb Hk. revert st. induction l as [|x l IH]; intros st; simpl; [done|].
  apply reads_bind; [done|]. intros [r|st']; [apply reads_ret|apply IH].
Qed.

#[export] Hint Resolve rows_step_reads pool_Query_reads reads_ret : godb.

Section properties.
Context `{PgTime}.

Lemma StatsLast24h_reads now : reads_only (StatsLast24h now).
Proof.
  apply reads_bind; [auto with godb|]. intros [e|rows]; [apply reads_ret|]. apply reads_range.
  - intros r st. apply reads_bind; [auto with godb|]. intros [e|u]; [apply reads_ret|].
    destruct (scan_int64 r.2); apply reads_ret.
  - intros st. apply reads_bind; [auto with godb|]. intros [e|u]; apply reads_ret.
Qed.

(** The answer of /api/v1/items/{item_id} on one database. *)
Definition item_answer (id : Z) (d : DB) : Response :=
  match current_items d !! id with
  | None => header_only StatusNotFound
  | Some r =>
      let item := scan_item id r in
      writeJSON StatusOK (JItem
        {| ir_ItemID := id; ir_Name := ir_name r; ir_FirstSeen := FirstSeen item;
           ir_LastSeen := LastSeen item; ir_Tombstoned := bool_decide (ir_tombstoned_at r <> None) |})
  end.

Lemma get_item_run now metrics id s up :
  int64_range id -> next_outcome s = Delivered ->
  ServeHTTP (H0 := pg_items_store now) metrics (get_item id) {| hw_store := s; dbUp := up |} =
    (item_answer id (committed s), {| hw_store := consume s; dbUp := up |}).
Proof.
  intros Hid Ho. unfold ServeHTTP. change (route_of (get_item id)) with (RItem (pretty id)).
  unfold handleGetItem. rewrite ParseInt_pretty by done.
  unfold bind, on_store. cbn [is_GetCurrentItem pg_items_store hw_store dbUp].
  unfold GetCurrentItem, pool_Query, bind, item_answer. rewrite Ho.
  by destruct (current_items (committed s) !! id).
Qed.


(** C16: The ingestion pipeline as its canary sees it: an id never observed is
    answered 404; once an event of it has been ingested it is answered 200, with
    the tombstone flag set exactly if that event is the deletion when it is a new
    item; and 200 is what every later request gets, whatever operations and
    failures the store goes through in between. *)
Theorem http_item_pipeline now1 now2 metrics ev b s d d' up :
  int64_range (ev_ItemID ev) ->
  current_items d !! ev_ItemID ev = None ->
  IngestEvent now1 ev (quiet_session d) = ((b, None), s) ->
  rtc (store_step any_op) (committed s) d' ->
  let ask d := (ServeHTTP (H0 := pg_items_store now2) metrics (get_item (ev_ItemID ev))
                  {| hw_store := quiet_session d; dbUp := up |}).1 in
  rs_status (ask d) = 404 /\
  rs_status (ask (committed s)) = 200 /\
  (forall r, rs_body (ask (committed s)) = Some (Json (JItem r)) ->
     ir_ItemID r = ev_ItemID ev /\ ir_Name r = ev_ItemName ev /\ ir_Tombstoned r = is_deleted ev) /\
  rs_status (ask d') = 200.
Proof.
  intros Hid Hnone Hrun Hsteps ask. destruct (IngestEvent_quiet_inv _ _ _ _ _ Hrun) as (d1 & -> & Heff).
  change (committed (quiet_session d1)) with d1 in *. destruct (ingest_effect_cases _ _ _ _ _ Heff) as (_ & Hci & _).
  assert (forall d0, ask d0 = item_answer (ev_ItemID ev) d0) as Hask
    by (intros d0; unfold ask; by rewrite get_item_run).
  rewrite !Hask. rewrite Hnone in Hci. cbn [merge_item_row] in Hci.
  assert (current_items d1 !! ev_ItemID ev = Some (item_row_of ev)) as Hrow
    by (by rewrite Hci, lookup_insert_eq).
  split_and!.
  - unfold item_answer. by rewrite Hnone.
  - unfold item_answer. by rewrite Hrow.
  - intros r. unfold item_answer. rewrite Hrow. unfold writeJSON. cbn [rs_body].
    case_match; [|done]. intros [= <-]. cbn. split_and!; [done|done|]. by destruct (is_deleted ev).
  - assert (is_Some (current_items d' !! ev_ItemID ev)) as [r Hr]
      by (eapply known_steps; [exact Hsteps|rewrite Hrow; by eexists]).
    unfold item_answer. by rewrite Hr.
Qed.
End properties.

(** * Concrete inputs *)
Definition api_db : DB := committed (IngestEvent 10 demo_event (quiet_session empty_db)).2.

Definition ask_status (req : Request) (s : Session) : Z :=
  rs_status (ServeHTTP (H0 := pg_items_store 0) (header_only StatusOK) req {| hw_store := s; dbUp := 0 |}).1.

Example demo_requests :
  ask_status (get_item 1) (quiet_session api_db) = 200 /\
  ask_status (get_item 2) (quiet_session api_db) = 404 /\
  ask_status (get ["api"; "v1"; "items"; "9223372036854775808"]%string) (quiet_session api_db) = 400 /\
  ask_status {| rq_method := "POST"; rq_path := ["api"; "v1"; "stats"]%string |} (quiet_session api_db) = 405 /\
  ask_status (get ["api"; "v1"; "seed-marker"]%string) (quiet_session api_db) = 404.
Proof. split_and!; vm_compute; reflexivity. Qed.

(** A marker seeded at a scale that is no number is answered 200 without a body. *)
Example nan_scale_empty_body :
  let m := {| Scale := S754_nan; RefUnix := 0; Seed := 42; Days := 90; SeededAt := 0; EventsWritten := 0 |} in
  let s := (UpsertSeedMarker m (quiet_session empty_db)).2 in
  (ServeHTTP (H0 := pg_items_store 0) (header_only StatusOK)
     (get ["api"; "v1"; "seed-marker"]%string) {| hw_store := s; dbUp := 0 |}).1
  = {| rs_status := 200; rs_type := Some "application/json"%string; rs_body := None |}.
Proof. vm_compute. reflexivity. Qed.

Lemma http_item_pipeline_witness :
  current_items empty_db !! 1 = None /\ ask_status (get_item 1) (quiet_session api_db) = 200.
Proof.
  split; [reflexivity|].
  destruct (http_item_pipeline 10 0 (header_only StatusOK) demo_event true (quiet_session api_db)
    empty_db api_db 0) as (_ & Hok & _ & _).
  - vm_compute. split; discriminate.
  - reflexivity.
  - vm_compute. reflexivity.
  - apply rtc_refl.
  - exact Hok.
Defined.
