(* ===== verification/Grafana.v ===== *)
(** * Grafana: the seed-time annotations (internal/grafana)

    [ComputeAnnotations] of annotations.go and the HTTP client of client.go.  The
    annotation API is another program: the client is written against [Grafana], the
    answer to one HTTP request, and its replacement theorem against
    [GrafanaSpec], the documented behaviour of the API (a list by tag bounded by
    its limit, deletion by id, creation under a fresh id; a request whose reply is
    an error may or may not have taken effect).  A response carries its body as the
    JSON decoder would deliver it. *)
From S2P Require Import Prelude GoInt GoFloat GoMath LoadShape GoEnv.
Local Open Scope Z_scope.
Local Open Scope go_scope.

(** ** config.go *)
Record Config := { URL : string; User : string; Password : string }.

Definition envString (env : Environ) (key def : string) : string :=
  let v := Getenv env key in if negb (String.eqb v "") then v else def.

Definition ConfigFromEnv (env : Environ) : Config :=
  {| URL := envString env "GRAFANA_URL" "http://grafana:3000";
     User := envString env "GRAFANA_USER" "admin";
     Password := envString env "GRAFANA_PASSWORD" "admin" |}.

(** ** annotations.go *)
Definition AnomalyTag : string := "seed-anomaly".

Record Annotation := {
  TimeUnixMilli : Z;
  TimeEndUnixMilli : Z;
  Tags : list string;
  Text : string
}.

#[export] Instance Annotation_eq_dec : EqDecision Annotation.
Proof. solve_decision. Defined.

(** Two decimals of a non-negative integer of hundredths. *)
Definition hundredths (n : Z) : string :=
  pretty (n / 100) +:+ "." +:+ pretty (n mod 100 / 10) +:+ pretty (n mod 10).

(** [%.2f]: the exact value rounded to nearest, ties to even. *)
Definition fmt_f2 (x : float64) : string :=
  let sign (s : bool) := if s then "-"%string else ""%string in
  match x with
  | S754_nan => "NaN"
  | S754_infinity s => (if s then "-Inf" else "+Inf")%string
  | S754_zero s => sign s +:+ "0.00"
  | S754_finite s m e =>
      let n := Z.pos m * 100 in
      sign s +:+ hundredths
        (if 0 <=? e then n * 2 ^ e else
         let d := 2 ^ (- e) in
         let q := n / d in
         let r := n mod d in
         if (d <? 2 * r) || ((d =? 2 * r) && Z.odd q) then q + 1 else q)
  end.

Section compute.
Context `{FloatConv}.

Definition annotation_of (a : Anomaly) (refUnix scale : float64) : Annotation :=
  let '(startUnix, endUnix) := AnomalyRealWindow a refUnix scale in
  {| TimeUnixMilli := int64_of_f (f_mul startUnix (f_of_Z 1000));
     TimeEndUnixMilli := int64_of_f (f_mul endUnix (f_of_Z 1000));
     Tags := [AnomalyTag; an_Type a];
     Text := an_Name a +:+ " (seeded, x" +:+ fmt_f2 (Multiplier a) +:+ ")" |}.

(** [refTime] in nanoseconds since the epoch. *)
Definition ComputeAnnotations (profile : Profile) (refTime : Z) (scale : float64) : list Annotation :=
  let refUnix := f_of_Z (refTime / Second) in
  (fun a => annotation_of a refUnix scale) <$> Anomalies profile.
End compute.

(** ** client.go *)
Record apiAnnotation := { aa_ID : Z; aa_Annotation : Annotation }.

Inductive api_request :=
| GetByTag (limit : Z) (tag : string)
| DeleteById (id : Z)
| PostAnnotation (a : Annotation).

(** The request as it leaves: method, URL and credentials. *)
Record http_request := { hq_method : string; hq_url : string; hq_user : string; hq_pass : string }.

(** Status and decoded body. *)
Record http_response := { hr_status : Z; hr_list : error + list apiAnnotation }.

Class Grafana (D : Type) := Do : http_request -> api_request -> M D (error + http_response).

Definition StatusOK : Z := 200.
Definition err_status (status : Z) : error := ErrNew ("unexpected status " +:+ pretty status).

Section client.
Context {D : Type} `{Grafana D}.
Variable cfg : Config.

Definition request (method path : string) : http_request :=
  {| hq_method := method; hq_url := URL cfg +:+ path; hq_user := User cfg; hq_pass := Password cfg |}.

Definition listByTag (tag : string) : M D (error + list apiAnnotation) :=
  let! r := Do (request "GET" ("/api/annotations?limit=1000&tags=" +:+ tag)) (GetByTag 1000 tag) in
  match r with
  | inl err => ret (inl err)
  | inr resp =>
      if negb (hr_status resp =? StatusOK) then ret (inl (err_status (hr_status resp))) else
      match hr_list resp with
      | inl err => ret (inl (ErrWrap "decode annotations list" err))
      | inr out => ret (inr out)
      end
  end.

Definition expect_ok (r : error + http_response) : M D (option error) :=
  match r with
  | inl err => ret (Some err)
  | inr resp => if negb (hr_status resp =? StatusOK) then ret (Some (err_status (hr_status resp)))
                else ret None
  end.

Definition delete_ (id : Z) : M D (option error) :=
  let! r := Do (request "DELETE" ("/api/annotations/" +:+ pretty id)) (DeleteById id) in expect_ok r.

Definition create (a : Annotation) : M D (option error) :=
  let! r := Do (request "POST" "/api/annotations") (PostAnnotation a) in expect_ok r.

Definition delete_step (a : apiAnnotation) (_ : unit) : M D (option error + unit) :=
  let! err := delete_ (aa_ID a) in
  match err with
  | Some e => ret (inl (Some (ErrWrap ("delete stale annotation " +:+ pretty (aa_ID a)) e)))
  | None => ret (inr tt)
  end.

Definition create_step (a : Annotation) (_ : unit) : M D (option error + unit) :=
  let! err := create a in
  match err with
  | Some e => ret (inl (Some (ErrWrap ("create annotation " +:+ Text a) e)))
  | None => ret (inr tt)
  end.

Definition ReplaceAnomalyAnnotations (anns : list Annotation) : M D (option error) :=
  try existing := listByTag AnomalyTag
    catch err => ret (Some (ErrWrap "list existing seed-anomaly annotations" err)) in
  range_loop existing tt delete_step (fun _ =>
  range_loop anns tt create_step (fun _ => ret None)).
End client.

(** ** The documented behaviour of the API *)
Definition tagged_with (tag : string) (p : Z * Annotation) : Prop := tag ∈ Tags p.2.

#[export] Instance tagged_with_dec tag p : Decision (tagged_with tag p).
Proof. unfold tagged_with. apply _. Defined.

Definition tagged (tag : string) (m : gmap Z Annotation) : gmap Z Annotation := filter (tagged_with tag) m.
Definition untagged (tag : string) (m : gmap Z Annotation) : gmap Z Annotation :=
  filter (fun p => ~ tagged_with tag p) m.

Definition ok_response (r : error + http_response) : option http_response :=
  match r with inr resp => if hr_status resp =? 200 then Some resp else None | inl _ => None end.

Class GrafanaSpec (D : Type) `{Grafana D} := {
  stored : D -> gmap Z Annotation;
  list_law : forall rq limit tag d r d', 0 <= limit -> Do rq (GetByTag limit tag) d = (r, d') ->
    stored d' = stored d /\
    forall resp l, ok_response r = Some resp -> hr_list resp = inr l ->
      NoDup (aa_ID <$> l) /\
      Z.of_nat (length l) = Z.min limit (Z.of_nat (size (tagged tag (stored d)))) /\
      forall a, a ∈ l -> tagged tag (stored d) !! aa_ID a = Some (aa_Annotation a);
  delete_law : forall rq id d r d', Do rq (DeleteById id) d = (r, d') ->
    (is_Some (ok_response r) -> stored d' = delete id (stored d)) /\
    (stored d' = stored d \/ stored d' = delete id (stored d));
  create_law : forall rq a d r d', Do rq (PostAnnotation a) d = (r, d') ->
    let created := exists id, stored d !! id = None /\ stored d' = <[id := a]> (stored d) in
    (is_Some (ok_response r) -> created) /\ (stored d' = stored d \/ created)
}.

Lemma tagged_lookup tag m id a : tagged tag m !! id = Some a <-> m !! id = Some a /\ tag ∈ Tags a.
Proof. apply map_lookup_filter_Some. Qed.

Lemma untagged_delete tag m id :
  (forall a, m !! id = Some a -> tag ∈ Tags a) -> untagged tag (delete id m) = untagged tag m.
Proof.
  intros Hid. unfold untagged. rewrite map_filter_delete. apply delete_id.
  apply map_lookup_filter_None. destruct (m !! id) as [a|] eqn:E; [right|by left].
  intros a' [= <-] Hn. apply Hn, Hid. done.
Qed.

Lemma untagged_insert tag m id a :
  tag ∈ Tags a -> m !! id = None -> untagged tag (<[id := a]> m) = untagged tag m.
Proof.
  intros Ha Hid. unfold untagged. rewrite map_filter_insert_False; [|by intros Hn; apply Hn].
  by rewrite delete_id.
Qed.

Section replace.
Context {D : Type} `{GrafanaSpec D}.
Variable cfg : Config.
Abbreviation tag := AnomalyTag.

(** An answer the client takes for success is one. *)
Lemma expect_ok_spec r (d : D) err d' :
  expect_ok r d = (err, d') -> d' = d /\ (err = None -> is_Some (ok_response r)).
Proof.
  unfold expect_ok, ok_response, StatusOK, ret.
  destruct r as [e|resp]; [|destruct (hr_status resp =? 200)]; cbn; intros [= <- <-]; by eauto.
Qed.

Lemma delete_spec id (d : D) err d' :
  delete_ cfg id d = (err, d') ->
  (err = None -> stored d' = delete id (stored d)) /\
  (stored d' = stored d \/ stored d' = delete id (stored d)).
Proof.
  unfold delete_, bind. destruct (Do _ _ d) as [r d1] eqn:Hdo. apply delete_law in Hdo as [Hok Hany].
  intros [-> Hs]%expect_ok_spec. auto.
Qed.

Lemma create_spec a (d : D) err d' :
  create cfg a d = (err, d') ->
  let created := exists id, stored d !! id = None /\ stored d' = <[id := a]> (stored d) in
  (err = None -> created) /\ (stored d' = stored d \/ created).
Proof.
  unfold create, bind. destruct (Do _ _ d) as [r d1] eqn:Hdo. apply create_law in Hdo as [Hok Hany].
  intros [-> Hs]%expect_ok_spec. auto.
Qed.

(** The delete loop: it touches tagged annotations only, and a complete one
    removes every listed id. *)
Lemma delete_loop_spec l k (d : D) r d' :
  (forall a x, a ∈ l -> stored d !! aa_ID a = Some x -> tag ∈ Tags x) ->
  range_loop l tt (delete_step cfg) k d = (r, d') ->
  exists d1, untagged tag (stored d1) = untagged tag (stored d) /\
    ((r <> None /\ d' = d1) \/
     ((forall id, stored d1 !! id = if decide (id ∈ aa_ID <$> l) then None else stored d !! id) /\
      k tt d1 = (r, d'))).
Proof.
  revert d. induction l as [|a l IH]; intros d Htag; cbn [range_loop].
  { intros Hk. exists d. split; [done|]. right. split; [|done]. intros id.
    rewrite decide_False; [done|]. apply not_elem_of_nil. }
  unfold delete_step at 1, bind. destruct (delete_ cfg (aa_ID a) d) as [err d1] eqn:Hdel.
  apply delete_spec in Hdel as [Hok Hany].
  assert (untagged tag (stored d1) = untagged tag (stored d)) as Hun.
  { destruct Hany as [-> | ->]; [done|]. apply untagged_delete. intros x Hx.
    apply (Htag a x); [by left|done]. }
  destruct err as [e|]; [intros [= <- <-]; exists d1; split; [done|by left]|].
  specialize (Hok eq_refl). intros Hrun. destruct (IH d1) as (d2 & Hun2 & Hcases).
  { intros b x Hb. rewrite Hok. intros [_ Hx]%lookup_delete_Some. apply (Htag b x); [by right|done]. }
  { exact Hrun. }
  exists d2. split; [by rewrite Hun2|]. destruct Hcases as [Hc|[Hids Hk]]; [by left|right].
  split; [|done]. intros id. rewrite Hids, Hok, fmap_cons.
  destruct (decide (id = aa_ID a)) as [-> |Hne].
  - rewrite lookup_delete_eq, (decide_True (P := aa_ID a ∈ aa_ID a :: _)) by (by left). by case_decide.
  - rewrite lookup_delete_ne by done. repeat case_decide; set_solver.
Qed.

(** Listing everything tagged: removing the listed ids leaves no tagged one. *)
Lemma listed_all (m m' : gmap Z Annotation) l :
  NoDup (aa_ID <$> l) -> length l = size (tagged tag m) ->
  (forall a, a ∈ l -> tagged tag m !! aa_ID a = Some (aa_Annotation a)) ->
  (forall id, m' !! id = if decide (id ∈ aa_ID <$> l) then None else m !! id) ->
  tagged tag m' = ∅.
Proof.
  intros Hnd Hlen Hin Hm'. apply map_eq. intros id. rewrite lookup_empty.
  destruct (tagged tag m' !! id) as [a|] eqn:E; [|done]. exfalso.
  apply tagged_lookup in E as [Hid Ha]. rewrite Hm' in Hid. case_decide as Hnot; [done|].
  assert (list_to_set (aa_ID <$> l) = dom (tagged tag m)) as Hdom.
  { apply set_subseteq_size_eq.
    - intros k. rewrite elem_of_list_to_set. intros (b & -> & Hb)%list_elem_of_fmap.
      apply elem_of_dom. rewrite Hin by done. by eexists.
    - rewrite size_dom, <- Hlen, size_list_to_set, length_fmap by done. done. }
  apply Hnot, (elem_of_list_to_set (C := gset Z)). rewrite Hdom. apply elem_of_dom.
  exists a. by apply tagged_lookup.
Qed.

Definition contents (m : gmap Z Annotation) : list Annotation := (map_to_list m).*2.

Lemma contents_insert m id a :
  tag ∈ Tags a -> m !! id = None ->
  contents (tagged tag (<[id := a]> m)) ≡ₚ a :: contents (tagged tag m).
Proof.
  intros Ha Hid. unfold contents, tagged. rewrite map_filter_insert_True by done.
  rewrite map_to_list_insert; [done|]. apply map_lookup_filter_None. by left.
Qed.

Lemma create_loop_spec anns (d : D) err d' :
  Forall (fun a => tag ∈ Tags a) anns ->
  range_loop anns tt (create_step cfg) (fun _ => ret None) d = (err, d') ->
  untagged tag (stored d') = untagged tag (stored d) /\
  (err = None -> contents (tagged tag (stored d')) ≡ₚ anns ++ contents (tagged tag (stored d))).
Proof.
  intros Hall. revert d. induction Hall as [|a anns Ha Hall IH]; intros d; cbn [range_loop].
  { by intros [= <- <-]. }
  unfold create_step at 1, bind. destruct (create cfg a d) as [e d1] eqn:Hc.
  apply create_spec in Hc as [Hok Hany].
  assert (untagged tag (stored d1) = untagged tag (stored d)) as Hun.
  { destruct Hany as [-> |(id & Hid & ->)]; [done|]. by apply untagged_insert. }
  destruct e as [e|]; [by intros [= <- <-]|]. intros [Hun2 Hperm]%IH. split; [by rewrite Hun2|].
  intros Herr. rewrite Hperm by done. destruct (Hok eq_refl) as (id & Hid & ->).
  rewrite contents_insert by done. symmetry. apply Permutation_middle.
Qed.
End replace.

(** * Properties *)

(** C37: Replacing the annotations never touches one without the seed tag,
    whatever fails; and when it reports success, with at most a thousand seed
    annotations present before, the seed annotations are exactly the given ones,
    each once: nothing stale survives and nothing accumulates over reruns. *)
Theorem replace_annotations {D} {api : Grafana D} {spec : GrafanaSpec D} cfg anns (d : D) :
  Forall (fun a => AnomalyTag ∈ Tags a) anns ->
  let '(err, d') := ReplaceAnomalyAnnotations cfg anns d in
  untagged AnomalyTag (stored d') = untagged AnomalyTag (stored d) /\
  (err = None -> Z.of_nat (size (tagged AnomalyTag (stored d))) <= 1000 ->
     contents (tagged AnomalyTag (stored d')) ≡ₚ anns).
Proof.
  intros Hall. destruct (ReplaceAnomalyAnnotations cfg anns d) as [err d'] eqn:Hrun.
  unfold ReplaceAnomalyAnnotations, bind at 1 in Hrun. unfold listByTag, bind at 1 in Hrun.
  destruct (Do _ _ d) as [r d0] eqn:Hdo. apply list_law in Hdo as [Hsame Hlist]; [|lia]. rewrite <- Hsame.
  assert (forall e, (Some e, d0) = (err, d') ->
    untagged AnomalyTag (stored d') = untagged AnomalyTag (stored d0) /\
    (err = None -> Z.of_nat (size (tagged AnomalyTag (stored d0))) <= 1000 ->
       contents (tagged AnomalyTag (stored d')) ≡ₚ anns)) as Hfail by (by intros e [= <- <-]).
  destruct r as [e|resp]; [exact (Hfail _ Hrun)|]. unfold StatusOK in Hrun.
  destruct (hr_status resp =? 200) eqn:Hst; [|exact (Hfail _ Hrun)]. cbn [negb] in Hrun.
  destruct (hr_list resp) as [e|l] eqn:Hl; [exact (Hfail _ Hrun)|].
  destruct (Hlist resp l) as (Hnd & Hlen & Hin); [by simpl; rewrite Hst|done|]. rewrite <- Hsame in Hlen, Hin.
  change (ret (inr l) d0) with (inr (A := error) l, d0) in Hrun. cbv beta iota in Hrun.
  apply delete_loop_spec in Hrun as (d1 & Hun & [[Hr ->]|[Hids Hk]]).
  - split; [done|]. by intros.
  - apply create_loop_spec in Hk as [Hun2 Hperm]; [|done]. split; [by rewrite Hun2|].
    intros Hnone Hsize. rewrite (Hperm Hnone).
    rewrite (listed_all (stored d0) (stored d1) l) by (done || lia).
    unfold contents. by rewrite map_to_list_empty, app_nil_r.
  - intros a x Ha Hx. apply Hin, tagged_lookup in Ha as [Hax Htag]. congruence.
Qed.

(** * Concrete inputs *)

(** A server that keeps the annotations in a map and never fails. *)
Definition AnnotationServer : Type := gmap Z Annotation.

#[export] Instance map_server : Grafana AnnotationServer := fun _ req m =>
  match req with
  | GetByTag limit tag =>
      let l := take (Z.to_nat limit) (map_to_list (tagged tag m)) in
      (inr {| hr_status := 200;
              hr_list := inr ((fun p => {| aa_ID := p.1; aa_Annotation := p.2 |}) <$> l) |}, m)
  | DeleteById id => (inr {| hr_status := 200; hr_list := inr [] |}, delete id m)
  | PostAnnotation a => (inr {| hr_status := 200; hr_list := inr [] |}, <[fresh (dom m) := a]> m)
  end.

#[export, refine] Instance map_server_spec : GrafanaSpec AnnotationServer := {|
  stored m := m; list_law := _; delete_law := _; create_law := _
|}.
Proof.
  - intros rq limit tag m r m' Hlim [= <- <-]. split; [done|]. simpl. intros resp l [= <-] [= <-].
    rewrite <- list_fmap_compose, length_fmap, length_take. split_and!.
    + pose proof (NoDup_fst_map_to_list (tagged tag m)) as Hnd.
      rewrite <- (take_drop (Z.to_nat limit) (map_to_list (tagged tag m))), fmap_app in Hnd.
      by apply NoDup_app in Hnd as [Hnd _].
    + rewrite length_map_to_list. lia.
    + intros a ([k x] & -> & Hin)%list_elem_of_fmap. apply elem_of_map_to_list.
      rewrite <- (take_drop (Z.to_nat limit) (map_to_list (tagged tag m))). apply elem_of_app. by left.
  - intros rq id m r m' [= <- <-]. auto.
  - intros rq a m r m' [= <- <-]. cbv zeta.
    assert (exists id, m !! id = None /\ <[fresh (dom m) := a]> m = <[id := a]> m) as Hc; [|auto].
    exists (fresh (dom m)). split; [|done]. apply not_elem_of_dom, is_fresh.
Defined.

(** The story anomalies of the checked-in profile, seeded at the golden reference
    time: a rerun replaces them and keeps another annotation. *)
Definition story_annotations : list Annotation :=
  ComputeAnnotations (ParseProfile (inr story_profile)).1 (1767571200 * Second) f_one.

Definition demo_server : AnnotationServer :=
  {[ 1 := {| TimeUnixMilli := 0; TimeEndUnixMilli := 0; Tags := ["deploy"%string]; Text := "v1" |} ]}.

Definition demo_grafana_cfg : Config := ConfigFromEnv empty_env.

Example demo_annotations :
  Text <$> story_annotations =
    ["traffic-spike (seeded, x4.00)"; "ingestion-outage (seeded, x0.00)";
     "gradual-degradation (seeded, x0.30)"]%string /\
  TimeUnixMilli <$> story_annotations = [1766707200000; 1767052800000; 1767398400000] /\
  let '(_, m1) := ReplaceAnomalyAnnotations demo_grafana_cfg story_annotations demo_server in
  let '(err, m2) := ReplaceAnomalyAnnotations demo_grafana_cfg story_annotations m1 in
  err = None /\ size m1 = 4%nat /\ size m2 = 4%nat.
Proof. split_and!; vm_compute; repeat split. Qed.

Lemma replace_annotations_witness :
  contents (tagged AnomalyTag
    (stored (ReplaceAnomalyAnnotations demo_grafana_cfg story_annotations demo_server).2))
  ≡ₚ story_annotations.
Proof.
  pose proof (replace_annotations demo_grafana_cfg story_annotations demo_server) as H.
  destruct (ReplaceAnomalyAnnotations demo_grafana_cfg story_annotations demo_server) as [err m'] eqn:E.
  apply H.
  - repeat (constructor; [by left|]). constructor.
  - apply (f_equal fst) in E. vm_compute in E. symmetry. exact E.
  - vm_compute. discriminate.
Defined.
