(* ===== verification/SeedCmd.v ===== *)
(** * SeedCmd: the seed subcommand (cmd/analytics/seed.go)

    The composition of the load profile, the connection, the migrations, the
    backend's items, the seeder, one retention pass, the seed marker and the Grafana
    annotations, with the exit code of every path.  The parsed command line, the
    profile file, the backend's answers and [strconv.ParseFloat] of the time scale
    are arguments.  The deferred pool.Close and stop act on nothing below.  [None]
    instead of an exit code would be a panic or no exit. *)
From S2P Require Import Prelude GoInt GoFloat GoEnv GoMath LoadShape Database Session Store.
From S2P Require Import StoreBatch BatchEquiv Invariant StoreProps Ingest IngestProps Retention Migrate.
From S2P Require Import GoRand Seeder SeederProps Grafana.
Local Open Scope Z_scope.
Local Open Scope go_scope.

(** [envFloat] *)
Definition envFloat (ParseFloat : string -> error + float64) (env : Environ) (key : string)
    (def : float64) : float64 :=
  let v := Getenv env key in
  if String.eqb v "" then def else
  match ParseFloat v with inl _ => def | inr f => f end.

(** The items of the backend, sorted by id: what the dial and then ListItems
    answered.  (The sort is not stable; ids are the backend's primary key.) *)
Definition item_le (a b : Item) : Prop := it_ID a <= it_ID b.

#[export] Instance item_le_dec a b : Decision (item_le a b).
Proof. unfold item_le. apply _. Defined.

Definition fetchBackendItems (resp : error + (error + list ProtoItem)) : error + list Item :=
  match resp with
  | inl err => inl (ErrWrap "dial" err)
  | inr (inl err) => inl (ErrWrap "ListItems" err)
  | inr (inr protoItems) =>
      let items := (fun it => {| it_ID := pi_id it; it_Name := pi_name it |}) <$> protoItems in
      inr (merge_sort item_le items)
  end.

(** The parsed flags: --days and --seed (the profile path is used up by the file
    argument). *)
Record Flags := { fl_days : Z; fl_seed : Z }.

(** ** The world of the command *)
Record SeedWorld (S G : Type) := {
  sd_dialer : Dialer;
  sd_mig : MigWorld S;
  sd_store : PgStore;
  sd_grafana : G;
  sd_cancel : option nat;
  sd_ticks : nat
}.
Arguments sd_dialer {S G} s.
Arguments sd_mig {S G} s.
Arguments sd_store {S G} s.
Arguments sd_grafana {S G} s.
Arguments sd_cancel {S G} s.
Arguments sd_ticks {S G} s.

Section seed.
Context `{FloatConv} `{TrigReduce} `{PgTime} {S G : Type} `{Grafana G}.

(** What the process finds: its clock, its environment, the embedded migrations,
    the database's clock. *)
Variable clock : nat -> Z.
Variable pg_clock : nat -> pg_time.
Variable ParseFloat : string -> error + float64.
Variable env : Environ.
Variable sql_exec : string -> S -> option S.
Variable read_dir : error + list (string * bool).
Variable read_file : string -> error + string.

Abbreviation SM := (M (SeedWorld S G)).

Definition on_dialer {A} (m : M Dialer A) : SM A := fun w =>
  let '(a, d) := m (sd_dialer w) in
  (a, {| sd_dialer := d; sd_mig := sd_mig w; sd_store := sd_store w; sd_grafana := sd_grafana w;
         sd_cancel := sd_cancel w; sd_ticks := sd_ticks w |}).

Definition on_mig {A} (m : M (MigWorld S) A) : SM A := fun w =>
  let '(a, d) := m (sd_mig w) in
  (a, {| sd_dialer := sd_dialer w; sd_mig := d; sd_store := sd_store w; sd_grafana := sd_grafana w;
         sd_cancel := sd_cancel w; sd_ticks := sd_ticks w |}).

Definition on_grafana {A} (m : M G A) : SM A := fun w =>
  let '(a, d) := m (sd_grafana w) in
  (a, {| sd_dialer := sd_dialer w; sd_mig := sd_mig w; sd_store := sd_store w; sd_grafana := d;
         sd_cancel := sd_cancel w; sd_ticks := sd_ticks w |}).

Definition set_store (st : PgStore) (w : SeedWorld S G) : SeedWorld S G :=
  {| sd_dialer := sd_dialer w; sd_mig := sd_mig w; sd_store := st; sd_grafana := sd_grafana w;
     sd_cancel := sd_cancel w; sd_ticks := sd_ticks w |}.

Definition time_Now : SM Z := fun w =>
  (clock (sd_ticks w),
   {| sd_dialer := sd_dialer w; sd_mig := sd_mig w; sd_store := sd_store w; sd_grafana := sd_grafana w;
      sd_cancel := sd_cancel w; sd_ticks := Datatypes.S (sd_ticks w) |}).

(** [seeder.Run(ctx, cfg, profile, items, db)] *)
Definition run_seeder (cfg : Seeder.Config) (profile : Profile) (items : list Item)
    : SM (option (Result * option error)) := fun w =>
  let '(out, sw) := Seeder.Run (H1 := pg_batch_store pg_clock) cfg profile items
                      (Seeder.initial_world (sd_store w) (sd_cancel w)) in
  (out, {| sd_dialer := sd_dialer w; sd_mig := sd_mig w; sd_store := sw_store sw;
           sd_grafana := sd_grafana w; sd_cancel := sw_cancel sw; sd_ticks := sd_ticks w |}).

(** [retention.New(retention.ConfigFromEnv(), db).RunOnce(ctx)] *)
Definition run_retention : SM unit := fun w =>
  let '(_, rw) := RunOnce clock (Retention.ConfigFromEnv env)
                    {| Retention.w_store := pg_session (sd_store w); Retention.w_metrics := Retention.zero_metrics;
                       Retention.w_ticks := sd_ticks w |} in
  (tt, {| sd_dialer := sd_dialer w; sd_mig := sd_mig w;
          sd_store := {| pg_session := Retention.w_store rw; pg_txs := pg_txs (sd_store w) |};
          sd_grafana := sd_grafana w; sd_cancel := sd_cancel w; sd_ticks := Retention.w_ticks rw |}).

Definition upsert_marker (m : SeedMarker) : SM (option error) := fun w =>
  let '((_, err), s) := UpsertSeedMarker m (pg_session (sd_store w)) in
  (err, set_store {| pg_session := s; pg_txs := pg_txs (sd_store w) |} w).

(** The run proper, once there are a profile and items. *)
Definition seed_history (flags : Flags) (scale : float64) (refTime : Z) (profile : Profile)
    (items : list Item) : SM (option Z) :=
  let! out := run_seeder {| cfg_Days := fl_days flags; cfg_SeedValue := fl_seed flags;
                            cfg_Scale := scale; cfg_RefTime := refTime; cfg_BatchSize := 0 |}
                profile items in
  match out with
  | None => ret None
  | Some (_, Some _) => ret (Some 1)
  | Some (result, None) =>
      let! _ := run_retention in
      let! now := time_Now in
      let! err := upsert_marker
        {| Scale := scale; RefUnix := refTime / Second; Seed := fl_seed flags; Days := fl_days flags;
           SeededAt := now; Store.EventsWritten := EventsWritten result |} in
      match err with
      | Some _ => ret (Some 1)
      | None =>
          let anns := ComputeAnnotations profile refTime scale in
          let! _ := on_grafana (ReplaceAnomalyAnnotations (Grafana.ConfigFromEnv env) anns) in
          ret (Some 0)
      end
  end.

Definition seed (flags : option Flags) (profile_file : error + (error + RawProfile))
    (items_resp : error + (error + list ProtoItem)) : SM (option Z) :=
  match flags with
  | None => ret (Some 2)
  | Some flags =>
      let scale := envFloat ParseFloat env "DEMO_TIME_SCALE" f_one in
      let! refTime := time_Now in
      match profile_file with
      | inl _ => ret (Some 1)
      | inr doc =>
          let '(profile, err) := ParseProfile doc in
          match err with
          | Some _ => ret (Some 1)
          | None =>
              let! conn := on_dialer (Connect 10) in
              match conn with
              | Connected =>
                  let! migrateErr := on_mig (Migrate sql_exec read_dir read_file) in
                  match migrateErr with
                  | Some _ => ret (Some 1)
                  | None =>
                      match fetchBackendItems items_resp with
                      | inl _ => ret (Some 1)
                      | inr items =>
                          if (length items =? 0)%nat then ret (Some 1)
                          else seed_history flags scale refTime profile items
                      end
                  end
              | _ => ret (Some 1)
              end
          end
      end
  end.
End seed.
