(* ===== verification/SeedCmdProps.v ===== *)
(** * SeedCmdProps: what the seed subcommand leaves behind *)
From S2P Require Import Prelude GoInt GoFloat GoEnv GoMath LoadShape Database Session Store.
From S2P Require Import StoreBatch BatchEquiv Invariant StoreProps Ingest IngestProps Retention Migrate.
From S2P Require Import GoRand Seeder SeederProps Grafana SeedCmd.
Local Open Scope Z_scope.
Local Open Scope go_scope.

(** ** A run touches its store through the batch operation only *)
Section keeps.
Context `{FloatConv} `{TrigReduce} {D : Type} `{!BatchStore D}.
Variable I : D -> Prop.
Hypothesis batch_keeps : forall evs d r d', I d -> bs_IngestEventsBatch evs d = (r, d') -> I d'.

Definition keeps {A} (m : M (Seeder.World D) A) : Prop :=
  forall w a w', I (sw_store w) -> m w = (a, w') -> I (sw_store w').

Lemma keeps_ret {A} (a : A) : keeps (ret a).
Proof. by intros w b w' Hw [= <- <-]. Qed.

Lemma keeps_bind {A B} (m : M (Seeder.World D) A) (k : A -> M (Seeder.World D) B) :
  keeps m -> (forall a, keeps (k a)) -> keeps (bind m k).
Proof.
  intros Hm Hk w b w' Hw. unfold bind. destruct (m w) as [a w1] eqn:Hr. apply Hk. by eapply Hm.
Qed.

Lemma keeps_same {A} (m : M (Seeder.World D) A) :
  (forall w, sw_store (m w).2 = sw_store w) -> keeps m.
Proof. intros Hm w a w' Hw Hr. specialize (Hm w). rewrite Hr in Hm. simpl in Hm. by rewrite Hm. Qed.

Lemma keeps_flush : keeps flush.
Proof.
  intros w a w' Hw. unfold flush. destruct (_ =? 0)%nat; [by intros [= <- <-]|].
  destruct (bs_IngestEventsBatch _ _) as [[r e] d] eqn:Hb. apply batch_keeps in Hb; [|done].
  destruct e; by intros [= <- <-].
Qed.

Lemma keeps_return {A} err : keeps (return_ (A := A) err).
Proof. by apply keeps_same. Qed.

Lemma keeps_detached : keeps flushDetachedOnCancel.
Proof. apply keeps_bind; [apply keeps_flush|]. intros a. apply keeps_ret. Qed.

Lemma keeps_flush_or_return msg : keeps (flush_or_return msg).
Proof.
  apply keeps_bind; [apply keeps_flush|]. intros [e|]; [|apply keeps_ret].
  apply keeps_bind; [by apply keeps_same|]. intros [c|]; [|apply keeps_return].
  apply keeps_bind; [apply keeps_detached|]. intros u. apply keeps_return.
Qed.

Lemma keeps_event_loop cfg items n start p : keeps (event_loop cfg items n start p).
Proof.
  revert p. induction n as [|n IH]; intros p; cbn [event_loop]; [apply keeps_ret|].
  destruct (draw_event items start p) as [[ev p']|]; [|apply keeps_ret].
  apply keeps_bind; [by apply keeps_same|]. intros _.
  apply keeps_bind; [by apply keeps_same|]. intros len.
  apply keeps_bind; [destruct (_ <=? _); [apply keeps_flush_or_return|apply keeps_ret]|].
  intros [out|u]; [apply keeps_ret|apply IH].
Qed.

Lemma keeps_hour_loop cfg profile items hours h p : keeps (hour_loop cfg profile items hours h p).
Proof.
  revert h p. induction hours as [|hours IH]; intros h p; cbn [hour_loop]; [apply keeps_ret|].
  apply keeps_bind; [by apply keeps_same|]. intros [c|].
  - apply keeps_bind; [apply keeps_detached|]. intros u. apply keeps_return.
  - destruct (hour_events cfg profile h) as [n|]; [|apply keeps_ret].
    apply keeps_bind; [apply keeps_event_loop|]. intros [out|p']; [apply keeps_ret|apply IH].
Qed.

Lemma keeps_Run cfg profile items : keeps (Seeder.Run cfg profile items).
Proof.
  unfold Seeder.Run. destruct (_ =? 0)%nat; [apply keeps_ret|]. destruct (_ <=? 0); [apply keeps_ret|].
  apply keeps_bind; [apply keeps_hour_loop|]. intros [out|p]; [apply keeps_ret|].
  apply keeps_bind; [apply keeps_flush_or_return|]. intros [out|u]; [apply keeps_ret|].
  by apply keeps_same.
Qed.
End keeps.

(** ** The batch operation on PostgreSQL *)
Section pg.
Context `{PgTime}.
Variable pg_clock : nat -> pg_time.

(** Idle, reached from [d0] without retention, and the marker is [d0]'s. *)
Definition seeding (d0 : DB) (st : PgStore) : Prop :=
  working (pg_session st) = None /\ rtc (store_step no_retention) d0 (pg_db st) /\
  seed_marker (pg_db st) = seed_marker d0.

Lemma batch_effect_marker now ev d r d' :
  batch_effect now ev d = SOk r d' -> seed_marker d' = seed_marker d.
Proof.
  intros Heff. destruct (batch_effect_spec now ev d) as [Hok Herr].
  destruct (decide (rows_fit (er_name <$> item_events d) (bk_count <$> event_buckets d)
    (encode_event <$> ev))) as [Hfit|Hfit]; [|destruct (Herr Hfit); congruence].
  destruct (Hok Hfit) as (r1 & d1 & He & _ & _ & _ & _ & Hm). congruence.
Qed.

Lemma batch_seeding d0 evs st r st' :
  seeding d0 st -> bs_IngestEventsBatch (BatchStore := pg_batch_store pg_clock) evs st = (r, st') ->
  seeding d0 st'.
Proof.
  intros (Hw & Hr & Hm). unfold bs_IngestEventsBatch, pg_batch_store, pg_run.
  destruct (IngestEventsBatch _ evs (pg_session st)) as [[a err] s'] eqn:E. intros [= _ <-].
  pose proof (IngestEventsBatch_leaves (pg_clock (pg_txs st)) evs (pg_session st) Hw) as Hl.
  rewrite E in Hl. destruct Hl as (Hw' & Hcom & _). unfold seeding, pg_db in *; cbn [pg_session].
  split_and!; [done| |].
  - eapply rtc_r; [exact Hr|]. apply (store_step_op no_retention (OpBatch (pg_clock (pg_txs st)) evs) _ err);
      [done|done|]. cbn [run_op]. unfold outcome_of, bind. by rewrite E.
  - destruct Hcom as [-> |[a' Heff]]; [done|]. by rewrite (batch_effect_marker _ _ _ _ _ Heff).
Qed.
End pg.

(** ** The seeder step, the retention step, the marker step *)
Section steps.
Context `{FloatConv} `{TrigReduce} `{PgTime} {S G : Type}.
Variable clock : nat -> Z.
Variable pg_clock : nat -> pg_time.
Variable env : Environ.

(** The keys in the raw-event table. *)
Definition raw_keys (d : DB) : gset event_key := dom (item_events d).

Lemma run_seeder_spec cfg profile items (w : SeedWorld S G) out w' :
  working (pg_session (sd_store w)) = None ->
  items <> [] -> Z.of_nat (length items) <= max_int64 ->
  length (WeekdayCoefficients profile) = 7%nat ->
  run_seeder pg_clock cfg profile items w = (out, w') ->
  let d := pg_db (sd_store w) in
  seeding d (sd_store w') /\ sd_ticks w' = sd_ticks w /\
  exists r err, out = Some (r, err) /\
    (err = None -> exists hours, generated cfg profile items = Some hours /\
       raw_keys (pg_db (sd_store w')) = raw_keys d ∪ keys_of (concat hours) /\
       EventsWritten r = wrap64 (Z.of_nat (size (raw_keys d ∪ keys_of (concat hours)))
                                 - Z.of_nat (size (raw_keys d)))).
Proof.
  intros Hw Hne Hlen Hprof. unfold run_seeder.
  destruct (Seeder.Run cfg profile items _) as [o sw] eqn:Hrun. intros [= <- <-]. set (d := pg_db (sd_store w)).
  cbn [sd_store sd_ticks]. split_and!; [|done|].
  - eapply (keeps_Run (seeding d) (batch_seeding pg_clock d)); [|exact Hrun].
    split_and!; [done|apply rtc_refl|done].
  - destruct (Z.le_gt_cases (cfg_Days cfg) 0) as [Hd|Hd].
    + unfold Seeder.Run in Hrun. rewrite (proj2 (Nat.eqb_neq _ _)) in Hrun by (by destruct items).
      rewrite (proj2 (Z.leb_le _ _)) in Hrun by done. injection Hrun as <- <-. by eexists _, _.
    + destruct (gen_hours_total cfg profile items Hne Hlen Hprof (Z.to_nat (totalHours cfg)) 0 (new_rng cfg))
        as (hours & Hgen & _). change (generated cfg profile items = Some hours) in Hgen.
      pose proof (Run_written (BatchStoreSpec0 := pg_batch_store_spec pg_clock) cfg profile items hours
        (sd_store w) (sd_cancel w) Hw Hne Hd Hgen) as Hspec.
      rewrite Hrun in Hspec. destruct Hspec as (r & err & F & -> & _ & _ & Hwr & Hlo & Hup & Hdone).
      exists r, err. split; [done|]. intros Hnone. exists hours. specialize (Hdone Hnone). subst F.
      split_and!; [done|by apply (anti_symm (⊆))|done].
Qed.

Definition cutoff_of (start : Z) : pg_time :=
  pg_ts (AddDate_days start (- RetentionDays (Retention.ConfigFromEnv env))).

Lemma run_retention_spec (w : SeedWorld S G) u w' :
  working (pg_session (sd_store w)) = None ->
  run_retention clock env w = (u, w') ->
  let d := pg_db (sd_store w) in
  let d' := pg_db (sd_store w') in
  working (pg_session (sd_store w')) = None /\ sd_ticks w' = (2 + sd_ticks w)%nat /\
  seed_marker d' = seed_marker d /\ event_buckets d' = event_buckets d /\
  (item_events d' = item_events d \/
   item_events d' = filter (fun p : event_key * EventRow => ~ (p.1.2 < cutoff_of (clock (sd_ticks w))))
                      (item_events d)).
Proof.
  intros Hw. unfold run_retention, RunOnce, runOnce, bind, Retention.time_Now, Retention.on_store, pg_db.
  cbn [Retention.w_store Retention.w_metrics Retention.w_ticks ds_DeleteEventsOlderThan pg_retention].
  set (cutoff := AddDate_days _ _).
  pose proof (DeleteEventsOlderThan_leaves cutoff (pg_session (sd_store w)) Hw) as Hl.
  destruct (DeleteEventsOlderThan cutoff _) as [[n err] s']. destruct Hl as (Hw' & Hcom & _).
  assert (seed_marker (committed s') = seed_marker (committed (pg_session (sd_store w))) /\
    event_buckets (committed s') = event_buckets (committed (pg_session (sd_store w))) /\
    (item_events (committed s') = item_events (committed (pg_session (sd_store w))) \/
     item_events (committed s') = filter (fun p : event_key * EventRow => ~ (p.1.2 < pg_ts cutoff))
                      (item_events (committed (pg_session (sd_store w)))))) as (Hm & Hb & Hi).
  { destruct Hcom as [-> |[a [= _ <-]]]; [by auto|]. by auto. }
  destruct err; cbn; intros [= <- <-]; cbn; split_and!; auto.
Qed.

Lemma upsert_marker_spec m (w : SeedWorld S G) err w' :
  working (pg_session (sd_store w)) = None ->
  upsert_marker m w = (err, w') ->
  let d := pg_db (sd_store w) in
  let d' := pg_db (sd_store w') in
  item_events d' = item_events d /\ event_buckets d' = event_buckets d /\
  (seed_marker d' = Some (encode_marker m) \/ (seed_marker d' = seed_marker d /\ err <> None)).
Proof.
  intros Hw. unfold upsert_marker, pg_db.
  pose proof (UpsertSeedMarker_leaves m (pg_session (sd_store w)) Hw) as Hl.
  destruct (UpsertSeedMarker m _) as [[u e] s']. destruct Hl as (_ & Hcom & Hsucc).
  intros [= <- <-]. cbn.
  assert (forall a d, upsert_seed_marker (encode_marker m) (committed (pg_session (sd_store w))) = SOk a d ->
    item_events d = item_events (committed (pg_session (sd_store w))) /\
    event_buckets d = event_buckets (committed (pg_session (sd_store w))) /\
    seed_marker d = Some (encode_marker m)) as Heff.
  { intros a d. unfold upsert_seed_marker. by case_match; intros [= _ <-]. }
  destruct Hcom as [Heq|[a Hok]].
  - destruct e as [e|]; [rewrite Heq; by auto|]. destruct (Heff _ _ (Hsucc eq_refl)) as (? & ? & ?). by auto.
  - destruct (Heff _ _ Hok) as (? & ? & ?). by auto.
Qed.
End steps.

(** ** The whole command *)
Lemma raw_count_keys (m : gmap event_key EventRow) k :
  raw_count (er_name <$> m) k = Z.of_nat (size (filter (fun key => key_bucket key = k) (dom m))).
Proof.
  unfold raw_count. f_equal. rewrite <- size_dom. f_equal. apply dom_filter_L. intros key.
  rewrite elem_of_filter, elem_of_dom, lookup_fmap. destruct (m !! key); naive_solver.
Qed.

Section command.
Context `{FloatConv} `{TrigReduce} `{PgTime} {S G : Type} `{Grafana G}.
Variable clock : nat -> Z.
Variable pg_clock : nat -> pg_time.
Variable ParseFloat : string -> error + float64.
Variable env : Environ.
Variable sql_exec : string -> S -> option S.
Variable read_dir : error + list (string * bool).
Variable read_file : string -> error + string.

Definition seed_cfg (flags : Flags) (scale : float64) (refTime : Z) : Seeder.Config :=
  {| cfg_Days := fl_days flags; cfg_SeedValue := fl_seed flags; cfg_Scale := scale;
     cfg_RefTime := refTime; cfg_BatchSize := 0 |}.

(** The marker says what the run that wrote [hours] over [d] did. *)
Definition marker_of (flags : Flags) (scale : float64) (refTime : Z) (d : DB)
    (hours : list (list EventRecord)) (m : MarkerRow) : Prop :=
  mr_scale m = scale /\ mr_ref_unix m = refTime / Second /\ mr_seed m = fl_seed flags /\
  mr_days m = fl_days flags /\
  mr_events_written m = wrap64 (Z.of_nat (size (raw_keys d ∪ keys_of (concat hours)))
                                - Z.of_nat (size (raw_keys d))).

(** The raw events of [K], less at most the expired ones; every event of [K]
    counted. *)
Definition canonical (K : gset event_key) (cutoff : pg_time) (d' : DB) : Prop :=
  raw_keys d' ⊆ K /\ (forall key, key ∈ K -> cutoff <= key.2 -> key ∈ raw_keys d') /\
  forall k, bucket_count (event_buckets d') k
            = Z.of_nat (size (filter (fun key => key_bucket key = k) K)).

(** A completed run from [d], its retention pass started at [start]. *)
Definition completed flags scale refTime profile items (d d' : DB) (start : Z) : Prop :=
  exists hours m, generated (seed_cfg flags scale refTime) profile items = Some hours /\
    seed_marker d' = Some m /\ marker_of flags scale refTime d hours m /\
    (reachable no_retention d ->
     canonical (raw_keys d ∪ keys_of (concat hours)) (cutoff_of env start) d').

Lemma seed_history_spec flags scale refTime profile items (w : SeedWorld S G) code w' :
  working (pg_session (sd_store w)) = None ->
  items <> [] -> Z.of_nat (length items) <= max_int64 ->
  length (WeekdayCoefficients profile) = 7%nat ->
  seed_history clock pg_clock env flags scale refTime profile items w = (code, w') ->
  let d := pg_db (sd_store w) in
  let d' := pg_db (sd_store w') in
  let done_ := completed flags scale refTime profile items d d' (clock (sd_ticks w)) in
  (code = Some 1 /\ (seed_marker d' = seed_marker d \/ done_)) \/ (code = Some 0 /\ done_).
Proof.
  intros Hw Hne Hlen Hprof. unfold seed_history, bind at 1. cbv zeta.
  destruct (run_seeder _ _ _ _ w) as [out w1] eqn:Hrun.
  destruct (run_seeder_spec pg_clock _ _ _ _ _ _ Hw Hne Hlen Hprof Hrun)
    as ((Hw1 & Hr1 & Hm1) & Ht1 & r & err & -> & Hgen). clear Hrun. set (d := pg_db (sd_store w)) in *.
  destruct err as [e|]; [intros [= <- <-]; by auto|].
  destruct (Hgen eq_refl) as (hours & Hhours & Hk1 & Hwr). clear Hgen. unfold bind at 1.
  destruct (run_retention clock env w1) as [u w2] eqn:Hret.
  apply (run_retention_spec clock env) in Hret as (Hw2 & _ & Hm2 & Hb2 & Hi2); [|done].
  rewrite Ht1 in Hi2. unfold bind at 1, time_Now. cbv beta iota.
  set (w3 := Build_SeedWorld _ _ _ _ _ _ _ _). unfold bind at 1.
  destruct (upsert_marker _ w3) as [err w4] eqn:Hup.
  apply upsert_marker_spec in Hup as (Hi4 & Hb4 & Hm4); [|done].
  change (pg_db (sd_store w3)) with (pg_db (sd_store w2)) in *.
  assert (forall d', item_events d' = item_events (pg_db (sd_store w4)) ->
    event_buckets d' = event_buckets (pg_db (sd_store w4)) ->
    seed_marker d' = seed_marker (pg_db (sd_store w4)) ->
    (seed_marker d' = seed_marker d /\ err <> None) \/
    completed flags scale refTime profile items d d' (clock (sd_ticks w))) as Hend.
  { intros d' Hi Hb Hm. destruct Hm4 as [Hm4|[Hm4 He]]; [right|left; by rewrite Hm, Hm4, Hm2, Hm1].
    exists hours. eexists. split_and!; [exact Hhours|by rewrite Hm, Hm4|by split_and!|]. intros Hreach.
    rewrite Hi4 in Hi. rewrite Hb4, Hb2 in Hb.
    assert (reachable no_retention (pg_db (sd_store w1))) as Hreach1 by (unfold reachable in *; by etrans).
    unfold canonical. rewrite <- Hk1. unfold raw_keys. rewrite Hb, Hi.
    split_and!.
    - destruct Hi2 as [-> | ->]; [done|]. apply dom_filter_subseteq.
    - intros [[id ty] t] Hin Ht. simpl in Ht. destruct Hi2 as [-> | ->]; [done|].
      apply elem_of_dom. rewrite delete_lookup, decide_False by lia. by apply elem_of_dom.
    - intros k. rewrite <- raw_count_keys. symmetry. by apply no_retention_exact. }
  destruct err as [e|].
  - intros [= <- <-]. left. split; [done|]. by destruct (Hend _ eq_refl eq_refl eq_refl) as [[? _]|?]; auto.
  - unfold bind, on_grafana. destruct (ReplaceAnomalyAnnotations _ _ _) as [gerr g].
    intros [= <- <-]. right. split; [done|].
    by destruct (Hend (pg_db (sd_store w4)) eq_refl eq_refl eq_refl) as [[_ ?]|?].
Qed.

(** The inputs of a run that gets as far as seeding. *)
Definition seed_inputs (flags : option Flags) (profile_file : error + (error + RawProfile))
    (items_resp : error + (error + list ProtoItem)) fl profile items : Prop :=
  flags = Some fl /\ fetchBackendItems items_resp = inr items /\ items <> [] /\
  exists doc, profile_file = inr doc /\ ParseProfile doc = (profile, None).

Definition the_scale : float64 := envFloat ParseFloat env "DEMO_TIME_SCALE" f_one.

Lemma fetch_length resp items :
  fetchBackendItems resp = inr items -> exists l, resp = inr (inr l) /\ length items = length l.
Proof.
  destruct resp as [e|[e|l]]; [done..|]. intros [= <-]. exists l. split; [done|].
  by rewrite (merge_sort_Permutation item_le), length_fmap.
Qed.

Lemma seed_cases flags profile_file items_resp (w : SeedWorld S G) code w' :
  working (pg_session (sd_store w)) = None ->
  (forall l, items_resp = inr (inr l) -> Z.of_nat (length l) <= max_int64) ->
  seed clock pg_clock ParseFloat env sql_exec read_dir read_file flags profile_file items_resp w
    = (code, w') ->
  let d := pg_db (sd_store w) in
  let d' := pg_db (sd_store w') in
  let done_ := exists fl profile items, seed_inputs flags profile_file items_resp fl profile items /\
    completed fl the_scale (clock (sd_ticks w)) profile items d d' (clock (Datatypes.S (sd_ticks w))) in
  (exists c, code = Some c /\ (c = 1 \/ c = 2) /\ (seed_marker d' = seed_marker d \/ done_)) \/
  (code = Some 0 /\ done_).
Proof.
  intros Hw Hlen. unfold seed. cbv zeta.
  assert (forall c, c = 1 \/ c = 2 -> forall w1, sd_store w1 = sd_store w -> (Some c, w1) = (code, w') ->
    (exists c, code = Some c /\ (c = 1 \/ c = 2) /\
      (seed_marker (pg_db (sd_store w')) = seed_marker (pg_db (sd_store w)) \/ (exists fl profile items,
        seed_inputs flags profile_file items_resp fl profile items /\
        completed fl the_scale (clock (sd_ticks w)) profile items (pg_db (sd_store w))
          (pg_db (sd_store w')) (clock (Datatypes.S (sd_ticks w)))))) \/
    (code = Some 0 /\ (exists fl profile items,
        seed_inputs flags profile_file items_resp fl profile items /\
        completed fl the_scale (clock (sd_ticks w)) profile items (pg_db (sd_store w))
          (pg_db (sd_store w')) (clock (Datatypes.S (sd_ticks w)))))) as Hstop.
  { intros c Hc w1 Hst [= <- <-]. left. exists c. by rewrite Hst; auto. }
  destruct flags as [fl|]; [|apply (Hstop 2); by auto].
  unfold bind at 1, time_Now. cbv beta iota. set (w1 := Build_SeedWorld _ _ _ _ _ _ _ _).
  destruct profile_file as [e|doc]; [apply (Hstop 1); by auto|].
  destruct (ParseProfile doc) as [p [e|]] eqn:Hp; [apply (Hstop 1); by auto|].
  unfold bind at 1, on_dialer. destruct (Connect 10 _) as [conn dl]. cbv beta iota.
  destruct conn; [|apply (Hstop 1); by auto..].
  unfold bind at 1, on_mig. destruct (Migrate _ _ _ _) as [merr mg]. cbv beta iota.
  destruct merr as [e|]; [apply (Hstop 1); by auto|].
  destruct (fetchBackendItems items_resp) as [e|items] eqn:Hf; [apply (Hstop 1); by auto|].
  destruct (Nat.eqb_spec (length items) 0) as [|Hne]; [apply (Hstop 1); by auto|].
  set (w2 := Build_SeedWorld _ _ _ _ _ _ _ _). intros Hrun.
  destruct (fetch_length _ _ Hf) as (l & Hl & Hll).
  apply seed_history_spec in Hrun; [|done|by destruct items|rewrite Hll; by apply Hlen
    |by eapply ParseProfile_weekdays].
  destruct Hrun as [[-> Hor]|[-> Hdone]].
  - left. exists 1. split; [done|]. split; [by left|]. destruct Hor as [Hsame|Hdone]; [by left|right].
    exists fl, p, items. split; [|exact Hdone].
    split_and!; [done|done|by destruct items|by exists doc].
  - right. split; [done|]. exists fl, p, items. split; [|exact Hdone].
    split_and!; [done|done|by destruct items|by exists doc].
Qed.
End command.

(** * Properties *)

(** C12: The seed command always exits, with 0, 1 or 2, whatever fails; and the
    seed marker is evidence: if the command exits with 0, or if the marker changed
    at all, then a whole run over the profile, the items and the flags completed
    and the marker holds its scale, reference second, seed, days and the number of
    rows it added.  A failed or canceled run leaves the previous marker. *)
Theorem seed_marker_means_completed `{FloatConv} `{TrigReduce} `{PgTime} {S G} {api : Grafana G}
    clock pg_clock ParseFloat env sql_exec read_dir read_file flags profile_file items_resp
    (w : SeedWorld S G) :
  working (pg_session (sd_store w)) = None ->
  (forall l, items_resp = inr (inr l) -> Z.of_nat (length l) <= max_int64) ->
  let '(code, w') := seed clock pg_clock ParseFloat env sql_exec read_dir read_file
                       flags profile_file items_resp w in
  let d := pg_db (sd_store w) in
  let d' := pg_db (sd_store w') in
  let refTime := clock (sd_ticks w) in
  let scale := the_scale ParseFloat env in
  exists c, code = Some c /\ (c = 0 \/ c = 1 \/ c = 2) /\
    (c = 0 \/ seed_marker d' <> seed_marker d ->
     exists fl profile items hours m,
       seed_inputs flags profile_file items_resp fl profile items /\
       generated (seed_cfg fl scale refTime) profile items = Some hours /\
       seed_marker d' = Some m /\ marker_of fl scale refTime d hours m).
Proof.
  intros Hw Hlen. destruct (seed _ _ _ _ _ _ _ _ _ _ w) as [code w'] eqn:Hrun.
  apply seed_cases in Hrun; [|done|done]. cbv zeta.
  destruct Hrun as [(c & -> & Hc & Hor)|[-> (fl & p & items & Hin & hours & m & Hg & Hm & Hmk & _)]].
  - exists c. split; [done|]. split; [lia|]. intros Hch.
    destruct Hor as [Hsame|(fl & p & items & Hin & hours & m & Hg & Hm & Hmk & _)].
    + destruct Hch as [-> |Hch]; [lia|done].
    + by exists fl, p, items, hours, m.
  - exists 0. split; [done|]. split; [by left|]. intros _. by exists fl, p, items, hours, m.
Qed.

(** C10: The end state of a successful seed is canonical.  Started on a database
    that retention has never trimmed, the raw events are those there before and
    the generated ones, less at most those before the retention cutoff, and every
    hourly bucket counts exactly the distinct events, old and generated, of its
    hour and type, the trimmed ones included: the same state live ingestion and
    the live retention job would have left. *)
Theorem seed_end_state `{FloatConv} `{TrigReduce} `{PgTime} {S G} {api : Grafana G}
    clock pg_clock ParseFloat env sql_exec read_dir read_file flags profile_file items_resp
    (w : SeedWorld S G) :
  working (pg_session (sd_store w)) = None ->
  (forall l, items_resp = inr (inr l) -> Z.of_nat (length l) <= max_int64) ->
  reachable no_retention (pg_db (sd_store w)) ->
  let '(code, w') := seed clock pg_clock ParseFloat env sql_exec read_dir read_file
                       flags profile_file items_resp w in
  code = Some 0 ->
  exists fl profile items hours,
    seed_inputs flags profile_file items_resp fl profile items /\
    generated (seed_cfg fl (the_scale ParseFloat env) (clock (sd_ticks w))) profile items = Some hours /\
    canonical (raw_keys (pg_db (sd_store w)) ∪ keys_of (concat hours))
      (cutoff_of env (clock (Datatypes.S (sd_ticks w)))) (pg_db (sd_store w')).
Proof.
  intros Hw Hlen Hreach. destruct (seed _ _ _ _ _ _ _ _ _ _ w) as [code w'] eqn:Hrun. intros ->.
  apply seed_cases in Hrun; [|done|done].
  destruct Hrun as [(c & [= <-] & Hc & _)|[_ (fl & p & items & Hin & hours & m & Hg & _ & _ & Hcan)]]; [lia|].
  exists fl, p, items, hours. split_and!; [done|done|by apply Hcan].
Qed.

(** * Concrete inputs *)
Definition demo_seed_clock (n : nat) : Z := 1767571200000000000 + Z.of_nat n.

Definition demo_doc : RawProfile :=
  {| raw_base := dec 3 4; raw_diurnal := p_Diurnal demo_profile; raw_weekdays := repeat f_one 7;
     raw_noise := f_zero; raw_trend := p_Trend demo_profile; raw_anomalies := raw_anomalies story_profile |}.

Definition demo_seed_world (o : list Session.outcome) : SeedWorld (list string) AnnotationServer :=
  {| sd_dialer := {| dial_tries := [NewFails ErrNoRows]; dial_cancel := None; dial_count := 0;
                     dial_open := 0; dial_waits := 0 |};
     sd_mig := quiet_mig demo_target;
     sd_store := {| pg_session := {| committed := empty_db; working := None; oracle := o |}; pg_txs := 0 |};
     sd_grafana := demo_server; sd_cancel := None; sd_ticks := 0 |}.

Definition demo_items_reply : error + (error + list ProtoItem) :=
  inr (inr [{| pi_id := 2; pi_name := "b" |}; {| pi_id := 1; pi_name := "a" |}]).

Definition demo_flags : Flags := {| fl_days := 1; fl_seed := 42 |}.

Abbreviation demo_seed o :=
  (seed demo_seed_clock (fun _ => 0) (fun _ => inl ErrSyntax) empty_env demo_exec (inr demo_entries) demo_read
    (Some demo_flags) (inr (inr demo_doc)) demo_items_reply (demo_seed_world o)).

(** A successful run writes the marker and three annotations; one whose first
    commit is refused writes neither. *)
Example demo_seed_runs :
  (let '(code, w) := demo_seed [] in
   (code, mr_events_written <$> seed_marker (pg_db (sd_store w)), size (sd_grafana w)))
  = (Some 0, Some 13, 4%nat) /\
  (let '(code, w) := demo_seed [Delivered; Delivered; Delivered; Refused ErrSyntax] in
   (code, mr_events_written <$> seed_marker (pg_db (sd_store w)), size (sd_grafana w)))
  = (Some 1, None, 1%nat).
Proof. split; vm_compute; reflexivity. Qed.

Lemma demo_reply_length l : demo_items_reply = inr (inr l) -> Z.of_nat (length l) <= max_int64.
Proof. intros [= <-]. by vm_compute. Qed.

Lemma demo_exits_0 : (demo_seed []).1 = Some 0.
Proof. vm_compute. reflexivity. Qed.

Lemma seed_marker_means_completed_witness :
  exists m, seed_marker (pg_db (sd_store (demo_seed []).2)) = Some m /\
    mr_days m = 1 /\ mr_ref_unix m = 1767571200.
Proof.
  pose proof (seed_marker_means_completed demo_seed_clock (fun _ => 0) (fun _ => inl ErrSyntax) empty_env
    demo_exec (inr demo_entries) demo_read (Some demo_flags) (inr (inr demo_doc))
    demo_items_reply (demo_seed_world []) eq_refl demo_reply_length) as H.
  pose proof demo_exits_0 as Hexit.
  destruct (seed _ _ _ _ _ _ _ _ _ _ _) as [code w'].
  destruct H as (c & Hc & _ & Hdone). simpl in Hexit. rewrite Hexit in Hc. injection Hc as <-.
  destruct (Hdone (or_introl eq_refl)) as (fl & profile & items & hours & m & Hin & _ & Hm & Hmk).
  exists m. destruct Hin as ([= <-] & _). destruct Hmk as (_ & Href & _ & Hdays & _).
  split; [exact Hm|]. split; [exact Hdays|]. rewrite Href. reflexivity.
Defined.

Lemma seed_end_state_witness :
  exists K, canonical K (cutoff_of empty_env (demo_seed_clock 1)) (pg_db (sd_store (demo_seed []).2)).
Proof.
  pose proof (seed_end_state demo_seed_clock (fun _ => 0) (fun _ => inl ErrSyntax) empty_env
    demo_exec (inr demo_entries) demo_read (Some demo_flags) (inr (inr demo_doc))
    demo_items_reply (demo_seed_world []) eq_refl demo_reply_length (rtc_refl _ _)) as H.
  pose proof demo_exits_0 as Hexit.
  destruct (seed _ _ _ _ _ _ _ _ _ _ _) as [code w'].
  destruct (H Hexit) as (fl & profile & items & hours & _ & _ & Hcan).
  exists (raw_keys (pg_db (sd_store (demo_seed_world []))) ∪ keys_of (concat hours)). exact Hcan.
Defined.
