(* ===== verification/GoNet.v ===== *)
(** * GoNet: net.SplitHostPort

    The standard library's split of a listen address into host and port, on the
    byte positions of its colons and brackets. *)
From S2P Require Import Prelude.
From Stdlib Require Import Ascii.
Local Open Scope string_scope.

(** [strings.IndexByte] and [strings.LastIndexByte]; [None] is Go's -1. *)
Fixpoint IndexByte (s : string) (c : Ascii.ascii) : option nat :=
  match s with
  | "" => None
  | String c' s' => if Ascii.eqb c c' then Some 0 else S <$> IndexByte s' c
  end.

Fixpoint LastIndexByte (s : string) (c : Ascii.ascii) : option nat :=
  match s with
  | "" => None
  | String c' s' =>
      match LastIndexByte s' c with
      | Some i => Some (S i)
      | None => if Ascii.eqb c c' then Some 0 else None
      end
  end.

(** The slices [s[:i]] and [s[i:]]. *)
Fixpoint slice_to (i : nat) (s : string) : string :=
  match i, s with S i', String c s' => String c (slice_to i' s') | _, _ => "" end.
Fixpoint slice_from (i : nat) (s : string) : string :=
  match i, s with S i', String _ s' => slice_from i' s' | _, _ => s end.

Definition colon : Ascii.ascii := ":"%char.
Definition lbracket : Ascii.ascii := "["%char.
Definition rbracket : Ascii.ascii := "]"%char.

Definition missingPort : error := ErrNew "missing port in address".
Definition tooManyColons : error := ErrNew "too many colons in address".

Definition has (s : string) (c : Ascii.ascii) : bool := bool_decide (is_Some (IndexByte s c)).

(** The last checks: no bracket outside the pair at the front. *)
Definition split_rest (host hostport : string) (i j k : nat) : error + (string * string) :=
  if has (slice_from j hostport) lbracket then inl (ErrNew "unexpected '[' in address") else
  if has (slice_from k hostport) rbracket then inl (ErrNew "unexpected ']' in address") else
  inr (host, slice_from (S i) hostport).

Definition SplitHostPort (hostport : string) : error + (string * string) :=
  match LastIndexByte hostport colon with
  | None => inl missingPort
  | Some i =>
      if match hostport with String c _ => Ascii.eqb c lbracket | "" => false end then
        match IndexByte hostport rbracket with
        | None => inl (ErrNew "missing ']' in address")
        | Some last =>
            if (S last =? String.length hostport)%nat then inl missingPort else
            if (S last =? i)%nat
            then split_rest (slice_from 1 (slice_to last hostport)) hostport i 1 (S last)
            else if match slice_from (S last) hostport with
                    | String c _ => Ascii.eqb c colon | "" => false end
                 then inl tooManyColons else inl missingPort
        end
      else
        let host := slice_to i hostport in
        if has host colon then inl tooManyColons else split_rest host hostport i 0 0
  end.

(** ** Lemmas *)
Definition plain (s : string) : Prop :=
  IndexByte s colon = None /\ IndexByte s lbracket = None /\ IndexByte s rbracket = None.

Lemma app_String c s t : String c s +:+ t = String c (s +:+ t).
Proof. done. Qed.

Lemma app_empty t : "" +:+ t = t.
Proof. done. Qed.

Create Rewrite HintDb gonet.
#[local] Hint Rewrite app_String app_empty : gonet.

Ltac string_ind s := induction s as [|c' s IH]; autorewrite with gonet; simpl.

Lemma IndexByte_app s t c :
  IndexByte (s +:+ t) c =
    match IndexByte s c with Some i => Some i | None => Nat.add (String.length s) <$> IndexByte t c end.
Proof.
  string_ind s; [by destruct (IndexByte t c)|]. destruct (Ascii.eqb c c'); [done|]. rewrite IH.
  by destruct (IndexByte s c), (IndexByte t c).
Qed.

Lemma LastIndexByte_none s c : IndexByte s c = None -> LastIndexByte s c = None.
Proof.
  string_ind s; [done|]. destruct (Ascii.eqb c c'); [done|].
  destruct (IndexByte s c); [done|]. intros _. by rewrite IH.
Qed.

Lemma LastIndexByte_app s t c :
  IndexByte t c = None -> LastIndexByte (s +:+ String c t) c = Some (String.length s).
Proof.
  intros Ht. string_ind s; [by rewrite LastIndexByte_none, Ascii.eqb_refl|by rewrite IH].
Qed.

Lemma slice_to_app s t : slice_to (String.length s) (s +:+ t) = s.
Proof. string_ind s; [by destruct t|by rewrite IH]. Qed.

Lemma slice_from_app_S s c t : slice_from (S (String.length s)) (s +:+ String c t) = t.
Proof. induction s as [|c' s IH]; [by destruct t|exact IH]. Qed.

Lemma has_None s c : IndexByte s c = None -> has s c = false.
Proof. unfold has. intros ->. done. Qed.

(** Joining and splitting: a host and a port without colons and brackets. *)
Lemma SplitHostPort_join host port :
  plain host -> plain port -> SplitHostPort (host +:+ ":" +:+ port) = inr (host, port).
Proof.
  intros (Hc & Hl & Hr) (Pc & Pl & Pr). unfold SplitHostPort.
  change (":" +:+ port) with (String colon port). rewrite LastIndexByte_app by done.
  assert (match host +:+ String colon port with
          | String c _ => Ascii.eqb c lbracket | "" => false end = false) as ->.
  { destruct host as [|c host]; [done|]. rewrite app_String. cbn [IndexByte] in Hl.
    rewrite Ascii.eqb_sym. by destruct (Ascii.eqb lbracket c). }
  rewrite slice_to_app, (has_None host) by done. unfold split_rest.
  assert (forall s, slice_from 0 s = s) as H0 by (by intros []). rewrite !H0.
  rewrite !has_None; [by rewrite slice_from_app_S|..]; rewrite IndexByte_app.
  - rewrite Hr. simpl. by rewrite Pr.
  - rewrite Hl. simpl. by rewrite Pl.
Qed.

(** The addresses of the standard documentation. *)
Example demo_split :
  SplitHostPort ":8082" = inr ("", "8082") /\ SplitHostPort "0.0.0.0:80" = inr ("0.0.0.0", "80") /\
  SplitHostPort "[::1]:8082" = inr ("::1", "8082") /\ SplitHostPort "8082" = inl missingPort /\
  SplitHostPort "::1:8082" = inl tooManyColons /\ SplitHostPort "[::1]" = inl missingPort.
Proof. split_and!; vm_compute; reflexivity. Qed.
