(* ===== verification/Main.v ===== *)
(** * Main: dispatch and the healthcheck subcommand (cmd/analytics/main.go)

    [run]'s choice of subcommand and [healthcheck], which asks the process's own
    /healthz and /readyz over loopback.  The HTTP client is the parameter [Get]:
    the status of a GET request or an error.  [loopback_Get] is [Get] on the host
    where the server of [HttpServer] listens on its address; which connections to
    localhost reach that server is the class [Loopback]. *)
From S2P Require Import Prelude GoInt GoEnv GoNet Database Session Store HttpServer.
From Stdlib Require Import Ascii.
Local Open Scope Z_scope.
Local Open Scope go_scope.

Definition envString (env : Environ) (key def : string) : string :=
  let v := Getenv env key in if negb (String.eqb v "") then v else def.

(** ** run *)
Section run.
Context {A : Type}.
Variables (serve : A) (seed : list string -> A) (healthcheck : A) (unknown : string -> A).

Definition run (args : list string) : A :=
  let cmd := hd "serve"%string args in
  if String.eqb cmd "serve" then serve
  else if String.eqb cmd "seed" then seed (drop 1 args)
  else if String.eqb cmd "healthcheck" then healthcheck
  else unknown cmd.
End run.

(** ** healthcheck *)
Definition healthcheckPort (env : Environ) : string :=
  match SplitHostPort (envString env "ANALYTICS_HTTP_ADDR" ":8082") with
  | inl _ => "8082"
  | inr (_, port) => port
  end.

Definition health_paths : list string := ["/healthz"; "/readyz"]%string.

Section healthcheck.
Context {D : Type}.
Variable Get : string -> M D (error + Z).

Definition health_step (base path : string) (_ : unit) : M D (Z + unit) :=
  let! resp := Get (base +:+ path) in
  match resp with
  | inl _ => ret (inl 1)
  | inr status => if negb (status =? StatusOK) then ret (inl 1) else ret (inr tt)
  end.

Definition healthcheck (env : Environ) : M D Z :=
  let base := "http://localhost:" +:+ healthcheckPort env in
  range_loop health_paths tt (health_step base) (fun _ => ret 0).
End healthcheck.

(** ** The process's own server behind the client *)

(** The segments of a path. *)
Fixpoint split_path (s : string) : list string :=
  match s with
  | "" => []
  | String c s' =>
      if Ascii.eqb c "/"%char then ""%string :: split_path s' else
      match split_path s' with
      | [] => [String c ""]
      | seg :: segs => String c seg :: segs
      end
  end%string.

(** The port and the path of the URL after [http://localhost:]. *)
Fixpoint cut_port (s : string) : string * string :=
  match s with
  | "" => ("", "")
  | String c s' =>
      if Ascii.eqb c "/"%char then ("", s)
      else let '(port, path) := cut_port s' in (String c port, path)
  end%string.

Fixpoint strip_prefix (p s : string) : option string :=
  match p, s with
  | "", _ => Some s
  | String c p', String c' s' => if Ascii.eqb c c' then strip_prefix p' s' else None
  | _, _ => None
  end%string.

(** The hosts that include the loopback address a dial of localhost tries. *)
Definition local_hosts : list string := [""; "0.0.0.0"; "localhost"; "127.0.0.1"]%string.

(** The network of the host is not this repository's code: does a connection to
    [localhost:dialed] reach the server listening on [host:port], and what else
    answers a URL there, if it does not?  A listener on the wildcard or the
    loopback address is reached at its port; one on port 0, or on no port, got a
    port of the system's choice, and is not reached at that number. *)
Class Loopback := {
  reaches : string -> string -> string -> bool;
  elsewhere : string -> error + Z;
  reaches_local : forall host port n, host ∈ local_hosts -> ParseInt port = inr n -> 1 <= n <= 65535 ->
    reaches host port port = true;
  reaches_ephemeral : forall host port, port = "" \/ ParseInt port = inr 0 ->
    reaches host port port = false
}.

(** A GET while the server of this process listens on [host:port] and answers
    within the client's three seconds. *)
Definition loopback_Get `{PgTime} `{Loopback} (now : pg_time) (metrics : Response)
    (host port url : string) : M (World Session) (error + Z) :=
  let '(dialed, path) := cut_port (default "" (strip_prefix "http://localhost:" url)) in
  if reaches host port dialed then
    let! resp := ServeHTTP (H0 := pg_items_store now) metrics (get (tail (split_path path))) in
    ret (inr (rs_status resp))
  else ret (elsewhere url).

Lemma strip_prefix_app p s : strip_prefix p (p +:+ s) = Some s.
Proof.
  induction p as [|c p IH]; [by destruct s|]. rewrite app_String. simpl. by rewrite Ascii.eqb_refl.
Qed.

(** A port number: no character of it can end the port of a URL. *)
Definition decimal (port : string) : Prop :=
  Forall (fun c => (48 <= nat_of_ascii c <= 57)%nat) (String.list_ascii_of_string port).

Lemma cut_port_path port path :
  decimal port -> cut_port (port +:+ String "/" path) = (port, String "/" path).
Proof.
  unfold decimal. induction port as [|c port IH]; cbn [String.list_ascii_of_string]; [done|].
  intros [Hc Hp]%Forall_cons. rewrite app_String. cbn [cut_port].
  destruct (Ascii.eqb_spec c "/"%char) as [->|_]; [by vm_compute in Hc; lia|]. by rewrite IH.
Qed.

(** What a GET of one of the process's own paths amounts to. *)
Lemma get_own `{PgTime} `{Loopback} now metrics host port path (w : World Session) :
  decimal port ->
  loopback_Get now metrics host port (("http://localhost:" +:+ port) +:+ String "/" path) w =
    (if reaches host port port then
       let! resp := ServeHTTP (H0 := pg_items_store now) metrics
                      (get (tail (split_path (String "/" path)))) in ret (inr (rs_status resp))
     else ret (elsewhere ("http://localhost:" +:+ port +:+ String "/" path))) w.
Proof.
  intros Hp. unfold loopback_Get.
  change (("http://localhost:" +:+ port) +:+ String "/" path)
    with ("http://localhost:" +:+ (port +:+ String "/" path)). rewrite strip_prefix_app. cbn [default id].
  by rewrite cut_port_path by done.
Qed.

(** The outcome of the command is decided by its two answers. *)
Lemma healthcheck_spec {D} (Get : string -> M D (error + Z)) env (d : D) :
  let base := "http://localhost:" +:+ healthcheckPort env in
  let '(r1, d1) := Get (base +:+ "/healthz") d in
  healthcheck Get env d =
    (if bool_decide (r1 = inr StatusOK) then
       let '(r2, d2) := Get (base +:+ "/readyz") d1 in
       (if bool_decide (r2 = inr StatusOK) then 0 else 1, d2)
     else (1, d1)).
Proof.
  cbv zeta. unfold healthcheck, health_paths, range_loop, health_step, bind.
  destruct (Get _ d) as [[e|st] d1]; [done|].
  destruct (Z.eqb_spec st StatusOK) as [->|Hne]; simpl.
  - destruct (Get _ d1) as [[e|st] d2]; [done|].
    destruct (Z.eqb_spec st StatusOK) as [->|Hne]; [done|]. rewrite bool_decide_eq_false_2; [done|congruence].
  - rewrite bool_decide_eq_false_2; [done|congruence].
Qed.

(** * Properties *)

(** C38: The container is healthy exactly when the database answers.  Take the
    listen address both commands read from the environment, with any host part and
    a decimal or empty port.  If a connection to localhost at that port reaches
    the process's own server, which it does for a wildcard or loopback host and a
    port from 1 to 65535, the healthcheck exits 0 when the ping of /readyz succeeds
    and 1 otherwise, and leaves the readiness gauge at the ping's outcome.  If it
    does not (a listener on another interface only, or on port 0 or none), the
    exit is decided by whoever answers there, and the process's own state is not
    touched.  In no case is anything written to the database. *)
Theorem healthcheck_readiness `{PgTime} `{Loopback} now metrics env host port s up :
  SplitHostPort (envString env "ANALYTICS_HTTP_ADDR" ":8082") = inr (host, port) -> decimal port ->
  let w := {| hw_store := s; dbUp := up |} in
  let '(code, w') := healthcheck (loopback_Get now metrics host port) env w in
  let answer path := elsewhere ("http://localhost:" +:+ port +:+ path) in
  (code = 0 \/ code = 1) /\
  committed (hw_store w') = committed s /\
  (if reaches host port port then
     match next_outcome s with
     | Delivered => code = 0 /\ dbUp w' = 1
     | Refused _ | ReplyLost _ => code = 1 /\ dbUp w' = 0
     end
   else w' = w /\ (code = 0 <-> answer "/healthz" = inr 200 /\ answer "/readyz" = inr 200)) /\
  (forall n, host ∈ local_hosts -> ParseInt port = inr n -> 1 <= n <= 65535 ->
     (code = 0 <-> next_outcome s = Delivered)).
Proof.
  intros Haddr Hdec w.
  assert (healthcheckPort env = port) as Hport by (unfold healthcheckPort; by rewrite Haddr).
  pose proof (healthcheck_spec (loopback_Get now metrics host port) env w) as Hs.
  rewrite Hport in Hs. cbv zeta in Hs. rewrite get_own in Hs by done.
  pose proof (fun n Hh Hp Hn => reaches_local host port n Hh Hp Hn) as Hlocal.
  destruct (healthcheck _ _ _) as [code w']. destruct (reaches host port port) eqn:Hr.
  - unfold bind at 1, ret at 1, ServeHTTP at 1 in Hs. cbn in Hs.
    rewrite bool_decide_eq_true_2 in Hs by done. rewrite get_own, Hr in Hs by done.
    unfold ServeHTTP, handleReadyz, bind, on_store, Ping, pg_pinger, pg_Ping in Hs. cbn in Hs.
    destruct (next_outcome s); injection Hs as -> ->; cbn; split_and!; auto; naive_solver.
  - unfold ret in Hs. rewrite get_own, Hr in Hs by done. unfold ret in Hs. cbn zeta.
    repeat case_bool_decide; injection Hs as -> ->; split_and!; auto; naive_solver.
Qed.

(** ** Dispatch and concrete inputs *)
Inductive verb := Serve | Seed (args : list string) | Healthcheck | Unknown (cmd : string).

(** No argument serves; the remaining arguments go to the seed command. *)
Example demo_dispatch :
  run Serve Seed Healthcheck Unknown [] = Serve /\
  run Serve Seed Healthcheck Unknown ["seed"; "--days"; "3"]%string = Seed ["--days"; "3"]%string /\
  run Serve Seed Healthcheck Unknown ["healthcheck"]%string = Healthcheck /\
  run Serve Seed Healthcheck Unknown ["migrate"]%string = Unknown "migrate".
Proof. split_and!; reflexivity. Qed.

(** An address without a port falls back to 8082 and finds no server there. *)
Example demo_no_port :
  healthcheckPort (set_env "ANALYTICS_HTTP_ADDR" "localhost" empty_env) = "8082"%string.
Proof. reflexivity. Qed.

(** A host whose network has nothing but this server. *)
#[refine] Instance demo_loopback : Loopback := {|
  reaches host port dialed :=
    bool_decide (host ∈ local_hosts) && bool_decide (port = dialed) &&
    match ParseInt port with inr n => (1 <=? n) && (n <=? 65535) | inl _ => false end;
  elsewhere _ := inl (ErrNew "connection refused")
|}.
Proof.
  - intros host port n Hh -> Hn. rewrite !bool_decide_true by done. simpl. lia.
  - intros host port [->| ->]; [|by rewrite andb_false_r]. apply andb_false_r.
Defined.

(** The default address, :8082; and 10.0.0.5:8082, where the healthcheck fails
    although the database is up. *)
Lemma healthcheck_readiness_witness :
  let w := {| hw_store := quiet_session empty_db; dbUp := 0 |} in
  (healthcheck (loopback_Get 0 (header_only StatusOK) "" "8082") empty_env w).1 = 0 /\
  (healthcheck (loopback_Get 0 (header_only StatusOK) "10.0.0.5" "8082")
     (set_env "ANALYTICS_HTTP_ADDR" "10.0.0.5:8082" empty_env) w).1 = 1.
Proof.
  intros w. split.
  - pose proof (healthcheck_readiness 0 (header_only StatusOK) empty_env "" "8082" (quiet_session empty_db) 0
      ltac:(vm_compute; reflexivity) ltac:(repeat constructor; vm_compute; lia)) as H.
    cbv zeta in H. fold w in H. destruct (healthcheck _ _ _) as [code w'].
    destruct H as (_ & _ & H & _). exact (proj1 H).
  - vm_compute. reflexivity.
Defined.
