(* ===== verification/Serve.v ===== *)
(** * Serve: the life of the service process (serve in cmd/analytics/main.go)

    The main goroutine, the ingest and retention goroutines, the HTTP server with
    its requests in flight, the signal and the deferred calls as one step relation.
    [Connect] and [Migrate] are the functions of Migrate.v run in one step each;
    the goroutines take the steps of Worker.v, which is what the client and the
    runner do ([workers_refine]); a request only reads, on a connection it holds.
    A step of a goroutine does not look at the pool: whether the pool is still open
    when it is used is what the theorems are about.  The main goroutine waits in
    its select, for the two goroutines, for the requests in Shutdown until the
    deadline, and in [pool.Close] for the connections in use. *)
From S2P Require Import Prelude Database Session Store Invariant GoEnv Ingest IngestProps Retention Worker Migrate.
Local Open Scope Z_scope.

(** A goroutine that runs is at a place of Worker.v. *)
Inductive worker (P : Type) := NotStarted | Running (p : P) | Done.
Arguments NotStarted {P}.
Arguments Running {P} p.
Arguments Done {P}.

(** A pool whose Close has begun hands out no connection any more. *)
Inductive pool := PoolUnopened | PoolOpen | PoolClosing | PoolClosed.

(** The listener: before line 112, serving, failed (connections it accepted live
    on), and shut down with every request answered. *)
Inductive http_state := HttpOff | HttpServing | HttpFailed | HttpShut.

(** The deferred calls of [serve]. *)
Inductive deferred :=
| DStop | DOtelShutdown | DPoolClose | DCancelIngest | DCancelRetention | DCancelShutdownCtx.

#[export] Instance deferred_eq_dec : EqDecision deferred.
Proof. solve_decision. Defined.

(** Which case of the [select] was taken. *)
Inductive branch := OnSignal | OnServerError.

(** Where the main goroutine stands. *)
Inductive pc :=
| AtSignalNotify | AtConnect | AtMigrate | AtGoIngest | AtGoRetention | AtGoHttp | AtSelect
| AtCancelIngest (b : branch) | AtCancelRetention (b : branch)
| AtJoinIngest (b : branch) | AtJoinRetention (b : branch)
| AtShutdown
| Return (code : Z)             (* running the deferred calls *)
| Exited (code : Z).

Record State (S : Type) := {
  sv_pc : pc;
  sv_defers : list deferred;      (* last deferred first *)
  sv_ctx : bool;                  (* ctx is done: a signal came, or stop was called *)
  sv_dialer : Dialer;
  sv_mig : MigWorld S;
  sv_pool : pool;
  sv_ingest : worker ingest_pc;
  sv_ingestCancel : bool;
  sv_retention : worker retention_pc;
  sv_retentionCancel : bool;
  sv_http : http_state;
  sv_errCh : bool;                (* an error waits in errCh *)
  sv_handlers : nat;              (* requests in flight *)
  sv_held : nat;                  (* the connections they hold *)
  sv_db : DB
}.
Arguments sv_pc {S} s.
Arguments sv_defers {S} s.
Arguments sv_ctx {S} s.
Arguments sv_dialer {S} s.
Arguments sv_mig {S} s.
Arguments sv_pool {S} s.
Arguments sv_ingest {S} s.
Arguments sv_ingestCancel {S} s.
Arguments sv_retention {S} s.
Arguments sv_retentionCancel {S} s.
Arguments sv_http {S} s.
Arguments sv_errCh {S} s.
Arguments sv_handlers {S} s.
Arguments sv_held {S} s.
Arguments sv_db {S} s.

Inductive client := IngestClient | RetentionRunner | RequestHandler.

#[export] Instance client_eq_dec : EqDecision client.
Proof. solve_decision. Defined.

(** What a step is: one of the main goroutine, one of a worker, an arrival at it (see
    [arrival]), a use of the pool, a request that gives its connection back, or
    something from outside. *)
Inductive label := LMain | LWork (c : client) | LArrive (c : client) | LUse (c : client) | LRelease | LEnv.

#[export] Instance label_eq_dec : EqDecision label.
Proof. solve_decision. Defined.

Definition work_label (c : client) (o : observation) : label :=
  match o with OStore _ _ => LUse c | _ => if arrival o then LArrive c else LWork c end.

Section serve.
Context `{PgTime} {S : Type}.
Variable sql_exec : string -> S -> option S.
Variable read_dir : error + list (string * bool).
Variable read_file : string -> error + string.
Variable env : Environ.

Abbreviation State := (State S).

(** ** Updates *)
Definition goto (p : pc) (s : State) : State :=
  {| sv_pc := p; sv_defers := sv_defers s; sv_ctx := sv_ctx s; sv_dialer := sv_dialer s; sv_mig := sv_mig s;
     sv_pool := sv_pool s; sv_ingest := sv_ingest s; sv_ingestCancel := sv_ingestCancel s;
     sv_retention := sv_retention s; sv_retentionCancel := sv_retentionCancel s; sv_http := sv_http s;
     sv_errCh := sv_errCh s; sv_handlers := sv_handlers s; sv_held := sv_held s; sv_db := sv_db s |}.
Definition set_defers (l : list deferred) (s : State) : State :=
  {| sv_pc := sv_pc s; sv_defers := l; sv_ctx := sv_ctx s; sv_dialer := sv_dialer s; sv_mig := sv_mig s;
     sv_pool := sv_pool s; sv_ingest := sv_ingest s; sv_ingestCancel := sv_ingestCancel s;
     sv_retention := sv_retention s; sv_retentionCancel := sv_retentionCancel s; sv_http := sv_http s;
     sv_errCh := sv_errCh s; sv_handlers := sv_handlers s; sv_held := sv_held s; sv_db := sv_db s |}.
Definition set_ctx (s : State) : State :=
  {| sv_pc := sv_pc s; sv_defers := sv_defers s; sv_ctx := true; sv_dialer := sv_dialer s; sv_mig := sv_mig s;
     sv_pool := sv_pool s; sv_ingest := sv_ingest s; sv_ingestCancel := sv_ingestCancel s;
     sv_retention := sv_retention s; sv_retentionCancel := sv_retentionCancel s; sv_http := sv_http s;
     sv_errCh := sv_errCh s; sv_handlers := sv_handlers s; sv_held := sv_held s; sv_db := sv_db s |}.
Definition set_dialer (d : Dialer) (s : State) : State :=
  {| sv_pc := sv_pc s; sv_defers := sv_defers s; sv_ctx := sv_ctx s; sv_dialer := d; sv_mig := sv_mig s;
     sv_pool := sv_pool s; sv_ingest := sv_ingest s; sv_ingestCancel := sv_ingestCancel s;
     sv_retention := sv_retention s; sv_retentionCancel := sv_retentionCancel s; sv_http := sv_http s;
     sv_errCh := sv_errCh s; sv_handlers := sv_handlers s; sv_held := sv_held s; sv_db := sv_db s |}.
Definition set_mig (m : MigWorld S) (s : State) : State :=
  {| sv_pc := sv_pc s; sv_defers := sv_defers s; sv_ctx := sv_ctx s; sv_dialer := sv_dialer s; sv_mig := m;
     sv_pool := sv_pool s; sv_ingest := sv_ingest s; sv_ingestCancel := sv_ingestCancel s;
     sv_retention := sv_retention s; sv_retentionCancel := sv_retentionCancel s; sv_http := sv_http s;
     sv_errCh := sv_errCh s; sv_handlers := sv_handlers s; sv_held := sv_held s; sv_db := sv_db s |}.
Definition set_pool (p : pool) (s : State) : State :=
  {| sv_pc := sv_pc s; sv_defers := sv_defers s; sv_ctx := sv_ctx s; sv_dialer := sv_dialer s; sv_mig := sv_mig s;
     sv_pool := p; sv_ingest := sv_ingest s; sv_ingestCancel := sv_ingestCancel s;
     sv_retention := sv_retention s; sv_retentionCancel := sv_retentionCancel s; sv_http := sv_http s;
     sv_errCh := sv_errCh s; sv_handlers := sv_handlers s; sv_held := sv_held s; sv_db := sv_db s |}.
Definition set_ingest (w : worker ingest_pc) (cancel : bool) (s : State) : State :=
  {| sv_pc := sv_pc s; sv_defers := sv_defers s; sv_ctx := sv_ctx s; sv_dialer := sv_dialer s; sv_mig := sv_mig s;
     sv_pool := sv_pool s; sv_ingest := w; sv_ingestCancel := cancel;
     sv_retention := sv_retention s; sv_retentionCancel := sv_retentionCancel s; sv_http := sv_http s;
     sv_errCh := sv_errCh s; sv_handlers := sv_handlers s; sv_held := sv_held s; sv_db := sv_db s |}.
Definition set_retention (w : worker retention_pc) (cancel : bool) (s : State) : State :=
  {| sv_pc := sv_pc s; sv_defers := sv_defers s; sv_ctx := sv_ctx s; sv_dialer := sv_dialer s; sv_mig := sv_mig s;
     sv_pool := sv_pool s; sv_ingest := sv_ingest s; sv_ingestCancel := sv_ingestCancel s;
     sv_retention := w; sv_retentionCancel := cancel; sv_http := sv_http s;
     sv_errCh := sv_errCh s; sv_handlers := sv_handlers s; sv_held := sv_held s; sv_db := sv_db s |}.
Definition set_http (h : http_state) (err : bool) (n : nat) (s : State) : State :=
  {| sv_pc := sv_pc s; sv_defers := sv_defers s; sv_ctx := sv_ctx s; sv_dialer := sv_dialer s; sv_mig := sv_mig s;
     sv_pool := sv_pool s; sv_ingest := sv_ingest s; sv_ingestCancel := sv_ingestCancel s;
     sv_retention := sv_retention s; sv_retentionCancel := sv_retentionCancel s; sv_http := h;
     sv_errCh := err; sv_handlers := n; sv_held := sv_held s; sv_db := sv_db s |}.
Definition set_db (d : DB) (s : State) : State :=
  {| sv_pc := sv_pc s; sv_defers := sv_defers s; sv_ctx := sv_ctx s; sv_dialer := sv_dialer s; sv_mig := sv_mig s;
     sv_pool := sv_pool s; sv_ingest := sv_ingest s; sv_ingestCancel := sv_ingestCancel s;
     sv_retention := sv_retention s; sv_retentionCancel := sv_retentionCancel s; sv_http := sv_http s;
     sv_errCh := sv_errCh s; sv_handlers := sv_handlers s; sv_held := sv_held s; sv_db := d |}.

Definition set_held (n : nat) (s : State) : State :=
  {| sv_pc := sv_pc s; sv_defers := sv_defers s; sv_ctx := sv_ctx s; sv_dialer := sv_dialer s; sv_mig := sv_mig s;
     sv_pool := sv_pool s; sv_ingest := sv_ingest s; sv_ingestCancel := sv_ingestCancel s;
     sv_retention := sv_retention s; sv_retentionCancel := sv_retentionCancel s; sv_http := sv_http s;
     sv_errCh := sv_errCh s; sv_handlers := sv_handlers s; sv_held := n; sv_db := sv_db s |}.

(** ** The main goroutine *)
Definition defer_ (d : deferred) (s : State) : State := set_defers (d :: sv_defers s) s.

(** The next states when the deferred call [d] runs, [ds] remaining.  [pool.Close]
    closes the pool to new users, waits until every connection is returned, and
    only then is done; the others return at once. *)
Definition run_deferred (d : deferred) (ds : list deferred) (s : State) : list State :=
  match d with
  | DStop => [set_ctx (set_defers ds s)]
  | DOtelShutdown | DCancelShutdownCtx => [set_defers ds s]
  | DPoolClose =>
      match sv_pool s with
      | PoolClosing => if (sv_held s =? 0)%nat then [set_pool PoolClosed (set_defers ds s)] else []
      | _ => [set_pool PoolClosing s]
      end
  | DCancelIngest => [set_ingest (sv_ingest s) true (set_defers ds s)]
  | DCancelRetention => [set_retention (sv_retention s) true (set_defers ds s)]
  end.

(** The next states of the main goroutine; none while it waits. *)
Definition main_choices (s : State) : list State :=
  match sv_pc s with
  | AtSignalNotify => [goto AtConnect (defer_ DOtelShutdown (defer_ DStop s))]
  | AtConnect =>
      let '(r, d) := Connect 10 (sv_dialer s) in
      match r with
      | Connected => [goto AtMigrate (defer_ DPoolClose (set_pool PoolOpen (set_dialer d s)))]
      | _ => [goto (Return 1) (set_dialer d s)]
      end
  | AtMigrate =>
      let '(err, m) := Migrate sql_exec read_dir read_file (sv_mig s) in
      match err with
      | Some _ => [goto (Return 1) (set_mig m s)]
      | None => [goto AtGoIngest (set_mig m s)]
      end
  | AtGoIngest => [goto AtGoRetention (set_ingest (Running (IRunCheck 0)) false (defer_ DCancelIngest s))]
  | AtGoRetention => [goto AtGoHttp (set_retention (Running RPass) false (defer_ DCancelRetention s))]
  | AtGoHttp => [goto AtSelect (set_http HttpServing false 0 s)]
  | AtSelect =>
      (if sv_ctx s then [goto (AtCancelIngest OnSignal) s] else []) ++
      (if sv_errCh s
       then [goto (AtCancelIngest OnServerError) (set_http (sv_http s) false (sv_handlers s) s)] else [])
  | AtCancelIngest b => [goto (AtCancelRetention b) (set_ingest (sv_ingest s) true s)]
  | AtCancelRetention b => [goto (AtJoinIngest b) (set_retention (sv_retention s) true s)]
  | AtJoinIngest b => match sv_ingest s with Done => [goto (AtJoinRetention b) s] | _ => [] end
  | AtJoinRetention b =>
      match sv_retention s with
      | Done => [goto (match b with OnSignal => AtShutdown | OnServerError => Return 1 end) s]
      | _ => []
      end
  | AtShutdown =>
      let s := defer_ DCancelShutdownCtx s in
      (* every request answered, or the deadline or a listener error *)
      (if (sv_handlers s =? 0)%nat then [goto (Return 0) (set_http HttpShut (sv_errCh s) 0 s)] else []) ++
      [goto (Return 1) (set_http HttpFailed (sv_errCh s) (sv_handlers s) s)]
  | Return code =>
      match sv_defers s with
      | d :: ds => run_deferred d ds s
      | [] => [goto (Exited code) s]
      end
  | Exited _ => []
  end.

(** ** The process *)
Definition ingest_ctx_done (s : State) : bool := sv_ctx s || sv_ingestCancel s.
Definition retention_ctx_done (s : State) : bool := sv_ctx s || sv_retentionCancel s.
Definition alive (s : State) : Prop := match sv_pc s with Exited _ => False | _ => True end.
Definition connections (h : http_state) : Prop := h = HttpServing \/ h = HttpFailed.

(** A goroutine after its step: at its next place, or returned. *)
Definition after {P} (p : option P) : worker P := match p with Some p => Running p | None => Done end.

Inductive serve_step : State -> label -> State -> Prop :=
| step_main s s' : s' ∈ main_choices s -> serve_step s LMain s'
| step_ingest s p o p' d :
    alive s -> sv_ingest s = Running p -> ingest_step (ingest_ctx_done s) p (sv_db s) o p' d ->
    serve_step s (work_label IngestClient o) (set_db d (set_ingest (after p') (sv_ingestCancel s) s))
| step_retention s p o p' d :
    alive s -> sv_retention s = Running p ->
    retention_step (Retention.ConfigFromEnv env) (retention_ctx_done s) p (sv_db s) o p' d ->
    serve_step s (work_label RetentionRunner o) (set_db d (set_retention (after p') (sv_retentionCancel s) s))
| step_request_use s :
    alive s -> sv_pool s = PoolOpen -> (sv_held s < sv_handlers s)%nat ->
    serve_step s (LUse RequestHandler) (set_held (Datatypes.S (sv_held s)) s)
| step_request_refused s :
    alive s -> sv_pool s <> PoolOpen -> (sv_held s < sv_handlers s)%nat ->
    serve_step s (LUse RequestHandler) s
| step_request_release s n :
    alive s -> sv_held s = Datatypes.S n -> serve_step s LRelease (set_held n s)
| step_request s :
    alive s -> connections (sv_http s) ->
    serve_step s LEnv (set_http (sv_http s) (sv_errCh s) (Datatypes.S (sv_handlers s)) s)
| step_response s n :
    alive s -> sv_handlers s = Datatypes.S n -> (sv_held s <= n)%nat ->
    serve_step s LEnv (set_http (sv_http s) (sv_errCh s) n s)
| step_server_fails s :
    alive s -> sv_http s = HttpServing ->
    serve_step s LEnv (set_http HttpFailed true (sv_handlers s) s)
| step_signal s : alive s -> serve_step s LEnv (set_ctx s).

Definition initial (dialer : Dialer) (mig : MigWorld S) (db : DB) : State :=
  {| sv_pc := AtSignalNotify; sv_defers := []; sv_ctx := false; sv_dialer := dialer; sv_mig := mig;
     sv_pool := PoolUnopened; sv_ingest := NotStarted; sv_ingestCancel := false;
     sv_retention := NotStarted; sv_retentionCancel := false; sv_http := HttpOff; sv_errCh := false;
     sv_handlers := 0; sv_held := 0; sv_db := db |}.

(** The states of a process started on an idle migration connection. *)
Definition serves (s : State) : Prop :=
  exists dialer mig db, mw_working mig = None /\
    rtc (fun a b => exists l, serve_step a l b) (initial dialer mig db) s.
End serve.
