(* ===== verification/ServeProps.v ===== *)
(** * ServeProps: what the process promises

    The invariant of the step relation, how far the process is from its exit, the
    runs of the client and the runner as steps of the process, and the theorems on
    the use of the pool, the exit and the goroutines. *)
From S2P Require Import Prelude Database Session Store Invariant StoreProps GoEnv Ingest IngestProps Retention Worker Migrate Serve.
Local Open Scope Z_scope.

(** ** The invariant of the process *)
Section process.
Context `{PgTime} {S : Type}.
Variable sql_exec : string -> S -> option S.
Variable read_dir : error + list (string * bool).
Variable read_file : string -> error + string.
Variable env : Environ.
Abbreviation State := (Serve.State S).
Abbreviation step := (serve_step sql_exec read_dir read_file env).

(** Every migration file is recorded as applied. *)
Definition migrated (m : MigWorld S) : Prop :=
  exists entries, read_dir = inr entries /\
    forall n, n ∈ migration_names entries -> recorded (version_of n) (mw_committed m).

Definition defers_2 : list deferred := [DOtelShutdown; DStop].
Definition defers_3 : list deferred := DPoolClose :: defers_2.
Definition defers_4 : list deferred := DCancelIngest :: defers_3.
Definition defers_5 : list deferred := DCancelRetention :: defers_4.

(** The deferred calls at each place. *)
Definition defers_at (p : pc) (l : list deferred) : Prop :=
  match p with
  | AtSignalNotify => l = []
  | AtConnect => l = defers_2
  | AtMigrate | AtGoIngest => l = defers_3
  | AtGoRetention => l = defers_4
  | Return _ => l `suffix_of` (DCancelShutdownCtx :: defers_5)
  | Exited _ => l = []
  | _ => l = defers_5
  end.

(** What is known at each place besides. *)
Definition before_workers (s : State) : Prop :=
  sv_ingest s = NotStarted /\ sv_retention s = NotStarted /\ sv_http s = HttpOff.

Definition not_running {P} (w : worker P) : Prop := w = NotStarted \/ w = Done.

Definition ended (code : Z) (s : State) : Prop :=
  not_running (sv_ingest s) /\ not_running (sv_retention s) /\ (code = 0 \/ code = 1) /\
  (code = 0 -> sv_ctx s = true /\ sv_http s = HttpShut /\ migrated (sv_mig s) /\ sv_ingest s = Done /\ sv_retention s = Done).

Definition known_at (s : State) : Prop :=
  match sv_pc s with
  | AtSignalNotify | AtConnect | AtMigrate => before_workers s
  | AtGoIngest => before_workers s /\ migrated (sv_mig s)
  | AtGoRetention => sv_ingest s <> NotStarted /\ sv_retention s = NotStarted /\ sv_http s = HttpOff /\ migrated (sv_mig s)
  | AtGoHttp => sv_ingest s <> NotStarted /\ sv_retention s <> NotStarted /\ sv_http s = HttpOff /\ migrated (sv_mig s)
  | AtSelect => sv_ingest s <> NotStarted /\ sv_retention s <> NotStarted /\ migrated (sv_mig s) /\ sv_http s <> HttpShut
  | AtCancelIngest b =>
      sv_ingest s <> NotStarted /\ sv_retention s <> NotStarted /\ migrated (sv_mig s) /\ sv_http s <> HttpShut /\
      (b = OnSignal -> sv_ctx s = true)
  | AtCancelRetention b =>
      sv_ingest s <> NotStarted /\ sv_retention s <> NotStarted /\ migrated (sv_mig s) /\ sv_http s <> HttpShut /\
      (b = OnSignal -> sv_ctx s = true) /\ sv_ingestCancel s = true
  | AtJoinIngest b =>
      sv_ingest s <> NotStarted /\ sv_retention s <> NotStarted /\ migrated (sv_mig s) /\ sv_http s <> HttpShut /\
      (b = OnSignal -> sv_ctx s = true) /\ sv_ingestCancel s = true /\ sv_retentionCancel s = true
  | AtJoinRetention b =>
      sv_ingest s = Done /\ sv_retention s <> NotStarted /\ migrated (sv_mig s) /\ sv_http s <> HttpShut /\
      (b = OnSignal -> sv_ctx s = true) /\ sv_retentionCancel s = true
  | AtShutdown =>
      sv_ingest s = Done /\ sv_retention s = Done /\ migrated (sv_mig s) /\ sv_http s <> HttpShut /\ sv_ctx s = true
  | Return code | Exited code => ended code s
  end.

(** The pool is open or closing exactly while its Close is among the deferred
    calls, closing only while this call runs; connections are held by requests, and
    only of such a pool; requests need the server, and the server the migrations. *)
Definition pool_needs (p : pool) (l : list deferred) : Prop :=
  match p with PoolOpen | PoolClosing => DPoolClose ∈ l | _ => DPoolClose ∉ l end.
Definition pool_ok (s : State) : Prop := pool_needs (sv_pool s) (sv_defers s).

Definition closing_ok (s : State) : Prop :=
  sv_pool s = PoolClosing -> exists code, sv_pc s = Return code /\ hd DStop (sv_defers s) = DPoolClose.

Definition held_ok (s : State) : Prop :=
  (sv_held s <= sv_handlers s)%nat /\
  (sv_held s <> 0%nat -> sv_pool s = PoolOpen \/ sv_pool s = PoolClosing).

Record inv (s : State) : Prop := {
  inv_defers : defers_at (sv_pc s) (sv_defers s);
  inv_known : known_at s;
  inv_pool : pool_ok s;
  inv_closing : closing_ok s;
  inv_held : held_ok s;
  inv_handlers : sv_handlers s <> 0%nat -> connections (sv_http s);
  inv_http : sv_http s <> HttpOff -> migrated (sv_mig s);
  inv_mig : match sv_pc s with
            | AtSignalNotify | AtConnect | AtMigrate => mw_working (sv_mig s) = None | _ => True end
}.

Lemma initial_inv dialer mig db : mw_working mig = None -> inv (initial dialer mig db).
Proof.
  intros Hw. split; simpl; try done; unfold pool_ok; simpl; apply not_elem_of_nil.
Qed.

Lemma Migrate_migrated (w : MigWorld S) w' :
  mw_working w = None -> Migrate sql_exec read_dir read_file w = (None, w') -> migrated w'.
Proof.
  intros Hw Hrun. unfold migrated. destruct read_dir as [e|entries] eqn:Hd.
  - unfold Migrate, bind in Hrun. destruct (mig_pool_Exec create_table w) as [[err|] w1]; by injection Hrun.
  - exists entries. split; [done|]. pose proof (Migrate_path sql_exec read_file entries w Hw) as Hp.
    rewrite Hrun in Hp. destruct Hp as (_ & _ & Hok & _). specialize (Hok eq_refl). symmetry in Hok.
    apply (mig_fold_recorded _ _ _ _ _ Hok).
Qed.

Ltac case_pc s :=
  destruct s; simpl in *; match goal with p : pc |- _ => destruct p end; simpl in *.

(** ** Preservation: everything but the main goroutine *)
Lemma known_goroutine (s s' : State) :
  sv_pc s' = sv_pc s -> sv_ctx s' = sv_ctx s -> sv_mig s' = sv_mig s -> sv_http s' = sv_http s ->
  sv_ingestCancel s' = sv_ingestCancel s -> sv_retentionCancel s' = sv_retentionCancel s ->
  sv_ingest s' = sv_ingest s \/ (exists p, sv_ingest s = Running p) /\ sv_ingest s' <> NotStarted ->
  sv_retention s' = sv_retention s \/ (exists p, sv_retention s = Running p) /\ sv_retention s' <> NotStarted ->
  known_at s -> known_at s'.
Proof.
  destruct s, s'; simpl. intros -> -> -> -> -> -> Hi Hr.
  unfold known_at, before_workers, ended, not_running. simpl.
  match goal with p : pc |- _ => destruct p end; naive_solver.
Qed.

Lemma after_started {P} (p : option P) : after p <> NotStarted.
Proof. by destruct p. Qed.

Lemma other_inv s l s' : inv s -> step s l s' -> l <> LMain -> inv s'.
Proof.
  intros [Hd Hk Hp Hcl Hhe Hh Hm Hg] Hs Hl. unfold closing_ok, held_ok in *.
  inversion Hs; subst; try done; split; simpl; try done.
  - eapply known_goroutine; [..|exact Hk]; simpl; try done; [right|by left].
    split; [by eexists|apply after_started].
  - eapply known_goroutine; [..|exact Hk]; simpl; try done; [by left|right].
    split; [by eexists|apply after_started].
  - split; simpl; [lia|by left].
  - split; simpl; [lia|]. intros _. apply Hhe. lia.
  - split; simpl; [lia|naive_solver].
  - split; simpl; [lia|naive_solver].
  - intros _. exact (Hh ltac:(congruence)).
  - clear Hd Hp Hcl Hhe Hh Hm Hg Hs. unfold known_at, before_workers, ended in *. case_pc s; naive_solver.
  - intros _. by right.
  - intros _. simpl. apply Hm. congruence.
  - clear Hd Hp Hcl Hhe Hh Hm Hg Hs. unfold known_at, before_workers, ended in *. case_pc s; naive_solver.
Qed.

(** ** Preservation: the main goroutine *)
Ltac known := unfold known_at, before_workers, ended in *; simpl in *; naive_solver.

(** The pool and its connections where the main goroutine leaves them alone: it is
    not in a Close. *)
Ltac held := match goal with
  | Hc : closing_ok _ |- closing_ok _ =>
      let E := fresh in intros E; simpl in E; first [discriminate E | by destruct (Hc E) as (? & ? & ?)]
  | Hc : held_ok _ |- held_ok _ => first [exact Hc | split; simpl; [apply Hc|intros _; by left]]
  end.

Ltac choices Hs :=
  unfold main_choices in Hs; simpl in Hs;
  rewrite ?elem_of_app, ?list_elem_of_singleton in Hs.

Lemma pool_ok_push d s : d <> DPoolClose -> pool_ok s -> pool_ok (defer_ d s).
Proof. unfold pool_ok, pool_needs. simpl. destruct (sv_pool s); set_solver. Qed.

(** Returning 1 before the goroutines are started. *)
Lemma failed_early s : before_workers s -> ended 1 s.
Proof. intros (Hi & Hr & _). unfold ended, not_running. rewrite Hi, Hr. split_and!; auto; done. Qed.

Lemma main_inv_start s s' :
  inv s -> s' ∈ main_choices sql_exec read_dir read_file s ->
  match sv_pc s with AtSignalNotify | AtConnect | AtMigrate => True | _ => False end -> inv s'.
Proof.
  intros [Hd Hk Hp Hcl Hhe Hh Hm Hg] Hs Hpc.
  destruct s as [p ds ctx dl mig pl ing ic rt rc ht ec hn hd db]; simpl in *. destruct p; try done; simpl in *; choices Hs.
  - subst s'. split; simpl; try done; try held; [by subst|by apply pool_ok_push, pool_ok_push].
  - destruct (Connect 10 dl) as [[| |e] d]; rewrite list_elem_of_singleton in Hs; subst s'; split; simpl; try done;
      try held.
    + by subst.
    + unfold pool_ok; simpl. by left.
    + exists [DCancelShutdownCtx; DCancelRetention; DCancelIngest; DPoolClose]. by subst.
    + by apply failed_early.
    + exists [DCancelShutdownCtx; DCancelRetention; DCancelIngest; DPoolClose]. by subst.
    + by apply failed_early.
  - destruct (Migrate sql_exec read_dir read_file mig) as [[e|] m] eqn:E;
      rewrite list_elem_of_singleton in Hs; subst s'; split; simpl; try done; try held.
    + exists [DCancelShutdownCtx; DCancelRetention; DCancelIngest]. by subst.
    + by apply failed_early.
    + intros Hx. destruct Hk as (_ & _ & Hk). simpl in Hk. done.
    + destruct Hk as (H1 & H2 & H3). split; [done|]. by eapply Migrate_migrated.
    + intros Hx. by eapply Migrate_migrated.
Qed.

Lemma suffix_cons_tail (d : deferred) l l' : d :: l `suffix_of` l' -> l `suffix_of` l'.
Proof. intros [k ->]. exists (k ++ [d]). by rewrite <- app_assoc. Qed.

Lemma defers_NoDup l : l `suffix_of` (DCancelShutdownCtx :: defers_5) -> NoDup l.
Proof.
  intros [k Hk]. assert (NoDup (DCancelShutdownCtx :: defers_5)) as Hnd
    by (unfold defers_5, defers_4, defers_3, defers_2; repeat constructor; set_solver).
  rewrite Hk in Hnd. by apply NoDup_app in Hnd as (_ & _ & Hnd).
Qed.

(** A call other than the Close leaves the stack. *)
Lemma pool_needs_pop d ds pl :
  pool_needs pl (d :: ds) -> d <> DPoolClose -> pool_needs pl ds.
Proof. unfold pool_needs. intros Hp Hd. destruct pl; rewrite elem_of_cons in Hp; naive_solver. Qed.

(** pool.Close: it begins, or the last connection is back and it ends. *)
Lemma main_inv_close s code ds s' :
  inv s -> sv_pc s = Return code -> sv_defers s = DPoolClose :: ds -> s' ∈ run_deferred DPoolClose ds s -> inv s'.
Proof.
  intros [Hd Hk Hp Hcl [Hle Hhe] Hh Hm Hg] Hpc Hds Hs. unfold pool_ok, known_at, closing_ok in *.
  rewrite Hpc, Hds in *. pose proof (defers_NoDup _ Hd) as [Hnot _]%NoDup_cons.
  assert (inv (set_pool PoolClosing s)) as Hbegin.
  { split; unfold pool_ok, known_at, closing_ok, held_ok; simpl; rewrite ?Hpc, ?Hds; try done; [by left| |].
    - intros _. by exists code.
    - split; [done|]. intros _. by right. }
  simpl in Hs. destruct (sv_pool s); try (apply list_elem_of_singleton in Hs as ->; exact Hbegin).
  destruct (Nat.eqb_spec (sv_held s) 0) as [Hz|]; [|by apply not_elem_of_nil in Hs].
  apply list_elem_of_singleton in Hs as ->.
  split; unfold pool_ok, known_at, closing_ok, held_ok; simpl; rewrite ?Hpc; try done.
  by apply suffix_cons_tail in Hd.
Qed.

(** Another deferred call. *)
Lemma main_inv_return s code d ds s' :
  inv s -> sv_pc s = Return code -> sv_defers s = d :: ds -> d <> DPoolClose ->
  s' ∈ run_deferred d ds s -> inv s'.
Proof.
  intros [Hd Hk Hp Hcl Hhe Hh Hm Hg] Hpc Hds Hne Hs. unfold pool_ok, known_at, closing_ok in *.
  rewrite Hpc, Hds in *. apply suffix_cons_tail in Hd. pose proof (pool_needs_pop _ _ _ Hp Hne) as Hp'.
  assert (sv_pool s <> PoolClosing) as Hncl by (intros E; by destruct (Hcl E) as (? & _ & ?)).
  destruct d; try done; simpl in Hs; apply list_elem_of_singleton in Hs as ->;
    (split; unfold pool_ok, known_at, closing_ok; simpl; rewrite ?Hpc; try done).
  all: destruct Hk as (Hi & Hr & Hc & Hz); split_and!; [done..|]; intros Hcode;
    destruct (Hz Hcode) as (? & ? & ? & ? & ?); by split_and!.
Qed.

(** Returning after both goroutines are joined. *)
Lemma ended_after code s :
  sv_ingest s = Done -> sv_retention s = Done -> migrated (sv_mig s) ->
  (code = 0 /\ sv_ctx s = true /\ sv_http s = HttpShut) \/ code = 1 -> ended code s.
Proof. intros Hi Hr Hm Hc. unfold ended, not_running. rewrite Hi, Hr. split_and!; auto; naive_solver. Qed.

Lemma main_inv_rest s s' :
  inv s -> s' ∈ main_choices sql_exec read_dir read_file s ->
  match sv_pc s with AtSignalNotify | AtConnect | AtMigrate | Return _ => False | _ => True end -> inv s'.
Proof.
  intros [Hd Hk Hp Hcl Hhe Hh Hm Hg] Hs Hpc.
  destruct s as [p ds ctx dl mig pl ing ic rt rc ht ec hn hd db]; simpl in *.
  destruct p as [| | | | | | |b|b|b|b| |c|c]; try done; simpl in *; choices Hs.
  - subst s'. split; simpl; try done; try held; [by subst|known|by apply (pool_ok_push DCancelIngest)].
  - subst s'. split; simpl; try done; try held; [by subst|known|by apply (pool_ok_push DCancelRetention)].
  - subst s'. destruct Hk as (H1 & H2 & H3 & H4); simpl in *.
    assert (hn = 0%nat) as -> by (destruct hn; [done|]; destruct Hh as [?|?]; congruence).
    split; simpl; try done; held.
  - assert (inv (goto (AtCancelIngest OnSignal)
      {| sv_pc := AtSelect; sv_defers := ds; sv_ctx := true; sv_dialer := dl; sv_mig := mig; sv_pool := pl;
         sv_ingest := ing; sv_ingestCancel := ic; sv_retention := rt; sv_retentionCancel := rc;
         sv_http := ht; sv_errCh := ec; sv_handlers := hn; sv_held := hd; sv_db := db |})) as H1.
    { split; simpl; try done; try held. known. }
    destruct Hs as [Hs|Hs]; [destruct ctx|destruct ec]; try (by apply not_elem_of_nil in Hs);
      apply list_elem_of_singleton in Hs; subst s'; [exact H1|].
    split; simpl; try done; try held. known.
  - subst s'. split; simpl; try done; try held. known.
  - subst s'. split; simpl; try done; try held. known.
  - destruct ing; try (by apply not_elem_of_nil in Hs). apply list_elem_of_singleton in Hs. subst s'.
    split; simpl; try done; try held. known.
  - destruct rt; try (by apply not_elem_of_nil in Hs). apply list_elem_of_singleton in Hs. subst s'.
    destruct Hk as (Hi & _ & Hm' & Hsh & Hsig & _); simpl in *.
    destruct b; split; simpl; try done; try held; [|subst ds; by exists [DCancelShutdownCtx]|].
    + split_and!; [done|done|done|done|by apply Hsig].
    + split_and!; [right; exact Hi|by right|by right|done].
  - destruct Hs as [Hs|Hs].
    + destruct (Nat.eqb_spec hn 0) as [->|]; [|by apply not_elem_of_nil in Hs].
      apply list_elem_of_singleton in Hs. subst s'. split; simpl; try done; try held.
      * subst ds. by exists [].
      * destruct Hk as (Hi & Hr & Hm' & _ & Hx). apply ended_after; auto.
      * by apply (pool_ok_push DCancelShutdownCtx) in Hp.
      * known.
    + subst s'. split; simpl; try done; try held.
      * subst ds. by exists [].
      * destruct Hk as (Hi & Hr & Hm' & _ & Hx). apply ended_after; auto.
      * by apply (pool_ok_push DCancelShutdownCtx) in Hp.
      * intros _. by right.
      * known.
  - by apply not_elem_of_nil in Hs.
Qed.

Lemma step_inv s l s' : inv s -> step s l s' -> inv s'.
Proof.
  intros Hi Hs. destruct (decide (l = LMain)) as [->|Hl]; [|by eapply other_inv].
  inversion Hs as [? ? Hc|? ? o|? ? o| | | | | | |]; subst; try (by destruct o as [| | | | | | |[]| |]).
  destruct (sv_pc s) as [| | | | | | |b|b|b|b| |c|c] eqn:Hpc;
    try (eapply main_inv_start; [exact Hi|exact Hc|by rewrite Hpc]);
    try (eapply main_inv_rest; [exact Hi|exact Hc|by rewrite Hpc]).
  unfold main_choices in Hc. rewrite Hpc in Hc. destruct (sv_defers s) as [|d ds] eqn:Hds.
  - apply list_elem_of_singleton in Hc as ->. destruct Hi as [Hd Hk Hp Hcl Hhe Hh Hm Hg].
    unfold known_at, closing_ok in *. rewrite Hpc, Hds in *. split; try done.
    intros Hx. by destruct (Hcl Hx) as (? & _ & ?).
  - destruct (decide (d = DPoolClose)) as [->|Hne]; [by eapply main_inv_close|by eapply main_inv_return].
Qed.

Lemma serves_inv s : serves sql_exec read_dir read_file env s -> inv s.
Proof.
  intros (dialer & mig & db & Hw & Hr).
  assert (inv (initial dialer mig db)) as H0 by (by apply initial_inv). revert H0.
  induction Hr as [|x y z [l Hs] _ IH]; [done|]. intros Hx. apply IH. by eapply step_inv.
Qed.

(** ** Progress *)
Definition worker_ctx_done (c : client) (s : State) : bool :=
  match c with
  | IngestClient => ingest_ctx_done s | RetentionRunner => retention_ctx_done s | RequestHandler => false
  end.

(** The steps towards the exit: of the main goroutine, and of a worker whose context
    is done, unless an arrival came first. *)
Definition progress (s : State) (l : label) : bool :=
  match l with LMain => true | LWork c | LUse c => worker_ctx_done c s | _ => false end.
Definition late (s : State) (l : label) : bool :=
  match l with LArrive c => worker_ctx_done c s | _ => false end.

(** How far the main goroutine is from its exit, and the workers from their end. *)
Definition rank (p : pc) : nat :=
  match p with
  | AtSignalNotify => 31 | AtConnect => 28 | AtMigrate => 25 | AtGoIngest => 24 | AtGoRetention => 14
  | AtGoHttp => 9 | AtSelect => 8 | AtCancelIngest _ => 7 | AtCancelRetention _ => 6
  | AtJoinIngest _ => 5 | AtJoinRetention _ => 4 | AtShutdown => 3 | Return _ => 1 | Exited _ => 0
  end.

Definition work_left {P} (left : P -> nat) (most : nat) (done : bool) (w : worker P) : nat :=
  match w with Running p => if done then left p else most | _ => 0 end.
Definition ingest_work (s : State) : nat := work_left ingest_left 8 (ingest_ctx_done s) (sv_ingest s).
Definition retention_work (s : State) : nat := work_left retention_left 3 (retention_ctx_done s) (sv_retention s).

Definition measure (s : State) : nat :=
  rank (sv_pc s) + length (sv_defers s) + (match sv_pool s with PoolOpen => 1 | _ => 0 end) +
  ingest_work s + retention_work s.

Lemma work_left_cancel {P} (left : P -> nat) most d d' w :
  (forall p, left p <= most)%nat -> (d = true -> d' = true) ->
  (work_left left most d' w <= work_left left most d w)%nat.
Proof. intros Hl Hd. destruct w as [|p|], d, d'; simpl; try done; try (by discriminate Hd); auto with lia. Qed.

Lemma ingest_left_most p : (ingest_left p <= 8)%nat.
Proof. destruct p; simpl; lia. Qed.
Lemma retention_left_most p : (retention_left p <= 3)%nat.
Proof. destruct p; simpl; lia. Qed.

(** A worker just started has all of its work ahead. *)
Lemma started_ingest d : (work_left ingest_left 8 d (Running (IRunCheck 0)) <= 8)%nat.
Proof. destruct d; simpl; lia. Qed.
Lemma started_retention d : (work_left retention_left 3 d (Running RPass) <= 3)%nat.
Proof. destruct d; simpl; lia. Qed.

Ltac one_choice Hs :=
  first [by apply not_elem_of_nil in Hs | apply list_elem_of_singleton in Hs as ->].

Lemma deferred_measure s code d ds s' :
  pool_ok s -> sv_pc s = Return code -> sv_defers s = d :: ds -> s' ∈ run_deferred d ds s ->
  (measure s' < measure s)%nat.
Proof.
  intros Hpool Hpc Hds Hs. unfold pool_ok in Hpool. rewrite Hds in Hpool.
  pose proof (work_left_cancel ingest_left 8 (ingest_ctx_done s) true (sv_ingest s) ingest_left_most
    (fun _ => eq_refl)) as Hi.
  pose proof (work_left_cancel retention_left 3 (retention_ctx_done s) true (sv_retention s)
    retention_left_most (fun _ => eq_refl)) as Hr.
  assert (orb (sv_ctx s) true = true) as Hor by apply orb_true_r.
  unfold measure, ingest_work, retention_work. unfold ingest_ctx_done, retention_ctx_done in *.
  destruct d; simpl in Hs; try (one_choice Hs; simpl; rewrite ?Hds, ?Hpc, ?Hor; simpl; lia).
  destruct (sv_pool s) eqn:Hp; unfold pool_needs in Hpool; try (exfalso; apply Hpool; by left);
    try destruct (sv_held s =? 0)%nat;
    one_choice Hs; simpl; rewrite ?Hds, ?Hpc, ?Hp; simpl; lia.
Qed.

Lemma main_measure s s' :
  pool_ok s -> s' ∈ main_choices sql_exec read_dir read_file s -> (measure s' < measure s)%nat.
Proof.
  intros Hpool Hs. destruct (sv_pc s) eqn:Hpc.
  14:{ unfold main_choices in Hs. rewrite Hpc in Hs. by apply not_elem_of_nil in Hs. }
  13:{ unfold main_choices in Hs. rewrite Hpc in Hs. destruct (sv_defers s) as [|d ds] eqn:Hds.
       - one_choice Hs. unfold measure, ingest_work, retention_work, ingest_ctx_done, retention_ctx_done.
         simpl. rewrite Hpc, Hds. simpl. lia.
       - by eapply deferred_measure. }
  all: unfold main_choices in Hs; rewrite Hpc in Hs.
  all: pose proof (work_left_cancel ingest_left 8 (ingest_ctx_done s) true (sv_ingest s) ingest_left_most
    (fun _ => eq_refl)) as Hi.
  all: pose proof (work_left_cancel retention_left 3 (retention_ctx_done s) true (sv_retention s)
    retention_left_most (fun _ => eq_refl)) as Hr.
  all: assert (orb (sv_ctx s) true = true) as Hor by apply orb_true_r.
  all: pose proof started_ingest as Hsi; pose proof started_retention as Hsr.
  all: unfold measure, ingest_work, retention_work; unfold ingest_ctx_done, retention_ctx_done in *.
  all: try (one_choice Hs; simpl; rewrite ?Hpc, ?Hor; simpl; lia).
  - destruct (Connect 10 (sv_dialer s)) as [[| |e] d]; one_choice Hs; simpl; rewrite Hpc; simpl; lia.
  - destruct (Migrate sql_exec read_dir read_file (sv_mig s)) as [[e|] m]; one_choice Hs; simpl; rewrite Hpc;
      simpl; lia.
  - one_choice Hs. specialize (Hsi (sv_ctx s || false)). simpl. rewrite Hpc. simpl in *. lia.
  - one_choice Hs. specialize (Hsr (sv_ctx s || false)). simpl. rewrite Hpc. simpl in *. lia.
  - rewrite elem_of_app in Hs.
    destruct Hs as [Hs|Hs]; [destruct (sv_ctx s) eqn:Hc|destruct (sv_errCh s)]; one_choice Hs; simpl;
      rewrite ?Hc, Hpc; simpl; lia.
  - destruct (sv_ingest s) eqn:Hw; one_choice Hs; simpl; rewrite Hpc, ?Hw; simpl; lia.
  - destruct (sv_retention s) eqn:Hw; one_choice Hs; destruct b; simpl; rewrite Hpc, ?Hw; simpl; lia.
  - rewrite elem_of_app in Hs. cbn [sv_handlers defer_ set_defers] in Hs.
    destruct Hs as [Hs|Hs]; [destruct (sv_handlers s =? 0)%nat|];
      one_choice Hs; simpl; rewrite Hpc; simpl; lia.
Qed.

Lemma worker_measure {P} (left : P -> nat) most done (p' : option P) :
  (forall p, left p <= most)%nat ->
  (work_left left most done (after p') <=
     if done then default 0 (left <$> p') else most)%nat.
Proof. intros Hl. destruct p' as [p'|], done; cbn; unfold id; auto with lia. Qed.

Ltac same_measure :=
  unfold measure, ingest_work, retention_work, ingest_ctx_done, retention_ctx_done; simpl; lia.

Lemma step_measure s l s' :
  inv s -> step s l s' ->
  (measure s' + (if progress s l then 1 else 0) <= measure s + (if late s l then 1 else 0))%nat.
Proof.
  intros Hinv Hs. destruct Hs as [s s' Hc|s p o p' d Ha Hr Hs|s p o p' d Ha Hr Hs| | | | | | |].
  - apply main_measure in Hc; [simpl; lia|apply Hinv].
  - unfold measure, ingest_work, retention_work. simpl.
    change (ingest_ctx_done (set_db d (set_ingest (after p') (sv_ingestCancel s) s))) with (ingest_ctx_done s).
    change (retention_ctx_done (set_db d (set_ingest (after p') (sv_ingestCancel s) s)))
      with (retention_ctx_done s). rewrite Hr.
    pose proof (worker_measure ingest_left 8 (ingest_ctx_done s) p' ingest_left_most) as Hm.
    assert (progress s (work_label IngestClient o) = ingest_ctx_done s && negb (arrival o) /\
      late s (work_label IngestClient o) = ingest_ctx_done s && arrival o) as [-> ->]
      by (by destruct o as [| | | | | | |[]| |], (ingest_ctx_done s) eqn:E; simpl; rewrite ?E).
    destruct (ingest_ctx_done s); [|simpl; lia].
    apply ingest_left_step in Hs. destruct (arrival o); simpl in *; lia.
  - unfold measure, ingest_work, retention_work. simpl.
    change (ingest_ctx_done (set_db d (set_retention (after p') (sv_retentionCancel s) s)))
      with (ingest_ctx_done s).
    change (retention_ctx_done (set_db d (set_retention (after p') (sv_retentionCancel s) s)))
      with (retention_ctx_done s). rewrite Hr.
    pose proof (worker_measure retention_left 3 (retention_ctx_done s) p' retention_left_most) as Hm.
    assert (progress s (work_label RetentionRunner o) = retention_ctx_done s && negb (arrival o) /\
      late s (work_label RetentionRunner o) = retention_ctx_done s && arrival o) as [-> ->]
      by (by destruct o as [| | | | | | |[]| |], (retention_ctx_done s) eqn:E; simpl; rewrite ?E).
    destruct (retention_ctx_done s); [|simpl; lia].
    apply retention_left_step in Hs. destruct (arrival o); simpl in *; lia.
  - same_measure.
  - same_measure.
  - same_measure.
  - same_measure.
  - same_measure.
  - same_measure.
  - simpl. unfold measure, ingest_work, retention_work. simpl.
    pose proof (work_left_cancel ingest_left 8 (ingest_ctx_done s) true (sv_ingest s) ingest_left_most
      (fun _ => eq_refl)).
    pose proof (work_left_cancel retention_left 3 (retention_ctx_done s) true (sv_retention s)
      retention_left_most (fun _ => eq_refl)).
    unfold ingest_ctx_done, retention_ctx_done in *. simpl. lia.
Qed.

(** A run: its steps with the states they start from. *)
Inductive run : State -> list (State * label) -> State -> Prop :=
| run_nil s : run s [] s
| run_cons s1 l s2 ls s3 : step s1 l s2 -> run s2 ls s3 -> run s1 ((s1, l) :: ls) s3.

Definition progress_steps (ls : list (State * label)) : nat :=
  length (filter (fun sl : State * label => progress sl.1 sl.2 = true) ls).
Definition late_steps (ls : list (State * label)) : nat :=
  length (filter (fun sl : State * label => late sl.1 sl.2 = true) ls).

Lemma run_inv s ls s' : inv s -> run s ls s' -> inv s'.
Proof. intros Hi Hr. revert Hi. induction Hr as [|s1 l s2 ls s3 Hs _ IH]; eauto using step_inv. Qed.

Lemma run_measure s ls s' :
  inv s -> run s ls s' -> (progress_steps ls + measure s' <= measure s + late_steps ls)%nat.
Proof.
  unfold progress_steps, late_steps. intros Hi Hr. revert Hi.
  induction Hr as [|s1 l s2 ls s3 Hs _ IH]; intros Hi; simpl; [lia|].
  specialize (IH (step_inv _ _ _ Hi Hs)). apply step_measure in Hs; [|done].
  rewrite !filter_cons. simpl. destruct (progress s1 l), (late s1 l); simpl in *; lia.
Qed.

(** ** Something towards the exit is always possible *)
Definition stop_requested (s : State) : Prop := sv_ctx s = true \/ sv_errCh s = true.

(** The main goroutine waits in pool.Close for a request that holds a connection. *)
Definition waits_in_close (s : State) : Prop :=
  sv_pc s = Return 1 /\ sv_pool s = PoolClosing /\ (0 < sv_held s)%nat.

Lemma main_enabled s : main_choices sql_exec read_dir read_file s <> [] ->
  exists l s', progress s l = true /\ step s l s'.
Proof.
  destruct (main_choices _ _ _ s) as [|s' rest] eqn:E; [done|]. intros _. exists LMain, s'.
  split; [done|]. apply step_main. rewrite E. by left.
Qed.

Lemma ingest_enabled_step s p :
  alive s -> sv_ingest s = Running p -> ingest_ctx_done s = true -> exists l s', progress s l = true /\ step s l s'.
Proof.
  intros Ha Hr Hd. destruct (ingest_enabled p (sv_db s)) as (o & p' & d & Hs & Ho).
  rewrite <- Hd in Hs. exists (work_label IngestClient o). eexists. split; [|by eapply step_ingest].
  destruct o as [| | | | | | |[]| |]; simpl in *; try done; exact Hd.
Qed.

Lemma retention_enabled_step s p :
  alive s -> sv_retention s = Running p -> retention_ctx_done s = true ->
  exists l s', progress s l = true /\ step s l s'.
Proof.
  intros Ha Hr Hd.
  destruct (retention_enabled (Retention.ConfigFromEnv env) p (sv_db s)) as (o & p' & d & Hs & Ho).
  rewrite <- Hd in Hs. exists (work_label RetentionRunner o). eexists. split; [|by eapply step_retention].
  destruct o as [| | | | | | |[]| |]; simpl in *; try done; exact Hd.
Qed.

Lemma close_waits s code ds :
  inv s -> sv_pc s = Return code -> sv_defers s = DPoolClose :: ds -> run_deferred DPoolClose ds s = [] ->
  waits_in_close s.
Proof.
  intros [Hd Hk Hp Hcl [Hle _] Hh Hm Hg] Hpc Hds Hnil. unfold known_at in Hk. rewrite Hpc in Hk.
  simpl in Hnil. destruct (sv_pool s) eqn:Hpool; try done.
  destruct (Nat.eqb_spec (sv_held s) 0) as [|Hne]; [done|]. destruct Hk as (_ & _ & Hcode & Hz).
  assert (connections (sv_http s)) as Hconn by (apply Hh; lia).
  destruct Hcode as [-> | ->]; [destruct (Hz eq_refl) as (_ & Hx & _); destruct Hconn; congruence|].
  split_and!; [done|done|lia].
Qed.

Lemma progress_enabled s :
  inv s ->
  (exists code, sv_pc s = Exited code) \/ (sv_pc s = AtSelect /\ ~ stop_requested s) \/ waits_in_close s \/
  exists l s', progress s l = true /\ step s l s'.
Proof.
  intros Hinv. pose proof Hinv as [Hd Hk Hp Hcl Hhe Hh Hm Hg]. unfold known_at, stop_requested in *.
  destruct (sv_pc s) as [| | | | | | |b|b|b|b| |c|c] eqn:Hpc; try by eauto.
  all: assert (alive s) as Ha by (unfold alive; by rewrite Hpc).
  all: try (right; right; right; apply main_enabled; unfold main_choices; rewrite Hpc; done).
  - right; right; right; apply main_enabled; unfold main_choices; rewrite Hpc.
    by destruct (Connect 10 (sv_dialer s)) as [[] ?].
  - right; right; right; apply main_enabled; unfold main_choices; rewrite Hpc.
    by destruct (Migrate _ _ _ (sv_mig s)) as [[] ?].
  - destruct (sv_ctx s) eqn:Hc; [|destruct (sv_errCh s) eqn:He; [|right; left; split; [done|by intros [?|?]]]];
      right; right; right; apply main_enabled; unfold main_choices; by rewrite Hpc, Hc, ?He.
  - right; right; right. destruct (sv_ingest s) as [|p|] eqn:Hi; [naive_solver| |].
    + eapply ingest_enabled_step; [done|exact Hi|].
      unfold ingest_ctx_done. destruct Hk as (_ & _ & _ & _ & _ & -> & _). apply orb_true_r.
    + apply main_enabled; unfold main_choices. by rewrite Hpc, Hi.
  - right; right; right. destruct (sv_retention s) as [|p|] eqn:Hi; [naive_solver| |].
    + eapply retention_enabled_step; [done|exact Hi|].
      unfold retention_ctx_done. destruct Hk as (_ & _ & _ & _ & _ & ->). apply orb_true_r.
    + apply main_enabled; unfold main_choices. by rewrite Hpc, Hi.
  - right; right; right; apply main_enabled; unfold main_choices; rewrite Hpc.
    intros Hnil. by apply app_nil in Hnil as [_ ?].
  - right; right. destruct (sv_defers s) as [|d ds] eqn:Hds.
    { right; apply main_enabled; unfold main_choices. by rewrite Hpc, Hds. }
    destruct (run_deferred d ds s) as [|s1 l] eqn:Hrun.
    + left. destruct d; try done. by eapply close_waits.
    + right; apply main_enabled; unfold main_choices. by rewrite Hpc, Hds, Hrun.
Qed.

(** While main waits there, a request can give its connection back, and none is
    handed out. *)
Lemma close_drains s : inv s -> waits_in_close s ->
  (exists s', step s LRelease s' /\ (sv_held s' < sv_held s)%nat) /\
  forall l s', step s l s' -> (sv_held s' <= sv_held s)%nat.
Proof.
  intros Hinv (Hpc & Hpool & Hpos). assert (alive s) as Ha by (unfold alive; by rewrite Hpc). split.
  - destruct (sv_held s) as [|n] eqn:Hn; [lia|]. exists (set_held n s).
    split; [by apply step_request_release|simpl; lia].
  - intros l s' Hs. destruct Hs as [s s' Hc| | |? _ Ho _| | | | | |]; simpl; try lia; [|congruence].
    unfold main_choices in Hc. rewrite Hpc in Hc. destruct (sv_defers s) as [|[] ds]; simpl in Hc;
      rewrite ?Hpool in Hc; try (destruct (sv_held s =? 0)%nat);
      try (by apply not_elem_of_nil in Hc); apply list_elem_of_singleton in Hc as ->; simpl; lia.
Qed.

(** ** The users of the pool *)
Ltac in_defers := unfold defers_5, defers_4, defers_3; solve [repeat first [by left | right]].

Lemma pool_is_open s :
  inv s -> DPoolClose ∈ sv_defers s -> (forall code, sv_pc s <> Return code) -> sv_pool s = PoolOpen.
Proof.
  intros [_ _ Hp Hcl _ _ _ _] Hin Hpc. unfold pool_ok, pool_needs in Hp. destruct (sv_pool s) eqn:E; try done.
  destruct (Hcl E) as (code & Hx & _). by destruct (Hpc code).
Qed.

Lemma worker_running s :
  inv s -> (exists p, sv_ingest s = Running p) \/ (exists p, sv_retention s = Running p) ->
  sv_pool s = PoolOpen /\ migrated (sv_mig s).
Proof.
  intros Hinv Hr. assert (DPoolClose ∈ sv_defers s /\ (forall code, sv_pc s <> Return code) /\ migrated (sv_mig s))
    as (Hin & Hpc & Hm); [|split; [by apply pool_is_open|done]].
  destruct Hinv as [Hd Hk _ _ _ _ _ _].
  unfold known_at, before_workers, ended, not_running in Hk. unfold defers_at in Hd.
  destruct (sv_pc s); destruct_and? Hk;
    first [exfalso; destruct Hr as [[? Hr]|[? Hr]]; rewrite Hr in *; naive_solver
          | split_and!; [rewrite Hd; in_defers|done|assumption]].
Qed.

Lemma request_running s :
  inv s -> connections (sv_http s) ->
  (sv_pool s = PoolOpen \/ sv_pc s = Return 1 \/ sv_pc s = Exited 1) /\ migrated (sv_mig s).
Proof.
  intros Hinv Hc. pose proof Hinv as [Hd Hk _ _ _ _ Hm _].
  split; [|apply Hm; by destruct Hc as [-> | ->]].
  assert (sv_http s <> HttpOff /\ sv_http s <> HttpShut) as [H1 H2] by (by destruct Hc as [-> | ->]).
  unfold known_at, before_workers, ended in Hk. unfold defers_at in Hd.
  destruct (sv_pc s) eqn:Hpc; destruct_and? Hk;
    first [exfalso; congruence | left; apply pool_is_open; [done|rewrite Hd; in_defers|by rewrite Hpc] | right].
  all: match goal with Hor : _ = 0 \/ _ = 1, Hz : _ = 0 -> _ |- _ =>
         destruct Hor as [-> | ->]; [destruct (Hz eq_refl) as (_ & ? & _); congruence|auto] end.
Qed.

(** Who uses the pool in a step. *)
Lemma pool_user s c s' :
  step s (LUse c) s' ->
  (c = IngestClient /\ exists p, sv_ingest s = Running p) \/
  (c = RetentionRunner /\ exists p, sv_retention s = Running p) \/
  (c = RequestHandler /\ alive s /\ sv_handlers s <> 0%nat).
Proof.
  intros Hs. inversion Hs as [|? p o|? p o|? Ha Hp Hlt|? Ha Hp Hlt| | | | |]; subst.
  - left. split; [by destruct o as [| | | | | | |[]| |]; simplify_eq/=|by eexists].
  - right; left. split; [by destruct o as [| | | | | | |[]| |]; simplify_eq/=|by eexists].
  - right; right. split_and!; [done|done|lia].
  - right; right. split_and!; [done|done|lia].
Qed.

Lemma exited_state s code :
  inv s -> sv_pc s = Exited code ->
  (code = 0 \/ code = 1) /\ not_running (sv_ingest s) /\ not_running (sv_retention s) /\
  (sv_pool s = PoolUnopened \/ sv_pool s = PoolClosed) /\ sv_held s = 0%nat /\ sv_defers s = [] /\
  (code = 0 -> sv_ctx s = true /\ sv_ingest s = Done /\ sv_retention s = Done /\ sv_handlers s = 0%nat).
Proof.
  intros [Hd Hk Hp _ [Hle Hheld] Hh _ _] Hpc. unfold known_at, ended, pool_ok, pool_needs in *.
  rewrite Hpc in *. simpl in Hd. rewrite Hd in Hp. destruct Hk as (H1 & H2 & H3 & H4).
  assert (sv_pool s = PoolUnopened \/ sv_pool s = PoolClosed) as Hpool
    by (destruct (sv_pool s); auto; by apply not_elem_of_nil in Hp).
  split_and!; [done..| |done|].
  - destruct (sv_held s) as [|n]; [done|]. destruct Hpool, Hheld; congruence.
  - intros ->. destruct H4 as (Hc & Hsh & _ & Hi & Hr); [done|]. split_and!; [done..|].
    destruct (sv_handlers s) as [|n]; [done|]. destruct Hh as [Hx|Hx]; [done| |]; congruence.
Qed.
End process.

(** ** The runs of the goroutines in the process *)
Section goroutines.
Context `{PgTime} {S : Type}.
Variable sql_exec : string -> S -> option S.
Variable read_dir : error + list (string * bool).
Variable read_file : string -> error + string.
Variable env : Environ.
Abbreviation State := (Serve.State S).
Abbreviation step := (serve_step sql_exec read_dir read_file env).

(** A step of the goroutine of [c], or the signal. *)
Definition steps_of (c : client) (s s' : State) : Prop :=
  exists l, step s l s' /\ (l = LWork c \/ l = LArrive c \/ l = LUse c \/ (l = LEnv /\ s' = set_ctx s)).

Lemma work_label_of c o : let l := work_label c o in l = LWork c \/ l = LArrive c \/ l = LUse c.
Proof. destruct o as [| | | | | | |[]| |]; simpl; auto. Qed.

Lemma ingest_steps_of s p o p' d :
  alive s -> sv_ingest s = Running p -> ingest_step (ingest_ctx_done s) p (sv_db s) o p' d ->
  steps_of IngestClient s (set_db d (set_ingest (after p') (sv_ingestCancel s) s)).
Proof.
  intros Ha Hr Hs. exists (work_label IngestClient o). split; [by eapply step_ingest|].
  destruct (work_label_of IngestClient o) as [?|[?|?]]; auto.
Qed.

Lemma retention_steps_of s p o p' d :
  alive s -> sv_retention s = Running p ->
  retention_step (Retention.ConfigFromEnv env) (retention_ctx_done s) p (sv_db s) o p' d ->
  steps_of RetentionRunner s (set_db d (set_retention (after p') (sv_retentionCancel s) s)).
Proof.
  intros Ha Hr Hs. exists (work_label RetentionRunner o). split; [by eapply step_retention|].
  destruct (work_label_of RetentionRunner o) as [?|[?|?]]; auto.
Qed.

Lemma signal_steps_of c s : alive s -> steps_of c s (set_ctx s).
Proof. intros Ha. exists LEnv. split; [by apply step_signal|auto]. Qed.

(** The signal comes when the flags of a path say so. *)
Lemma signal_when s (now : bool) :
  alive s -> (ingest_ctx_done s = true -> now = true) ->
  exists s', rtc (steps_of IngestClient) s s' /\ alive s' /\ sv_ingest s' = sv_ingest s /\ sv_db s' = sv_db s /\
    ingest_ctx_done s' = now.
Proof.
  intros Ha Hn. destruct (ingest_ctx_done s) eqn:Hd.
  - exists s. split_and!; [apply rtc_refl|done|done|done|by rewrite Hd, Hn].
  - destruct now; [|exists s; by split_and!; [apply rtc_refl|..]].
    exists (set_ctx s). split_and!; [apply rtc_once, signal_steps_of; done|done|done|done|done].
Qed.

Lemma is_done_looked o c : is_done c = true -> is_done (looked o c) = true.
Proof. unfold looked. destruct c as [[|n]|]; simpl; try done. by destruct (look o). Qed.

Lemma ingest_lifts p d l p' d' c c' (s : State) :
  ingest_path p d l p' d' -> cancels c l c' ->
  alive s -> sv_ingest s = after p -> sv_db s = d -> ingest_ctx_done s = is_done c ->
  exists s', rtc (steps_of IngestClient) s s' /\ sv_ingest s' = after p' /\ sv_db s' = d'.
Proof.
  intros Hp. revert s c. induction Hp as [p d|p d dn o p1 d1 l p2 d2 Hs _ IH]; intros s c Hc Ha Hi Hd Hdone.
  { exists s. split_and!; [apply rtc_refl|done|done]. }
  destruct Hc as [-> Hc]. subst d. rewrite <- Hdone in Hs.
  pose proof (ingest_steps_of _ _ _ _ _ Ha Hi Hs) as H1.
  set (s1 := set_db d1 _) in H1.
  destruct (signal_when s1 (is_done (looked o c))) as (s2 & H2 & Ha2 & Hi2 & Hd2 & Hn2);
    [exact Ha| |].
  { intros Ht. apply is_done_looked. rewrite <- Hdone. exact Ht. }
  destruct (IH s2 _ Hc Ha2 Hi2 Hd2 Hn2) as (s3 & H3 & Hi3 & Hd3).
  exists s3. split_and!; [|done|done]. eapply rtc_l; [exact H1|]. by etrans.
Qed.

Lemma retention_lifts p d l p' d' (s : State) :
  retention_path (Retention.ConfigFromEnv env) p d l p' d' -> Forall done_when_taken l ->
  alive s -> sv_retention s = after p -> sv_db s = d -> (retention_ctx_done s = true -> p = None) ->
  exists s', rtc (steps_of RetentionRunner) s s' /\ sv_retention s' = after p' /\ sv_db s' = d'.
Proof.
  intros Hp. revert s. induction Hp as [p d|p d dn o p1 d1 l p2 d2 Hs _ IH]; intros s Hf Ha Hi Hd Hdone.
  { exists s. split_and!; [apply rtc_refl|done|done]. }
  apply Forall_cons in Hf as [Hdn Hf]. unfold done_when_taken in Hdn. cbn in Hdn. subst d.
  assert (exists s0, rtc (steps_of RetentionRunner) s s0 /\ alive s0 /\ sv_retention s0 = Running p /\
    sv_db s0 = sv_db s /\ retention_ctx_done s0 = dn) as (s0 & H0 & Ha0 & Hr0 & Hd0 & Hdn0).
  { destruct (retention_ctx_done s) eqn:Hc; [by specialize (Hdone eq_refl)|]. destruct dn.
    - exists (set_ctx s). split_and!; [apply rtc_once, signal_steps_of; done|done..].
    - exists s. split_and!; [apply rtc_refl|done..]. }
  rewrite <- Hd0, <- Hdn0 in Hs. pose proof (retention_steps_of _ _ _ _ _ Ha0 Hr0 Hs) as H1.
  set (s1 := set_db d1 _) in H1. destruct (IH s1 Hf) as (s3 & H3 & Hi3 & Hd3); [done..| |].
  { intros Ht. change (retention_ctx_done s1) with (retention_ctx_done s0) in Ht. rewrite Hdn0 in Ht. subst dn.
    inversion Hs; subst; try done; rewrite Hdn0 in *; congruence. }
  exists s3. split_and!; [|done|done]. etrans; [exact H0|]. eapply rtc_l; [exact H1|exact H3].
Qed.
End goroutines.

(** * Properties *)

(** C11: The pool outlives its users.  Whatever the signals, server failures and
    interleavings, whenever the ingest client or the retention runner uses the
    pool it is open and every migration is recorded; a request meets a closed pool
    only while the process is already returning 1 (the server had failed, or the
    shutdown deadline passed). *)
Theorem serve_pool_safety `{PgTime} {S} (sql_exec : string -> S -> option S) read_dir read_file env s c s' :
  serves sql_exec read_dir read_file env s ->
  serve_step sql_exec read_dir read_file env s (LUse c) s' ->
  migrated read_dir (sv_mig s) /\
  match c with
  | IngestClient | RetentionRunner => sv_pool s = PoolOpen
  | RequestHandler => sv_pool s = PoolOpen \/ sv_pc s = Return 1
  end.
Proof.
  intros Hi%serves_inv Hs. apply pool_user in Hs as [[-> Hr]|[[-> Hr]|(-> & Ha & Hn)]].
  - destruct (worker_running _ s Hi) as [Hp Hm]; [by left|]. done.
  - destruct (worker_running _ s Hi) as [Hp Hm]; [by right|]. done.
  - destruct (request_running _ s Hi) as [[Hp|[Hp|Hp]] Hm]; [by apply Hi|by auto|by auto|].
    unfold alive in Ha. by rewrite Hp in Ha.
Qed.

(** C13: The process stops.  In any run at most 31 steps lead towards the exit, those
    of the main goroutine and those of a worker whose context is done, and one more
    for every arrival at such a worker (a timer, a tick or a message that comes
    with the cancellation).  At every moment such a step is possible, unless the
    process has exited, or main is in its select with neither a signal nor a server
    error, or it is returning 1 and waits in pool.Close for requests that still hold
    a connection: then each of them can give it back and none is handed out.  So
    after a stop request nothing but a hanging request blocks the exit.  The process
    exits with 0 or 1, no worker running, the pool not open, no connection held and
    every deferred call made; with 0 only after a signal, with both workers finished
    and no request in flight. *)
Theorem serve_stops `{PgTime} {S} (sql_exec : string -> S -> option S) read_dir read_file env dialer mig db ls s :
  mw_working mig = None ->
  run sql_exec read_dir read_file env (initial dialer mig db) ls s ->
  let step := serve_step sql_exec read_dir read_file env in
  (progress_steps ls <= 31 + late_steps ls)%nat /\
  ((exists code, sv_pc s = Exited code) \/ (sv_pc s = AtSelect /\ ~ stop_requested s) \/
   (waits_in_close s /\ (exists s', step s LRelease s' /\ (sv_held s' < sv_held s)%nat) /\
    forall l s', step s l s' -> (sv_held s' <= sv_held s)%nat) \/
   exists l s', progress s l = true /\ step s l s') /\
  forall code, sv_pc s = Exited code ->
    (code = 0 \/ code = 1) /\ not_running (sv_ingest s) /\ not_running (sv_retention s) /\
    (sv_pool s = PoolUnopened \/ sv_pool s = PoolClosed) /\ sv_held s = 0%nat /\ sv_defers s = [] /\
    (code = 0 -> sv_ctx s = true /\ sv_ingest s = Done /\ sv_retention s = Done /\ sv_handlers s = 0%nat).
Proof.
  intros Hw Hrun step. pose proof (initial_inv read_dir dialer mig db Hw) as H0.
  pose proof (run_measure _ _ _ _ _ _ _ H0 Hrun) as Hm. pose proof (run_inv _ _ _ _ _ _ _ H0 Hrun) as Hi.
  split; [unfold measure at 2 in Hm; simpl in Hm; lia|]. split.
  - destruct (progress_enabled sql_exec read_dir read_file env s Hi) as [?|[?|[Hc|?]]]; [by auto|by auto| |by auto].
    right; right; left. split; [done|]. by apply (close_drains sql_exec read_dir read_file env).
  - intros code Hpc. by apply (exited_state read_dir).
Qed.

(** C14: The goroutines of the process are the components verified on their own.  In
    any state of the process whose ingest goroutine is about to start, take a run of
    the client on an idle connection to its tables, for any configuration, backend,
    failures, fuel and cancellation.  It is a path of the goroutine's steps: the
    flags of the path are those of a context done after the looks the run was given,
    the replies of the backend it hears are, cycle by cycle, a prefix of what the
    backend says, every store operation is the one its place calls for, and the path
    ends where the run does, with the same tables; and it is a sequence of steps of
    the process, with the signal at the cancellation.  The same for a run of the
    retention runner, whose selects are taken in the order given until the context
    is done. *)
Theorem workers_refine `{PgTime} {S} (sql_exec : string -> S -> option S) read_dir read_file env (s : State S) :
  let steps := steps_of sql_exec read_dir read_file env in
  alive s ->
  (forall pg_clock clock Int64N cfg fuel envs attempt (w : Ingest.World PgStore),
     sv_ingest s = Running (IRunCheck attempt) -> ingest_ctx_done s = is_done (Ingest.w_cancel w) ->
     idle w -> tables w = sv_db s ->
     let '(r, w') := Ingest.Run (H := pg_data_store pg_clock) clock Int64N cfg fuel envs attempt w in
     exists l p cycles s',
       ingest_path (Some (IRunCheck attempt)) (tables w) l p (tables w') /\
       cancels (Ingest.w_cancel w) l (Ingest.w_cancel w') /\
       replies l = concat cycles /\ Forall2 prefix cycles (script <$> take (length cycles) envs) /\
       run_end r p /\ (forall a, r = Ingest.Running a -> length cycles = length envs) /\
       rtc (steps IngestClient) s s' /\ sv_ingest s' = after p /\ sv_db s' = tables w') /\
  (forall clock selects (w : Retention.World Session),
     let cfg := Retention.ConfigFromEnv env in
     sv_retention s = Running RPass -> retention_ctx_done s = false ->
     working (Retention.w_store w) = None -> committed (Retention.w_store w) = sv_db s ->
     let '(r, w') := Retention.Run clock cfg selects w in
     exists l p s',
       retention_path cfg (Some RPass) (sv_db s) l p (committed (Retention.w_store w')) /\
       selects_of l `prefix_of` selects /\ Forall done_when_taken l /\
       match r with
       | Returned => p = None | Ticking => p = Some RSelect /\ selects_of l = selects | Panicked => False
       end /\
       rtc (steps RetentionRunner) s s' /\ sv_retention s' = after p /\
       sv_db s' = committed (Retention.w_store w')).
Proof.
  intros steps Ha. split.
  - intros pg_clock clock Int64N cfg fuel envs attempt w Hr Hc Hw Hd.
    pose proof (Run_goes pg_clock clock Int64N cfg fuel envs attempt w Hw) as Hg.
    unfold client_store in Hg.
    destruct (Ingest.Run clock Int64N cfg fuel envs attempt w) as [r w'].
    destruct Hg as (cycles & p & (_ & l & Hl & Hcan & Hrep) & Hpre & He & Hn).
    destruct (ingest_lifts sql_exec read_dir read_file env _ _ _ _ _ _ _ s Hl Hcan Ha Hr (eq_sym Hd) Hc)
      as (s' & Hs' & Hi' & Hd'). exists l, p, cycles, s'. by split_and!.
  - intros clock selects w cfg Hr Hc Hw Hd.
    pose proof (runner_Run_goes clock cfg selects w (proj1 (config_interval env)) Hw) as Hg.
    destruct (Retention.Run clock cfg selects w) as [r w'].
    destruct Hg as (taken & p & (_ & l & Hl & Hsel & Hf) & Hpre & He). rewrite Hd in Hl.
    destruct (retention_lifts sql_exec read_dir read_file env _ _ _ _ _ s Hl Hf Ha Hr eq_refl)
      as (s' & Hs' & Hi' & Hd'); [by rewrite Hc|]. subst taken. exists l, p, s'. by split_and!.
Qed.

(** * Concrete inputs *)
Abbreviation demo_step := (serve_step demo_exec (inr demo_entries) demo_read empty_env).
Abbreviation demo_choices := (main_choices demo_exec (inr demo_entries) demo_read).

(** The main goroutine taking its first choice [n] times. *)
Definition main_next (s : State (list string)) : State (list string) := hd s (demo_choices s).

Definition demo_dialer : Dialer :=
  {| dial_tries := [NewFails ErrNoRows]; dial_cancel := None; dial_count := 0; dial_open := 0; dial_waits := 0 |}.

Definition demo_start : State (list string) :=
  initial demo_dialer (quiet_mig {| versions := None; schema := [] |}) empty_db.

(** Both workers running, requests served, main in its select. *)
Definition demo_serving : State (list string) := Nat.iter 6 main_next demo_start.

Lemma main_next_step s :
  match demo_choices s with [] => false | _ => true end = true -> demo_step s LMain (main_next s).
Proof.
  intros Hne. apply step_main. unfold main_next. destruct (demo_choices s) as [|s' l]; [done|by left].
Qed.

Lemma demo_serving_run : exists ls, run demo_exec (inr demo_entries) demo_read empty_env demo_start ls demo_serving.
Proof.
  eexists. unfold demo_serving. cbn [Nat.iter nat_rect].
  do 6 (eapply run_cons; [apply main_next_step; vm_compute; reflexivity|]).
  apply run_nil.
Qed.

Lemma run_rtc {S} (sql_exec : string -> S -> option S) read_dir read_file env a ls b :
  run sql_exec read_dir read_file env a ls b ->
  rtc (fun a b => exists l, serve_step sql_exec read_dir read_file env a l b) a b.
Proof. induction 1 as [|a l b ls c Hs _ IH]; [apply rtc_refl|]. eapply rtc_l; [by exists l|exact IH]. Qed.

Lemma demo_serves : serves demo_exec (inr demo_entries) demo_read empty_env demo_serving.
Proof.
  exists demo_dialer, (quiet_mig {| versions := None; schema := [] |}), empty_db. split; [done|].
  destruct demo_serving_run as [ls Hr]. by eapply run_rtc.
Qed.

Lemma demo_alive : alive demo_serving.
Proof. vm_compute. exact I. Qed.

Lemma run_snoc {S} (sql_exec : string -> S -> option S) read_dir read_file env a ls b l c :
  run sql_exec read_dir read_file env a ls b -> serve_step sql_exec read_dir read_file env b l c ->
  run sql_exec read_dir read_file env a (ls ++ [(b, l)]) c.
Proof.
  induction 1 as [a|a l' b ls d Hs _ IH]; intros Hl; simpl; [|by eapply run_cons; [|apply IH]].
  eapply run_cons; [exact Hl|apply run_nil].
Qed.

(** A signal: both goroutines return, the deferred calls run, and the process exits
    0; a connection that a request of a failed server holds keeps it in pool.Close. *)
Example demo_shutdown :
  let s1 := Nat.iter 3 main_next (set_ctx demo_serving) in
  let s2 := set_retention Done true (set_ingest Done true s1) in
  let s3 := Nat.iter 11 main_next s2 in
  let t1 := set_held 1 (set_http HttpFailed true 1 s2) in
  let t2 := Nat.iter 20 main_next t1 in
  sv_pc demo_serving = AtSelect /\ sv_ingest demo_serving = Running (IRunCheck 0) /\
  sv_pc s1 = AtJoinIngest OnSignal /\ sv_pc s3 = Exited 0 /\ sv_pool s3 = PoolClosed /\
  waits_in_close t2 /\ sv_pc (Nat.iter 10 main_next (set_held 0 t2)) = Exited 1.
Proof. split_and!; vm_compute; try reflexivity. split_and!; [done|done|lia]. Qed.

Lemma serve_pool_safety_witness : sv_pool demo_serving = PoolOpen.
Proof.
  destruct (op_run_total (OpRetention (AddDate_days 0 (- RetentionDays (Retention.ConfigFromEnv empty_env))))
    (sv_db demo_serving)) as (err & d & Ho).
  refine (proj2 (serve_pool_safety demo_exec (inr demo_entries) demo_read empty_env demo_serving RetentionRunner
    _ demo_serves _)).
  eapply (step_retention demo_exec (inr demo_entries) demo_read empty_env demo_serving RPass (OStore _ err));
    [exact demo_alive|vm_compute; reflexivity|]. by apply passed.
Defined.

Lemma demo_signal_run :
  exists ls, run demo_exec (inr demo_entries) demo_read empty_env demo_start ls (set_ctx demo_serving).
Proof.
  destruct demo_serving_run as [ls Hr]. eexists. eapply run_snoc; [exact Hr|]. apply step_signal, demo_alive.
Qed.

Lemma serve_stops_witness : exists l s', progress (set_ctx demo_serving) l = true /\ demo_step (set_ctx demo_serving) l s'.
Proof.
  destruct demo_signal_run as [ls Hr].
  destruct (serve_stops demo_exec (inr demo_entries) demo_read empty_env demo_dialer
    (quiet_mig {| versions := None; schema := [] |}) empty_db ls _ eq_refl Hr)
    as (_ & [[code Hc]|[[_ Hn]|[[[Hc _] _]|Hp]]] & _).
  - vm_compute in Hc. discriminate Hc.
  - exfalso. apply Hn. left. reflexivity.
  - vm_compute in Hc. discriminate Hc.
  - exact Hp.
Defined.

(** One cycle of the client, with a stream of three events, one of them malformed. *)
Lemma workers_refine_witness :
  let w := Ingest.initial_world {| pg_session := quiet_session empty_db; pg_txs := 0 |} None in
  let '(r, w') := Ingest.Run (H := pg_data_store (fun _ => 0)) (fun _ => 0) (fun _ n => n - 1)
    (Ingest.ConfigFromEnv empty_env) 3 [demo_env] 0 w in
  exists l p s', ingest_path (Some (IRunCheck 0)) (tables w) l p (tables w') /\
    rtc (steps_of demo_exec (inr demo_entries) demo_read empty_env IngestClient) demo_serving s' /\
    sv_db s' = tables w'.
Proof.
  intros w. destruct (workers_refine demo_exec (inr demo_entries) demo_read empty_env demo_serving demo_alive)
    as [Hrun _].
  specialize (Hrun (fun _ => 0) (fun _ => 0) (fun _ n => n - 1) (Ingest.ConfigFromEnv empty_env) 3%nat [demo_env]
    0 w ltac:(vm_compute; reflexivity) ltac:(vm_compute; reflexivity) eq_refl ltac:(vm_compute; reflexivity)).
  destruct (Ingest.Run _ _ _ _ _ _ w) as [r w']. destruct Hrun as (l & p & cycles & s' & Hp & _ & _ & _ & _ & _ & Hr & _ & Hd).
  by exists l, p, s'.
Defined.
