(* ===== verification/Txn.v ===== *)
(** * Txn: the ingestion transactions statement by statement

    [Session] runs a transaction in one piece.  Here IngestEvent and
    IngestEventsBatch are trees of the statements they send, for the interleaved
    execution of [Interleave]: the rows a statement locks, the rows a transaction
    has written so far (its overlay on the committed tables), and the lemma that
    makes interleaving harmless, [exec_local]: a statement depends on nothing but
    the rows it locks and on which of its event keys exist. *)
From S2P Require Import Prelude Database Tables Session Store StoreBatch BatchEquiv Invariant.
Local Open Scope Z_scope.

(** ** Statements *)
Inductive stmt :=
| InsertEvent (now : pg_time) (e : EventInput)
| UpsertBucket (now : pg_time) (e : EventInput)
| UpsertItem (i : ItemInput)
| BatchEvents (now : pg_time) (rows : list EventInput)
| BatchItems (rows : list ItemInput).

(** The result is the row count the code looks at. *)
Definition exec (s : stmt) (d : DB) : stmt_result Z :=
  match s with
  | InsertEvent now e => insert_item_event now e d
  | UpsertBucket now e => sbind (upsert_bucket now e d) (fun _ d' => SOk 1 d')
  | UpsertItem i => sbind (upsert_current_item i d) (fun _ d' => SOk 1 d')
  | BatchEvents now rows => sbind (batch_insert_events now rows d) (fun counts d' => SOk counts.1 d')
  | BatchItems rows => sbind (batch_upsert_current_items rows d) (fun _ d' => SOk 0 d')
  end.

(** ** Rows *)
Record rows := { r_events : gset event_key; r_buckets : gset bucket_key; r_items : gset Z }.

(** The new event rows of a statement, given the events it sees. *)
Definition stmt_inserts (s : stmt) (d : DB) : list EventInput :=
  match s with
  | InsertEvent _ e => new_rows (er_name <$> item_events d) [e]
  | BatchEvents _ rows => new_rows (er_name <$> item_events d) rows
  | _ => []
  end.

(** The rows a statement locks: those it inserts or updates.  ON CONFLICT DO
    NOTHING does not lock the row it found. *)
Definition touches (s : stmt) (d : DB) : rows :=
  {| r_events := list_to_set (event_input_key <$> stmt_inserts s d);
     r_buckets := match s with
                  | UpsertBucket _ e => {[event_bucket_key e]}
                  | BatchEvents _ _ => dom (bucket_deltas (stmt_inserts s d))
                  | _ => ∅ end;
     r_items := match s with
                | UpsertItem i => {[ii_item_id i]}
                | BatchItems l => list_to_set (ii_item_id <$> l)
                | _ => ∅ end |}.

(** The event keys a statement offers. *)
Definition offers (s : stmt) : list EventInput :=
  match s with InsertEvent _ e => [e] | BatchEvents _ l => l | _ => [] end.

(** ** Overlays: the rows a transaction has written and not committed *)
Record overlay := {
  o_events : gmap event_key EventRow;
  o_buckets : gmap bucket_key BucketRow;
  o_items : gmap Z ItemRow
}.

Definition no_writes : overlay := {| o_events := ∅; o_buckets := ∅; o_items := ∅ |}.

(** What the transaction sees: its own rows over the committed ones. *)
Definition view (c : DB) (w : overlay) : DB :=
  {| item_events := o_events w ∪ item_events c; event_buckets := o_buckets w ∪ event_buckets c;
     current_items := o_items w ∪ current_items c; seed_marker := seed_marker c |}.

Definition restrict {K V} `{Countable K} (l : gset K) (m : gmap K V) : gmap K V :=
  filter (fun p => p.1 ∈ l) m.

(** The rows [l] as [d] has them, and one overlay over another: [over (changes l d)
    w] is what a transaction that had written [w] has written after a statement
    that locked [l] and left [d]. *)
Definition changes (l : rows) (d : DB) : overlay :=
  {| o_events := restrict (r_events l) (item_events d);
     o_buckets := restrict (r_buckets l) (event_buckets d);
     o_items := restrict (r_items l) (current_items d) |}.

Definition over (a b : overlay) : overlay :=
  {| o_events := o_events a ∪ o_events b; o_buckets := o_buckets a ∪ o_buckets b;
     o_items := o_items a ∪ o_items b |}.

Definition written (w : overlay) : rows :=
  {| r_events := dom (o_events w); r_buckets := dom (o_buckets w); r_items := dom (o_items w) |}.

Definition rows_disjoint (a b : rows) : Prop :=
  r_events a ## r_events b /\ r_buckets a ## r_buckets b /\ r_items a ## r_items b.

(** ** Transactions *)
Inductive tx := TxCommit | TxExec (s : stmt) (k : Z -> tx).

Fixpoint tx_effect (t : tx) (d : DB) : stmt_result unit :=
  match t with
  | TxCommit => SOk tt d
  | TxExec s k => sbind (exec s d) (fun n d' => tx_effect (k n) d')
  end.

Section store_txs.
Context `{PgTime}.

Definition item_tx (ev : EventRecord) : tx := TxExec (UpsertItem (item_of_event ev)) (fun _ => TxCommit).

Definition bucket_tx (now : pg_time) (ev : EventRecord) : tx :=
  TxExec (UpsertBucket now (encode_event ev)) (fun _ => item_tx ev).

(** The statements between IngestEvent's Begin and Commit. *)
Definition ingest_tx (now : pg_time) (ev : EventRecord) : tx :=
  TxExec (InsertEvent now (encode_event ev)) (fun tag =>
  if tag =? 1 then bucket_tx now ev else item_tx ev).

Definition batch_items_tx (evs : list EventRecord) : tx :=
  TxExec (BatchItems (encode_folded <$> default [] (foldCurrentItems evs))) (fun _ => TxCommit).

(** Those of IngestEventsBatch; an empty batch opens no transaction. *)
Definition batch_tx (now : pg_time) (evs : list EventRecord) : tx :=
  TxExec (BatchEvents now (encode_event <$> evs)) (fun _ => batch_items_tx evs).

Definition tx_of (op : store_op) : option tx :=
  match op with
  | OpIngest now ev => Some (ingest_tx now ev)
  | OpBatch now evs => if (length evs =? 0)%nat then None else Some (batch_tx now evs)
  | _ => None
  end.

(** The trees are the operations. *)
Lemma tx_of_effect op t d : tx_of op = Some t -> res_db (tx_effect t d) = op_after op d.
Proof.
  destruct op as [now ev|now evs| | |]; simpl; [| |done..].
  - intros [= <-]. unfold ingest_effect, sbind. simpl.
    destruct (insert_item_event _ _ d) as [tag d1|e]; simpl; [|done].
    destruct (tag =? 1); unfold sbind; simpl; [|done]. by destruct (upsert_bucket _ _ d1) as [u d2|e].
  - unfold batch_effect. destruct (length evs =? 0)%nat; [done|]. intros [= <-].
    destruct (foldCurrentItems_spec evs) as (folded & Hf & _). unfold batch_tx, batch_items_tx, sbind.
    rewrite Hf. simpl.
    destruct (batch_insert_events _ _ d) as [counts d1|e]; simpl; [|done].
    unfold sbind. by destruct (batch_upsert_current_items _ d1) as [u d2|e].
Qed.
End store_txs.

(** ** Locality *)
Lemma lookup_patch {K V} `{Countable K} (l : gset K) (m m2 : gmap K V) k :
  (restrict l m ∪ m2) !! k =
    if decide (k ∈ l) then match m !! k with Some x => Some x | None => m2 !! k end else m2 !! k.
Proof.
  rewrite lookup_union. unfold restrict. rewrite map_lookup_filter.
  destruct (m !! k) as [x|]; simpl; repeat case_decide || case_guard; destruct (m2 !! k); naive_solver.
Qed.

(** The row the first offer of a key would store. *)
Fixpoint first_row (now : pg_time) (l : list EventInput) (k : event_key) : option EventRow :=
  match l with
  | [] => None
  | e :: l' => if decide (event_input_key e = k)
               then Some {| er_name := ei_item_name e; er_received_at := now |} else first_row now l' k
  end.

Lemma first_row_in now l k : is_Some (first_row now l k) <-> exists e, e ∈ l /\ event_input_key e = k.
Proof.
  induction l as [|e l IH]; simpl.
  - split; [by intros [? ?]|by intros (? & ?%not_elem_of_nil & _)].
  - setoid_rewrite elem_of_cons. case_decide; [split; [|by eauto]; naive_solver|]. rewrite IH. naive_solver.
Qed.

Lemma insert_or_nothing_lookup now e m k :
  insert_or_nothing now e m !! k =
    match m !! k with Some x => Some x | None => first_row now [e] k end.
Proof.
  unfold insert_or_nothing; simpl. destruct (m !! event_input_key e) as [x|] eqn:E.
  - destruct (m !! k) eqn:Ek; [done|]. rewrite decide_False by congruence. done.
  - rewrite lookup_insert. case_decide; subst; [by rewrite E|]. by destruct (m !! k).
Qed.

Lemma ins_cte_lookup now l m k :
  (ins_cte now l m).1 !! k = match m !! k with Some x => Some x | None => first_row now l k end.
Proof.
  unfold ins_cte. generalize (@nil EventInput). revert m. induction l as [|e l IH]; intros m ins; simpl.
  { by destruct (m !! k). }
  destruct (m !! event_input_key e) as [x|] eqn:E.
  - rewrite IH. destruct (m !! k) eqn:Ek; [done|]. by rewrite decide_False by congruence.
  - rewrite IH, insert_or_nothing_lookup. simpl. destruct (m !! k); [done|]. by case_decide.
Qed.

Lemma new_rows_keys n l k :
  k ∈ (event_input_key <$> new_rows n l) <-> n !! k = None /\ exists e, e ∈ l /\ event_input_key e = k.
Proof.
  revert n. induction l as [|e l IH]; intros n; simpl.
  { split; [by intros ?%not_elem_of_nil|by intros (_ & ? & ?%not_elem_of_nil & _)]. }
  setoid_rewrite elem_of_cons. destruct (n !! event_input_key e) as [x|] eqn:E.
  - rewrite IH. naive_solver.
  - rewrite fmap_cons, elem_of_cons, IH, names_add_lookup.
    destruct (n !! k) eqn:Ek; [naive_solver congruence|]. case_decide; naive_solver.
Qed.

(** The events part of a statement: rows offered to [m] and to [m2], which agree
    on what is stored. *)
Definition same_stored (l : list EventInput) (m m2 : gmap event_key EventRow) : Prop :=
  forall e, e ∈ l -> is_Some (m !! event_input_key e) <-> is_Some (m2 !! event_input_key e).

Lemma same_stored_new l m m2 :
  same_stored l m m2 -> new_rows (er_name <$> m2) l = new_rows (er_name <$> m) l.
Proof.
  intros Hs. apply new_rows_ext. intros e He. specialize (Hs e He).
  rewrite <- !events_none_view, !eq_None_not_Some. tauto.
Qed.

Lemma events_patch (l : list EventInput) (m m2 m' m2' : gmap event_key EventRow) (first : event_key -> option EventRow) :
  same_stored l m m2 ->
  (forall k, m' !! k = match m !! k with Some x => Some x | None => first k end) ->
  (forall k, m2' !! k = match m2 !! k with Some x => Some x | None => first k end) ->
  (forall k, is_Some (first k) -> exists e, e ∈ l /\ event_input_key e = k) ->
  restrict (list_to_set (event_input_key <$> new_rows (er_name <$> m) l)) m' ∪ m2 = m2'.
Proof.
  intros Hs Hm Hm2 Hf. apply map_eq. intros k. rewrite lookup_patch, Hm2.
  destruct (decide _) as [Hin|Hnot].
  - apply elem_of_list_to_set, new_rows_keys in Hin as [Hnone (e & He & <-)].
    apply events_none_view in Hnone. rewrite Hm, Hnone.
    assert (m2 !! event_input_key e = None) as Hnone2
      by (apply eq_None_not_Some; rewrite <- (Hs e He), Hnone; by intros [? ?]).
    rewrite Hnone2. by destruct (first _).
  - destruct (m2 !! k) as [r2|] eqn:E2; [done|]. destruct (first k) as [r|] eqn:Ef; [|done]. exfalso.
    destruct (Hf k) as (e & He & <-); [by rewrite Ef|].
    apply Hnot, elem_of_list_to_set, new_rows_keys. split; [|by eauto].
    apply events_none_view, eq_None_not_Some. rewrite (Hs e He), E2. by intros [? ?].
Qed.

Lemma restrict_single {K V} `{Countable K} (k : K) (v : V) m m2 :
  restrict {[k]} (<[k := v]> m) ∪ m2 = <[k := v]> m2.
Proof.
  apply map_eq. intros k'. rewrite lookup_patch, !lookup_insert.
  repeat case_decide; set_solver.
Qed.

Lemma restrict_empty {K V} `{Countable K} (m m2 : gmap K V) : restrict ∅ m ∪ m2 = m2.
Proof. apply map_eq. intros k. by rewrite lookup_patch, decide_False by set_solver. Qed.

Lemma bucket_upsert_patch now g m m2 :
  (forall k, k ∈ dom g -> m2 !! k = m !! k) ->
  restrict (dom g) (bucket_upsert now g m) ∪ m2 = bucket_upsert now g m2.
Proof.
  intros Hk. apply map_eq. intros k. rewrite lookup_patch. unfold bucket_upsert.
  rewrite !lookup_union_with, lookup_fmap. destruct (decide _) as [Hin|Hnot].
  - rewrite (Hk k Hin). apply elem_of_dom in Hin as [x ->]. by destruct (m !! k).
  - apply not_elem_of_dom in Hnot. rewrite Hnot. by destruct (m2 !! k).
Qed.

Lemma deltas_fit_ext g m m2 :
  (forall k, k ∈ dom g -> m2 !! k = m !! k) -> deltas_fit g m2 = deltas_fit g m.
Proof.
  intros Hk. unfold deltas_fit. apply bool_decide_ext. unfold map_Forall, bucket_count.
  split; intros Hf k x Hx; specialize (Hf k x Hx); rewrite (Hk k) in * by (by eapply elem_of_dom_2); done.
Qed.

Lemma merge_items_patch l m m2 :
  (forall id, id ∈ (ii_item_id <$> l) -> m2 !! id = m !! id) ->
  restrict (list_to_set (ii_item_id <$> l)) (merge_items l m) ∪ m2 = merge_items l m2.
Proof.
  intros Hk. apply map_eq. intros id. rewrite lookup_patch, !merge_items_lookup.
  destruct (decide _) as [Hin|Hnot].
  - rewrite elem_of_list_to_set in Hin. rewrite (Hk id Hin). destruct (merge_all _ (m !! id)) eqn:E; [done|].
    rewrite merge_all_from in E. destruct (merge_all _ None) eqn:E2; [done|done].
  - rewrite elem_of_list_to_set in Hnot. by rewrite filter_id_none.
Qed.

(** What a statement may rely on: which of the keys it offers exist, and the
    bucket and item rows it locks. *)
Record same_for (offered : list EventInput) (l : rows) (d d2 : DB) : Prop := {
  same_keys : same_stored offered (item_events d) (item_events d2);
  same_buckets : forall k, k ∈ r_buckets l -> event_buckets d2 !! k = event_buckets d !! k;
  same_items : forall k, k ∈ r_items l -> current_items d2 !! k = current_items d !! k
}.

Lemma view_changes_intro l d' d2 d2' :
  restrict (r_events l) (item_events d') ∪ item_events d2 = item_events d2' ->
  restrict (r_buckets l) (event_buckets d') ∪ event_buckets d2 = event_buckets d2' ->
  restrict (r_items l) (current_items d') ∪ current_items d2 = current_items d2' ->
  seed_marker d2 = seed_marker d2' -> d2' = view d2 (changes l d').
Proof. unfold view; simpl. intros -> -> -> ->. by destruct d2'. Qed.

Lemma touches_same s d d2 :
  same_for (offers s) (touches s d) d d2 -> touches s d2 = touches s d.
Proof.
  intros [Hk _ _]. unfold touches. enough (stmt_inserts s d2 = stmt_inserts s d) as -> by done.
  destruct s as [now e| | |now l|]; try done; [apply (same_stored_new [e])|apply (same_stored_new l)]; exact Hk.
Qed.

Lemma insert_local now e d d2 n d' :
  exec (InsertEvent now e) d = SOk n d' ->
  same_for [e] (touches (InsertEvent now e) d) d d2 ->
  exec (InsertEvent now e) d2 = SOk n (view d2 (changes (touches (InsertEvent now e) d) d')).
Proof.
  intros Hrun [Hs _ _]. cbn [exec] in *. unfold insert_item_event in *.
  destruct (valid_event_type _); [|done]. injection Hrun as <- <-. f_equal.
  - pose proof (Hs e ltac:(by left)) as He.
    destruct (item_events d !! _), (item_events d2 !! _); try done; exfalso; naive_solver.
  - apply view_changes_intro; cbn [touches r_events r_buckets r_items stmt_inserts item_events set_item_events
      event_buckets current_items seed_marker]; [|apply restrict_empty|apply restrict_empty|done].
    eapply (events_patch [e]); [exact Hs|apply insert_or_nothing_lookup..|]. intros k. apply first_row_in.
Qed.

Lemma batch_local now l d d2 n d' :
  exec (BatchEvents now l) d = SOk n d' ->
  same_for l (touches (BatchEvents now l) d) d d2 ->
  exec (BatchEvents now l) d2 = SOk n (view d2 (changes (touches (BatchEvents now l) d) d')).
Proof.
  intros Hrun [Hs Hb _]. simpl in *. unfold batch_insert_events, sbind in *.
  destruct (forallb _ l); [|done].
  pose proof (ins_cte_view now l (item_events d)) as [_ Hn].
  pose proof (ins_cte_view now l (item_events d2)) as [_ Hn2].
  pose proof (ins_cte_lookup now l (item_events d)) as Hm.
  pose proof (ins_cte_lookup now l (item_events d2)) as Hm2.
  destruct (ins_cte now l (item_events d)) as [m ins], (ins_cte now l (item_events d2)) as [m2 ins2].
  simpl in *. rewrite (same_stored_new _ _ _ Hs) in Hn2. subst ins ins2.
  rewrite (deltas_fit_ext _ _ _ Hb). destruct (deltas_fit _ _); [|done]. injection Hrun as <- <-. f_equal.
  apply view_changes_intro; simpl; [| |apply restrict_empty|done].
  - eapply (events_patch l); [exact Hs|exact Hm|exact Hm2|]. intros k. apply first_row_in.
  - by apply bucket_upsert_patch.
Qed.

(** A statement that ran on [d] runs the same way on every [d2] that agrees, locks
    the same rows and changes only them. *)
Lemma exec_local s d d2 n d' :
  exec s d = SOk n d' -> same_for (offers s) (touches s d) d d2 ->
  exec s d2 = SOk n (view d2 (changes (touches s d) d')).
Proof.
  destruct s as [now e|now e|i|now l|l]; [apply insert_local| | |apply batch_local|]; intros Hrun [_ Hb Hi].
  - simpl in *. unfold upsert_bucket, sbind, bucket_count, bump_bucket in *.
    rewrite (Hb (event_bucket_key e)) by set_solver. destruct (valid_event_type _); [|done].
    destruct (_ <=? int8_max); [|done]. injection Hrun as <- <-. f_equal.
    apply view_changes_intro; simpl; [apply restrict_empty| |apply restrict_empty|done].
    apply restrict_single.
  - simpl in *. unfold upsert_current_item, sbind in *. rewrite (Hi (ii_item_id i)) by set_solver.
    injection Hrun as <- <-. f_equal.
    apply view_changes_intro; simpl; [apply restrict_empty|apply restrict_empty| |done]. apply restrict_single.
  - simpl in *. unfold batch_upsert_current_items, sbind in *. destruct (bool_decide _); [|done].
    injection Hrun as <- <-. f_equal.
    apply view_changes_intro; simpl; [apply restrict_empty|apply restrict_empty| |done].
    apply merge_items_patch. intros id Hid. apply Hi. by apply elem_of_list_to_set.
Qed.

Lemma exec_frame s d n d' : exec s d = SOk n d' -> d' = view d (changes (touches s d) d').
Proof.
  intros Hrun. pose proof (exec_local s d d n d' Hrun) as Hl. rewrite Hrun in Hl.
  assert (same_for (offers s) (touches s d) d d) as Hs by (by split). specialize (Hl Hs). congruence.
Qed.

Lemma view_over c a b : view c (over a b) = view (view c b) a.
Proof. unfold view, over; simpl. by rewrite !(assoc_L (∪)). Qed.

Lemma view_no_writes c : view c no_writes = c.
Proof. destruct c. unfold view; simpl. by rewrite !(left_id_L ∅ (∪)). Qed.

(** A locked row exists afterwards. *)
Lemma exec_writes s d n d' :
  exec s d = SOk n d' ->
  r_events (touches s d) ⊆ dom (item_events d') /\ r_buckets (touches s d) ⊆ dom (event_buckets d') /\
  r_items (touches s d) ⊆ dom (current_items d') /\
  forall e, e ∈ offers s -> is_Some (item_events d' !! event_input_key e).
Proof.
  assert (forall now l m k, k ∈ (event_input_key <$> l) -> is_Some ((ins_cte now l m).1 !! k)) as Hins.
  { intros now l m k (e & -> & He)%list_elem_of_fmap. rewrite ins_cte_lookup. destruct (m !! _); [done|].
    apply first_row_in. by eauto. }
  assert (forall n l k, k ∈ (event_input_key <$> new_rows n l) -> k ∈ (event_input_key <$> l)) as Hnew.
  { intros m l k (_ & e & He & <-)%new_rows_keys. by apply list_elem_of_fmap_2. }
  destruct s as [now e|now e|i|now l|l]; cbn [exec]; unfold sbind.
  - unfold insert_item_event. destruct (valid_event_type _); [|done]. intros [= _ <-].
    assert (is_Some (insert_or_nothing now e (item_events d) !! event_input_key e)) as Hk.
    { rewrite insert_or_nothing_lookup. simpl. rewrite decide_True by done. by destruct (_ !! _). }
    split_and!; [|set_solver..|by intros x ->%list_elem_of_singleton].
    intros k Hin%elem_of_list_to_set%Hnew. apply list_elem_of_singleton in Hin as ->. by apply elem_of_dom.
  - unfold upsert_bucket. destruct (valid_event_type _); [|done]. destruct (_ <=? int8_max); [|done].
    intros [= _ <-]. split_and!; [set_solver| |set_solver|by intros x ?%not_elem_of_nil].
    simpl. unfold bump_bucket. rewrite dom_insert. set_solver.
  - unfold upsert_current_item. intros [= _ <-]. split_and!; [set_solver..| |by intros x ?%not_elem_of_nil].
    simpl. rewrite dom_insert. set_solver.
  - unfold batch_insert_events. destruct (forallb _ l); [|done].
    pose proof (ins_cte_view now l (item_events d)) as [_ Hn]. specialize (Hins now l (item_events d)).
    destruct (ins_cte now l (item_events d)) as [m ins]. simpl in Hn, Hins. subst ins.
    destruct (deltas_fit _ _); [|done]. intros [= _ <-]. split_and!; [| |set_solver|].
    + intros k Hk%elem_of_list_to_set%Hnew. apply elem_of_dom. by apply Hins.
    + intros k Hk. simpl in Hk |- *. apply elem_of_dom in Hk as [x Hk]. apply elem_of_dom. unfold bucket_upsert.
      rewrite lookup_union_with, lookup_fmap, Hk. destruct (event_buckets d !! k); by eexists.
    + intros e He. apply Hins. by apply list_elem_of_fmap_2.
  - unfold batch_upsert_current_items. destruct (bool_decide _); [|done]. intros [= _ <-].
    split_and!; [set_solver..| |by intros x ?%not_elem_of_nil].
    intros id Hid%elem_of_list_to_set. apply elem_of_dom. simpl. fold (merge_items l (current_items d)).
    rewrite merge_items_lookup. apply list_elem_of_fmap in Hid as (i & -> & Hi).
    destruct (filter _ l) as [|x r] eqn:E.
    + assert (i ∈ filter (fun j => ii_item_id j = ii_item_id i) l) as Hf by (by apply list_elem_of_filter).
      rewrite E in Hf. by apply not_elem_of_nil in Hf.
    + destruct r as [|r y] using list_snoc_ind; [done|].
      rewrite app_comm_cons, merge_all_snoc. done.
Qed.

(** The overlay of a statement holds exactly its rows. *)
Lemma changes_view l d d2 :
  r_events l ⊆ dom (item_events d) -> r_buckets l ⊆ dom (event_buckets d) -> r_items l ⊆ dom (current_items d) ->
  changes l (view d2 (changes l d)) = changes l d.
Proof.
  assert (forall K V `{Countable K} (t : gset K) (m m2 : gmap K V), t ⊆ dom m ->
    restrict t (restrict t m ∪ m2) = restrict t m) as Hr.
  { intros K V ? ? t m m2 Ht. apply map_eq. intros k. unfold restrict at 1 3. rewrite !map_lookup_filter.
    rewrite lookup_patch. destruct (decide (k ∈ t)) as [Hk|Hk].
    - apply Ht, elem_of_dom in Hk as [x ->]. done.
    - destruct (m !! k), (m2 !! k); simpl; rewrite ?option_guard_False by done; done. }
  intros H1 H2 H3. unfold changes at 1 3, view; simpl. f_equal; by apply Hr.
Qed.

Lemma changes_rows l d :
  dom (o_events (changes l d)) ⊆ r_events l /\ dom (o_buckets (changes l d)) ⊆ r_buckets l /\
  dom (o_items (changes l d)) ⊆ r_items l.
Proof.
  assert (forall K V `{Countable K} (t : gset K) (m : gmap K V), dom (restrict t m) ⊆ t) as Hr.
  { intros K V ? ? t m k [x Hk]%elem_of_dom. by apply map_lookup_filter_Some in Hk as [_ Hk]. }
  split_and!; apply Hr.
Qed.
