(* ===== verification/Interleave.v ===== *)
(** * Interleave: concurrent ingestion, statement by statement

    Several connections ingest at once: the live client one event at a time, seed
    commands in batches.  Their transactions interleave at the statements, under
    the rules of PostgreSQL's READ COMMITTED: a statement sees the committed rows
    and its own, takes its rows in one go and waits while another transaction
    holds one of them; a deadlock, a lost connection or any other failure aborts
    the transaction, which is possible at any time.  Retention may run in between
    when it cannot reach the events in flight; the other operations of the store
    run while nothing is in flight ([Reconciling] adds reconciles, [Expiry] any
    retention). *)
From S2P Require Import Prelude Database Tables Session Store StoreBatch BatchEquiv Invariant StoreProps Txn.
Local Open Scope Z_scope.

(** ** The state: the committed tables and the transactions in flight *)
Record txn := { tn_op : store_op; tn_rest : tx; tn_own : overlay }.

Record Conc := { c_db : DB; c_txs : gmap nat txn }.

Inductive conc_label := CBegin | CExec | CError | CCommit (op : store_op) | CFail | CAlone | COther.

Section conc.
Context `{PgTime}.

(** The operations that may run. *)
Variable allowed : store_op -> Prop.

Definition others_free (c : Conc) (i : nat) (l : rows) : Prop :=
  forall j t, c_txs c !! j = Some t -> j <> i -> rows_disjoint l (written (tn_own t)).

(** The events an operation offers. *)
Definition op_events (op : store_op) : list EventRecord :=
  match op with OpIngest _ ev => [ev] | OpBatch _ evs => evs | _ => [] end.

Definition spares (cutoff : Z) (op : store_op) : Prop :=
  forall ev, ev ∈ op_events op -> pg_ts cutoff <= pg_ts (ev_EventTime ev).

Inductive conc_step : Conc -> conc_label -> Conc -> Prop :=
| conc_begin c i op t :
    allowed op -> c_txs c !! i = None -> tx_of op = Some t ->
    conc_step c CBegin
      {| c_db := c_db c; c_txs := <[i := {| tn_op := op; tn_rest := t; tn_own := no_writes |}]> (c_txs c) |}
| conc_exec c i op s k own n d :
    c_txs c !! i = Some {| tn_op := op; tn_rest := TxExec s k; tn_own := own |} ->
    exec s (view (c_db c) own) = SOk n d ->
    others_free c i (touches s (view (c_db c) own)) ->
    conc_step c CExec
      {| c_db := c_db c;
         c_txs := <[i := {| tn_op := op; tn_rest := k n;
                            tn_own := over (changes (touches s (view (c_db c) own)) d) own |}]> (c_txs c) |}
| conc_error c i op s k own e :
    c_txs c !! i = Some {| tn_op := op; tn_rest := TxExec s k; tn_own := own |} ->
    exec s (view (c_db c) own) = SErr e ->
    conc_step c CError {| c_db := c_db c; c_txs := delete i (c_txs c) |}
| conc_commit c i op own :
    c_txs c !! i = Some {| tn_op := op; tn_rest := TxCommit; tn_own := own |} ->
    conc_step c (CCommit op) {| c_db := view (c_db c) own; c_txs := delete i (c_txs c) |}
| conc_fail c i t :
    c_txs c !! i = Some t ->
    conc_step c CFail {| c_db := c_db c; c_txs := delete i (c_txs c) |}
| conc_retention c cutoff d :
    allowed (OpRetention cutoff) ->
    (forall i t, c_txs c !! i = Some t -> spares cutoff (tn_op t)) ->
    op_after (OpRetention cutoff) (c_db c) = Some d ->
    conc_step c COther {| c_db := d; c_txs := c_txs c |}
| conc_marker c m d :
    allowed (OpSeedMarker m) -> op_after (OpSeedMarker m) (c_db c) = Some d ->
    conc_step c COther {| c_db := d; c_txs := c_txs c |}
| conc_alone c d :
    c_txs c = ∅ -> store_step allowed (c_db c) d -> conc_step c CAlone {| c_db := d; c_txs := ∅ |}.

Definition concurrent (d0 : DB) (c : Conc) : Prop :=
  rtc (fun a b => exists l, conc_step a l b) {| c_db := d0; c_txs := ∅ |} c.

(** ** The statements a transaction has run *)

(** [prefix t c rest w off]: the statements of [t] before [rest], run alone from
    the committed [c], write [w] and offer the events [off]. *)
Inductive prefix (t : tx) (c : DB) : tx -> overlay -> list EventInput -> Prop :=
| prefix_nil : prefix t c t no_writes []
| prefix_exec s k w off n d :
    prefix t c (TxExec s k) w off -> exec s (view c w) = SOk n d ->
    prefix t c (k n) (over (changes (touches s (view c w)) d) w) (offers s ++ off).

Lemma prefix_effect t c rest w off :
  prefix t c rest w off -> tx_effect t c = tx_effect rest (view c w).
Proof.
  induction 1 as [|s k w off n d _ IH Hrun]; [by rewrite view_no_writes|].
  rewrite IH, view_over. cbn [tx_effect]. rewrite Hrun. simpl. by rewrite <- (exec_frame _ _ _ _ Hrun).
Qed.

(** A commit elsewhere that leaves alone what [w] and [off] rely on. *)
Record undisturbed (off : list EventInput) (w : overlay) (c c2 : DB) : Prop := {
  und_keys : same_stored off (item_events c) (item_events c2);
  und_buckets : forall k, k ∈ dom (o_buckets w) -> event_buckets c2 !! k = event_buckets c !! k;
  und_items : forall k, k ∈ dom (o_items w) -> current_items c2 !! k = current_items c !! k
}.

Lemma dom_over a b :
  dom (o_events (over a b)) = dom (o_events a) ∪ dom (o_events b) /\
  dom (o_buckets (over a b)) = dom (o_buckets a) ∪ dom (o_buckets b) /\
  dom (o_items (over a b)) = dom (o_items a) ∪ dom (o_items b).
Proof. unfold over; simpl. by rewrite !dom_union_L. Qed.

Lemma same_stored_app l1 l2 m m2 :
  same_stored (l1 ++ l2) m m2 <-> same_stored l1 m m2 /\ same_stored l2 m m2.
Proof. unfold same_stored. setoid_rewrite elem_of_app. naive_solver. Qed.

Lemma union_same {K V} `{Countable K} (w m m2 : gmap K V) k :
  m2 !! k = m !! k -> (w ∪ m2) !! k = (w ∪ m) !! k.
Proof. intros Hk. by rewrite !lookup_union, Hk. Qed.

Lemma prefix_undisturbed t c c2 rest w off :
  prefix t c rest w off -> undisturbed off w c c2 -> prefix t c2 rest w off.
Proof.
  induction 1 as [|s k w off n d _ IH Hrun]; intros [Hk Hb Hi]; [constructor|].
  destruct (dom_over (changes (touches s (view c w)) d) w) as (_ & Hdb & Hdi). rewrite Hdb in Hb. rewrite Hdi in Hi.
  apply same_stored_app in Hk as [Hks Hko].
  assert (prefix t c2 (TxExec s k) w off) as Hpre.
  { apply IH. split; [done|..]; intros x Hx; [apply Hb|apply Hi]; set_solver. }
  pose proof (exec_writes _ _ _ _ Hrun) as (We & Wb & Wi & _).
  assert (same_for (offers s) (touches s (view c w)) (view c w) (view c2 w)) as Hsame.
  { split.
    - intros e He. unfold view; simpl. rewrite !lookup_union. specialize (Hks e He).
      destruct (o_events w !! event_input_key e), (item_events c !! event_input_key e),
        (item_events c2 !! event_input_key e); simpl; naive_solver.
    - intros x Hx. apply union_same, Hb, elem_of_union_l. unfold changes; simpl.
      apply elem_of_dom. apply Wb in Hx as Hd. apply elem_of_dom in Hd as [v Hv]. exists v.
      by apply map_lookup_filter_Some.
    - intros x Hx. apply union_same, Hi, elem_of_union_l. unfold changes; simpl.
      apply elem_of_dom. apply Wi in Hx as Hd. apply elem_of_dom in Hd as [v Hv]. exists v.
      by apply map_lookup_filter_Some. }
  pose proof (exec_local _ _ _ _ _ Hrun Hsame) as Hrun2.
  pose proof (prefix_exec t c2 s k w off n _ Hpre Hrun2) as Hnew.
  rewrite (touches_same _ _ _ Hsame), changes_view in Hnew by done. exact Hnew.
Qed.

(** ** Stages *)

(** Where a transaction of an operation can stand: 0 before its events, 1 before
    the bucket of IngestEvent, 2 before the items, 3 before the commit. *)
Inductive stage (op : store_op) : tx -> nat -> Prop :=
| stage_insert now ev : op = OpIngest now ev -> stage op (ingest_tx now ev) 0
| stage_bucket now ev : op = OpIngest now ev -> stage op (bucket_tx now ev) 1
| stage_item now ev : op = OpIngest now ev -> stage op (item_tx ev) 2
| stage_batch now evs : op = OpBatch now evs -> stage op (batch_tx now evs) 0
| stage_batch_items now evs : op = OpBatch now evs -> stage op (batch_items_tx evs) 2
| stage_commit : stage op TxCommit 3.

(** The tables a transaction can have written to before each stage. *)
Definition wrote_before (n : nat) (w : overlay) : Prop :=
  (n = 0%nat -> o_events w = ∅) /\ (n <= 1 -> o_buckets w = ∅)%nat /\ (n <= 2 -> o_items w = ∅)%nat.

Lemma tx_of_stage op t : tx_of op = Some t -> stage op t 0.
Proof.
  destruct op as [now ev|now evs| | |]; simpl; [| |done..].
  - intros [= <-]. by econstructor.
  - destruct (_ =? 0)%nat; [done|]. intros [= <-]. by econstructor.
Qed.

Lemma changes_empty l d :
  (r_events l = ∅ -> o_events (changes l d) = ∅) /\ (r_buckets l = ∅ -> o_buckets (changes l d) = ∅) /\
  (r_items l = ∅ -> o_items (changes l d) = ∅).
Proof.
  pose proof (changes_rows l d) as (H1 & H2 & H3).
  split_and!; intros Hl; rewrite Hl in *; apply dom_empty_inv_L; set_solver.
Qed.

Lemma over_empty a b :
  (o_buckets a = ∅ -> o_buckets b = ∅ -> o_buckets (over a b) = ∅) /\
  (o_items a = ∅ -> o_items b = ∅ -> o_items (over a b) = ∅).
Proof. unfold over; simpl. split; intros -> ->; by rewrite (left_id_L ∅ (∪)). Qed.

Lemma stage_exec op s k n w v d :
  stage op (TxExec s k) n -> wrote_before n w ->
  (forall e, e ∈ offers s -> e ∈ encode_event <$> op_events op) /\
  forall tag, exists n', (n < n')%nat /\ stage op (k tag) n' /\
    wrote_before n' (over (changes (touches s v) d) w).
Proof.
  intros Hst (W0 & W1 & W2). pose proof (changes_empty (touches s v) d) as (C1 & C2 & C3).
  pose proof (over_empty (changes (touches s v) d) w) as [O1 O2].
  inversion Hst as [now ev -> Ht|now ev -> Ht|now ev -> Ht|now evs -> Ht|now evs -> Ht|]; subst; simpl.
  - split; [by intros e He|]. intros tag. destruct (tag =? 1).
    + exists 1%nat. split; [lia|]. split; [by eapply stage_bucket|].
      split_and!; [done|intros _; apply O1|intros _; apply O2]; auto with lia.
    + exists 2%nat. split; [lia|]. split; [by eapply stage_item|].
      split_and!; [done|lia|intros _; apply O2]; auto with lia.
  - split; [by intros e ?%not_elem_of_nil|]. intros _. exists 2%nat. split; [lia|]. split; [by eapply stage_item|].
    split_and!; [done|lia|intros _; apply O2]; auto with lia.
  - split; [by intros e ?%not_elem_of_nil|]. intros _. exists 3%nat.
    split; [lia|]. split; [by constructor|]. split_and!; [done|lia..].
  - split; [by intros e He|]. intros _. exists 2%nat. split; [lia|]. split; [by eapply stage_batch_items|].
    split_and!; [done|lia|intros _; apply O2]; auto with lia.
  - split; [by intros e ?%not_elem_of_nil|]. intros _. exists 3%nat.
    split; [lia|]. split; [by constructor|]. split_and!; [done|lia..].
Qed.

(** ** The invariant *)
Record txn_ok (c : DB) (t : txn) : Prop := {
  ok_prefix : exists t0 off n, tx_of (tn_op t) = Some t0 /\ prefix t0 c (tn_rest t) (tn_own t) off /\
    stage (tn_op t) (tn_rest t) n /\ wrote_before n (tn_own t) /\
    (forall e, e ∈ off -> is_Some (item_events (view c (tn_own t)) !! event_input_key e) /\
       e ∈ encode_event <$> op_events (tn_op t));
  ok_allowed : allowed (tn_op t)
}.

Definition txs_apart (txs : gmap nat txn) : Prop :=
  forall i j t u, txs !! i = Some t -> txs !! j = Some u -> i <> j ->
    rows_disjoint (written (tn_own t)) (written (tn_own u)).

Definition conc_ok (c : Conc) : Prop :=
  (forall i t, c_txs c !! i = Some t -> txn_ok (c_db c) t) /\ txs_apart (c_txs c).

Lemma rows_disjoint_sym a b : rows_disjoint a b -> rows_disjoint b a.
Proof. unfold rows_disjoint. set_solver. Qed.

(** Transactions stay apart. *)
Lemma txs_apart_delete txs i : txs_apart txs -> txs_apart (delete i txs).
Proof. intros Hdis j k t u [_ Hj]%lookup_delete_Some [_ Hk]%lookup_delete_Some. by apply Hdis. Qed.

Lemma txs_apart_insert c i t :
  txs_apart (c_txs c) -> others_free c i (written (tn_own t)) -> txs_apart (<[i := t]> (c_txs c)).
Proof.
  intros Hdis Hfree j k u v [[-> <-]|[Hj Hju]]%lookup_insert_Some [[-> <-]|[Hk Hkv]]%lookup_insert_Some Hne.
  - done.
  - by apply (Hfree k).
  - apply rows_disjoint_sym. by apply (Hfree j).
  - by eapply Hdis.
Qed.

Lemma written_over_free c i l d own :
  others_free c i l -> others_free c i (written own) ->
  others_free c i (written (over (changes l d) own)).
Proof.
  intros H1 H2 j t Hj Hne. specialize (H1 j t Hj Hne). specialize (H2 j t Hj Hne).
  pose proof (changes_rows l d) as (C1 & C2 & C3).
  destruct (dom_over (changes l d) own) as (D1 & D2 & D3).
  unfold rows_disjoint, written in *; simpl in *. rewrite D1, D2, D3. set_solver.
Qed.

Lemma conc_step_apart c l c' : txs_apart (c_txs c) -> conc_step c l c' -> txs_apart (c_txs c').
Proof.
  intros Hdis Hs. destruct Hs as [c i op t Ha Hi Ht|c i op s k own n d Hi Hrun Hfree|c i op s k own e Hi Hrun
    |c i op own Hi|c i t Hi|c cutoff d Ha Hsp Hd|c m d Ha Hd|c d Hnone Hd]; simpl;
    try (by apply txs_apart_delete); try done.
  - apply txs_apart_insert; [done|]. intros j u _ _. unfold rows_disjoint; simpl. rewrite !dom_empty_L. set_solver.
  - apply txs_apart_insert; [done|]. apply written_over_free; [done|].
    intros j t Hj Hne. apply (Hdis i j _ t Hi Hj). congruence.
Qed.

(** The committed tables change under a transaction that relies on none of it. *)
Lemma txn_ok_undisturbed c c2 t :
  txn_ok c t ->
  (forall off, (forall e, e ∈ off -> is_Some (item_events (view c (tn_own t)) !! event_input_key e) /\
      e ∈ encode_event <$> op_events (tn_op t)) -> undisturbed off (tn_own t) c c2) ->
  txn_ok c2 t.
Proof.
  intros [(t0 & off & n & Ht & Hpre & Hst & Hw & Hoff) Ha] Hund. specialize (Hund off Hoff).
  split; [|done]. exists t0, off, n. split_and!; [done|by eapply prefix_undisturbed|done|done|].
  intros e He. destruct (Hoff e He) as [Hs Hin]. split; [|done]. destruct Hund as [Hk _ _].
  unfold view in *; simpl in *. rewrite lookup_union in *. specialize (Hk e He).
  destruct (o_events _ !! _), (item_events c !! _), (item_events c2 !! _); simpl in *; naive_solver.
Qed.

(** A commit of disjoint rows disturbs no one. *)
Lemma commit_undisturbed c own w off :
  rows_disjoint (written own) (written w) ->
  (forall e, e ∈ off -> is_Some (item_events (view c w) !! event_input_key e)) ->
  undisturbed off w c (view c own).
Proof.
  intros (De & Db & Di) Hoff. simpl in De, Db, Di. split.
  - intros e He. specialize (Hoff e He). unfold view in *; simpl in *. rewrite lookup_union in *.
    destruct (o_events own !! event_input_key e) eqn:Eo; [|by destruct (item_events c !! _)].
    assert (o_events w !! event_input_key e = None) as Ew.
    { apply not_elem_of_dom. intros Hin. eapply De; [|exact Hin]. apply elem_of_dom. by eexists. }
    rewrite Ew in Hoff. by destruct (item_events c !! _).
  - intros k Hk. unfold view; simpl. rewrite lookup_union_r; [done|]. apply not_elem_of_dom. set_solver.
  - intros k Hk. unfold view; simpl. rewrite lookup_union_r; [done|]. apply not_elem_of_dom. set_solver.
Qed.

Lemma delete_ok c db i j t :
  conc_ok c -> (forall j t, c_txs c !! j = Some t -> j <> i -> txn_ok (c_db c) t -> txn_ok db t) ->
  delete i (c_txs c) !! j = Some t -> txn_ok db t.
Proof. intros [Hok _] Hdb [Hne Hj]%lookup_delete_Some. eauto. Qed.

Lemma insert_ok c i t j u :
  conc_ok c -> txn_ok (c_db c) t -> <[i := t]> (c_txs c) !! j = Some u -> txn_ok (c_db c) u.
Proof. intros [Hok _] Ht [[-> <-]|[_ Hj]]%lookup_insert_Some; eauto. Qed.

Lemma exec_ok c i op s k own n d :
  conc_ok c -> c_txs c !! i = Some {| tn_op := op; tn_rest := TxExec s k; tn_own := own |} ->
  exec s (view (c_db c) own) = SOk n d ->
  txn_ok (c_db c) {| tn_op := op; tn_rest := k n;
                     tn_own := over (changes (touches s (view (c_db c) own)) d) own |}.
Proof.
  intros [Hok _] Hi Hrun. destruct (Hok i _ Hi) as [(t0 & off & st & Ht & Hpre & Hst & Hw & Hoff) Ha].
  cbn [tn_op tn_rest tn_own] in *. split; [|done]. cbn [tn_op tn_rest tn_own].
  destruct (stage_exec op s k st own (view (c_db c) own) d Hst Hw) as [Hoffers Hnext].
  destruct (Hnext n) as (st' & _ & Hst' & Hw').
  exists t0, (offers s ++ off), st'. split_and!; [done|by eapply prefix_exec|done|done|].
  rewrite view_over, <- (exec_frame _ _ _ _ Hrun).
  pose proof (exec_writes _ _ _ _ Hrun) as (_ & _ & _ & Hex).
  intros e [He|He]%elem_of_app; [by auto|]. destruct (Hoff e He) as [Hs Hin]. split; [|done].
  rewrite (exec_frame _ _ _ _ Hrun). apply lookup_union_is_Some. by right.
Qed.

Lemma conc_step_ok c l c' : conc_ok c -> conc_step c l c' -> conc_ok c'.
Proof.
  intros Hok Hs. split; [|by eapply conc_step_apart; [apply Hok|]].
  destruct Hs as [c i op t Ha Hi Ht|c i op s k own n d Hi Hrun Hfree|c i op s k own e Hi Hrun
    |c i op own Hi|c i t Hi|c cutoff d Ha Hsp Hd|c m d Ha Hd|c d Hnone Hd]; simpl; intros q u.
  - apply insert_ok; [done|]. split; [|done]. exists t, [], 0%nat.
    split_and!; [done|constructor|by apply tx_of_stage|done|by intros e ?%not_elem_of_nil].
  - apply insert_ok; [done|by eapply exec_ok].
  - apply delete_ok; auto.
  - apply delete_ok; [done|]. intros j t Hj Hne Hok_t. apply (txn_ok_undisturbed (c_db c)); [done|].
    intros off Hoff. apply commit_undisturbed; [|intros e He; by apply Hoff].
    apply (proj2 Hok i j _ t Hi Hj). congruence.
  - apply delete_ok; auto.
  - intros Hi. apply (txn_ok_undisturbed (c_db c)); [by apply (proj1 Hok q)|].
    intros off Hoff. simpl in Hd. injection Hd as <-. split; [|done..].
    intros e He. simpl. rewrite map_lookup_filter. destruct (Hoff e He) as [_ Hin].
    apply list_elem_of_fmap in Hin as (ev & -> & Hev). specialize (Hsp q u Hi ev Hev).
    destruct (item_events (c_db c) !! _) as [x|]; simpl; [|done]. rewrite option_guard_True; [done|]. simpl. lia.
  - intros Hi. apply (txn_ok_undisturbed (c_db c)); [by apply (proj1 Hok q)|].
    intros off _. simpl in Hd. unfold upsert_seed_marker in Hd. destruct (_ && _); [|done].
    injection Hd as <-. by split.
  - by rewrite lookup_empty.
Qed.

Lemma concurrent_ok d0 c : concurrent d0 c -> conc_ok c.
Proof.
  unfold concurrent. intros Hr.
  assert (conc_ok {| c_db := d0; c_txs := ∅ |}) as H0 by (split; simpl; intros i; by rewrite lookup_empty).
  revert H0. induction Hr as [|x y z [l Hs] _ IH]; [done|]. intros Hx. apply IH. by eapply conc_step_ok.
Qed.

Lemma commit_effect c i op own :
  conc_ok c -> c_txs c !! i = Some {| tn_op := op; tn_rest := TxCommit; tn_own := own |} ->
  allowed op /\ op_after op (c_db c) = Some (view (c_db c) own).
Proof.
  intros [Hok _] Hi. destruct (Hok i _ Hi) as [(t0 & off & n & Ht & Hpre & _) Ha]. cbn [tn_op tn_rest tn_own] in *.
  split; [done|]. rewrite <- (tx_of_effect _ _ (c_db c) Ht), (prefix_effect _ _ _ _ _ Hpre). done.
Qed.

Lemma conc_step_serial c l c' :
  conc_ok c -> conc_step c l c' -> rtc (store_step allowed) (c_db c) (c_db c').
Proof.
  intros Hok Hs. destruct Hs as [| | |c i op own Hi| |c cutoff d Ha _ Hd|c m d Ha Hd|c d _ Hd];
    try apply rtc_refl; apply rtc_once; simpl.
  - destruct (commit_effect c i op own Hok Hi) as [Ha Hop]. by eapply op_after_step.
  - by apply (op_after_step _ (OpRetention cutoff)).
  - by apply (op_after_step _ (OpSeedMarker m)).
  - done.
Qed.

(** ** One turn of a transaction, executably *)
Definition is_free (c : Conc) (i : nat) (l : rows) : bool :=
  bool_decide (map_Forall (fun j t => j = i \/
    r_events l ## dom (o_events (tn_own t)) /\ r_buckets l ## dom (o_buckets (tn_own t)) /\
    r_items l ## dom (o_items (tn_own t))) (c_txs c)).

Lemma is_free_spec c i l : is_free c i l = true <-> others_free c i l.
Proof.
  unfold is_free, others_free, rows_disjoint, written. rewrite bool_decide_eq_true. unfold map_Forall; simpl.
  split; intros Hf j t Hj.
  - intros Hne. by destruct (Hf j t Hj).
  - destruct (decide (j = i)) as [->|Hne]; [by left|right; eauto].
Qed.

(** The next statement of transaction [i], or its commit; [None] while it waits. *)
Definition turn (i : nat) (c : Conc) : option Conc :=
  match c_txs c !! i with
  | None => None
  | Some t =>
      match tn_rest t with
      | TxCommit => Some {| c_db := view (c_db c) (tn_own t); c_txs := delete i (c_txs c) |}
      | TxExec s k =>
          let v := view (c_db c) (tn_own t) in
          match exec s v with
          | SErr _ => Some {| c_db := c_db c; c_txs := delete i (c_txs c) |}
          | SOk n d =>
              if is_free c i (touches s v)
              then Some {| c_db := c_db c;
                           c_txs := <[i := {| tn_op := tn_op t; tn_rest := k n;
                                              tn_own := over (changes (touches s v) d) (tn_own t) |}]> (c_txs c) |}
              else None
          end
      end
  end.

Lemma turn_label i c c' : turn i c = Some c' -> exists l, l <> CAlone /\ conc_step c l c'.
Proof.
  unfold turn. destruct (c_txs c !! i) as [[op rest own]|] eqn:Hi; [|done]. cbn [tn_op tn_rest tn_own].
  destruct rest as [|s k]; [intros [= <-]; eexists; split; [|by eapply conc_commit]; done|].
  destruct (exec s _) as [n d|e] eqn:Hrun; [|intros [= <-]; eexists; split; [|by eapply conc_error]; done].
  destruct (is_free _ _ _) eqn:Hf; [|done]. intros [= <-].
  eexists; split; [|eapply conc_exec; [done|done|by apply is_free_spec]]; done.
Qed.

Lemma turn_step i c c' : turn i c = Some c' -> exists l, conc_step c l c'.
Proof. intros (l & _ & Hs)%turn_label. by exists l. Qed.

(** Statements and commit still to go. *)
Definition left_of (t : tx) : nat :=
  match t with
  | TxCommit => 1
  | TxExec (UpsertItem _) _ | TxExec (BatchItems _) _ => 2
  | TxExec (UpsertBucket _ _) _ => 3
  | TxExec _ _ => 4
  end.

Lemma stage_left op t n : stage op t n -> (n + left_of t = 4)%nat.
Proof. by destruct 1. Qed.

Definition work (c : Conc) : nat := map_fold (fun _ t n => left_of (tn_rest t) + n)%nat 0%nat (c_txs c).

Lemma work_delete (m : gmap nat txn) i t db :
  m !! i = Some t ->
  (work {| c_db := db; c_txs := m |} = left_of (tn_rest t) + work {| c_db := db; c_txs := delete i m |})%nat.
Proof. intros Hi. unfold work; simpl. rewrite (map_fold_delete_L _ _ i t m); [done| |done]. intros; lia. Qed.

Lemma left_pos t : (1 <= left_of t)%nat.
Proof. destruct t as [|[] ?]; simpl; lia. Qed.

Lemma turn_work i c c' : conc_ok c -> turn i c = Some c' -> (work c' < work c)%nat.
Proof.
  intros [Hok _]. unfold turn. destruct (c_txs c !! i) as [t|] eqn:Hi; [|done].
  destruct (Hok i t Hi) as [(t0 & off & n & _ & _ & Hst & Hw & _) _].
  destruct c as [db m]; simpl in *. rewrite (work_delete m i t db Hi). pose proof (left_pos (tn_rest t)).
  destruct (tn_rest t) as [|s k] eqn:Hr; [intros [= <-]; unfold work; simpl; lia|].
  destruct (exec s _) as [tag d|e]; [|intros [= <-]; unfold work; simpl in *; lia].
  destruct (is_free _ _ _); [|done]. intros [= <-].
  destruct (stage_exec _ s k n (tn_own t) (view db (tn_own t)) d Hst Hw) as [_ Hnext].
  destruct (Hnext tag) as (n' & Hlt & Hst' & _).
  pose proof (stage_left _ _ _ Hst). pose proof (stage_left _ _ _ Hst').
  rewrite (work_delete _ i _ db (lookup_insert_eq m i _)), delete_insert_eq. cbn [tn_rest]. lia.
Qed.

(** The transaction closest to its end is never blocked. *)
Lemma not_blocked i t c :
  conc_ok c -> c_txs c !! i = Some t ->
  (forall j u, c_txs c !! j = Some u -> left_of (tn_rest t) <= left_of (tn_rest u))%nat ->
  is_Some (turn i c).
Proof.
  intros [Hok _] Hi Hmin. unfold turn. rewrite Hi.
  destruct (Hok i t Hi) as [(t0 & off & n & _ & _ & Hst & _) _].
  destruct (tn_rest t) as [|s k]; [by eexists|]. destruct (exec s _) as [tag d|e]; [|by eexists].
  assert (is_free c i (touches s (view (c_db c) (tn_own t))) = true) as ->; [|by eexists].
  apply is_free_spec. intros j u Hj _. specialize (Hmin j u Hj).
  destruct (Hok j u Hj) as [(t1 & off1 & n1 & _ & _ & Hst1 & (W0 & W1 & W2) & _) _].
  apply stage_left in Hst1. unfold rows_disjoint, written; simpl.
  inversion Hst; subst; simpl in Hmin; rewrite ?W0, ?W1, ?W2, ?dom_empty_L by lia; set_solver.
Qed.

Lemma least_left (m : gmap nat txn) :
  m <> ∅ -> exists i t, m !! i = Some t /\
    forall j u, m !! j = Some u -> (left_of (tn_rest t) <= left_of (tn_rest u))%nat.
Proof.
  induction m as [|i t m Hi IH] using map_ind; [done|]. intros _.
  destruct (decide (m = ∅)) as [->|Hm].
  { exists i, t. rewrite lookup_insert_eq. split; [done|]. intros j u [[_ <-]|[_ Hj]]%lookup_insert_Some; [done|].
    by rewrite lookup_empty in Hj. }
  destruct (IH Hm) as (i1 & t1 & Hi1 & Hmin).
  destruct (Nat.le_gt_cases (left_of (tn_rest t1)) (left_of (tn_rest t))) as [Hle|Hgt].
  - exists i1, t1. split; [rewrite lookup_insert_ne; congruence|].
    intros j u [[_ <-]|[_ Hj]]%lookup_insert_Some; [done|by eapply Hmin].
  - exists i, t. split; [by rewrite lookup_insert_eq|].
    intros j u [[_ <-]|[_ Hj]]%lookup_insert_Some; [done|]. specialize (Hmin j u Hj). lia.
Qed.
End conc.

(** * Properties *)

(** C7: Interleaved ingestion is serial ingestion.  Whatever the interleaving of
    live ingestion and seed batches at their statements, whatever aborts, the
    committed tables are at every moment those of the store's operations run one
    after the other; a commit has exactly the effect of its whole operation on the
    tables committed just before; and, before retention, every bucket still counts
    exactly the distinct raw events. *)
Theorem interleaving_serializable `{PgTime} allowed d0 c :
  concurrent allowed d0 c ->
  rtc (store_step allowed) d0 (c_db c) /\
  (forall op c', conc_step allowed c (CCommit op) c' -> op_after op (c_db c) = Some (c_db c')) /\
  ((forall op, allowed op -> no_retention op) -> reachable no_retention d0 -> forall k,
     raw_count (er_name <$> item_events (c_db c)) k = bucket_count (event_buckets (c_db c)) k).
Proof.
  intros Hc. pose proof (concurrent_ok _ _ _ Hc) as Hok.
  assert (rtc (store_step allowed) d0 (c_db c)) as Hserial.
  { unfold concurrent in Hc. change d0 with (c_db {| c_db := d0; c_txs := ∅ |}).
    assert (conc_ok allowed {| c_db := d0; c_txs := ∅ |}) as H0 by (apply (concurrent_ok _ d0), rtc_refl).
    revert H0. clear Hok. induction Hc as [|x y z [l Hs] _ IH]; [intros _; apply rtc_refl|].
    intros Hx. etrans; [by eapply conc_step_serial|]. apply IH. by eapply conc_step_ok. }
  split_and!; [done| |].
  - intros op c' Hs. inversion Hs as [| | |? i ? own Hi| | | |]; subst. by eapply commit_effect.
  - intros Hno Hd0 k. apply no_retention_exact. unfold reachable in *. etrans; [exact Hd0|].
    eapply rtc_subrel; [|exact Hserial]. intros x y [op s err s' Ha Hw Hrun].
    by apply (store_step_op no_retention op s err s'); [apply Hno| |].
Qed.

(** Interleaved ingestion does not block.  As long as transactions are in
    flight, one of them can run its next statement or commit, and every such turn
    leaves less to do: the tables are always written in the order events, buckets,
    items, so transactions whose statements take their rows at once never wait for
    each other in a circle ([LockingProps] refines this to one row at a time). *)
Theorem interleaving_progress `{PgTime} allowed d0 c :
  concurrent allowed d0 c ->
  (c_txs c <> ∅ -> exists i c', turn i c = Some c') /\
  (forall i c', turn i c = Some c' -> (exists l, conc_step allowed c l c') /\ (work c' < work c)%nat).
Proof.
  intros Hok%concurrent_ok. split.
  - intros Hne. destruct (least_left (c_txs c) Hne) as (i & t & Hi & Hmin).
    destruct (not_blocked _ i t c Hok Hi Hmin) as [c' Hc']. eauto.
  - intros i c' Ht. split; [by apply (turn_step _ i)|by eapply turn_work].
Qed.

(** * Concrete inputs *)
Fixpoint turns (l : list nat) (c : Conc) : option Conc :=
  match l with [] => Some c | i :: l' => c' ← turn i c; turns l' c' end.

Lemma turns_concurrent `{PgTime} allowed d0 l c c' :
  concurrent allowed d0 c -> turns l c = Some c' -> concurrent allowed d0 c'.
Proof.
  revert c. induction l as [|i l IH]; intros c Hc; simpl; [by intros [= <-]|].
  destruct (turn i c) as [c1|] eqn:Ht; [|done]. simpl. apply IH. unfold concurrent. eapply rtc_r; [exact Hc|].
  by apply (turn_step allowed i).
Qed.

Definition start_tx (i : nat) (op : store_op) (t : tx) (c : Conc) : Conc :=
  {| c_db := c_db c; c_txs := <[i := {| tn_op := op; tn_rest := t; tn_own := no_writes |}]> (c_txs c) |}.

Definition late_event : EventRecord :=
  {| ev_ItemID := ev_ItemID demo_event; ev_ItemName := "renamed"; ev_EventType := "updated";
     ev_EventTime := ev_EventTime demo_event + 1000000 |}.

Definition live_op : store_op := OpIngest 10 demo_event.
Definition seed_op : store_op := OpBatch 11 [demo_event; late_event].

(** The live client and a seed batch, both holding the same event. *)
Definition two_started : Conc :=
  start_tx 2 seed_op (batch_tx 11 [demo_event; late_event])
    (start_tx 1 live_op (ingest_tx 10 demo_event) {| c_db := empty_db; c_txs := ∅ |}).

Definition after_turns (l : list nat) : Conc := default two_started (turns l two_started).

(** The batch waits for the client's event row from its first statement to its
    commit, then inserts only what is new; in the end the event counts once. *)
Example demo_interleaving :
  turns [1; 2]%nat two_started = None /\ turns [1; 1; 1; 2]%nat two_started = None /\
  let c := after_turns [1; 1; 1; 1; 2; 2; 2]%nat in
  size (c_txs c) = 0%nat /\ size (item_events (c_db c)) = 2%nat /\
  (bk_count <$> (map_to_list (event_buckets (c_db c))).*2) = [1; 1] /\
  (ir_name <$> current_items (c_db c) !! ev_ItemID demo_event) = Some "renamed"%string.
Proof. split_and!; vm_compute; repeat split. Qed.

Lemma two_started_concurrent : concurrent no_retention empty_db two_started.
Proof.
  unfold concurrent. eapply rtc_l; [eexists; apply (conc_begin _ _ 1 live_op); [exact I|reflexivity|reflexivity]|].
  eapply rtc_once. eexists. apply (conc_begin _ _ 2 seed_op); [exact I|vm_compute; reflexivity|reflexivity].
Qed.

Lemma interleaving_serializable_witness :
  rtc (store_step no_retention) empty_db (c_db (after_turns [1; 1; 1; 1; 2; 2; 2]%nat)).
Proof.
  apply (interleaving_serializable no_retention empty_db).
  apply (turns_concurrent no_retention empty_db [1; 1; 1; 1; 2; 2; 2]%nat two_started);
    [exact two_started_concurrent|vm_compute; reflexivity].
Defined.

Lemma interleaving_progress_witness : exists i c', turn i (after_turns [1; 1]%nat) = Some c'.
Proof.
  apply (interleaving_progress no_retention empty_db).
  - apply (turns_concurrent no_retention empty_db [1; 1]%nat two_started);
      [exact two_started_concurrent|vm_compute; reflexivity].
  - intros Hc. apply (f_equal size) in Hc. vm_compute in Hc. discriminate Hc.
Defined.
