(* ===== verification/Logging.v ===== *)
(** * Logging: structured logs with a trace id (internal/logging)

    [log/slog] as far as the package uses it: a handler is anything with the
    methods of the class [Handler]; the JSON handler keeps the attributes and
    groups of the loggers derived from it and writes one line per record.  The
    package's handler wraps another one and adds the active span's trace id.
    Spans are OpenTelemetry's: [SpanOps] is what is asked of one. *)
From S2P Require Import Prelude.
Local Open Scope go_scope.

(** ** Contexts and spans *)
Class SpanOps (Span : Type) := {
  IsValid : Span -> bool;
  TraceID_String : Span -> string
}.

(** The active span, and the outgoing gRPC metadata (the address of its map). *)
Record Ctx (Span : Type) := { cx_span : Span; cx_outgoing : option nat }.
Arguments cx_span {Span} c.
Arguments cx_outgoing {Span} c.

(** ** log/slog *)
Inductive Attr :=
| Field (key value : string)
| Group (name : string) (attrs : list Attr).

Record LogRecord := { lr_level : Z; lr_msg : string; lr_attrs : list Attr }.

(** [r.AddAttrs] *)
Definition AddAttr (a : Attr) (r : LogRecord) : LogRecord :=
  {| lr_level := lr_level r; lr_msg := lr_msg r; lr_attrs := lr_attrs r ++ [a] |}.

(** Standard output: the lines written, and the errors the next writes meet. *)
Record Stdout := { so_lines : list LogRecord; so_errors : list (option error) }.

Definition write_line (l : LogRecord) : M Stdout (option error) := fun o =>
  match hd None (so_errors o) with
  | Some e => (Some e, {| so_lines := so_lines o; so_errors := tail (so_errors o) |})
  | None => (None, {| so_lines := so_lines o ++ [l]; so_errors := tail (so_errors o) |})
  end.

Class Handler (Span H : Type) := {
  Enabled : Ctx Span -> Z -> H -> bool;
  Handle : Ctx Span -> LogRecord -> H -> M Stdout (option error);
  WithAttrs : list Attr -> H -> H;
  WithGroup : string -> H -> H
}.

(** The attributes and groups a derived JSON handler carries, outermost first. *)
Inductive preset := PAttrs (l : list Attr) | PGroup (name : string).

(** A group without attributes is left out. *)
Definition group (name : string) (l : list Attr) : list Attr :=
  match l with [] => [] | _ => [Group name l] end.

Fixpoint nest (ps : list preset) (l : list Attr) : list Attr :=
  match ps with
  | [] => l
  | PAttrs a :: ps' => a ++ nest ps' l
  | PGroup g :: ps' => group g (nest ps' l)
  end.

Record JSONHandler := { jh_presets : list preset }.

Definition LevelInfo : Z := 0.

#[export] Instance json_handler {Span} : Handler Span JSONHandler := {|
  Enabled _ level _ := (LevelInfo <=? level)%Z;
  Handle _ r h := write_line {| lr_level := lr_level r; lr_msg := lr_msg r;
                                lr_attrs := nest (jh_presets h) (lr_attrs r) |};
  WithAttrs l h := {| jh_presets := jh_presets h ++ [PAttrs l] |};
  WithGroup g h := {| jh_presets := jh_presets h ++ [PGroup g] |}
|}.

(** ** The package *)
Definition zeroTraceID : string := "00000000000000000000000000000000".

Record handler (H : Type) := { inner : H }.
Arguments inner {H} h.
Arguments Build_handler {H} inner.

Section logging.
Context {Span H : Type} `{SpanOps Span} `{Handler Span H}.

Definition trace_id_of (ctx : Ctx Span) : string :=
  if IsValid (cx_span ctx) then TraceID_String (cx_span ctx) else zeroTraceID.

Definition handler_Handle (ctx : Ctx Span) (r : LogRecord) (h : handler H) : M Stdout (option error) :=
  let traceID := trace_id_of ctx in
  Handle ctx (AddAttr (Field "trace_id" traceID) r) (inner h).

Definition handler_WithAttrs (attrs : list Attr) (h : handler H) : handler H :=
  {| inner := WithAttrs attrs (inner h) |}.

Definition handler_WithGroup (name : string) (h : handler H) : handler H :=
  {| inner := WithGroup name (inner h) |}.

(** [Enabled] is the embedded handler's. *)
#[export] Instance trace_handler : Handler Span (handler H) := {|
  Enabled ctx level h := Enabled ctx level (inner h);
  Handle := handler_Handle;
  WithAttrs := handler_WithAttrs;
  WithGroup := handler_WithGroup
|}.
End logging.

(** [logging.New()], as the handler of the logger it returns. *)
Definition New : handler JSONHandler := {| inner := {| jh_presets := [] |} |}.

(** ** Loggers derived from a handler, and a log call *)
Inductive derivation := With (l : list Attr) | OpenGroup (name : string).

Section logger.
Context {Span H : Type} `{Handler Span H}.

(** [Logger.With] and [Logger.WithGroup]; an empty group name changes nothing. *)
Definition derive (h : H) (d : derivation) : H :=
  match d with
  | With l => if (length l =? 0)%nat then h else WithAttrs l h
  | OpenGroup g => if String.eqb g "" then h else WithGroup g h
  end.

(** [logger.LogAttrs]: the handler's error is dropped. *)
Definition log_attrs (ctx : Ctx Span) (r : LogRecord) (h : H) : M Stdout unit :=
  if Enabled ctx (lr_level r) h then let! _ := Handle ctx r h in ret tt else ret tt.
End logger.

(** ** Lemmas *)
Definition open_groups (ds : list derivation) : list string :=
  omap (fun d => match d with OpenGroup g => if String.eqb g "" then None else Some g | With _ => None end) ds.

(** The attributes inside the last group, and so on down a path of groups. *)
Fixpoint descend (path : list string) (l : list Attr) : option (list Attr) :=
  match path with
  | [] => Some l
  | g :: path' =>
      match last l with
      | Some (Group g' l') => if String.eqb g g' then descend path' l' else None
      | _ => None
      end
  end.

Definition presets_of (ds : list derivation) : list preset :=
  omap (fun d => match d with
                 | With l => if (length l =? 0)%nat then None else Some (PAttrs l)
                 | OpenGroup g => if String.eqb g "" then None else Some (PGroup g)
                 end) ds.

Lemma nest_nonempty ps l : l <> [] -> nest ps l <> [].
Proof.
  intros Hl. induction ps as [|[a|g] ps IH]; simpl; [done| |].
  - intros [_ Hn]%app_nil. by apply IH.
  - by destruct (nest ps l).
Qed.

Lemma descend_app path a l : l <> [] -> path <> [] -> descend path (a ++ l) = descend path l.
Proof.
  intros Hl Hp. destruct path as [|g path]; [done|]. simpl.
  rewrite last_app. by destruct (last l) eqn:E; [|apply last_None in E].
Qed.

(** A field put last stays last inside the open groups. *)
Lemma nest_descend ds l a :
  exists inner_attrs, descend (open_groups ds) (nest (presets_of ds) (l ++ [a])) = Some inner_attrs /\
    last inner_attrs = Some a.
Proof.
  induction ds as [|d ds IH]; simpl; [by exists (l ++ [a]); rewrite last_snoc|].
  assert (nest (presets_of ds) (l ++ [a]) <> []) as Hne by (apply nest_nonempty; by destruct l).
  destruct d as [b|g]; simpl.
  - destruct (length b =? 0)%nat; [exact IH|]. simpl. destruct IH as (i & Hd & Hl).
    destruct (open_groups ds) as [|g path] eqn:Hg.
    + injection Hd as <-. exists (b ++ nest (presets_of ds) (l ++ [a])). split; [done|].
      by rewrite last_app, Hl.
    + exists i. rewrite descend_app by done. done.
  - destruct (String.eqb g "") eqn:Hg; [exact IH|]. simpl. destruct (nest _ _) as [|x r]; [done|].
    simpl. rewrite String.eqb_refl. exact IH.
Qed.

Section derived.
Context {Span : Type} `{SpanOps Span}.

Lemma json_derived ds ps :
  fold_left (derive (Span := Span)) ds {| jh_presets := ps |} = {| jh_presets := ps ++ presets_of ds |}.
Proof.
  revert ps. induction ds as [|d ds IH]; intros ps; simpl; [by rewrite app_nil_r|].
  destruct d as [l|g]; simpl.
  - destruct (length l =? 0)%nat; [apply IH|]. simpl. by rewrite IH, <- app_assoc.
  - destruct (String.eqb g ""); [apply IH|]. simpl. by rewrite IH, <- app_assoc.
Qed.

(** Deriving commutes with wrapping: no derived logger loses the trace id. *)
Lemma handler_derived {T} `{Handler Span T} ds (h : T) :
  fold_left (derive (Span := Span)) ds (Build_handler h) = Build_handler (fold_left (derive (Span := Span)) ds h).
Proof.
  revert h. induction ds as [|d ds IH]; intros h; simpl; [done|]. rewrite <- IH. f_equal.
  destruct d as [l|g]; simpl; [by destruct (_ =? _)%nat|by destruct (String.eqb g "")].
Qed.
End derived.

(** * Properties *)

(** C26: Every log line carries its trace id.  A logger derived from New by any
    attributes and groups logs exactly as the plain JSON logger would log the
    record with the field trace_id appended; so an enabled record becomes one line
    (unless the write fails), whose last field, inside the groups the logger has
    opened, is trace_id with the active span's id, or the zero id if no valid span
    is active; with no open group the field is at the top level. *)
Theorem log_lines_carry_trace_id {Span} `{SpanOps Span} ds (ctx : Ctx Span) r out :
  let logger := fold_left (derive (Span := Span)) ds New in
  let plain := fold_left (derive (Span := Span)) ds {| jh_presets := [] |} in
  let id := if IsValid (cx_span ctx) then TraceID_String (cx_span ctx) else zeroTraceID in
  log_attrs ctx r logger out = log_attrs ctx (AddAttr (Field "trace_id" id) r) plain out /\
  (LevelInfo <= lr_level r -> hd None (so_errors out) = None ->
   exists line fields, so_lines (log_attrs ctx r logger out).2 = so_lines out ++ [line] /\
     lr_msg line = lr_msg r /\ lr_level line = lr_level r /\
     descend (open_groups ds) (lr_attrs line) = Some fields /\ last fields = Some (Field "trace_id" id))%Z.
Proof.
  intros logger plain id. assert (logger = Build_handler plain) as Hl by apply handler_derived.
  assert (plain = {| jh_presets := presets_of ds |}) as Hp by apply json_derived.
  assert (log_attrs ctx r logger out = log_attrs ctx (AddAttr (Field "trace_id" id) r) plain out) as Hsame
    by (by rewrite Hl).
  split; [exact Hsame|]. intros Hlevel Hok. rewrite Hsame, Hp.
  unfold log_attrs. cbn [Enabled json_handler lr_level AddAttr]. rewrite (proj2 (Z.leb_le _ _) Hlevel).
  unfold bind, ret. cbn [Handle json_handler]. unfold write_line. rewrite Hok.
  destruct (nest_descend ds (lr_attrs r) (Field "trace_id" id)) as (fields & Hd & Hlast).
  eexists _, fields. split; [reflexivity|]. split_and!; [done|done|exact Hd|exact Hlast].
Qed.

(** ** Witnesses *)
(** A span as its validity and its id. *)
#[local] Instance demo_span : SpanOps (bool * string) := {| IsValid := fst; TraceID_String := snd |}.

Definition demo_record : LogRecord :=
  {| lr_level := LevelInfo; lr_msg := "ingest event"; lr_attrs := [Field "event_type" "ITEM_CREATED"] |}.

Definition demo_ctx : Ctx (bool * string) :=
  {| cx_span := (true, "4bf92f3577b34da6a3ce929d0e0e4736"); cx_outgoing := None |}.

Example demo_line :
  so_lines (log_attrs demo_ctx demo_record
              (fold_left (derive (Span := bool * string)) [With [Field "svc" "analytics"]; OpenGroup "g"] New)
              {| so_lines := []; so_errors := [] |}).2 =
  [ {| lr_level := 0; lr_msg := "ingest event";
       lr_attrs := [Field "svc" "analytics";
                    Group "g" [Field "event_type" "ITEM_CREATED";
                               Field "trace_id" "4bf92f3577b34da6a3ce929d0e0e4736"]] |} ].
Proof. reflexivity. Qed.

Lemma log_lines_carry_trace_id_witness :
  exists line fields,
    so_lines (log_attrs demo_ctx demo_record (fold_left (derive (Span := bool * string)) [OpenGroup "g"] New)
                {| so_lines := []; so_errors := [] |}).2 = [line] /\
    descend ["g"] (lr_attrs line) = Some fields /\
    last fields = Some (Field "trace_id" "4bf92f3577b34da6a3ce929d0e0e4736").
Proof.
  destruct (log_lines_carry_trace_id [OpenGroup "g"] demo_ctx demo_record {| so_lines := []; so_errors := [] |})
    as [_ H].
  destruct H as (line & fields & Hl & _ & _ & Hd & Hf); [vm_compute; discriminate|reflexivity|].
  exists line, fields. exact (conj Hl (conj Hd Hf)).
Defined.
