(* ===== verification/Trace.v ===== *)
(** * Trace: trace context on the ingest client's calls (internal/ingest/trace.go,
      internal/otelsetup)

    gRPC's metadata, the propagators and the tracer providers of OpenTelemetry
    are not part of the repository: the classes [Metadata] and [Otel] hold the
    operations the code calls, and [MetadataLaws] and [OtelLaws] the documented
    behaviour it relies on; likewise [Grpc] and [GrpcLaws] for gRPC's connections
    and the generated stub.  Metadata maps are shared, so they live in a heap and
    a context holds the address of one. *)
From S2P Require Import Prelude.
From S2P Require Import Logging.
Local Open Scope go_scope.

(** ** google.golang.org/grpc/metadata *)
Abbreviation MD := (gmap string (list string)).
Abbreviation Heap := (gmap nat MD).

(** [strings.ToLower] of an ASCII string. *)
Definition lower_ascii (c : Ascii.ascii) : Ascii.ascii :=
  let n := Ascii.nat_of_ascii c in
  if (65 <=? n)%nat && (n <=? 90)%nat then Ascii.ascii_of_nat (n + 32) else c.

Fixpoint ToLower (s : string) : string :=
  match s with String c s' => String (lower_ascii c) (ToLower s') | EmptyString => EmptyString end.

Fixpoint is_ascii (s : string) : bool :=
  match s with String c s' => (Ascii.nat_of_ascii c <? 128)%nat && is_ascii s' | EmptyString => true end.

Class Metadata (Span : Type) := {
  FromOutgoingContext : Ctx Span -> M Heap (option nat);
  NewOutgoingContext : Ctx Span -> nat -> Ctx Span;
  md_Copy : nat -> M Heap nat;
  md_Get : string -> nat -> Heap -> list string;
  md_Set : string -> list string -> nat -> M Heap unit
}.

(** What a call made with the context sends. *)
Definition outgoing {Span} (ctx : Ctx Span) (h : Heap) : MD :=
  default ∅ (l ← cx_outgoing ctx; h !! l).

(** The context's metadata exists and its keys are lowercase. *)
Definition wf_outgoing {Span} (ctx : Ctx Span) (h : Heap) : Prop :=
  forall l, cx_outgoing ctx = Some l ->
    exists m, h !! l = Some m /\ forall k, is_Some (m !! k) -> ToLower k = k.

Class MetadataLaws (Span : Type) `{Metadata Span} := {
  FromOutgoingContext_None (ctx : Ctx Span) h :
    cx_outgoing ctx = None -> FromOutgoingContext ctx h = (None, h);
  (** Whether the map returned is the context's own is left open. *)
  FromOutgoingContext_Some (ctx : Ctx Span) h l :
    wf_outgoing ctx h -> cx_outgoing ctx = Some l ->
    exists l' h', FromOutgoingContext ctx h = (Some l', h') /\ h ⊆ h' /\ h' !! l' = h !! l;
  NewOutgoingContext_spec (ctx : Ctx Span) l :
    NewOutgoingContext ctx l = {| cx_span := cx_span ctx; cx_outgoing := Some l |};
  md_Copy_spec l m h :
    h !! l = Some m -> exists l', md_Copy l h = (l', <[l' := m]> h) /\ h !! l' = None;
  md_Get_spec k l m h :
    is_ascii k = true -> h !! l = Some m -> md_Get k l h = default [] (m !! ToLower k);
  md_Set_spec k v vs l m h :
    is_ascii k = true -> h !! l = Some m ->
    md_Set k (v :: vs) l h = (tt, <[l := <[ToLower k := v :: vs]> m]> h)
}.

(** ** go.opentelemetry.io/otel *)
Class TextMapCarrier (S C : Type) := {
  Carrier_Get : string -> C -> S -> string;
  Carrier_Set : string -> string -> C -> M S unit;
  Carrier_Keys : C -> S -> list string
}.

Class Otel (Span : Type) := {
  Propagator : Type;
  TraceContext : Propagator;
  Baggage : Propagator;
  NewCompositeTextMapPropagator : list Propagator -> Propagator;
  Inject : forall {S C} `{TextMapCarrier S C}, Propagator -> Ctx Span -> C -> M S unit;
  Resource : Type;
  NewSchemaless : list (string * string) -> Resource;
  ProviderOption : Type;
  WithResource : Resource -> ProviderOption;
  TracerProvider : Type;
  NewTracerProvider : list ProviderOption -> TracerProvider;
  (** [provider.Tracer(tracer).Start(ctx, name)], given how many spans there were. *)
  Start : TracerProvider -> string -> string -> nat -> Ctx Span -> Ctx Span;
  (** The fields a propagator sets for a context, in order. *)
  fields : Propagator -> Ctx Span -> list (string * string)
}.

Fixpoint set_fields {S C} `{TextMapCarrier S C} (l : list (string * string)) (c : C) : M S unit :=
  match l with
  | [] => ret tt
  | (k, v) :: l' => let! _ := Carrier_Set k v c in set_fields l' c
  end.

(** The W3C header: version, trace id, and the parent id with the flags. *)
Definition traceparent_of (id rest : string) : string := "00-" +:+ id +:+ "-" +:+ rest.

Definition only_key (k : string) (l : list (string * string)) : Prop := Forall (fun kv => kv.1 = k) l.

Class OtelLaws (Span : Type) `{Otel Span} `{SpanOps Span} := {
  Inject_fields {S C} `{TextMapCarrier S C} p (ctx : Ctx Span) (c : C) s :
    Inject p ctx c s = set_fields (fields p ctx) c s;
  fields_composite ps (ctx : Ctx Span) :
    fields (NewCompositeTextMapPropagator ps) ctx = flat_map (fun p => fields p ctx) ps;
  fields_TraceContext (ctx : Ctx Span) : IsValid (cx_span ctx) = true ->
    exists state rest, only_key "tracestate" state /\
      fields TraceContext ctx =
        state ++ [("traceparent", traceparent_of (TraceID_String (cx_span ctx)) rest)];
  fields_Baggage (ctx : Ctx Span) : only_key "baggage" (fields Baggage ctx);
  Start_valid opts tracer name n (ctx : Ctx Span) :
    IsValid (cx_span (Start (NewTracerProvider opts) tracer name n ctx)) = true;
  Start_parent opts tracer name n (ctx : Ctx Span) : IsValid (cx_span ctx) = true ->
    TraceID_String (cx_span (Start (NewTracerProvider opts) tracer name n ctx)) =
    TraceID_String (cx_span ctx);
  Start_outgoing p tracer name n (ctx : Ctx Span) :
    cx_outgoing (Start p tracer name n ctx) = cx_outgoing ctx;
  TraceID_length (s : Span) : IsValid s = true -> String.length (TraceID_String s) = 32%nat
}.

(** The process: OpenTelemetry's globals, the spans started, the metadata maps, and
    the calls that went out on the network, each its method and metadata. *)
Record Process (Span : Type) `{Otel Span} := {
  pr_propagator : Propagator;
  pr_provider : TracerProvider;
  pr_spans : nat;
  pr_heap : Heap;
  pr_wire : list (string * MD)
}.
Arguments pr_propagator {Span _} p.
Arguments pr_provider {Span _} p.
Arguments pr_spans {Span _} p.
Arguments pr_heap {Span _} p.
Arguments pr_wire {Span _} p.

(** ** google.golang.org/grpc *)
Section grpc_types.
Context {Span : Type} `{Otel Span}.
Variables (Msg Desc Conn Opt R St : Type).

Definition UnaryInvoker : Type :=
  Ctx Span -> string -> Msg -> Msg -> Conn -> list Opt -> M (Process Span) R.
Definition UnaryClientInterceptor : Type :=
  Ctx Span -> string -> Msg -> Msg -> Conn -> UnaryInvoker -> list Opt -> M (Process Span) R.
Definition Streamer : Type :=
  Ctx Span -> Desc -> Conn -> string -> list Opt -> M (Process Span) St.
Definition StreamClientInterceptor : Type :=
  Ctx Span -> Desc -> Conn -> string -> Streamer -> list Opt -> M (Process Span) St.

(** The first interceptor of a chain is the outermost. *)
Fixpoint chain_unary (l : list UnaryClientInterceptor) (invoker : UnaryInvoker) : UnaryInvoker :=
  match l with
  | [] => invoker
  | i :: l' => fun ctx method req reply cc opts =>
      i ctx method req reply cc (chain_unary l' invoker) opts
  end.

Fixpoint chain_stream (l : list StreamClientInterceptor) (streamer : Streamer) : Streamer :=
  match l with
  | [] => streamer
  | i :: l' => fun ctx desc cc method opts => i ctx desc cc method (chain_stream l' streamer) opts
  end.
End grpc_types.

(** Connections, and the generated client of items.proto on one: [ListItems] and
    [WatchItemEvents] with an empty request.  An interceptor is handed a pointer to
    the connection of the call. *)
Class Grpc (Span : Type) `{Otel Span} := {
  Msg : Type; Desc : Type; ClientConn : Type; ConnPtr : Type; CallOption : Type; ClientStream : Type;
  DialOption : Type;
  WithTransportCredentials : DialOption;
  WithChainUnaryInterceptor :
    list (UnaryClientInterceptor Msg ConnPtr CallOption (error + Msg)) -> DialOption;
  WithChainStreamInterceptor :
    list (StreamClientInterceptor Desc ConnPtr CallOption (error + ClientStream)) -> DialOption;
  conn_ptr : ClientConn -> ConnPtr;
  NewClient : string -> list DialOption -> error + ClientConn;
  ListItems : ClientConn -> Ctx Span -> M (Process Span) (error + Msg);
  WatchItemEvents : ClientConn -> Ctx Span -> M (Process Span) (error + ClientStream);
  (** The interceptors a dial option adds, and the calls on the transport itself. *)
  unary_of : DialOption -> list (UnaryClientInterceptor Msg ConnPtr CallOption (error + Msg));
  stream_of : DialOption -> list (StreamClientInterceptor Desc ConnPtr CallOption (error + ClientStream));
  wire_unary : UnaryInvoker Msg ConnPtr CallOption (error + Msg);
  wire_stream : Streamer Desc ConnPtr CallOption (error + ClientStream)
}.

Definition list_items_method : string := "/devopsdemo.items.v1.ItemService/ListItems".
Definition watch_method : string := "/devopsdemo.items.v1.ItemService/WatchItemEvents".

(** A call of [method] made with [ctx] has gone out. *)
Definition sent {Span} `{Otel Span} (method : string) (ctx : Ctx Span) (s : Process Span) : Process Span :=
  {| pr_propagator := pr_propagator s; pr_provider := pr_provider s; pr_spans := pr_spans s;
     pr_heap := pr_heap s; pr_wire := pr_wire s ++ [(method, outgoing ctx (pr_heap s))] |}.

Class GrpcLaws (Span : Type) `{Grpc Span} := {
  unary_of_credentials : unary_of WithTransportCredentials = [];
  unary_of_unary l : unary_of (WithChainUnaryInterceptor l) = l;
  unary_of_stream l : unary_of (WithChainStreamInterceptor l) = [];
  stream_of_credentials : stream_of WithTransportCredentials = [];
  stream_of_unary l : stream_of (WithChainUnaryInterceptor l) = [];
  stream_of_stream l : stream_of (WithChainStreamInterceptor l) = l;
  (** A call on a connection goes through the interceptors it was dialed with. *)
  ListItems_dialed addr opts conn : NewClient addr opts = inr conn ->
    exists req reply copts, forall ctx s, ListItems conn ctx s =
      chain_unary _ _ _ _ (flat_map unary_of opts) wire_unary ctx list_items_method req reply (conn_ptr conn) copts s;
  WatchItemEvents_dialed addr opts conn : NewClient addr opts = inr conn ->
    exists desc copts, forall ctx s, WatchItemEvents conn ctx s =
      chain_stream _ _ _ _ (flat_map stream_of opts) wire_stream ctx desc (conn_ptr conn)
        watch_method copts s;
  wire_unary_sends ctx method req reply cc opts s :
    (wire_unary ctx method req reply cc opts s).2 = sent method ctx s;
  wire_stream_sends ctx desc cc method opts s :
    (wire_stream ctx desc cc method opts s).2 = sent method ctx s
}.

Section trace.
Context {Span : Type} `{Metadata Span} `{Otel Span}.
(** The order in which [range] visits a map's keys. *)
Variable range_keys : MD -> list string.

(** *** Global state *)
Definition SetTextMapPropagator (p : Propagator) : M (Process Span) unit := fun s =>
  (tt, {| pr_propagator := p; pr_provider := pr_provider s; pr_spans := pr_spans s;
          pr_heap := pr_heap s; pr_wire := pr_wire s |}).

Definition GetTextMapPropagator : M (Process Span) Propagator := fun s => (pr_propagator s, s).

Definition SetTracerProvider (tp : TracerProvider) : M (Process Span) unit := fun s =>
  (tt, {| pr_propagator := pr_propagator s; pr_provider := tp; pr_spans := pr_spans s;
          pr_heap := pr_heap s; pr_wire := pr_wire s |}).

Definition set_heap (h : Heap) (s : Process Span) : Process Span :=
  {| pr_propagator := pr_propagator s; pr_provider := pr_provider s; pr_spans := pr_spans s;
     pr_heap := h; pr_wire := pr_wire s |}.

Definition on_heap {A} (m : M Heap A) : M (Process Span) A := fun s =>
  let '(a, h) := m (pr_heap s) in (a, set_heap h s).

(** *** otelsetup.Init *)
Definition Init (_ : Ctx Span) : M (Process Span) TracerProvider :=
  let! _ := SetTextMapPropagator (NewCompositeTextMapPropagator [TraceContext; Baggage]) in
  let res := NewSchemaless [("service.name", "analytics")] in
  let tp := NewTracerProvider [WithResource res] in
  let! _ := SetTracerProvider tp in
  ret tp.

(** *** The carrier: the variable [md] it points to is the address of a map *)
Record metadataCarrier := { md : nat }.

Definition metadataCarrier_Get (key : string) (c : metadataCarrier) (h : Heap) : string :=
  let vals := md_Get key (md c) h in
  match vals with [] => "" | v :: _ => v end.

Definition metadataCarrier_Set (key value : string) (c : metadataCarrier) : M Heap unit :=
  md_Set key [value] (md c).

Definition metadataCarrier_Keys (c : metadataCarrier) (h : Heap) : list string :=
  match h !! md c with
  | Some m => fold_left (fun keys k => keys ++ [k]) (range_keys m) []
  | None => []
  end.

#[export] Instance metadata_carrier : TextMapCarrier Heap metadataCarrier := {|
  Carrier_Get := metadataCarrier_Get;
  Carrier_Set := metadataCarrier_Set;
  Carrier_Keys := metadataCarrier_Keys
|}.

(** [metadata.MD{}]: a new map. *)
Definition new_MD : M Heap nat := fun h => let l := fresh (dom h) in (l, <[l := ∅]> h).

(** *** injectTraceContext and the interceptors *)
Definition injectTraceContext (ctx : Ctx Span) : M (Process Span) (Ctx Span) :=
  let! r := on_heap (FromOutgoingContext ctx) in
  let! m := (match r with
             | Some m => on_heap (md_Copy m)
             | None => on_heap new_MD
             end) in
  let! p := GetTextMapPropagator in
  let! _ := on_heap (Inject p ctx {| md := m |}) in
  ret (NewOutgoingContext ctx m).

Definition traceUnaryClientInterceptor {Msg Conn Opt R : Type}
    (ctx : Ctx Span) (method : string) (req reply : Msg) (cc : Conn)
    (invoker : Ctx Span -> string -> Msg -> Msg -> Conn -> list Opt -> M (Process Span) R)
    (opts : list Opt) : M (Process Span) R :=
  let! ctx' := injectTraceContext ctx in
  invoker ctx' method req reply cc opts.

Definition traceStreamClientInterceptor {Desc Conn Opt R : Type}
    (ctx : Ctx Span) (desc : Desc) (cc : Conn) (method : string)
    (streamer : Ctx Span -> Desc -> Conn -> string -> list Opt -> M (Process Span) R)
    (opts : list Opt) : M (Process Span) R :=
  let! ctx' := injectTraceContext ctx in
  streamer ctx' desc cc method opts.

(** *** The start of a cycle (client.go): its span *)
Definition cycle_start (ctx : Ctx Span) : M (Process Span) (Ctx Span) := fun s =>
  (Start (pr_provider s) "analytics/ingest" "analytics.ingest.cycle" (pr_spans s) ctx,
   {| pr_propagator := pr_propagator s; pr_provider := pr_provider s;
      pr_spans := S (pr_spans s); pr_heap := pr_heap s; pr_wire := pr_wire s |}).
End trace.

(** *** The calls of a cycle (client.go)

    The span, the connection with its interceptors, the snapshot and the stream;
    what [snapshotReconcile] does with the reply is the argument [reconcile], the
    rest of the cycle receives on the stream. *)
Section wiring.
Context {Span : Type} `{Metadata Span} `{Otel Span} `{!Grpc Span}.
Variable range_keys : MD -> list string.
Variable BackendAddr : string.
Variable reconcile : Msg -> option error.

Definition dial_options : list DialOption :=
  [WithTransportCredentials;
   WithChainUnaryInterceptor [traceUnaryClientInterceptor range_keys];
   WithChainStreamInterceptor [traceStreamClientInterceptor range_keys]].

Definition cycle_open (ctx : Ctx Span) : M (Process Span) (error + ClientStream) :=
  let! ctx := cycle_start ctx in
  match NewClient BackendAddr dial_options with
  | inl err => ret (inl (ErrWrap ("dial " +:+ BackendAddr) err))
  | inr conn =>
      let! r := ListItems conn ctx in
      match r with
      | inl err => ret (inl (ErrWrap "snapshot reconcile" (ErrWrap "ListItems" err)))
      | inr resp =>
          match reconcile resp with
          | Some err => ret (inl (ErrWrap "snapshot reconcile" (ErrWrap "reconcile" err)))
          | None =>
              let! stream := WatchItemEvents conn ctx in
              match stream with
              | inl err => ret (inl (ErrWrap "open watch stream" err))
              | inr stream => ret (inr stream)
              end
          end
      end
  end.
End wiring.

(** ** The carrier *)
Definition put_field (m : MD) (kv : string * string) : MD := <[kv.1 := [kv.2]]> m.

Definition plain_key (kv : string * string) : Prop := is_ascii kv.1 = true /\ ToLower kv.1 = kv.1.

Section carrier.
Context {Span : Type} `{MetadataLaws Span}.
Variable range_keys : MD -> list string.
#[local] Existing Instance metadata_carrier.

(** A value set under a key is what the carrier returns for it, in any case of
    its letters, and its lowercase key is listed. *)
Lemma carrier_set_get k k' v c h m :
  h !! md c = Some m -> is_ascii k = true -> is_ascii k' = true -> ToLower k' = ToLower k ->
  (forall m, range_keys m ≡ₚ elements (dom m)) ->
  let h' := (metadataCarrier_Set k v c h).2 in
  metadataCarrier_Get k' c h' = v /\ ToLower k ∈ metadataCarrier_Keys range_keys c h'.
Proof.
  intros Hm Hk Hk' Heq Hr h'. subst h'. unfold metadataCarrier_Set.
  rewrite (md_Set_spec k v [] (md c) m h Hk Hm). cbn [snd]. split.
  - unfold metadataCarrier_Get. rewrite (md_Get_spec k' (md c) (<[ToLower k := [v]]> m)); [|done|apply lookup_insert_eq].
    by rewrite Heq, lookup_insert_eq.
  - unfold metadataCarrier_Keys. rewrite lookup_insert_eq.
    assert (forall l a : list string, fold_left (fun keys k => keys ++ [k]) l a = a ++ l) as Happ.
    { induction l as [|x l IH]; intros a; simpl; [by rewrite app_nil_r|]. by rewrite IH, <- app_assoc. }
    rewrite Happ. simpl. rewrite (Hr _). apply elem_of_elements, elem_of_dom.
    rewrite lookup_insert_eq. by eexists.
Qed.

Lemma set_fields_heap l fs h m :
  h !! l = Some m -> Forall plain_key fs ->
  set_fields (H := metadata_carrier range_keys) fs {| md := l |} h =
  (tt, <[l := fold_left put_field fs m]> h).
Proof.
  revert h m. induction fs as [|[k v] fs IH]; intros h m Hm Hfs; simpl.
  - unfold ret. by rewrite insert_id.
  - apply Forall_cons in Hfs as [[Hk Hl] Hfs]. unfold bind, metadataCarrier_Set. cbn [md] in *.
    rewrite (md_Set_spec k v [] l m h Hk Hm). cbn [fst snd] in *. rewrite Hl.
    rewrite (IH _ (<[k := [v]]> m)) by (done || apply lookup_insert_eq). by rewrite insert_insert_eq.
Qed.

(** The map the fields are written to: a fresh one, which holds the context's
    entries; no map that existed changes. *)
Lemma target_map (ctx : Ctx Span) h :
  wf_outgoing ctx h ->
  exists l h',
    (let! r := FromOutgoingContext ctx in
     match r with Some m => md_Copy m | None => new_MD end) h = (l, h') /\
    h !! l = None /\ h ⊆ h' /\ h' !! l = Some (outgoing ctx h).
Proof.
  intros Hwf. unfold bind, outgoing. destruct (cx_outgoing ctx) as [a|] eqn:Ha; simpl.
  - destruct (Hwf a Ha) as (m & Hm & _).
    destruct (FromOutgoingContext_Some ctx h a Hwf Ha) as (b & h1 & -> & Hsub & Hb).
    rewrite Hm in *. destruct (md_Copy_spec b m h1 Hb) as (l & -> & Hfresh).
    exists l, (<[l := m]> h1). split_and!; [done|by eapply lookup_weaken_None| |apply lookup_insert_eq].
    etransitivity; [done|]. by apply insert_subseteq.
  - rewrite FromOutgoingContext_None by done. unfold new_MD.
    assert (h !! fresh (dom h) = None) as Hf by (apply not_elem_of_dom, is_fresh).
    eexists _, _. split_and!; [done|done|by apply insert_subseteq|apply lookup_insert_eq].
Qed.
End carrier.

Lemma put_fields_other fs m k :
  Forall (fun kv => kv.1 <> k) fs -> fold_left put_field fs m !! k = m !! k.
Proof.
  revert m. induction fs as [|kv fs IH]; intros m Hfs; simpl; [done|].
  apply Forall_cons in Hfs as [Hk Hfs]. rewrite IH by done. by apply lookup_insert_ne.
Qed.

Lemma append_cons c s t : String c s +:+ t = String c (s +:+ t).
Proof. done. Qed.

Lemma substring_app s t : String.substring 0 (String.length s) (s +:+ t) = s.
Proof.
  induction s as [|c s IH]; [by destruct t|]. rewrite append_cons.
  change (String c (String.substring 0 (String.length s) (s +:+ t)) = String c s). by rewrite IH.
Qed.

(** The trace id is in its place in the header. *)
Lemma traceparent_id id rest :
  String.length id = 32%nat -> String.substring 3 32 (traceparent_of id rest) = id.
Proof. intros Hl. unfold traceparent_of. rewrite <- Hl. apply (substring_app id). Qed.

(** ** Injection after Init *)
Section inject.
Context {Span : Type} `{Hmd : MetadataLaws Span} `{Hot : OtelLaws Span}.
Variable range_keys : MD -> list string.

(** The keys the propagators of [Init] may set. *)
Definition trace_keys : list string := ["traceparent"; "tracestate"; "baggage"].

Definition initialized (s : Process Span) : Prop :=
  pr_propagator s = NewCompositeTextMapPropagator [TraceContext; Baggage].

(** What the propagators of [Init] set: the W3C header, and nothing outside
    [trace_keys]. *)
Lemma init_fields (ctx : Ctx Span) : IsValid (cx_span ctx) = true ->
  let fs := fields (NewCompositeTextMapPropagator [TraceContext; Baggage]) ctx in
  Forall (fun kv => kv.1 ∈ trace_keys) fs /\
  forall m, exists rest,
    fold_left put_field fs m !! "traceparent" =
      Some [traceparent_of (TraceID_String (cx_span ctx)) rest].
Proof.
  intros Hv fs. subst fs. rewrite fields_composite. simpl. rewrite app_nil_r.
  destruct (fields_TraceContext ctx Hv) as (st & rest & Hst & ->).
  pose proof (fields_Baggage ctx) as Hb. split.
  - rewrite !Forall_app, Forall_singleton. split_and!.
    + eapply Forall_impl; [exact Hst|]. intros kv ->. unfold trace_keys. set_solver.
    + unfold trace_keys. simpl. set_solver.
    + eapply Forall_impl; [exact Hb|]. intros kv ->. unfold trace_keys. set_solver.
  - intros m. exists rest. rewrite <- app_assoc, fold_left_app. simpl. rewrite put_fields_other.
    + apply lookup_insert_eq.
    + eapply Forall_impl; [exact Hb|]. by intros kv ->.
Qed.

Lemma trace_keys_plain fs : Forall (fun kv : string * string => kv.1 ∈ trace_keys) fs -> Forall plain_key fs.
Proof.
  intros Hfs. eapply Forall_impl; [exact Hfs|]. intros kv Hk. unfold trace_keys in Hk.
  rewrite !elem_of_cons, elem_of_nil in Hk. unfold plain_key.
  destruct Hk as [->|[->|[->|[]]]]; by split.
Qed.

Lemma inject_spec (ctx : Ctx Span) s :
  initialized s -> wf_outgoing ctx (pr_heap s) -> IsValid (cx_span ctx) = true ->
  exists l sent rest h',
    injectTraceContext range_keys ctx s =
      ({| cx_span := cx_span ctx; cx_outgoing := Some l |}, set_heap h' s) /\
    pr_heap s !! l = None /\ pr_heap s ⊆ h' /\ h' !! l = Some sent /\
    sent !! "traceparent" = Some [traceparent_of (TraceID_String (cx_span ctx)) rest] /\
    forall k, k ∉ trace_keys -> sent !! k = outgoing ctx (pr_heap s) !! k.
Proof.
  intros Hi Hwf Hv. destruct (target_map ctx (pr_heap s) Hwf) as (l & h1 & Ht & Hfresh & Hsub & Hl).
  destruct (init_fields ctx Hv) as [Hkeys Hheader].
  destruct (Hheader (outgoing ctx (pr_heap s))) as [rest Hrest].
  set (fs := fields _ ctx) in *.
  exists l, (fold_left put_field fs (outgoing ctx (pr_heap s))), rest,
    (<[l := fold_left put_field fs (outgoing ctx (pr_heap s))]> h1).
  split_and!; [|done| |apply lookup_insert_eq|done|].
  - unfold injectTraceContext, bind, on_heap, GetTextMapPropagator, ret in *.
    destruct (FromOutgoingContext ctx (pr_heap s)) as [[m|] h0]; cbn [set_heap pr_heap];
      rewrite Ht; cbn [set_heap pr_heap pr_propagator]; rewrite Hi, Inject_fields,
        (set_fields_heap _ _ _ _ _ Hl (trace_keys_plain _ Hkeys)), NewOutgoingContext_spec; done.
  - apply map_subseteq_spec. intros a m Ha.
    rewrite lookup_insert_ne by congruence. by eapply lookup_weaken.
  - intros k Hk. apply put_fields_other. eapply Forall_impl; [exact Hkeys|]. by intros kv Hkv <-.
Qed.
End inject.

(** * Properties *)

(** ** The calls of a cycle *)
Section calls.
Context {Span : Type} `{Hmd : MetadataLaws Span} `{Hot : OtelLaws Span} `{!Grpc Span} `{!GrpcLaws Span}.
Variable range_keys : MD -> list string.

(** A call that carries the trace of [ctx] and the metadata [md]. *)
Definition carries (ctx : Ctx Span) (md : MD) (call : string * MD) : Prop :=
  (exists header, call.2 !! "traceparent" = Some [header] /\
     String.substring 3 32 header = trace_id_of ctx) /\
  forall k, k ∉ trace_keys -> call.2 !! k = md !! k.

(** From [s] to [s'] one call of [method] goes out, and no metadata map changes. *)
Definition one_call (ctx : Ctx Span) (method : string) (s s' : Process Span) : Prop :=
  initialized s' /\ pr_heap s ⊆ pr_heap s' /\
  exists call, pr_wire s' = pr_wire s ++ [(method, call)] /\
    carries ctx (outgoing ctx (pr_heap s)) (method, call).

Lemma injected_call (ctx : Ctx Span) method s :
  initialized s -> wf_outgoing ctx (pr_heap s) -> IsValid (cx_span ctx) = true ->
  let '(ctx', s1) := injectTraceContext range_keys ctx s in one_call ctx method s (sent method ctx' s1).
Proof.
  intros Hi Hwf Hv. destruct (inject_spec range_keys ctx s Hi Hwf Hv)
    as (l & m & rest & h' & -> & _ & Hsub & Hl & Htp & Hoth).
  split_and!; [exact Hi|exact Hsub|]. exists m. split.
  { unfold outgoing. cbn. by rewrite Hl. }
  split; [|exact Hoth]. eexists. split; [exact Htp|].
  rewrite traceparent_id by (by apply TraceID_length). unfold trace_id_of. by rewrite Hv.
Qed.

Lemma ListItems_call addr conn (ctx : Ctx Span) s :
  NewClient addr (dial_options range_keys) = inr conn ->
  initialized s -> wf_outgoing ctx (pr_heap s) -> IsValid (cx_span ctx) = true ->
  one_call ctx list_items_method s (ListItems conn ctx s).2.
Proof.
  intros Hc Hi Hwf Hv. destruct (ListItems_dialed _ _ _ Hc) as (req & reply & copts & ->).
  unfold dial_options. cbn [flat_map]. rewrite unary_of_credentials, unary_of_unary, unary_of_stream.
  cbn [app chain_unary]. unfold traceUnaryClientInterceptor, bind.
  pose proof (injected_call ctx list_items_method s Hi Hwf Hv) as Hinj.
  destruct (injectTraceContext range_keys ctx s) as [ctx' s1]. by rewrite wire_unary_sends.
Qed.

Lemma WatchItemEvents_call addr conn (ctx : Ctx Span) s :
  NewClient addr (dial_options range_keys) = inr conn ->
  initialized s -> wf_outgoing ctx (pr_heap s) -> IsValid (cx_span ctx) = true ->
  one_call ctx watch_method s (WatchItemEvents conn ctx s).2.
Proof.
  intros Hc Hi Hwf Hv. destruct (WatchItemEvents_dialed _ _ _ Hc) as (desc & copts & ->).
  unfold dial_options. cbn [flat_map]. rewrite stream_of_credentials, stream_of_unary, stream_of_stream.
  cbn [app chain_stream]. unfold traceStreamClientInterceptor, bind.
  pose proof (injected_call ctx watch_method s Hi Hwf Hv) as Hinj.
  destruct (injectTraceContext range_keys ctx s) as [ctx' s1]. by rewrite wire_stream_sends.
Qed.

Lemma wf_outgoing_grow (ctx : Ctx Span) h h' :
  wf_outgoing ctx h -> h ⊆ h' -> wf_outgoing ctx h' /\ outgoing ctx h' = outgoing ctx h.
Proof.
  intros Hwf Hsub. unfold wf_outgoing, outgoing in *. destruct (cx_outgoing ctx) as [l|]; [|done].
  destruct (Hwf l eq_refl) as (m & Hm & Hk). pose proof (lookup_weaken _ _ _ _ Hm Hsub) as Hm'.
  split; [intros l' [= <-]; by exists m|]. cbn. by rewrite Hm, Hm'.
Qed.

(** The calls between two states, in order, and the trace they carry. *)
Definition calls_made (ctx : Ctx Span) (md : MD) (methods : list string) (s s' : Process Span) : Prop :=
  pr_heap s ⊆ pr_heap s' /\
  exists calls, pr_wire s' = pr_wire s ++ calls /\ calls.*1 = methods /\ Forall (carries ctx md) calls.

Lemma calls_none ctx md s : calls_made ctx md [] s s.
Proof. split; [done|]. exists []. by rewrite app_nil_r. Qed.

Lemma calls_snoc ctx md methods method s s1 s2 :
  calls_made ctx md methods s s1 -> outgoing ctx (pr_heap s1) = md -> one_call ctx method s1 s2 ->
  calls_made ctx md (methods ++ [method]) s s2.
Proof.
  intros (Hsub & calls & Hw & Hm & Hf) Ho (_ & Hsub' & call & Hw' & Hc). split; [by etransitivity|].
  exists (calls ++ [(method, call)]). rewrite Hw', Hw, fmap_app, Hm, <- app_assoc. split_and!; [done|done|].
  apply Forall_app. split; [done|]. apply Forall_singleton. by rewrite <- Ho.
Qed.

(** The start of a cycle after Init: a valid span, nothing sent yet. *)
Lemma cycle_started (ctx0 ctx : Ctx Span) (s0 : Process Span) :
  let '(cctx, s) := cycle_start ctx (Init ctx0 s0).2 in
  IsValid (cx_span cctx) = true /\ cx_outgoing cctx = cx_outgoing ctx /\
  (IsValid (cx_span ctx) = true -> trace_id_of cctx = TraceID_String (cx_span ctx)) /\
  initialized s /\ pr_heap s = pr_heap s0 /\ pr_wire s = pr_wire s0.
Proof.
  unfold cycle_start. cbn.
  pose proof (Start_valid [WithResource (NewSchemaless [("service.name", "analytics")])]
    "analytics/ingest" "analytics.ingest.cycle" (pr_spans s0) ctx) as Hv.
  split_and!; [done|by rewrite Start_outgoing| |done|done|done].
  intros Hp. unfold trace_id_of. rewrite Hv. by apply Start_parent.
Qed.

Lemma cycle_opened addr reconcile (ctx0 ctx : Ctx Span) (s0 : Process Span) :
  wf_outgoing ctx (pr_heap s0) ->
  let s1 := (Init ctx0 s0).2 in
  let cctx := (cycle_start ctx s1).1 in
  let '(r, s) := cycle_open range_keys addr reconcile ctx s1 in
  IsValid (cx_span cctx) = true /\
  (IsValid (cx_span ctx) = true -> trace_id_of cctx = TraceID_String (cx_span ctx)) /\
  exists methods, calls_made cctx (outgoing ctx (pr_heap s0)) methods s0 s /\
    exists n, methods = take n [list_items_method; watch_method] /\
      (n = 0%nat <-> exists e, NewClient addr (dial_options range_keys) = inl e) /\
      ((exists stream, r = inr stream) -> n = 2%nat).
Proof.
  intros Hwf s1. unfold cycle_open, bind at 1. pose proof (cycle_started ctx0 ctx s0) as Hs. fold s1 in Hs.
  destruct (cycle_start ctx s1) as [cctx s]. destruct Hs as (Hv & Ho & Hid & Hi & Hh & Hw). cbn [fst].
  assert (wf_outgoing cctx (pr_heap s)) as Hwf' by (unfold wf_outgoing in *; by rewrite Ho, Hh).
  assert (outgoing cctx (pr_heap s) = outgoing ctx (pr_heap s0)) as Hout
    by (unfold outgoing; by rewrite Ho, Hh).
  assert (calls_made cctx (outgoing ctx (pr_heap s0)) [] s0 s) as Hm0
    by (split; [by rewrite Hh|]; exists []; by rewrite app_nil_r).
  destruct (NewClient addr _) as [e|conn] eqn:Hc.
  { split_and!; [done|done|]. eexists. split; [exact Hm0|]. exists 0%nat. naive_solver. }
  pose proof (ListItems_call addr conn cctx s Hc Hi Hwf' Hv) as Hw1.
  pose proof (calls_snoc _ _ _ _ _ _ _ Hm0 Hout Hw1) as Hm1. unfold bind at 1.
  destruct (ListItems conn cctx s) as [r s2]. cbn [fst snd] in *. destruct Hw1 as (Hi2 & Hsub & _).
  destruct (wf_outgoing_grow _ _ _ Hwf' Hsub) as [Hwf2 Ho2]. rewrite Hout in Ho2.
  destruct r as [e|resp]; [|destruct (reconcile resp) as [e|]].
  1,2: split_and!; [done|done|]; eexists; (split; [exact Hm1|]); exists 1%nat; naive_solver.
  pose proof (WatchItemEvents_call addr conn cctx s2 Hc Hi2 Hwf2 Hv) as Hw2.
  pose proof (calls_snoc _ _ _ _ _ _ _ Hm1 Ho2 Hw2) as Hm2. unfold bind.
  destruct (WatchItemEvents conn cctx s2) as [[e|st] s3];
    (split_and!; [done|done|]; eexists; (split; [exact Hm2|]); exists 2%nat; naive_solver).
Qed.
End calls.

(** * Properties *)


(** ** Witness: concrete metadata and tracing *)
Record DemoSpan := { sp_valid : bool; sp_trace : string }.

Definition demo_copy (m : MD) (h : Heap) : nat * Heap :=
  let l := fresh (dom h) in (l, <[l := m]> h).

#[local] Instance demo_metadata : Metadata DemoSpan := {|
  FromOutgoingContext ctx h := (cx_outgoing ctx, h);
  NewOutgoingContext ctx l := {| cx_span := cx_span ctx; cx_outgoing := Some l |};
  md_Copy l h := demo_copy (default ∅ (h !! l)) h;
  md_Get k l h := default [] (m ← h !! l; m !! ToLower k);
  md_Set k vs l h := (tt, <[l := <[ToLower k := vs]> (default ∅ (h !! l))]> h)
|}.

#[local] Instance demo_metadata_laws : MetadataLaws DemoSpan.
Proof.
  split.
  - intros ctx h Ho. cbn. by rewrite Ho.
  - intros ctx h l _ Ho. exists l, h. cbn. by rewrite Ho.
  - done.
  - intros l m h Hl. exists (fresh (dom h)). cbn. rewrite Hl. split; [done|].
    apply not_elem_of_dom, is_fresh.
  - intros k l m h _ Hl. cbn. by rewrite Hl.
  - intros k v vs l m h _ Hl. cbn. by rewrite Hl.
Qed.

#[local] Instance demo_spans : SpanOps DemoSpan := {|
  IsValid s := sp_valid s && (String.length (sp_trace s) =? 32)%nat;
  TraceID_String := sp_trace
|}.

Definition demo_fields_of (trace : bool) (ctx : Ctx DemoSpan) : list (string * string) :=
  if trace then
    if IsValid (cx_span ctx)
    then [("traceparent", traceparent_of (TraceID_String (cx_span ctx)) "00f067aa0ba902b7-01")] else []
  else [("baggage", "team=demo")].

(** A propagator is the list of what it injects: the trace, or the baggage. *)
#[local] Instance demo_otel : Otel DemoSpan := {|
  Propagator := list bool;
  TraceContext := [true];
  Baggage := [false];
  NewCompositeTextMapPropagator ps := concat ps;
  Inject _ _ _ p ctx c := set_fields (flat_map (fun b => demo_fields_of b ctx) p) c;
  Resource := list (string * string);
  NewSchemaless l := l;
  ProviderOption := list (string * string);
  WithResource r := r;
  TracerProvider := list (list (string * string));
  NewTracerProvider l := l;
  Start _ _ _ _ ctx :=
    {| cx_span := {| sp_valid := true;
         sp_trace := if IsValid (cx_span ctx) then sp_trace (cx_span ctx)
                     else "4bf92f3577b34da6a3ce929d0e0e4736" |};
       cx_outgoing := cx_outgoing ctx |};
  fields p ctx := flat_map (fun b => demo_fields_of b ctx) p
|}.

#[local] Instance demo_otel_laws : OtelLaws DemoSpan.
Proof.
  split.
  - done.
  - intros ps ctx. cbn. induction ps as [|p ps IH]; [done|]. simpl. by rewrite flat_map_app, IH.
  - intros ctx Hv. exists [], "00f067aa0ba902b7-01". split; [constructor|].
    cbn [fields demo_otel flat_map TraceContext demo_fields_of]. rewrite Hv. done.
  - intros ctx. repeat constructor.
  - intros opts t n k ctx. cbn. destruct (sp_valid _ && _) eqn:E; [|done].
    by apply andb_true_iff in E as [_ E].
  - intros opts t n k ctx Hv. cbn in *. by rewrite Hv.
  - done.
  - intros sp Hv. cbn in *. apply andb_true_iff in Hv as [_ Hv]. by apply Nat.eqb_eq.
Qed.

Definition demo_md : MD := {[ "authorization" := ["token"] ]}.

Definition demo_process : Process DemoSpan :=
  {| pr_propagator := ([] : list bool) : Propagator;
     pr_provider := ([] : list (list (string * string))) : TracerProvider;
     pr_spans := 0; pr_heap := {[ 0%nat := demo_md ]}; pr_wire := [] |}.

Definition demo_caller : Ctx DemoSpan :=
  {| cx_span := {| sp_valid := false; sp_trace := "" |}; cx_outgoing := Some 0%nat |}.

Lemma demo_caller_wf : wf_outgoing demo_caller (pr_heap demo_process).
Proof.
  intros l [= <-]. exists demo_md. split; [done|]. intros k [v Hk]. unfold demo_md in Hk.
  by apply lookup_singleton_Some in Hk as [<- _].
Qed.

(** A network where every call succeeds. *)
Abbreviation DemoUnary := (UnaryClientInterceptor unit nat unit (error + unit)).
Abbreviation DemoStream := (StreamClientInterceptor unit nat unit (error + unit)).

Definition demo_wire_unary : UnaryInvoker (Span := DemoSpan) unit nat unit (error + unit) :=
  fun ctx method _ _ _ _ s => (inr tt, sent method ctx s).
Definition demo_wire_stream : Streamer (Span := DemoSpan) unit nat unit (error + unit) :=
  fun ctx _ _ method _ s => (inr tt, sent method ctx s).

#[local] Instance demo_grpc : Grpc DemoSpan := {|
  Msg := unit; Desc := unit; ConnPtr := nat; CallOption := unit; ClientStream := unit;
  ClientConn := list DemoUnary * list DemoStream;
  DialOption := list DemoUnary * list DemoStream;
  WithTransportCredentials := ([], []);
  WithChainUnaryInterceptor l := (l, []);
  WithChainStreamInterceptor l := ([], l);
  conn_ptr _ := 0%nat;
  NewClient _ opts := inr (flat_map fst opts, flat_map snd opts);
  ListItems conn ctx := chain_unary _ _ _ _ conn.1 demo_wire_unary ctx list_items_method tt tt 0%nat [];
  WatchItemEvents conn ctx := chain_stream _ _ _ _ conn.2 demo_wire_stream ctx tt 0%nat watch_method [];
  unary_of := fst; stream_of := snd;
  wire_unary := demo_wire_unary;
  wire_stream := demo_wire_stream
|}.

#[local] Instance demo_grpc_laws : GrpcLaws DemoSpan.
Proof.
  split; try done.
  - intros addr opts conn [= <-]. by exists tt, tt, [].
  - intros addr opts conn [= <-]. by exists tt, [].
Qed.

