(* ===== verification/Reconciling.v ===== *)
(** * Reconciling: snapshot reconciles among concurrent ingestion

    The transaction of ReconcileSnapshot statement by statement, next to the
    ingestion transactions of [Interleave] (a reconnecting client reconciles while
    a seed command writes its batches).  Its upserts see the newest committed
    rows.  Its tombstone statement chooses the rows to update from the snapshot
    taken when it starts, then waits for the transactions that hold some of them
    and looks at each chosen row again, as READ COMMITTED does; rows inserted
    meanwhile are not chosen. *)
From S2P Require Import Prelude Database Tables Session Store StoreBatch BatchEquiv Invariant StoreProps Txn Interleave.
Local Open Scope Z_scope.

(** ** State *)
Inductive rec_stage :=
| Upserting (todo : list SnapshotItem)        (* the items still to upsert *)
| Waiting (seen : gmap Z ItemRow)             (* the tombstone statement and its snapshot *)
| Tombstoned (seen : gmap Z ItemRow).         (* before the commit *)

(** A reconcile in flight, with the item rows it has written and holds. *)
Record recon := {
  rc_items : list SnapshotItem;
  rc_observed : Z;
  rc_stage : rec_stage;
  rc_own : gmap Z ItemRow
}.

Record Sys := { sy_conc : Conc; sy_recs : gmap nat recon }.

Definition sy_db (s : Sys) : DB := c_db (sy_conc s).

Inductive sys_label := SIngest (l : conc_label) | SReconcile | SReconciled (r : recon).

Section sys.
Context `{PgTime}.
Variable allowed : store_op -> Prop.

Definition rc_now (r : recon) : pg_time := pg_ts (rc_observed r).
Definition rc_ids (r : recon) : list Z := si_ItemID <$> rc_items r.

(** What the reconcile sees. *)
Definition rec_view (d : DB) (r : recon) : DB := set_current_items (rc_own r ∪ current_items d) d.

(** The rows a tombstone statement with this snapshot updates. *)
Definition candidates (ids : list Z) (seen : gmap Z ItemRow) : gset Z :=
  dom (filter (fun p : Z * ItemRow => missing_live ids p.1 p.2 = true) seen).

(** After a statement that held the rows [l] and left [d]. *)
Definition hold (l : gset Z) (d : DB) (r : recon) (st : rec_stage) : recon :=
  {| rc_items := rc_items r; rc_observed := rc_observed r; rc_stage := st;
     rc_own := restrict l (current_items d) ∪ rc_own r |}.

Definition set_stage (st : rec_stage) (r : recon) : recon :=
  {| rc_items := rc_items r; rc_observed := rc_observed r; rc_stage := st; rc_own := rc_own r |}.

Definition put_rec (j : nat) (r : recon) (s : Sys) : Sys :=
  {| sy_conc := sy_conc s; sy_recs := <[j := r]> (sy_recs s) |}.

(** No transaction but reconcile [j] holds one of the item rows [l]. *)
Definition items_free (s : Sys) (j : nat) (l : gset Z) : Prop :=
  (forall i t, c_txs (sy_conc s) !! i = Some t -> l ## dom (o_items (tn_own t))) /\
  (forall k r, sy_recs s !! k = Some r -> k <> j -> l ## dom (rc_own r)).

(** No ingestion transaction holds an item row of a reconcile. *)
Definition apart (c : Conc) (recs : gmap nat recon) : Prop :=
  forall i t j r, c_txs c !! i = Some t -> recs !! j = Some r -> dom (o_items (tn_own t)) ## dom (rc_own r).

(** ** Steps *)
Inductive sys_step : Sys -> sys_label -> Sys -> Prop :=
| sys_ingest s l c' :
    conc_step allowed (sy_conc s) l c' -> (l = CAlone -> sy_recs s = ∅) -> apart c' (sy_recs s) ->
    sys_step s (SIngest l) {| sy_conc := c'; sy_recs := sy_recs s |}
| sys_begin s j items observed :
    allowed (OpReconcile items observed) -> sy_recs s !! j = None ->
    sys_step s SReconcile
      (put_rec j {| rc_items := items; rc_observed := observed; rc_stage := Upserting items; rc_own := ∅ |} s)
| sys_upsert s j r it todo n d :
    sy_recs s !! j = Some r -> rc_stage r = Upserting (it :: todo) ->
    upsert_snapshot_item (rc_now r) (si_ItemID it) (si_Name it) (rec_view (sy_db s) r) = SOk n d ->
    items_free s j {[si_ItemID it]} ->
    sys_step s SReconcile (put_rec j (hold {[si_ItemID it]} d r (Upserting todo)) s)
| sys_tombstone s j r :
    sy_recs s !! j = Some r -> rc_stage r = Upserting [] ->
    sys_step s SReconcile (put_rec j (set_stage (Waiting (current_items (rec_view (sy_db s) r))) r) s)
| sys_tombstoned s j r seen n d :
    sy_recs s !! j = Some r -> rc_stage r = Waiting seen ->
    tombstone_missing (rc_now r) (rc_ids r) (rec_view (sy_db s) r) = SOk n d ->
    items_free s j (candidates (rc_ids r) seen) ->
    sys_step s SReconcile (put_rec j (hold (candidates (rc_ids r) seen) d r (Tombstoned seen)) s)
| sys_commit s j r seen :
    sy_recs s !! j = Some r -> rc_stage r = Tombstoned seen ->
    sys_step s (SReconciled r)
      {| sy_conc := {| c_db := rec_view (sy_db s) r; c_txs := c_txs (sy_conc s) |};
         sy_recs := delete j (sy_recs s) |}
| sys_fail s j r :
    sy_recs s !! j = Some r ->
    sys_step s SReconcile {| sy_conc := sy_conc s; sy_recs := delete j (sy_recs s) |}.

Definition sys_start (d : DB) : Sys := {| sy_conc := {| c_db := d; c_txs := ∅ |}; sy_recs := ∅ |}.

Definition sys_reach (d0 : DB) (s : Sys) : Prop :=
  rtc (fun a b => exists l, sys_step a l b) (sys_start d0) s.

(** ** What a reconcile has written *)

(** The row [d] has for [id], as the upserts of [items] leave it. *)
Definition upserted_row (now : pg_time) (items : list SnapshotItem) (m : gmap Z ItemRow) (id : Z)
    : option ItemRow :=
  (fun name => snapshot_row now (m !! id) name) <$> snapshot_name items id.

Definition written_row (r : recon) (seen m : gmap Z ItemRow) (id : Z) : option ItemRow :=
  match snapshot_name (rc_items r) id with
  | Some name => Some (snapshot_row (rc_now r) (m !! id) name)
  | None =>
      if decide (id ∈ candidates (rc_ids r) seen)
      then (fun row => if missing_live (rc_ids r) id row then tombstone_row (rc_now r) row else row) <$> m !! id
      else None
  end.

Definition rec_ok (m : gmap Z ItemRow) (r : recon) : Prop :=
  match rc_stage r with
  | Upserting todo =>
      exists done_, rc_items r = done_ ++ todo /\ forall id, rc_own r !! id = upserted_row (rc_now r) done_ m id
  | Waiting seen =>
      (forall id, rc_own r !! id = upserted_row (rc_now r) (rc_items r) m id) /\
      candidates (rc_ids r) seen ⊆ dom m
  | Tombstoned seen =>
      (forall id, rc_own r !! id = written_row r seen m id) /\ candidates (rc_ids r) seen ⊆ dom m
  end.

Lemma upserted_row_none now items m id :
  upserted_row now items m id = None <-> id ∉ (si_ItemID <$> items).
Proof. unfold upserted_row. rewrite fmap_None. apply snapshot_name_none. Qed.

Lemma candidates_spec ids seen id :
  id ∈ candidates ids seen <-> exists row, seen !! id = Some row /\ missing_live ids id row = true.
Proof.
  unfold candidates. rewrite elem_of_dom. unfold is_Some.
  setoid_rewrite map_lookup_filter_Some. done.
Qed.

(** Commits elsewhere leave its rows alone. *)
Lemma rec_ok_undisturbed m m2 r :
  rec_ok m r -> (forall id, id ∈ dom (rc_own r) -> m2 !! id = m !! id) -> dom m ⊆ dom m2 -> rec_ok m2 r.
Proof.
  unfold rec_ok. intros Hok Hsame Hdom.
  assert (forall items, (forall id, rc_own r !! id = upserted_row (rc_now r) items m id) ->
    forall id, rc_own r !! id = upserted_row (rc_now r) items m2 id) as Hups.
  { intros items Hown id. rewrite Hown. unfold upserted_row. destruct (snapshot_name items id) eqn:E; [|done].
    simpl. rewrite Hsame; [done|]. apply elem_of_dom. rewrite Hown. unfold upserted_row. by rewrite E. }
  destruct (rc_stage r) as [todo|seen|seen].
  - destruct Hok as (done_ & Hi & Hown). eauto.
  - destruct Hok as [Hown Hc]. split; [by apply Hups|]. by etransitivity.
  - destruct Hok as [Hown Hc]. split; [|by etransitivity]. intros id.
    destruct (rc_own r !! id) as [row|] eqn:E; rewrite Hown in E.
    + rewrite <- E. unfold written_row. rewrite Hsame; [done|]. apply elem_of_dom. rewrite Hown. by eexists.
    + revert E. unfold written_row. destruct (snapshot_name _ id); [done|].
      case_decide as Hin; [|done]. apply Hc, elem_of_dom in Hin as [row Hrow]. by rewrite Hrow.
Qed.

(** Its own statements. *)
Lemma upsert_ok (d d' : DB) (r : recon) it todo n :
  rc_stage r = Upserting (it :: todo) -> rec_ok (current_items d) r ->
  upsert_snapshot_item (rc_now r) (si_ItemID it) (si_Name it) (rec_view d r) = SOk n d' ->
  rec_ok (current_items d) (hold {[si_ItemID it]} d' r (Upserting todo)).
Proof.
  intros Hst Hok. unfold rec_ok in Hok. rewrite Hst in Hok. destruct Hok as (done_ & Hi & Hown).
  unfold upsert_snapshot_item. intros [= _ <-]. exists (done_ ++ [it]).
  split; [cbn [hold rc_items]; by rewrite Hi, <- app_assoc|].
  intros id. cbn [hold rc_own rec_view set_current_items current_items]. rewrite lookup_patch.
  unfold upserted_row, snapshot_name. rewrite filter_app, filter_cons, filter_nil.
  destruct (decide (id ∈ {[si_ItemID it]})) as [->%elem_of_singleton|Hne].
  - rewrite decide_True by done. rewrite last_snoc, lookup_insert_eq. simpl. f_equal.
    rewrite lookup_union, Hown. unfold upserted_row. destruct (snapshot_name done_ _) as [nm|] eqn:E; simpl.
    + destruct (current_items d !! _); apply snapshot_row_twice.
    + by rewrite (left_id_L None _).
  - rewrite decide_False by set_solver. rewrite app_nil_r. apply Hown.
Qed.

Lemma waiting_ok (d : DB) (r : recon) :
  rc_stage r = Upserting [] -> rec_ok (current_items d) r ->
  rec_ok (current_items d) (set_stage (Waiting (current_items (rec_view d r))) r).
Proof.
  intros Hst Hok. unfold rec_ok in Hok. rewrite Hst in Hok. destruct Hok as (done_ & Hi & Hown).
  rewrite app_nil_r in Hi. subst done_. split; [exact Hown|].
  intros id (row & Hrow & [_ Hid]%missing_live_spec)%candidates_spec. cbn in Hrow.
  assert (rc_own r !! id = None) as Hn by (rewrite Hown; by apply upserted_row_none).
  rewrite lookup_union, Hn, (left_id_L None _) in Hrow. apply elem_of_dom. by eexists.
Qed.

Lemma tombstoned_ok (d d' : DB) (r : recon) seen n :
  rc_stage r = Waiting seen -> rec_ok (current_items d) r ->
  tombstone_missing (rc_now r) (rc_ids r) (rec_view d r) = SOk n d' ->
  rec_ok (current_items d) (hold (candidates (rc_ids r) seen) d' r (Tombstoned seen)).
Proof.
  intros Hst Hok. unfold rec_ok in Hok. rewrite Hst in Hok. destruct Hok as [Hown Hc].
  unfold tombstone_missing. intros [= _ <-]. split; [|exact Hc]. intros id.
  cbn [hold rc_own rec_view set_current_items current_items]. rewrite lookup_patch, map_lookup_imap, lookup_union.
  unfold written_row. cbn [hold rc_items rc_observed].
  change (rc_ids (hold _ _ _ _)) with (rc_ids r). change (rc_now (hold _ _ _ _)) with (rc_now r).
  rewrite (Hown id). unfold upserted_row. pose proof (snapshot_name_none (rc_items r) id) as Hnone.
  destruct (snapshot_name (rc_items r) id) as [nm|] eqn:E; simpl.
  - rewrite decide_False; [done|]. intros (row & _ & [_ Hid]%missing_live_spec)%candidates_spec.
    apply Hnone in Hid. done.
  - rewrite (left_id_L None _). destruct (decide _) as [Hin|]; [|done].
    apply Hc, elem_of_dom in Hin as [row ->]. done.
Qed.

(** ** Commits of ingestion and the item rows *)
Lemma ingest_items c l c' :
  conc_step allowed c l c' -> l <> CAlone ->
  dom (current_items (c_db c)) ⊆ dom (current_items (c_db c')) /\
  forall id, current_items (c_db c') !! id = current_items (c_db c) !! id \/
    exists i t, c_txs c !! i = Some t /\ id ∈ dom (o_items (tn_own t)).
Proof.
  intros Hs Hl. destruct Hs as [| | |c i op own Hi| |c cutoff d _ _ Hd|c m d _ Hd|]; simpl;
    try (split; [done|]; intros id; by left).
  - rewrite dom_union_L. split; [set_solver|]. intros id.
    destruct (own.(o_items) !! id) as [row|] eqn:E.
    + right. exists i, {| tn_op := op; tn_rest := TxCommit; tn_own := own |}. split; [done|].
      apply elem_of_dom. by eexists.
    + left. by rewrite lookup_union, E, (left_id_L None _).
  - apply delete_after in Hd as (_ & _ & ->). split; [done|]. intros id. by left.
  - simpl in Hd. unfold upsert_seed_marker in Hd. destruct (_ && _); [|done]. injection Hd as <-.
    split; [done|]. intros id. by left.
Qed.

Lemma ingest_commit c l c' :
  conc_ok allowed c -> conc_step allowed c l c' ->
  match l with
  | CCommit op => op_after op (c_db c) = Some (c_db c')
  | CAlone | COther => rtc (store_step allowed) (c_db c) (c_db c')
  | _ => c_db c' = c_db c
  end.
Proof.
  intros Hok Hs. pose proof (conc_step_serial _ _ _ _ Hok Hs) as Hserial.
  destruct Hs as [| | |c i op own Hi| | | |]; try done. by eapply commit_effect.
Qed.

(** ** The invariant *)
Record recs_ok (s : Sys) : Prop := {
  ok_recs : forall j r, sy_recs s !! j = Some r -> rec_ok (current_items (sy_db s)) r;
  ok_apart : apart (sy_conc s) (sy_recs s);
  ok_distinct : forall j k r q, sy_recs s !! j = Some r -> sy_recs s !! k = Some q -> j <> k ->
    dom (rc_own r) ## dom (rc_own q)
}.

Definition sys_ok (s : Sys) : Prop := conc_ok allowed (sy_conc s) /\ recs_ok s.

Lemma recs_ok_put s j r :
  recs_ok s -> rec_ok (current_items (sy_db s)) r -> items_free s j (dom (rc_own r)) -> recs_ok (put_rec j r s).
Proof.
  intros [Hr Ha Hd] Hok [Hf1 Hf2]. split; simpl.
  - intros k q [[-> <-]|[_ Hk]]%lookup_insert_Some; [done|by eapply Hr].
  - intros i t k q Hi [[-> <-]|[_ Hk]]%lookup_insert_Some; [|by eapply Ha]. symmetry. by eapply Hf1.
  - intros k m q u [[-> <-]|[Hjk Hk]]%lookup_insert_Some [[-> <-]|[Hjm Hm]]%lookup_insert_Some Hne.
    + done.
    + by eapply (Hf2 m).
    + symmetry. by eapply (Hf2 k).
    + by eapply (Hd k m).
Qed.

Lemma recs_ok_delete s j c :
  recs_ok s -> c_txs c = c_txs (sy_conc s) ->
  (forall k q, sy_recs s !! k = Some q -> j <> k -> rec_ok (current_items (c_db c)) q) ->
  recs_ok {| sy_conc := c; sy_recs := delete j (sy_recs s) |}.
Proof.
  intros [_ Ha Hd] Htx Hr. split; simpl.
  - intros k q [Hne Hk]%lookup_delete_Some. by apply (Hr k).
  - intros i t k q Hi [_ Hk]%lookup_delete_Some. simpl in Hi. rewrite Htx in Hi. by eapply Ha.
  - intros k m q u [_ Hk]%lookup_delete_Some [_ Hm]%lookup_delete_Some. by eapply Hd.
Qed.

Lemma held_free s j r l d st :
  recs_ok s -> sy_recs s !! j = Some r -> items_free s j l ->
  items_free s j (dom (rc_own (hold l d r st))).
Proof.
  intros [_ Ha Hd] Hj [Hf1 Hf2].
  assert (dom (rc_own (hold l d r st)) ⊆ l ∪ dom (rc_own r)) as Hsub.
  { cbn [hold rc_own]. rewrite dom_union_L. unfold restrict.
    assert (dom (filter (fun p : Z * ItemRow => p.1 ∈ l) (current_items d)) ⊆ l) as Hl; [|set_solver].
    intros id [row [_ Hin]%map_lookup_filter_Some]%elem_of_dom. exact Hin. }
  split.
  - intros i t Hi. specialize (Hf1 i t Hi). specialize (Ha i t j r Hi Hj). set_solver.
  - intros k q Hk Hne. specialize (Hf2 k q Hk Hne). specialize (Hd j k r q Hj Hk). set_solver.
Qed.

Lemma own_free s j r :
  recs_ok s -> sy_recs s !! j = Some r -> items_free s j (dom (rc_own r)).
Proof.
  intros [_ Ha Hd] Hj. split.
  - intros i t Hi. symmetry. by eapply Ha.
  - intros k q Hk Hne. by eapply (Hd j k).
Qed.

Lemma view_undisturbed d r w off :
  dom (o_items w) ## dom (rc_own r) -> undisturbed off w d (rec_view d r).
Proof.
  intros Hdis. split; [done|done|]. intros id Hid. cbn. rewrite lookup_union_r; [done|].
  apply not_elem_of_dom. set_solver.
Qed.

Lemma rec_view_items d r :
  dom (current_items d) ⊆ dom (current_items (rec_view d r)) /\
  forall id, id ∉ dom (rc_own r) -> current_items (rec_view d r) !! id = current_items d !! id.
Proof.
  cbn. split; [rewrite dom_union_L; set_solver|]. intros id Hid%not_elem_of_dom.
  by rewrite lookup_union_r.
Qed.

(** The reconciles keep their part of the invariant by themselves. *)
Lemma recs_step_ok s l s' : recs_ok s -> sys_step s l s' -> recs_ok s'.
Proof.
  intros Hok Hs. destruct Hs as [s l c' Hc Hal Hap|s j items observed Ha Hj|s j r it todo n d Hj Hst Hd Hf
    |s j r Hj Hst|s j r seen n d Hj Hst Hd Hf|s j r seen Hj Hst|s j r Hj].
  - destruct Hok as [Hr Ha Hd]. split; simpl; [|done|done].
    intros j r Hj. assert (l <> CAlone) as Hl by (intros ->; by rewrite Hal in Hj).
    destruct (ingest_items _ _ _ Hc Hl) as [Hdom Hsame].
    apply (rec_ok_undisturbed (current_items (sy_db s))); [by eapply Hr| |done].
    intros id Hid. destruct (Hsame id) as [|(i & t & Hi & Hin)]; [done|].
    exfalso. exact (Ha i t j r Hi Hj id Hin Hid).
  - apply recs_ok_put; [done| |].
    + exists []. split; [done|]. intros id. done.
    + split; simpl; intros; rewrite dom_empty_L; set_solver.
  - apply recs_ok_put; [done| |by apply held_free].
    eapply upsert_ok; [exact Hst|by eapply ok_recs|exact Hd].
  - apply recs_ok_put; [done| |exact (own_free s j r Hok Hj)]. apply waiting_ok; [done|by eapply ok_recs].
  - apply recs_ok_put; [done| |by apply held_free].
    eapply tombstoned_ok; [exact Hst|by eapply ok_recs|exact Hd].
  - destruct (rec_view_items (sy_db s) r) as [Hdom Hsame]. apply recs_ok_delete; [done|done|].
    intros k q Hk Hne. apply (rec_ok_undisturbed (current_items (sy_db s))); [by eapply ok_recs| |done].
    intros id Hid. apply Hsame. intros Hin. exact (ok_distinct _ Hok j k r q Hj Hk Hne id Hin Hid).
  - apply recs_ok_delete; [done|done|]. intros k q Hk _. by eapply ok_recs.
Qed.

Lemma sys_step_ok s l s' : sys_ok s -> sys_step s l s' -> sys_ok s'.
Proof.
  intros [Hc Hr] Hs. split; [|by eapply recs_step_ok].
  destruct Hs as [s l c' Hstep _ _| | | | |s j r seen Hj Hst|]; simpl; try done; [by eapply conc_step_ok|].
  destruct Hc as [Hcok Hdis]. split; simpl; [|exact Hdis].
  intros i t Hi. apply (txn_ok_undisturbed allowed (sy_db s)); [by eapply Hcok|].
  intros off _. apply view_undisturbed. by eapply ok_apart.
Qed.

Lemma sys_reach_ok d0 s : sys_reach d0 s -> sys_ok s.
Proof.
  unfold sys_reach. intros Hr. assert (sys_ok (sys_start d0)) as H0.
  { split; split; simpl; unfold apart; simpl; intros j; intros; by rewrite lookup_empty in *. }
  revert H0. induction Hr as [|x y z [l Hs] _ IH]; [done|]. intros Hx. apply IH. by eapply sys_step_ok.
Qed.

(** ** Invariants of the tables *)
Lemma steps_invariant (I : DB -> Prop) d d' :
  (forall op d1 d2, allowed op -> I d1 -> op_after op d1 = Some d2 -> I d2) ->
  rtc (store_step allowed) d d' -> I d -> I d'.
Proof.
  intros Hstep. induction 1 as [|d1 d2 d3 Hs _ IH]; [done|]. intros Hd. apply IH.
  destruct Hs as [op s err s' Hop Hs Hrun].
  destruct (run_op_leaves _ _ _ _ Hs Hrun) as [->|Hafter]; [done|]. by eapply Hstep.
Qed.

(** An invariant of the operations that a reconcile's rows cannot break. *)
Lemma sys_invariant (I : DB -> Prop) :
  (forall op d1 d2, allowed op -> I d1 -> op_after op d1 = Some d2 -> I d2) ->
  (forall d r seen, rec_ok (current_items d) r -> rc_stage r = Tombstoned seen -> I d -> I (rec_view d r)) ->
  forall s l s', sys_ok s -> sys_step s l s' -> I (sy_db s) -> I (sy_db s').
Proof.
  intros Hops Hrec s l s' Hok Hs Hd. destruct Hs as [s l c' Hc _ _| | | | |s j r seen Hj Hst|]; try done.
  - eapply steps_invariant; [exact Hops| |exact Hd]. eapply conc_step_serial; [|exact Hc]. apply Hok.
  - eapply Hrec; [by eapply ok_recs; [apply Hok|]|exact Hst|exact Hd].
Qed.

Lemma reach_invariant (I : DB -> Prop) d0 s :
  (forall op d1 d2, allowed op -> I d1 -> op_after op d1 = Some d2 -> I d2) ->
  (forall d r seen, rec_ok (current_items d) r -> rc_stage r = Tombstoned seen -> I d -> I (rec_view d r)) ->
  sys_reach d0 s -> I d0 -> I (sy_db s).
Proof.
  intros Hops Hrec Hr Hd0. unfold sys_reach in Hr. change d0 with (sy_db (sys_start d0)) in Hd0.
  pose proof (sys_reach_ok d0 (sys_start d0) (rtc_refl _ _)) as H0. revert H0 Hd0.
  induction Hr as [|x y z [l Hs] _ IH]; [done|]. intros Hx Hd.
  apply IH; [by eapply sys_step_ok|by eapply sys_invariant].
Qed.

Lemma rec_view_ok d r seen :
  rec_ok (current_items d) r -> rc_stage r = Tombstoned seen -> db_ok d -> db_ok (rec_view d r).
Proof.
  intros Hok Hst (Ht & Hb & Hc & Hi). split_and!; [exact Ht|exact Hb|exact Hc|].
  unfold rec_ok in Hok. rewrite Hst in Hok. destruct Hok as [Hown _].
  intros id row. cbn. intros [Hrow|[_ Hrow]]%lookup_union_Some_raw; [|by eapply Hi].
  rewrite Hown in Hrow. unfold written_row in Hrow. destruct (snapshot_name _ id) as [nm|].
  - injection Hrow as <-. destruct (current_items d !! id) as [o|] eqn:E; simpl; [|lia]. apply Hi in E. lia.
  - case_decide; [|done]. apply fmap_Some in Hrow as (o & Ho & ->). apply Hi in Ho. by destruct (missing_live _ _ _).
Qed.

(** What a commit of a reconcile leaves: the snapshot's items are live, the others
    that its tombstone statement saw live are tombstoned, and next to the reconcile
    run at that moment ([ds]) only items it did not see live can differ. *)
Definition reconciled (r : recon) (seen : gmap Z ItemRow) (d d' : DB) : Prop :=
  exists counts ds, reconcile_effect (rc_items r) (rc_observed r) d = SOk counts ds /\
    item_events d' = item_events d /\ event_buckets d' = event_buckets d /\ seed_marker d' = seed_marker d /\
    (forall id, id ∈ rc_ids r -> exists row, current_items d' !! id = Some row /\ ir_tombstoned_at row = None) /\
    (forall id row, id ∉ rc_ids r -> seen !! id = Some row -> ir_tombstoned_at row = None ->
       exists row', current_items d' !! id = Some row' /\ ir_tombstoned_at row' <> None) /\
    (forall id, (current_items d' !! id) <> (current_items ds !! id) ->
       (id ∉ rc_ids r) /\ current_items d' !! id = current_items d !! id /\
       forall row, seen !! id = Some row -> ir_tombstoned_at row <> None).

Lemma commit_spec d r seen :
  rec_ok (current_items d) r -> rc_stage r = Tombstoned seen ->
  reconciled r seen d (rec_view d r).
Proof.
  intros Hok Hst. unfold rec_ok in Hok. rewrite Hst in Hok. destruct Hok as [Hown Hc].
  destruct (reconcile_effect_spec (rc_items r) (rc_observed r) d) as (ds & Heff & _ & _ & _ & Hs).
  eexists _, ds. split; [exact Heff|]. split_and!; [done|done|done|..].
  - intros id Hid. cbn. pose proof (snapshot_name_none (rc_items r) id) as Hnone.
    rewrite lookup_union, Hown. unfold written_row. destruct (snapshot_name _ id) as [nm|]; [|tauto].
    rewrite union_Some_l. eexists. split; [done|]. by destruct (current_items d !! id).
  - intros id row Hid Hseen Hlive. cbn.
    assert (id ∈ candidates (rc_ids r) seen) as Hcand.
    { apply candidates_spec. exists row. split; [done|]. by apply missing_live_spec. }
    pose proof (Hc id Hcand) as [cur Hcur]%elem_of_dom.
    rewrite lookup_union, Hown. unfold written_row. rewrite (proj2 (snapshot_name_none (rc_items r) id) Hid).
    rewrite decide_True, Hcur by done. simpl. rewrite union_Some_l. eexists. split; [done|].
    pose proof (missing_live_spec (rc_ids r) id cur) as Hml. destruct (missing_live _ _ _); [done|].
    intros Hn. assert (false = true) by (by apply Hml). done.
  - intros id. rewrite Hs. cbn. rewrite lookup_union, Hown. unfold written_row.
    pose proof (snapshot_name_none (rc_items r) id) as Hnone.
    destruct (snapshot_name _ id) as [nm|]; [by rewrite union_Some_l|].
    assert (id ∉ rc_ids r) as Hid by (by apply Hnone). case_decide as Hcand.
    + pose proof (Hc id Hcand) as [cur Hcur]%elem_of_dom. rewrite Hcur. simpl. intros Hne. exfalso. apply Hne.
      f_equal. pose proof (missing_live_spec (rc_ids r) id cur) as Hml.
      case_decide; destruct (missing_live _ _ _); naive_solver.
    + rewrite (left_id_L None _). intros _. split_and!; [done|done|]. intros row Hseen Hlive. apply Hcand.
      apply candidates_spec. exists row. split; [done|]. by apply missing_live_spec.
Qed.
End sys.

(** * Properties *)

(** C8: Reconciles among concurrent ingestion.  In every interleaving of live
    ingestion, seed batches, reconciles, retention and aborts, each step leaves the
    tables well formed, loses no known item, and, before retention, keeps every
    bucket at exactly the distinct raw events; only the commits and the operations
    that run alone change the tables.  A commit of ingestion has exactly the effect
    of its operation.  A commit of a reconcile changes item rows only: the items of
    its snapshot are live, every other item that was live when its tombstone
    statement started is tombstoned, and it differs from the reconcile run at that
    moment at most in items that were not live then, which keep their row. *)
Theorem reconcile_interleaved `{PgTime} allowed d0 s l s' :
  reachable allowed d0 -> sys_reach allowed d0 s -> sys_step allowed s l s' ->
  let d := sy_db s in let d' := sy_db s' in
  db_ok d' /\ dom (current_items d) ⊆ dom (current_items d') /\
  ((forall op, allowed op -> no_retention op) ->
   forall k, raw_count (er_name <$> item_events d') k = bucket_count (event_buckets d') k) /\
  match l with
  | SIngest (CCommit op) => op_after op d = Some d'
  | SIngest (CAlone | COther) => rtc (store_step allowed) d d'
  | SReconciled r => exists seen, rc_stage r = Tombstoned seen /\ reconciled r seen d d'
  | _ => d' = d
  end.
Proof.
  intros Hd0 Hreach Hs. pose proof (sys_reach_ok _ _ _ Hreach) as Hok. cbv zeta.
  assert (sys_reach allowed d0 s') as Hreach' by (unfold sys_reach in *; eapply rtc_r; [exact Hreach|by exists l]).
  split_and!.
  - apply (reach_invariant allowed db_ok d0); [|apply rec_view_ok|done|].
    + intros op d1 d2 _. apply op_after_ok.
    + eapply reachable_invariant; [apply db_ok_empty| |exact Hd0]. intros op d1 d2 _. apply op_after_ok.
  - intros id Hid%elem_of_dom. apply elem_of_dom. revert Hid.
    apply (sys_invariant allowed (fun d => is_Some (current_items d !! id))) with (l := l); [| |done|done].
    + intros op d1 d2 _ Hd Hop. by eapply op_after_known.
    + intros d r seen _ _ Hd. cbn. apply lookup_union_is_Some. by right.
  - intros Hno. apply exact_counts. apply (reach_invariant allowed (fun d =>
      buckets_exact (er_name <$> item_events d) (bk_count <$> event_buckets d)) d0); [| |done|].
    + intros op d1 d2 Hop%Hno. by apply op_after_exact.
    + done.
    + eapply (reachable_invariant allowed (fun d =>
        buckets_exact (er_name <$> item_events d) (bk_count <$> event_buckets d))); [| |exact Hd0].
      * apply exact_empty.
      * intros op d1 d2 Hop%Hno. by apply op_after_exact.
  - destruct Hs as [s l c' Hc _ _| | | | |s j r seen Hj Hst|]; try done.
    + apply (ingest_commit allowed (sy_conc s) l c'); [by apply Hok|done].
    + exists seen. split; [done|]. by apply commit_spec; [eapply ok_recs; [apply Hok|]|].
Qed.

(** ** Witness: a reconcile that an ingested event overtakes *)
Lemma apart_empty c recs : (forall j r, recs !! j = Some r -> rc_own r = ∅) -> apart c recs.
Proof. intros Hown i t j r _ Hj. rewrite (Hown j r Hj). set_solver. Qed.

Lemma sys_turns `{PgTime} allowed d0 l c c' recs :
  (forall j r, recs !! j = Some r -> rc_own r = ∅) ->
  sys_reach allowed d0 {| sy_conc := c; sy_recs := recs |} -> turns l c = Some c' ->
  sys_reach allowed d0 {| sy_conc := c'; sy_recs := recs |}.
Proof.
  intros Hown. revert c. induction l as [|i l IH]; intros c Hc; simpl; [by intros [= <-]|].
  destruct (turn i c) as [c1|] eqn:Ht; [|done]. simpl. apply IH. unfold sys_reach in *. eapply rtc_r; [exact Hc|].
  destruct (turn_label allowed i c c1 Ht) as (lab & Hal & Hs). exists (SIngest lab).
  apply (sys_ingest allowed {| sy_conc := c; sy_recs := recs |}); [done|done|by apply apart_empty].
Qed.

Definition demo_rec (st : rec_stage) : recon :=
  {| rc_items := []; rc_observed := 20; rc_stage := st; rc_own := ∅ |}.

Definition demo_recs (st : rec_stage) : gmap nat recon := {[ 7%nat := demo_rec st ]}.

Lemma demo_recs_own st j r : demo_recs st !! j = Some r -> rc_own r = ∅.
Proof. unfold demo_recs. by intros [_ <-]%lookup_singleton_Some. Qed.

Definition ingested (l : list nat) : Conc :=
  default {| c_db := empty_db; c_txs := ∅ |}
    (turns l (start_tx 1 live_op (ingest_tx 10 demo_event) {| c_db := empty_db; c_txs := ∅ |})).

Definition demo_sys (c : Conc) (st : rec_stage) : Sys := {| sy_conc := c; sy_recs := demo_recs st |}.

Lemma put_demo c st st' r : r = demo_rec st' -> put_rec 7 r (demo_sys c st) = demo_sys c st'.
Proof.
  intros ->. unfold put_rec, demo_sys, demo_recs. simpl. f_equal.
Qed.

Lemma sys_next `{PgTime} allowed d0 s l s' s2 :
  sys_reach allowed d0 s -> sys_step allowed s l s' -> s' = s2 -> sys_reach allowed d0 s2.
Proof. intros Hr Hs <-. unfold sys_reach in *. eapply rtc_r; [exact Hr|by exists l]. Qed.

(** The reconcile of an empty snapshot starts its tombstone statement; before it
    gets on, the event of a new item is ingested and commits. *)
Definition overtaken : Sys := demo_sys (ingested [1; 1; 1; 1]%nat) (Tombstoned ∅).

Lemma overtaken_reach : sys_reach no_retention empty_db overtaken.
Proof.
  assert (sys_reach no_retention empty_db (demo_sys {| c_db := empty_db; c_txs := ∅ |} (Upserting []))) as H1.
  { eapply sys_next; [apply rtc_refl|apply (sys_begin _ _ 7 [] 20); [exact I|reflexivity]|reflexivity]. }
  assert (sys_reach no_retention empty_db (demo_sys {| c_db := empty_db; c_txs := ∅ |} (Waiting ∅))) as H2.
  { eapply sys_next; [exact H1|apply (sys_tombstone _ _ 7 (demo_rec (Upserting []))); reflexivity|]. by apply put_demo. }
  assert (sys_reach no_retention empty_db (demo_sys (ingested []) (Waiting ∅))) as H3.
  { eapply sys_next; [exact H2|apply sys_ingest with (l := CBegin)|reflexivity]; [|done|].
    - by apply (conc_begin no_retention _ 1 live_op).
    - apply apart_empty. intros j r. apply demo_recs_own. }
  assert (sys_reach no_retention empty_db (demo_sys (ingested [1; 1; 1; 1]%nat) (Waiting ∅))) as H4.
  { apply (sys_turns no_retention empty_db [1; 1; 1; 1]%nat (ingested [])); [by apply demo_recs_own|exact H3|].
    vm_compute. reflexivity. }
  eapply sys_next; [exact H4|eapply (sys_tombstoned _ _ 7)|]; [done|done|reflexivity| |].
  - split; intros; set_solver.
  - apply put_demo. unfold hold, demo_rec. f_equal.
Qed.

(** The reconcile commits and leaves the new item live, which it would have
    tombstoned in one piece. *)
Lemma reconcile_interleaved_witness :
  exists d' row, current_items d' !! 1 = Some row /\ ir_tombstoned_at row = None /\ db_ok d' /\
    exists counts ds, reconcile_effect [] 20 (sy_db overtaken) = SOk counts ds /\
      current_items d' !! 1 <> current_items ds !! 1.
Proof.
  assert (sys_step no_retention overtaken (SReconciled (demo_rec (Tombstoned ∅)))
    {| sy_conc := {| c_db := rec_view (sy_db overtaken) (demo_rec (Tombstoned ∅));
                     c_txs := c_txs (sy_conc overtaken) |};
       sy_recs := delete 7%nat (sy_recs overtaken) |}) as Hs by (by eapply (sys_commit _ _ 7)).
  destruct (reconcile_interleaved no_retention empty_db overtaken _ _ (rtc_refl _ _) overtaken_reach Hs)
    as (Hok & _ & _ & seen & _ & counts & ds & Heff & _).
  exists (rec_view (sy_db overtaken) (demo_rec (Tombstoned ∅))). eexists.
  split; [vm_compute; reflexivity|]. split; [reflexivity|]. split; [exact Hok|].
  exists counts, ds. split; [exact Heff|]. injection Heff as _ <-. vm_compute. discriminate.
Defined.
