(* ===== verification/Locking.v ===== *)
(** * Locking: row locks, taken one at a time

    [Interleave] and [Reconciling] let a statement run when every row it writes is
    free.  Here a statement takes its rows one by one, in the order PostgreSQL
    does (the input's order; the buckets of a batch in the order of its hash
    aggregate, a parameter), keeps what it has while it waits for the next, and
    runs when it has them all.  Every run of this system is a run of
    [Reconciling]'s, so its theorems hold here; what is new is waiting: who can
    get stuck, and who cannot. *)
From S2P Require Import Prelude Database Tables Session Store StoreBatch BatchEquiv Invariant StoreProps Txn Interleave Reconciling.
Local Open Scope Z_scope.

(** ** Locks *)
Inductive lock := LEvent (k : event_key) | LBucket (k : bucket_key) | LItem (id : Z).

#[export] Instance lock_eq_dec : EqDecision lock.
Proof. solve_decision. Defined.

Definition in_rows (l : lock) (r : rows) : Prop :=
  match l with LEvent k => k ∈ r_events r | LBucket k => k ∈ r_buckets r | LItem id => id ∈ r_items r end.

#[export] Instance in_rows_dec l r : Decision (in_rows l r).
Proof. destruct l; simpl; apply _. Defined.

(** The tables in the order every transaction visits them. *)
Definition rank (l : lock) : nat := match l with LEvent _ => 0 | LBucket _ => 1 | LItem _ => 2 end.

Definition holds_item (l : lock) (r : recon) : Prop :=
  match l with LItem id => id ∈ dom (rc_own r) | _ => False end.

#[export] Instance holds_item_dec l r : Decision (holds_item l r).
Proof. destruct l; simpl; apply _. Defined.

(** A statement's rows that [part] does not have yet. *)
Definition untaken (want part : list lock) : list lock := filter (fun l => l ∉ part) want.

(** ** State: the rows that the statement in progress of each transaction has taken *)
Record Locked := { lk_sys : Sys; lk_part : gmap nat (list lock) }.

Definition lk_conc (s : Locked) : Conc := sy_conc (lk_sys s).
Definition lk_txs (s : Locked) : gmap nat txn := c_txs (lk_conc s).
Definition part_of (s : Locked) (i : nat) : list lock := default [] (lk_part s !! i).
Definition tx_view (s : Locked) (t : txn) : DB := view (c_db (lk_conc s)) (tn_own t).

Inductive lk_label := LTake (i : nat) | LExec (i : nat) | LSys (l : sys_label).

Section locking.
Context `{PgTime}.
Variable allowed : store_op -> Prop.
Variable bucket_order : gset bucket_key -> list bucket_key.
Hypothesis bucket_order_spec : forall b k, k ∈ bucket_order b <-> k ∈ b.

(** The rows a statement writes, in the order it takes them. *)
Definition stmt_locks (s : stmt) (d : DB) : list lock :=
  match s with
  | InsertEvent _ _ => LEvent ∘ event_input_key <$> stmt_inserts s d
  | UpsertBucket _ e => [LBucket (event_bucket_key e)]
  | UpsertItem i => [LItem (ii_item_id i)]
  | BatchEvents _ _ =>
      (LEvent ∘ event_input_key <$> stmt_inserts s d) ++
      (LBucket <$> bucket_order (dom (bucket_deltas (stmt_inserts s d))))
  | BatchItems l => LItem ∘ ii_item_id <$> l
  end.

(** No other transaction and no reconcile has the row. *)
Definition free_for (s : Locked) (i : nat) (l : lock) : Prop :=
  map_Forall (fun j t => j <> i -> ~ in_rows l (written (tn_own t))) (lk_txs s) /\
  map_Forall (fun j ls => j <> i -> l ∉ ls) (lk_part s) /\
  map_Forall (fun _ r => ~ holds_item l r) (sy_recs (lk_sys s)).

(** What the transactions in flight have taken. *)
Definition keep_parts (txs : gmap nat txn) (part : gmap nat (list lock)) : gmap nat (list lock) :=
  filter (fun p => is_Some (txs !! p.1)) part.

(** No row taken for a statement in progress is written by another transaction or
    a reconcile. *)
Definition no_clash (sys : Sys) (part : gmap nat (list lock)) : Prop :=
  forall i ls l, part !! i = Some ls -> l ∈ ls ->
    (forall j t, c_txs (sy_conc sys) !! j = Some t -> j <> i -> ~ in_rows l (written (tn_own t))) /\
    (forall j r, sy_recs sys !! j = Some r -> ~ holds_item l r).

(** The transaction after its statement. *)
Definition after_stmt (s : Locked) (i : nat) (t : txn) (st : stmt) (next : tx) (d : DB) : Sys :=
  {| sy_conc :=
       {| c_db := c_db (lk_conc s);
          c_txs := <[i := {| tn_op := tn_op t; tn_rest := next;
                             tn_own := over (changes (touches st (tx_view s t)) d) (tn_own t) |}]> (lk_txs s) |};
     sy_recs := sy_recs (lk_sys s) |}.

(** ** Steps: take the next row; run the statement that has its rows; anything
    else the system does, if it needs no row that a statement in progress has. *)
Inductive lk_step : Locked -> lk_label -> Locked -> Prop :=
| lk_take s i t st k n d l rest :
    lk_txs s !! i = Some t -> tn_rest t = TxExec st k -> exec st (tx_view s t) = SOk n d ->
    untaken (stmt_locks st (tx_view s t)) (part_of s i) = l :: rest -> free_for s i l ->
    lk_step s (LTake i) {| lk_sys := lk_sys s; lk_part := <[i := part_of s i ++ [l]]> (lk_part s) |}
| lk_exec s i t st k n d :
    lk_txs s !! i = Some t -> tn_rest t = TxExec st k -> exec st (tx_view s t) = SOk n d ->
    untaken (stmt_locks st (tx_view s t)) (part_of s i) = [] ->
    lk_step s (LExec i) {| lk_sys := after_stmt s i t st (k n) d; lk_part := delete i (lk_part s) |}
| lk_other s l sys' :
    sys_step allowed (lk_sys s) l sys' -> l <> SIngest CExec ->
    let part' := keep_parts (c_txs (sy_conc sys')) (lk_part s) in
    no_clash sys' part' ->
    lk_step s (LSys l) {| lk_sys := sys'; lk_part := part' |}.

Definition lk_start (d : DB) : Locked := {| lk_sys := sys_start d; lk_part := ∅ |}.

Definition lk_reach (d0 : DB) (s : Locked) : Prop :=
  rtc (fun a b => exists l, lk_step a l b) (lk_start d0) s.

(** ** Rows and locks *)
Lemma untaken_nil want part : untaken want part = [] <-> forall l, l ∈ want -> l ∈ part.
Proof.
  unfold untaken. induction want as [|x want IH]; [set_solver|]. rewrite filter_cons. case_decide as Hx.
  - split; [done|]. intros Hall. destruct Hx. apply Hall. by left.
  - rewrite IH. set_solver.
Qed.

Lemma untaken_cons want part l rest : untaken want part = l :: rest -> l ∈ want /\ l ∉ part.
Proof.
  intros Hu. assert (l ∈ untaken want part) as Hl by (rewrite Hu; by left).
  unfold untaken in Hl. apply list_elem_of_filter in Hl. tauto.
Qed.

(** The order of [want] is the order in which rows are taken. *)
Lemma untaken_first a b part l rest :
  untaken (a ++ b) part = l :: rest -> l ∈ b -> l ∉ a -> forall x, x ∈ a -> x ∈ part.
Proof.
  unfold untaken. rewrite filter_app. intros Hu Hb Ha. apply untaken_nil. unfold untaken.
  destruct (filter _ a) as [|y r] eqn:E; [done|]. injection Hu as <- _. destruct Ha.
  assert (y ∈ filter (fun l => l ∉ part) a) as Hy by (rewrite E; by left).
  by apply list_elem_of_filter in Hy as [_ Hy].
Qed.

Lemma touches_locks st d l : in_rows l (touches st d) <-> l ∈ stmt_locks st d.
Proof.
  assert (forall (ls : list EventInput) k, k ∈ (list_to_set (event_input_key <$> ls) : gset event_key) <->
    LEvent k ∈ (LEvent ∘ event_input_key <$> ls)) as Hev.
  { intros ls k. rewrite elem_of_list_to_set, !list_elem_of_fmap. simpl. naive_solver. }
  assert (forall (ls : list EventInput) x, x ∈ (LEvent ∘ event_input_key <$> ls) ->
    exists k, x = LEvent k) as Hform.
  { intros ls x (e & -> & _)%list_elem_of_fmap. simpl. by eexists. }
  destruct st as [now e|now e|i|now ls|ls]; unfold in_rows, touches; cbn [r_events r_buckets r_items stmt_locks].
  - destruct l; [apply Hev|..]; (split; [set_solver|]); by intros [x [=]]%Hform.
  - destruct l; cbn [stmt_inserts]; set_solver.
  - destruct l; cbn [stmt_inserts]; set_solver.
  - rewrite elem_of_app. destruct l as [ek|bk|id].
    + rewrite Hev. split; [auto|]. by intros [|(? & [=] & _)%list_elem_of_fmap].
    + split; [intros Hk; right; by apply list_elem_of_fmap_2, bucket_order_spec|].
      intros [[? [=]]%Hform|(k' & [= <-] & Hk)%list_elem_of_fmap]. by apply bucket_order_spec.
    + split; [set_solver|]. intros [[? [=]]%Hform|(? & [=] & _)%list_elem_of_fmap].
  - cbn [stmt_inserts]. destruct l as [ek|bk|id]; [set_solver|set_solver|].
    rewrite elem_of_list_to_set, !list_elem_of_fmap. simpl. naive_solver.
Qed.

(** Which rows a statement can take, whatever it sees. *)
Definition can_take (st : stmt) (l : lock) : Prop :=
  match st, l with
  | InsertEvent _ e, LEvent k => k = event_input_key e
  | UpsertBucket _ e, LBucket k => k = event_bucket_key e
  | UpsertItem i, LItem id => id = ii_item_id i
  | BatchEvents _ _, LEvent _ | BatchEvents _ _, LBucket _ | BatchItems _, LItem _ => True
  | _, _ => False
  end.

Lemma stmt_inserts_offers st d e : e ∈ stmt_inserts st d -> e ∈ offers st.
Proof. destruct st; cbn [stmt_inserts offers]; try (by intros ?%not_elem_of_nil); apply new_rows_subset. Qed.

Lemma stmt_locks_can st d l : l ∈ stmt_locks st d -> can_take st l.
Proof.
  destruct st as [now e|now e|i|now ls|ls]; cbn [stmt_locks].
  - intros (x & -> & Hx%stmt_inserts_offers)%list_elem_of_fmap. simpl in *. by apply list_elem_of_singleton in Hx as ->.
  - by intros ->%list_elem_of_singleton.
  - by intros ->%list_elem_of_singleton.
  - intros [(x & -> & _)%list_elem_of_fmap|(x & -> & _)%list_elem_of_fmap]%elem_of_app; done.
  - by intros (x & -> & _)%list_elem_of_fmap.
Qed.

Lemma event_locks st d k : LEvent k ∈ stmt_locks st d -> exists e, e ∈ offers st /\
  event_input_key e = k /\ item_events d !! k = None.
Proof.
  assert (forall ls, LEvent k ∈ (LEvent ∘ event_input_key <$> new_rows (er_name <$> item_events d) ls) ->
    exists e, e ∈ ls /\ event_input_key e = k /\ item_events d !! k = None) as Hnew.
  { intros ls (e & [= ->] & He)%list_elem_of_fmap.
    assert (event_input_key e ∈ (event_input_key <$> new_rows (er_name <$> item_events d) ls)) as Hk
      by by apply list_elem_of_fmap_2.
    apply new_rows_keys in Hk as [Hnone (e' & He' & Hk)]. apply events_none_view in Hnone. eauto. }
  destruct st as [now e|now e|i|now ls|ls]; cbn [stmt_locks offers].
  - by apply Hnew.
  - by intros [=]%list_elem_of_singleton.
  - by intros [=]%list_elem_of_singleton.
  - intros [Hk|(x & [=] & _)%list_elem_of_fmap]%elem_of_app. by eapply Hnew.
  - by intros (x & [=] & _)%list_elem_of_fmap.
Qed.

Lemma event_locks_intro now ls d k e :
  e ∈ ls -> event_input_key e = k -> item_events d !! k = None -> LEvent k ∈ stmt_locks (BatchEvents now ls) d.
Proof.
  intros He <- Hn. cbn [stmt_locks stmt_inserts]. apply elem_of_app. left.
  assert (event_input_key e ∈ (event_input_key <$> new_rows (er_name <$> item_events d) ls)) as Hk.
  { apply new_rows_keys. split; [by apply events_none_view|]. by exists e. }
  apply list_elem_of_fmap in Hk as (x & -> & Hx). by apply (list_elem_of_fmap_2 (LEvent ∘ event_input_key)).
Qed.

(** ** The invariant *)
Definition bucket_lock (l : lock) : Prop := match l with LBucket _ => True | _ => False end.

(** The rows taken belong to the statement; a batch that has a bucket has all its
    event rows. *)
Definition part_ok (d : DB) (t : txn) (ls : list lock) : Prop :=
  exists st k, tn_rest t = TxExec st k /\ Forall (can_take st) ls /\
    (Exists bucket_lock ls -> forall key, LEvent key ∈ stmt_locks st (view d (tn_own t)) -> LEvent key ∈ ls).

Record lk_ok (s : Locked) : Prop := {
  ok_sys : sys_ok allowed (lk_sys s);
  ok_part : forall i ls, lk_part s !! i = Some ls ->
    exists t, lk_txs s !! i = Some t /\ part_ok (c_db (lk_conc s)) t ls;
  ok_clash : no_clash (lk_sys s) (lk_part s);
  ok_parts : forall i j ls ls' l, lk_part s !! i = Some ls -> lk_part s !! j = Some ls' -> i <> j ->
    l ∈ ls -> l ∉ ls'
}.

Lemma part_of_Some s i ls : lk_part s !! i = Some ls -> part_of s i = ls.
Proof. unfold part_of. by intros ->. Qed.

Lemma elem_part_of s i l : l ∈ part_of s i -> exists ls, lk_part s !! i = Some ls /\ l ∈ ls.
Proof. unfold part_of. destruct (lk_part s !! i) as [ls|]; simpl; [by eauto|by intros ?%not_elem_of_nil]. Qed.

Lemma take_ok s i t st k n d l rest :
  lk_ok s -> lk_txs s !! i = Some t -> tn_rest t = TxExec st k -> exec st (tx_view s t) = SOk n d ->
  untaken (stmt_locks st (tx_view s t)) (part_of s i) = l :: rest -> free_for s i l ->
  lk_ok {| lk_sys := lk_sys s; lk_part := <[i := part_of s i ++ [l]]> (lk_part s) |}.
Proof.
  intros [Hsys Hpart Hclash Hparts] Hi Hst _ Hu (Hf1 & Hf2 & Hf3).
  destruct (untaken_cons _ _ _ _ Hu) as [Hl Hnl]. split; [done|..]; cbn [lk_sys lk_part].
  - intros j ls [[<- <-]|[_ Hj]]%lookup_insert_Some; [|by apply Hpart]. exists t. split; [done|].
    exists st, k. split; [done|].
    assert (Forall (can_take st) (part_of s i) /\ (Exists bucket_lock (part_of s i) ->
      forall key, LEvent key ∈ stmt_locks st (tx_view s t) -> LEvent key ∈ part_of s i)) as [Hcan Hord].
    { unfold part_of. destruct (lk_part s !! i) as [ls|] eqn:Hp; [|by split; [constructor|intros ?%Exists_nil]].
      destruct (Hpart i ls Hp) as (t' & Ht' & st' & k' & Hst' & Hc & Ho). simpl.
      rewrite Hi in Ht'. injection Ht' as <-. rewrite Hst in Hst'. injection Hst' as <- _. done. }
    split.
    { apply Forall_app. split; [done|]. constructor; [|done]. by eapply stmt_locks_can. }
    intros Hb key Hkey. apply elem_of_app. left. apply Exists_app in Hb as [Hb|Hb]; [by apply Hord|].
    apply Exists_cons in Hb as [Hb|?%Exists_nil]; [|done]. destruct l as [|bk|]; try done.
    destruct st as [now e|now e|it|now ls|ls]; cbn [stmt_locks] in Hu, Hl, Hkey.
    + by apply list_elem_of_fmap in Hl as (? & [=] & _).
    + by apply list_elem_of_singleton in Hkey.
    + by apply list_elem_of_singleton in Hkey.
    + apply elem_of_app in Hkey as [Hkey|(? & [=] & _)%list_elem_of_fmap].
      eapply (untaken_first _ _ _ _ _ Hu); [|by intros (? & [=] & _)%list_elem_of_fmap|exact Hkey].
      apply elem_of_app in Hl as [(? & [=] & _)%list_elem_of_fmap|Hl]. exact Hl.
    + by apply list_elem_of_fmap in Hkey as (? & [=] & _).
  - intros j ls x [[<- <-]|[_ Hj]]%lookup_insert_Some Hx; [|by eapply Hclash].
    apply elem_of_app in Hx as [Hx|Hx].
    + apply elem_part_of in Hx as (ls & Hp & Hx). by eapply Hclash.
    + apply list_elem_of_singleton in Hx as ->. split; [exact Hf1|exact Hf3].
  - intros j j' ls ls' x [[<- <-]|[Hj Hjl]]%lookup_insert_Some [[<- <-]|[Hj' Hjl']]%lookup_insert_Some Hne Hx.
    + done.
    + apply elem_of_app in Hx as [Hx|Hx].
      * apply elem_part_of in Hx as (ls & Hp & Hx). by eapply (Hparts i j').
      * apply list_elem_of_singleton in Hx as ->. by eapply (Hf2 j').
    + intros [Hx'|Hx']%elem_of_app.
      * apply elem_part_of in Hx' as (ls' & Hp & Hx'). by eapply (Hparts j i).
      * apply list_elem_of_singleton in Hx' as ->. by eapply (Hf2 j).
    + by eapply (Hparts j j').
Qed.

(** ** A statement that has its rows can run *)
Lemma rows_disjoint_locks a b : (forall l, in_rows l a -> ~ in_rows l b) -> rows_disjoint a b.
Proof.
  intros Hl. split_and!.
  - intros k Ha Hb. exact (Hl (LEvent k) Ha Hb).
  - intros k Ha Hb. exact (Hl (LBucket k) Ha Hb).
  - intros k Ha Hb. exact (Hl (LItem k) Ha Hb).
Qed.

(** What it has written afterwards. *)
Lemma written_after l st d d2 own :
  in_rows l (written (over (changes (touches st d) d2) own)) ->
  l ∈ stmt_locks st d \/ in_rows l (written own).
Proof.
  pose proof (changes_rows (touches st d) d2) as (C1 & C2 & C3).
  pose proof (dom_over (changes (touches st d) d2) own) as (D1 & D2 & D3).
  rewrite <- touches_locks. destruct l; unfold in_rows, written; simpl; rewrite ?D1, ?D2, ?D3; set_solver.
Qed.

Lemma held_by_others s i st t j u l :
  lk_ok s -> untaken (stmt_locks st (tx_view s t)) (part_of s i) = [] -> l ∈ stmt_locks st (tx_view s t) ->
  lk_txs s !! j = Some u -> j <> i -> ~ in_rows l (written (tn_own u)).
Proof.
  intros Hok Hu Hl Hj Hne. apply (proj1 (untaken_nil _ _) Hu), elem_part_of in Hl as (ls & Hp & Hl).
  destruct (ok_clash _ Hok i ls l Hp Hl) as [Hc _]. by eapply Hc.
Qed.

Lemma exec_sys s i t st k n d :
  lk_ok s -> lk_txs s !! i = Some t -> tn_rest t = TxExec st k -> exec st (tx_view s t) = SOk n d ->
  untaken (stmt_locks st (tx_view s t)) (part_of s i) = [] ->
  sys_step allowed (lk_sys s) (SIngest CExec) (after_stmt s i t st (k n) d).
Proof.
  intros Hok Hi Hst Hrun Hu. unfold after_stmt. destruct t as [op rest own].
  cbn [tn_op tn_rest tn_own] in *. subst rest.
  apply sys_ingest; [|done|].
  - eapply conc_exec; [exact Hi|exact Hrun|]. intros j u Hj Hne. apply rows_disjoint_locks.
    intros l Hl%touches_locks. by eapply held_by_others.
  - intros j u q r Hj Hq. cbn [c_txs] in Hj.
    apply lookup_insert_Some in Hj as [[<- <-]|[_ Hj]]; [|by eapply (ok_apart _ (proj2 (ok_sys _ Hok)))].
    cbn [tn_own]. intros id Hid Hr.
    destruct (written_after (LItem id) st _ d own Hid) as [Hl|Hl].
    + apply (proj1 (untaken_nil _ _) Hu), elem_part_of in Hl as (ls & Hp & Hl).
      destruct (ok_clash _ Hok i ls _ Hp Hl) as [_ Hc]. exact (Hc q r Hq Hr).
    + exact (ok_apart _ (proj2 (ok_sys _ Hok)) i _ q r Hi Hq id Hl Hr).
Qed.

Lemma exec_ok_lk s i t st k n d :
  lk_ok s -> lk_txs s !! i = Some t -> tn_rest t = TxExec st k -> exec st (tx_view s t) = SOk n d ->
  untaken (stmt_locks st (tx_view s t)) (part_of s i) = [] ->
  lk_ok {| lk_sys := after_stmt s i t st (k n) d; lk_part := delete i (lk_part s) |}.
Proof.
  intros Hok Hi Hst Hrun Hu. pose proof (exec_sys _ _ _ _ _ _ _ Hok Hi Hst Hrun Hu) as Hs.
  split; cbn [lk_sys lk_part].
  - eapply sys_step_ok; [by apply ok_sys|exact Hs].
  - intros j ls [Hne Hj]%lookup_delete_Some. destruct (ok_part _ Hok j ls Hj) as (u & Hu' & Hp).
    exists u. split; [|exact Hp]. unfold lk_txs, lk_conc. simpl. by rewrite lookup_insert_ne.
  - intros j ls l [Hne Hj]%lookup_delete_Some Hl. destruct (ok_clash _ Hok j ls l Hj Hl) as [Hc Hr].
    split; [|exact Hr]. intros q u Hq Hqj. unfold after_stmt in Hq. cbn [sy_conc c_txs] in Hq.
    apply lookup_insert_Some in Hq as [[<- <-]|[_ Hq]]; [|by eapply Hc].
    intros [Hw|Hw]%written_after.
    + apply (proj1 (untaken_nil _ _) Hu), elem_part_of in Hw as (ls' & Hp & Hw). by eapply (ok_parts _ Hok i j).
    + by eapply (Hc i t).
  - intros j j' ls ls' l [_ Hj]%lookup_delete_Some [_ Hj']%lookup_delete_Some. by eapply ok_parts.
Qed.

(** ** The rest of the system around a statement in progress *)
Lemma other_tx s l s' i t t' :
  sys_step allowed s l s' -> l <> SIngest CExec ->
  c_txs (sy_conc s) !! i = Some t -> c_txs (sy_conc s') !! i = Some t' -> t' = t.
Proof.
  intros Hs Hl Hi Hi'. destruct Hs as [s l c' Hc Hal Hap| | | | | |]; simpl in *; try congruence.
  destruct s as [c recs]. simpl in *. clear Hal Hap.
  destruct Hc as [c j op t0 Ha Hj Ht| |c j op st k own e Hj|c j op own Hj|c j u Hj|c cutoff d|c m d|c d Hnone];
    simpl in *; try congruence.
  - apply lookup_insert_Some in Hi' as [[<- _]|[_ Hi']]; congruence.
  - by apply lookup_delete_Some in Hi' as [_ ?]; congruence.
  - by apply lookup_delete_Some in Hi' as [_ ?]; congruence.
  - by apply lookup_delete_Some in Hi' as [_ ?]; congruence.
Qed.

(** No event that a transaction in flight offers disappears. *)
Lemma other_events s l s' i t key :
  sys_step allowed s l s' -> c_txs (sy_conc s) !! i = Some t ->
  (exists e, e ∈ encode_event <$> op_events (tn_op t) /\ event_input_key e = key) ->
  is_Some (item_events (sy_db s) !! key) -> is_Some (item_events (sy_db s') !! key).
Proof.
  intros Hs Hi He Hkey. destruct Hs as [s l c' Hc Hal Hap| | | | | |]; try exact Hkey.
  destruct s as [c recs]. unfold sy_db in *. simpl in *. clear Hal Hap.
  destruct Hc as [| | |c j op own Hj| |c cutoff d _ Hsp Hd|c m d _ Hd|c d Hnone]; simpl in *; try exact Hkey.
  - apply lookup_union_is_Some. by right.
  - injection Hd as <-. destruct He as (e & He & <-). apply list_elem_of_fmap in He as (ev & -> & Hev).
    specialize (Hsp i t Hi ev Hev). destruct Hkey as [row Hrow]. exists row.
    apply map_lookup_filter_Some. split; [exact Hrow|]. simpl. lia.
  - unfold upsert_seed_marker in Hd. destruct (_ && _); [|done]. by injection Hd as <-.
  - by rewrite Hnone in Hi.
Qed.

Lemma offers_ops s i t st k :
  sys_ok allowed s -> c_txs (sy_conc s) !! i = Some t -> tn_rest t = TxExec st k ->
  forall e, e ∈ offers st -> e ∈ encode_event <$> op_events (tn_op t).
Proof.
  intros Hok Hi Hst. destruct (proj1 (proj1 Hok) i t Hi) as [(t0 & off & m & _ & _ & Hs & Hw & _) _].
  rewrite Hst in Hs. exact (proj1 (stage_exec _ _ _ _ _ (sy_db s) (sy_db s) Hs Hw)).
Qed.

Lemma part_ok_other s l s' i t ls :
  sys_ok allowed s -> sys_step allowed s l s' -> c_txs (sy_conc s) !! i = Some t ->
  part_ok (sy_db s) t ls -> part_ok (sy_db s') t ls.
Proof.
  intros Hok Hs Hi (st & k & Hst & Hcan & Hord). exists st, k. split; [done|]. split; [done|].
  intros Hb key Hkey. apply Hord; [done|].
  destruct (event_locks _ _ _ Hkey) as (e & He & Hk & Hnone).
  assert (item_events (view (sy_db s) (tn_own t)) !! key = None) as Hn.
  { unfold view in *. simpl in *. apply lookup_union_None in Hnone as [H1 H2]. apply lookup_union_None. split; [done|].
    apply eq_None_not_Some. intros Hsome. apply eq_None_not_Some in H2. apply H2.
    eapply other_events; [exact Hs|exact Hi| |exact Hsome]. exists e. split; [by eapply offers_ops|done]. }
  destruct st as [now x|now x|x|now xs|xs]; cbn [offers] in He.
  - apply Exists_exists in Hb as (b & Hb & Hbl). rewrite Forall_forall in Hcan. apply Hcan in Hb. by destruct b.
  - by apply not_elem_of_nil in He.
  - by apply not_elem_of_nil in He.
  - by eapply event_locks_intro.
  - by apply not_elem_of_nil in He.
Qed.

Lemma lk_step_ok s l s' : lk_ok s -> lk_step s l s' -> lk_ok s'.
Proof.
  intros Hok Hs. destruct Hs as [s i t st k n d l rest Hi Hst Hrun Hu Hf|s i t st k n d Hi Hst Hrun Hu
    |s l sys' Hs Hl part' Hclash].
  - by eapply take_ok.
  - by eapply exec_ok_lk.
  - assert (forall i ls, part' !! i = Some ls -> lk_part s !! i = Some ls /\ is_Some (c_txs (sy_conc sys') !! i))
      as Hpart by (intros i ls; subst part'; unfold keep_parts; by rewrite map_lookup_filter_Some).
    split; cbn [lk_sys lk_part]; [eapply sys_step_ok; [by apply ok_sys|exact Hs]| |exact Hclash|].
    + intros i ls [Hp [t' Ht']]%Hpart. destruct (ok_part _ Hok i ls Hp) as (t & Ht & Hpok).
      pose proof (other_tx _ _ _ _ _ _ Hs Hl Ht Ht') as ->. exists t. split; [exact Ht'|].
      eapply part_ok_other; [by apply ok_sys|exact Hs|exact Ht|exact Hpok].
    + intros i j ls ls' l' [Hi _]%Hpart [Hj _]%Hpart. by eapply ok_parts.
Qed.

Lemma lk_reach_ok d0 s : lk_reach d0 s -> lk_ok s.
Proof.
  unfold lk_reach. intros Hr. assert (lk_ok (lk_start d0)) as H0.
  { split; [apply (sys_reach_ok allowed d0), rtc_refl|..]; simpl; unfold no_clash; simpl; intros i; intros;
      by rewrite lookup_empty in *. }
  revert H0. induction Hr as [|x y z [l Hs] _ IH]; [done|]. intros Hx. apply IH. by eapply lk_step_ok.
Qed.

(** Runs of this system are runs of the one whose statements take their rows at once. *)
Lemma lk_reach_sys d0 s : lk_reach d0 s -> sys_reach allowed d0 (lk_sys s).
Proof.
  unfold lk_reach, sys_reach. intros Hr. change (sys_start d0) with (lk_sys (lk_start d0)).
  assert (lk_ok (lk_start d0)) as H0 by (apply (lk_reach_ok d0), rtc_refl).
  revert H0. induction Hr as [|x y z [l Hs] _ IH]; [done|]. intros Hx.
  specialize (IH ltac:(by eapply lk_step_ok)).
  destruct Hs as [s i t st k n d l rest Hi Hst Hrun Hu Hf|s i t st k n d Hi Hst Hrun Hu|s l sys' Hs Hl part' Hclash].
  - exact IH.
  - eapply rtc_l; [|exact IH]. exists (SIngest CExec). by eapply exec_sys.
  - eapply rtc_l; [|exact IH]. by exists l.
Qed.

(** ** Going on: some transaction takes a row, runs a statement, fails in it, or
    commits *)
Definition goes_on (s s' : Locked) : Prop :=
  exists l, lk_step s l s' /\
    ((exists i, l = LTake i \/ l = LExec i) \/ l = LSys (SIngest CError) \/
     exists op, l = LSys (SIngest (CCommit op))).

(** The next row of a transaction. *)
Definition next_lock (s : Locked) (i : nat) (t : txn) (l : lock) : Prop :=
  exists st k n d rest, tn_rest t = TxExec st k /\ exec st (tx_view s t) = SOk n d /\
    untaken (stmt_locks st (tx_view s t)) (part_of s i) = l :: rest.

Definition is_batch (op : store_op) : Prop := match op with OpBatch _ _ => True | _ => False end.

Definition one_batch (s : Locked) : Prop :=
  forall i j t u, lk_txs s !! i = Some t -> lk_txs s !! j = Some u ->
    is_batch (tn_op t) -> is_batch (tn_op u) -> i = j.

#[export] Instance free_for_dec s i l : Decision (free_for s i l).
Proof. unfold free_for. apply _. Defined.

(** Ending a transaction disturbs nobody. *)
Lemma ending s i l db :
  lk_ok s -> conc_step allowed (lk_conc s) l {| c_db := db; c_txs := delete i (lk_txs s) |} ->
  l <> CExec -> l <> CAlone -> exists s', lk_step s (LSys (SIngest l)) s' /\ lk_txs s' = delete i (lk_txs s).
Proof.
  intros Hok Hc Hl Hal. eexists. split; [apply lk_other; [apply sys_ingest; [exact Hc|done|]|congruence|]|reflexivity].
  - intros j t q r Hj. cbn [c_txs] in Hj. apply lookup_delete_Some in Hj as [_ Hj].
    by eapply (ok_apart _ (proj2 (ok_sys _ Hok))).
  - intros j ls x [Hp _]%map_lookup_filter_Some Hx. destruct (ok_clash _ Hok j ls x Hp Hx) as [Hc' Hr].
    split; [|exact Hr]. intros q u Hq. cbn [sy_conc c_txs] in Hq. apply lookup_delete_Some in Hq as [_ Hq].
    by apply Hc'.
Qed.

Lemma goes_or_waits s i t :
  lk_ok s -> lk_txs s !! i = Some t ->
  (exists s', goes_on s s') \/ exists l, next_lock s i t l /\ ~ free_for s i l.
Proof.
  intros Hok Hi. destruct t as [op rest own]. destruct rest as [|st k].
  { left. destruct (ending s i (CCommit op) (view (c_db (lk_conc s)) own) Hok) as (s' & Hs & _);
      [by apply conc_commit|done..|]. exists s', (LSys (SIngest (CCommit op))). split; [exact Hs|]. eauto. }
  set (t := {| tn_op := op; tn_rest := TxExec st k; tn_own := own |}) in *.
  destruct (exec st (tx_view s t)) as [n d|e] eqn:Hrun.
  - destruct (untaken (stmt_locks st (tx_view s t)) (part_of s i)) as [|l rest] eqn:Hu.
    { left. eexists _, (LExec i). split; [by eapply lk_exec|]. eauto. }
    destruct (decide (free_for s i l)) as [Hf|Hf].
    { left. eexists _, (LTake i). split; [by eapply lk_take|]. eauto. }
    right. exists l. split; [|done]. by exists st, k, n, d, rest.
  - left. destruct (ending s i CError (c_db (lk_conc s)) Hok) as (s' & Hs & _);
      [by eapply conc_error|done..|]. exists s', (LSys (SIngest CError)). split; [exact Hs|]. auto.
Qed.

Lemma blocker s i l :
  lk_ok s -> sy_recs (lk_sys s) = ∅ -> ~ free_for s i l ->
  exists j u, lk_txs s !! j = Some u /\ j <> i /\ (in_rows l (written (tn_own u)) \/ l ∈ part_of s j).
Proof.
  intros Hok Hrec Hf. unfold free_for in Hf. rewrite Hrec in Hf.
  destruct (decide (map_Forall (fun j t => j <> i -> ~ in_rows l (written (tn_own t))) (lk_txs s))) as [H1|H1].
  - destruct (decide (map_Forall (fun j ls => j <> i -> l ∉ ls) (lk_part s))) as [H2|H2].
    + destruct Hf. split_and!; [done|done|apply map_Forall_empty].
    + apply map_not_Forall in H2 as (j & ls & Hj & Hn); [|apply _].
      destruct (decide (j = i)) as [->|Hne]; [tauto|]. destruct (decide (l ∈ ls)) as [Hl|]; [|tauto].
      destruct (ok_part _ Hok j ls Hj) as (u & Hu & _). exists j, u. split_and!; [done|done|].
      right. by rewrite (part_of_Some _ _ _ Hj).
  - apply map_not_Forall in H1 as (j & u & Hj & Hn); [|apply _].
    destruct (decide (j = i)) as [->|Hne]; [tauto|].
    destruct (decide (in_rows l (written (tn_own u)))) as [Hl|]; [|tauto].
    exists j, u. split_and!; [done|done|by left].
Qed.

(** *** The order of the tables *)
Lemma own_rank s i t l x :
  lk_ok s -> lk_txs s !! i = Some t -> next_lock s i t l ->
  in_rows x (written (tn_own t)) -> (rank x < rank l)%nat.
Proof.
  intros Hok Hi (st & k & n & d & rest & Hst & _ & Hu) Hx.
  destruct (untaken_cons _ _ _ _ Hu) as [Hl%stmt_locks_can _].
  destruct (proj1 (proj1 (ok_sys _ Hok)) i t Hi) as [(t0 & off & m & _ & _ & Hs & (W0 & W1 & W2) & _) _].
  rewrite Hst in Hs.
  assert (m <= rank l)%nat as Hm by (inversion Hs; subst; destruct l; simpl in *; (done || lia)).
  assert (m <= 2)%nat as Hm2 by (destruct l; simpl in Hm; lia).
  destruct x as [key|key|id]; unfold in_rows, written in Hx; simpl in Hx |- *.
  - destruct m; [|lia]. rewrite W0 in Hx by done. set_solver.
  - destruct (Nat.le_gt_cases m 1); [|lia]. rewrite W1 in Hx by done. set_solver.
  - rewrite W2 in Hx by done. set_solver.
Qed.

Lemma part_rank s i t l x :
  lk_ok s -> lk_txs s !! i = Some t -> next_lock s i t l -> x ∈ part_of s i -> (rank x <= rank l)%nat.
Proof.
  intros Hok Hi (st & k & n & d & rest & Hst & _ & Hu) (ls & Hp & Hx)%elem_part_of.
  destruct (untaken_cons _ _ _ _ Hu) as [Hl Hnl]. rewrite (part_of_Some _ _ _ Hp) in Hnl.
  destruct (ok_part _ Hok i ls Hp) as (t' & Ht' & st' & k' & Hst' & Hcan & Hord).
  rewrite Hi in Ht'. injection Ht' as <-. rewrite Hst in Hst'. injection Hst' as <- _.
  rewrite Forall_forall in Hcan. pose proof (Hcan x Hx) as Hcx. pose proof (stmt_locks_can _ _ _ Hl) as Hcl.
  destruct st, x as [key|key|id], l as [key'|key'|id']; simpl in *; try done; try lia.
  exfalso. apply Hnl, Hord; [|exact Hl]. apply Exists_exists. by exists (LBucket key).
Qed.

(** A live ingestion holds nothing of the statement it waits in. *)
Lemma live_part s i t l x :
  lk_ok s -> lk_txs s !! i = Some t -> next_lock s i t l -> x ∈ part_of s i -> is_batch (tn_op t).
Proof.
  intros Hok Hi (st & k & n & d & rest & Hst & _ & Hu) (ls & Hp & Hx)%elem_part_of.
  destruct (untaken_cons _ _ _ _ Hu) as [Hl%stmt_locks_can Hnl]. rewrite (part_of_Some _ _ _ Hp) in Hnl.
  destruct (ok_part _ Hok i ls Hp) as (t' & Ht' & st' & k' & Hst' & Hcan & _).
  rewrite Hi in Ht'. injection Ht' as <-. rewrite Hst in Hst'. injection Hst' as <- _.
  rewrite Forall_forall in Hcan. pose proof (Hcan x Hx) as Hcx.
  destruct (proj1 (proj1 (ok_sys _ Hok)) i t Hi) as [(t0 & off & m & _ & _ & Hs & _) _].
  rewrite Hst in Hs. inversion Hs as [? ? Ho|? ? Ho|? ? Ho|? ? Ho|? ? Ho|]; subst; rewrite Ho; try done;
    exfalso; apply Hnl; destruct x, l; simpl in *; (done || by subst).
Qed.

(** Somebody behind a waiting transaction can go on: the waiting moves to later
    tables, at most once inside a table. *)
Lemma someone_goes s m i t l :
  lk_ok s -> sy_recs (lk_sys s) = ∅ -> one_batch s ->
  lk_txs s !! i = Some t -> next_lock s i t l -> (3 - rank l <= m)%nat -> exists s', goes_on s s'.
Proof.
  intros Hok Hrec Hone. revert i t l. induction m as [|m IH]; intros i t l Hi Hn Hm; [destruct l; simpl in Hm; lia|].
  destruct (goes_or_waits s i t Hok Hi) as [?|(l0 & Hl0 & Hf)]; [by eauto|].
  assert (l0 = l) as ->.
  { destruct Hn as (?&?&?&?&?&E1&_&U1), Hl0 as (?&?&?&?&?&E2&_&U2). congruence. }
  destruct (blocker s i l Hok Hrec Hf) as (j & u & Hj & Hji & Hheld).
  destruct (goes_or_waits s j u Hok Hj) as [?|(l' & Hn' & Hf')]; [by eauto|].
  assert (rank l <= rank l')%nat as Hle.
  { destruct Hheld as [Hh|Hh]; [pose proof (own_rank _ _ _ _ _ Hok Hj Hn' Hh); lia|by eapply part_rank]. }
  destruct (Nat.eq_dec (rank l) (rank l')) as [Heq|]; [|eapply (IH j u l'); [done|done|lia]].
  assert (is_batch (tn_op u)) as Hb.
  { destruct Hheld as [Hh|Hh]; [pose proof (own_rank _ _ _ _ _ Hok Hj Hn' Hh); lia|by eapply live_part]. }
  destruct (blocker s j l' Hok Hrec Hf') as (q & v & Hq & Hqj & Hheld').
  destruct (goes_or_waits s q v Hok Hq) as [?|(l'' & Hn'' & _)]; [by eauto|].
  destruct Hheld' as [Hh|Hh].
  - pose proof (own_rank _ _ _ _ _ Hok Hq Hn'' Hh). eapply (IH q v l''); [done|done|lia].
  - destruct Hqj. eapply Hone; [exact Hq|exact Hj|by eapply live_part|exact Hb].
Qed.

(** ** How much is left: statements and commits, then rows to take *)
Definition missing (s : Locked) (i : nat) (t : txn) : nat :=
  match tn_rest t with
  | TxExec st _ => length (untaken (stmt_locks st (tx_view s t)) (part_of s i))
  | TxCommit => 0
  end.

Definition total (f : nat -> txn -> nat) (m : gmap nat txn) : nat := map_fold (fun i t n => f i t + n)%nat 0%nat m.

Definition to_take (s : Locked) : nat := total (missing s) (lk_txs s).

Lemma total_delete f m i t : m !! i = Some t -> (total f m = f i t + total f (delete i m))%nat.
Proof. intros Hi. unfold total. rewrite (map_fold_delete_L _ _ i t m); [done| |done]. intros; lia. Qed.

Lemma total_ext f g m : (forall j u, m !! j = Some u -> f j u = g j u) -> total f m = total g m.
Proof.
  induction m as [|j u m Hj IH] using map_ind; intros Hfg; [done|].
  rewrite !(total_delete _ (<[j := u]> m) j u) by apply lookup_insert_eq. rewrite delete_insert_id by done.
  rewrite (Hfg j u) by apply lookup_insert_eq. f_equal. apply IH. intros q v Hq. apply Hfg.
  rewrite lookup_insert_ne; congruence.
Qed.

Lemma untaken_snoc want part l :
  (length (untaken want (part ++ [l])) <= length (untaken want part))%nat /\
  (l ∈ want -> l ∉ part -> length (untaken want (part ++ [l])) < length (untaken want part))%nat.
Proof.
  unfold untaken. induction want as [|x want [IH1 IH2]]; simpl; [split; [lia|by intros ?%not_elem_of_nil]|].
  rewrite !filter_cons. destruct (decide (x ∈ part)) as [Hx|Hx].
  - rewrite !decide_False by set_solver. split; [done|]. intros Hl Hn. apply IH2; set_solver.
  - rewrite (decide_True (P := x ∉ part)) by done. destruct (decide (x = l)) as [->|Hne].
    + rewrite decide_False by set_solver. simpl. split; [lia|]. intros; lia.
    + rewrite decide_True by set_solver. simpl. split; [lia|]. intros Hl Hn.
      assert (l ∈ want) as Hw by set_solver. specialize (IH2 Hw Hn). lia.
Qed.

Lemma conc_turn c l c' :
  conc_step allowed c l c' -> l = CExec \/ l = CError \/ (exists op, l = CCommit op) -> exists i, turn i c = Some c'.
Proof.
  intros Hc Hl. destruct Hc as [| c i op st k own n d Hi Hrun Hf|c i op st k own e Hi Hrun|c i op own Hi| | | |];
    try (by destruct Hl as [?|[?|[? ?]]]); exists i; unfold turn; rewrite Hi; cbn [tn_rest tn_own tn_op].
  - rewrite Hrun. by rewrite (proj2 (is_free_spec _ _ _) Hf).
  - by rewrite Hrun.
  - done.
Qed.

Lemma take_less s i t st k n d l rest :
  lk_txs s !! i = Some t -> tn_rest t = TxExec st k -> exec st (tx_view s t) = SOk n d ->
  untaken (stmt_locks st (tx_view s t)) (part_of s i) = l :: rest ->
  (to_take {| lk_sys := lk_sys s; lk_part := <[i := part_of s i ++ [l]]> (lk_part s) |} < to_take s)%nat.
Proof.
  intros Hi Hst _ Hu. destruct (untaken_cons _ _ _ _ Hu) as [Hl Hn]. unfold to_take.
  set (s' := {| lk_sys := _; lk_part := _ |}). change (lk_txs s') with (lk_txs s).
  rewrite !(total_delete _ _ i t Hi).
  rewrite (total_ext (missing s') (missing s)).
  - unfold missing. rewrite Hst. change (tx_view s' t) with (tx_view s t).
    replace (part_of s' i) with (part_of s i ++ [l]) by (unfold part_of at 2; simpl; by rewrite lookup_insert_eq).
    pose proof (proj2 (untaken_snoc (stmt_locks st (tx_view s t)) (part_of s i) l) Hl Hn). lia.
  - intros j u [Hne Hj]%lookup_delete_Some. unfold missing. change (tx_view s' u) with (tx_view s u).
    replace (part_of s' j) with (part_of s j) by (unfold part_of; simpl; by rewrite lookup_insert_ne). done.
Qed.

Lemma goes_on_less s s' :
  lk_ok s -> goes_on s s' ->
  (work (lk_conc s') < work (lk_conc s) \/ lk_conc s' = lk_conc s /\ to_take s' < to_take s)%nat.
Proof.
  intros Hok (l & Hs & Hl). pose proof (proj1 (ok_sys _ Hok)) as Hc.
  assert (forall cl, sys_step allowed (lk_sys s) (SIngest cl) (lk_sys s') ->
    cl = CExec \/ cl = CError \/ (exists op, cl = CCommit op) -> work (lk_conc s') < work (lk_conc s))%nat as Hwork.
  { intros cl Hsys Hcl. inversion Hsys as [? ? c' Hcs _ _ E1 E2 E3| | | | | |]; subst.
    destruct (conc_turn _ _ _ Hcs Hcl) as [q Hq]. unfold lk_conc at 1. rewrite <- E3. by eapply turn_work. }
  destruct Hs as [s i' t st k n d l0 rest Hi Hst Hrun Hu Hf
    |s i' t st k n d Hi Hst Hrun Hu|s l0 sys' Hsys Hne part' Hcl].
  - right. split; [done|]. by eapply take_less.
  - left. eapply Hwork; [by eapply exec_sys|by left].
  - left. destruct Hl as [[q [[=]|[=]]]|[[= ->]|[op [= ->]]]]; eapply Hwork; eauto.
Qed.

(** ** A batch and a reconcile that wait for each other *)

(** The batch [i] waits for item [a], which the reconcile [j] has; the reconcile's
    next upsert is of item [b], which the batch has taken. *)
Definition deadlocked (s : Locked) (i j : nat) (a b : Z) : Prop :=
  exists t ls k rest r it todo,
    lk_txs s !! i = Some t /\ tn_rest t = TxExec (BatchItems ls) k /\
    untaken (LItem ∘ ii_item_id <$> ls) (part_of s i) = LItem a :: rest /\ LItem b ∈ part_of s i /\
    sy_recs (lk_sys s) !! j = Some r /\ rc_stage r = Upserting (it :: todo) /\ si_ItemID it = b /\
    a ∈ dom (rc_own r).

(** One of them is aborted. *)
Definition aborts (l : lk_label) (s' : Locked) (i j : nat) : Prop :=
  (l = LSys (SIngest CFail) \/ l = LSys (SIngest CError)) /\ lk_txs s' !! i = None \/
  l = LSys SReconcile /\ sy_recs (lk_sys s') !! j = None.

Lemma gone_aborts c l c' i t :
  conc_step allowed c l c' -> c_txs c !! i = Some t -> tn_rest t <> TxCommit -> c_txs c' !! i = None ->
  l = CFail \/ l = CError.
Proof.
  intros Hc Hi Hr Hn. destruct Hc as [c j op t0 _ Hj _|c j op st k own n d Hj _ _|c j op st k own e Hj _
    |c j op own Hj|c j u Hj|c cutoff d _ _ _|c m d _ _|c d Hnone _]; simpl in *; try congruence; auto.
  - apply lookup_insert_None in Hn as [Hn _]. congruence.
  - apply lookup_insert_None in Hn as [Hn _]. congruence.
  - apply lookup_delete_None in Hn as [->|Hn]; [|congruence]. rewrite Hi in Hj. injection Hj as ->. done.
Qed.

Lemma kept_part s txs i t :
  txs !! i = Some t -> default [] (keep_parts txs (lk_part s) !! i) = part_of s i.
Proof.
  intros Ht. unfold keep_parts, part_of. rewrite map_lookup_filter.
  destruct (lk_part s !! i) as [ls|]; simpl; [|done]. rewrite option_guard_True; [done|]. by eexists.
Qed.

Lemma deadlocked_intro s i j a b t ls k rest r it todo sys' part :
  sy_recs sys' !! j = Some r -> c_txs (sy_conc sys') !! i = Some t -> default [] (part !! i) = part_of s i ->
  tn_rest t = TxExec (BatchItems ls) k -> untaken (LItem ∘ ii_item_id <$> ls) (part_of s i) = LItem a :: rest ->
  LItem b ∈ part_of s i -> rc_stage r = Upserting (it :: todo) -> si_ItemID it = b -> a ∈ dom (rc_own r) ->
  deadlocked {| lk_sys := sys'; lk_part := part |} i j a b.
Proof.
  intros Hr Ht Hp. intros. exists t, ls, k, rest, r, it, todo. unfold part_of at 1 2. cbn [lk_part]. rewrite Hp.
  split_and!; done.
Qed.

Lemma upsert_holds s r it n d st :
  upsert_snapshot_item (rc_now r) (si_ItemID it) (si_Name it) (rec_view s r) = SOk n d ->
  holds_item (LItem (si_ItemID it)) (hold {[si_ItemID it]} d r st).
Proof.
  unfold upsert_snapshot_item. intros [= _ <-]. simpl. apply elem_of_dom. rewrite lookup_patch.
  rewrite decide_True by by apply elem_of_singleton. simpl. rewrite lookup_insert_eq. by eexists.
Qed.

Lemma deadlocked_stays s i j a b l s' :
  deadlocked s i j a b -> lk_step s l s' -> deadlocked s' i j a b \/ aborts l s' i j.
Proof.
  intros (t & ls & k & rest & r & it & todo & Ht & Hst & Hu & Hb & Hr & Hstage & Hit & Ha) Hs.
  destruct Hs as [s i' t' st' k' n d l0 rest' Hi' Hst' Hrun Hu' Hf|s i' t' st' k' n d Hi' Hst' Hrun Hu'
    |s l0 sys' Hs Hne part' Hclash].
  - left. destruct (decide (i' = i)) as [->|Hne].
    + exfalso. rewrite Ht in Hi'. injection Hi' as <-. rewrite Hst in Hst'. injection Hst' as <- _.
      cbn [stmt_locks] in Hu'. rewrite Hu in Hu'. injection Hu' as <- _. destruct Hf as (_ & _ & Hf).
      by apply (Hf j r Hr).
    + eapply deadlocked_intro; try done. unfold part_of at 2. by rewrite lookup_insert_ne.
  - left. destruct (decide (i' = i)) as [->|Hne].
    + exfalso. rewrite Ht in Hi'. injection Hi' as <-. rewrite Hst in Hst'. injection Hst' as <- _.
      cbn [stmt_locks] in Hu'. by rewrite Hu in Hu'.
    + eapply deadlocked_intro; try done; simpl; [by rewrite lookup_insert_ne|].
      unfold part_of at 1. by rewrite lookup_delete_ne.
  - assert (forall r', sy_recs sys' !! j = Some r' -> rc_stage r' = rc_stage r -> rc_own r' = rc_own r ->
      c_txs (sy_conc sys') !! i = Some t -> deadlocked {| lk_sys := sys'; lk_part := part' |} i j a b) as Hstay.
    { intros r' Hr' E1 E2 Ht'. eapply deadlocked_intro; try done; [by eapply kept_part|by rewrite E1|by rewrite E2]. }
    pose proof Hs as Hsys. unfold lk_txs, lk_conc in Ht.
    destruct Hs as [s0 cl c' Hc _ _|s0 j' items observed _ Hj'|s0 j' r' it' todo' n d Hj' Hst' Hd _
      |s0 j' r' Hj' Hst'|s0 j' r' seen n d Hj' Hst' _ _|s0 j' r' seen Hj' Hst'|s0 j' r' Hj'].
    + destruct (c_txs c' !! i) as [t'|] eqn:Ht'.
      * pose proof (other_tx _ _ _ _ _ _ Hsys Hne Ht Ht') as ->. left. by apply (Hstay r).
      * right. left. split; [|exact Ht'].
        destruct (gone_aborts _ _ _ i t Hc Ht) as [-> | ->]; [by rewrite Hst|done|by left|by right].
    + left. apply (Hstay r); [|done..]. simpl. rewrite lookup_insert_ne; [done|]. congruence.
    + left. destruct (decide (j' = j)) as [->|Hj]; [|apply (Hstay r); [simpl; by rewrite lookup_insert_ne|done..]].
      exfalso. simplify_eq. rewrite Hstage in Hst'. injection Hst' as <- <-.
      apply elem_part_of in Hb as (ls' & Hp & Hb).
      assert (part' !! i = Some ls') as Hp' by (apply map_lookup_filter_Some; split; [done|by eexists]).
      destruct (Hclash i ls' _ Hp' Hb) as [_ Hc]. apply (Hc j _ (lookup_insert_eq _ _ _)).
      by eapply upsert_holds.
    + left. apply (Hstay r); [|done..]. simpl. rewrite lookup_insert_ne; [done|]. intros ->. simplify_eq. congruence.
    + left. apply (Hstay r); [|done..]. simpl. rewrite lookup_insert_ne; [done|]. intros ->. simplify_eq. congruence.
    + left. apply (Hstay r); [|done..]. simpl. rewrite lookup_delete_ne; [done|]. intros ->. simplify_eq. congruence.
    + destruct (decide (j' = j)) as [->|Hj].
      * right. right. split; [done|]. simpl. apply lookup_delete_eq.
      * left. apply (Hstay r); [simpl; by rewrite lookup_delete_ne|done..].
Qed.
End locking.
