(* ===== verification/LockingProps.v ===== *)
(** * LockingProps: who waits for whom

    Ingestion never gets stuck on row locks with one seed command running; a seed
    batch and a reconcile can. *)
From S2P Require Import Prelude Database Tables Session Store StoreBatch BatchEquiv Invariant StoreProps Txn Interleave Reconciling Locking.
Local Open Scope Z_scope.

(** * Properties *)

(** C24: Ingestion does not deadlock on row locks.  Statements take their rows one
    at a time and keep them while they wait.  Every run is one of the system whose
    statements take their rows at once, so what is proved of that holds; with any
    number of live ingestions and at most one seed batch in flight (and no
    reconcile), as long as one is in flight some transaction can take its next
    row, run its statement or end; and each such step leaves fewer statements, or
    as many and fewer rows to take. *)
Theorem ingestion_deadlock_free `{PgTime} allowed bucket_order d0 s :
  (forall b k, k ∈ bucket_order b <-> k ∈ b) -> lk_reach allowed bucket_order d0 s ->
  sys_reach allowed d0 (lk_sys s) /\
  (one_batch s -> sy_recs (lk_sys s) = ∅ -> lk_txs s <> ∅ ->
   exists s', goes_on allowed bucket_order s s') /\
  (forall s', goes_on allowed bucket_order s s' ->
   work (lk_conc s') < work (lk_conc s) \/
   lk_conc s' = lk_conc s /\ to_take bucket_order s' < to_take bucket_order s)%nat.
Proof.
  intros Hb Hr. pose proof (lk_reach_ok allowed bucket_order Hb d0 s Hr) as Hok. split_and!.
  - by eapply lk_reach_sys.
  - intros Hone Hrec Hne. destruct (map_choose _ Hne) as (i & t & Hi).
    destruct (goes_or_waits allowed bucket_order s i t Hok Hi) as [?|(l & Hl & _)]; [done|].
    by eapply (someone_goes allowed bucket_order Hb s _ i t l).
  - intros s' Hs. by eapply goes_on_less.
Qed.

(** * Concrete inputs *)

(** The next row or statement of transaction [i]; [None] while it waits. *)
Definition lk_turn `{PgTime} (bucket_order : gset bucket_key -> list bucket_key) (i : nat) (s : Locked)
    : option Locked :=
  t ← lk_txs s !! i;
  match tn_rest t with
  | TxCommit => None
  | TxExec st k =>
      match exec st (tx_view s t) with
      | SErr _ => None
      | SOk n d =>
          match untaken (stmt_locks bucket_order st (tx_view s t)) (part_of s i) with
          | [] => Some {| lk_sys := after_stmt s i t st (k n) d; lk_part := delete i (lk_part s) |}
          | l :: _ =>
              if decide (free_for s i l)
              then Some {| lk_sys := lk_sys s; lk_part := <[i := part_of s i ++ [l]]> (lk_part s) |} else None
          end
      end
  end.

Fixpoint lk_turns `{PgTime} bucket_order (l : list nat) (s : Locked) : option Locked :=
  match l with [] => Some s | i :: l' => s' ← lk_turn bucket_order i s; lk_turns bucket_order l' s' end.

(** A transaction begins. *)
Definition begin_tx (i : nat) (op : store_op) (t : tx) (s : Locked) : Locked :=
  let c := start_tx i op t (lk_conc s) in
  {| lk_sys := {| sy_conc := c; sy_recs := sy_recs (lk_sys s) |}; lk_part := keep_parts (c_txs c) (lk_part s) |}.

(** A reconcile begins, and upserts its first item. *)
Definition begin_rec (j : nat) (items : list SnapshotItem) (s : Locked) : Locked :=
  {| lk_sys := put_rec j
       {| rc_items := items; rc_observed := 20; rc_stage := Upserting items; rc_own := ∅ |} (lk_sys s);
     lk_part := keep_parts (lk_txs s) (lk_part s) |}.

Section demo.
Context `{PgTime}.
Variable allowed : store_op -> Prop.
Variable bucket_order : gset bucket_key -> list bucket_key.
Hypothesis bucket_order_spec : forall b k, k ∈ bucket_order b <-> k ∈ b.

Lemma reach_turns d0 l s s' :
  lk_reach allowed bucket_order d0 s -> lk_turns bucket_order l s = Some s' -> lk_reach allowed bucket_order d0 s'.
Proof.
  revert s. induction l as [|i l IH]; intros s Hs; simpl; [by intros [= <-]|].
  destruct (lk_turn bucket_order i s) as [s1|] eqn:Ht; [|done]. simpl. apply IH. unfold lk_reach in *.
  eapply rtc_r; [exact Hs|]. unfold lk_turn in Ht.
  destruct (lk_txs s !! i) as [t|] eqn:Hi; [|done]. simpl in Ht.
  destruct (tn_rest t) as [|st k] eqn:Hst; [done|]. destruct (exec st _) as [n d|] eqn:Hrun; [|done].
  destruct (untaken _ _) as [|x rest] eqn:Hu; [injection Ht as <-; eexists; by eapply lk_exec|].
  destruct (decide _) as [Hf|]; [|done]. injection Ht as <-. eexists. by eapply lk_take.
Qed.

Lemma reach_begin d0 i op t s :
  lk_reach allowed bucket_order d0 s -> allowed op -> lk_txs s !! i = None -> tx_of op = Some t ->
  lk_reach allowed bucket_order d0 (begin_tx i op t s).
Proof.
  intros Hr Ha Hi Ht. pose proof (lk_reach_ok allowed bucket_order bucket_order_spec d0 s Hr) as Hok.
  unfold lk_reach in *. eapply rtc_r; [exact Hr|]. exists (LSys (SIngest CBegin)). apply lk_other.
  - apply sys_ingest; [by apply conc_begin|done|]. intros q u k r Hq Hk. simpl in Hq.
    apply lookup_insert_Some in Hq as [[<- <-]|[_ Hq]]; [|by eapply (ok_apart _ (proj2 (ok_sys _ _ _ Hok)))].
    simpl. rewrite dom_empty_L. set_solver.
  - done.
  - intros q ls l [Hp _]%map_lookup_filter_Some Hl. destruct (ok_clash _ _ _ Hok q ls l Hp Hl) as [Hc Hk].
    split; [|exact Hk]. intros k u Hu Hne. simpl in Hu.
    apply lookup_insert_Some in Hu as [[<- <-]|[_ Hu]]; [|by apply (Hc k)].
    destruct l; simpl; rewrite dom_empty_L; set_solver.
Qed.

Lemma reach_begin_rec d0 j items s :
  lk_reach allowed bucket_order d0 s -> allowed (OpReconcile items 20) -> sy_recs (lk_sys s) !! j = None ->
  lk_reach allowed bucket_order d0 (begin_rec j items s).
Proof.
  intros Hr Ha Hj. pose proof (lk_reach_ok allowed bucket_order bucket_order_spec d0 s Hr) as Hok.
  unfold lk_reach in *. eapply rtc_r; [exact Hr|]. exists (LSys SReconcile).
  apply (lk_other _ _ s SReconcile); [by apply sys_begin|done|].
  intros q ls l [Hp _]%map_lookup_filter_Some Hl. destruct (ok_clash _ _ _ Hok q ls l Hp Hl) as [Hc Hk].
  split; [exact Hc|]. intros k r Hr'. simpl in Hr'.
  apply lookup_insert_Some in Hr' as [[<- <-]|[_ Hr']]; [|by eapply Hk].
  destruct l; simpl; rewrite ?dom_empty_L; set_solver.
Qed.
End demo.

Definition all_buckets : gset bucket_key -> list bucket_key := elements.

Lemma all_buckets_spec b k : k ∈ all_buckets b <-> k ∈ b.
Proof. apply elem_of_elements. Qed.

#[local] Instance is_batch_dec op : Decision (is_batch op).
Proof. destruct op; simpl; apply _. Defined.

Lemma one_batch_intro s i :
  map_Forall (fun q t => is_batch (tn_op t) -> q = i) (lk_txs s) -> one_batch s.
Proof. intros Hq j k t u Hj Hk Ht Hu. by rewrite (Hq j t Hj Ht), (Hq k u Hk Hu). Qed.

(** The client and one seed batch, with an event in common: the batch has taken
    the row of its own event and waits for the client's. *)
Definition sold_event : EventRecord :=
  {| ev_ItemID := 2; ev_ItemName := "vase"; ev_EventType := "created"; ev_EventTime := 6000000 |}.

Definition seed_evs : list EventRecord := [sold_event; demo_event].

Definition both_begun : Locked :=
  begin_tx 2 (OpBatch 11 seed_evs) (batch_tx 11 seed_evs)
    (begin_tx 1 live_op (ingest_tx 10 demo_event) (lk_start empty_db)).

Definition batch_waits : Locked := default both_begun (lk_turns all_buckets [1; 1; 2]%nat both_begun).

Lemma batch_waits_reach : lk_reach any_op all_buckets empty_db batch_waits.
Proof.
  apply (reach_turns any_op all_buckets empty_db [1; 1; 2]%nat both_begun); [|vm_compute; reflexivity].
  apply reach_begin; [apply all_buckets_spec| |exact I|reflexivity|reflexivity].
  apply reach_begin; [apply all_buckets_spec|apply rtc_refl|exact I|reflexivity|reflexivity].
Qed.

Example batch_waits_turns :
  is_Some (lk_turn all_buckets 1 batch_waits) /\ lk_turn all_buckets 2 batch_waits = None /\
  part_of batch_waits 2 = [LEvent (event_input_key (encode_event sold_event))].
Proof. split_and!; [eexists; vm_compute; reflexivity|vm_compute; reflexivity..]. Qed.

Lemma ingestion_deadlock_free_witness : exists s', goes_on any_op all_buckets batch_waits s'.
Proof.
  destruct (ingestion_deadlock_free any_op all_buckets empty_db batch_waits all_buckets_spec batch_waits_reach)
    as (_ & Hgo & _). apply Hgo.
  - apply (one_batch_intro _ 2%nat). apply (bool_decide_unpack _). vm_compute. exact I.
  - reflexivity.
  - intros Hc. apply (f_equal size) in Hc. vm_compute in Hc. discriminate Hc.
Defined.

(** A seed batch whose events name item 2 before item 1, about to write its items;
    a reconcile of items 1 and 2, which has upserted item 1; then the batch takes
    item 2. *)
Definition snapshot_12 : list SnapshotItem :=
  [{| si_ItemID := 1; si_Name := "lamp" |}; {| si_ItemID := 2; si_Name := "vase" |}].

Definition batch_begun : Locked :=
  begin_tx 1 (OpBatch 11 seed_evs) (batch_tx 11 seed_evs) (lk_start empty_db).

Definition batch_at_items : Locked := default batch_begun (lk_turns all_buckets [1; 1; 1; 1]%nat batch_begun).

Definition rec_begun : Locked := begin_rec 7 snapshot_12 batch_at_items.

Definition upsert_next `{PgTime} (j : nat) (s : Locked) : option Locked :=
  r ← sy_recs (lk_sys s) !! j;
  match rc_stage r with
  | Upserting (it :: todo) =>
      match upsert_snapshot_item (rc_now r) (si_ItemID it) (si_Name it) (rec_view (sy_db (lk_sys s)) r) with
      | SOk _ d => Some {| lk_sys := put_rec j (hold {[si_ItemID it]} d r (Upserting todo)) (lk_sys s);
                           lk_part := keep_parts (lk_txs s) (lk_part s) |}
      | SErr _ => None
      end
  | _ => None
  end.

(** The only reconcile, before any transaction has item rows. *)
Definition items_untouched (j : nat) (s : Locked) : Prop :=
  map_Forall (fun _ t => dom (o_items (tn_own t)) = (∅ : gset Z)) (lk_txs s) /\
  map_Forall (fun k _ => k = j) (sy_recs (lk_sys s)) /\ keep_parts (lk_txs s) (lk_part s) = ∅.

Lemma reach_upsert `{PgTime} allowed bucket_order d0 j s s' :
  lk_reach allowed bucket_order d0 s -> items_untouched j s -> upsert_next j s = Some s' ->
  lk_reach allowed bucket_order d0 s'.
Proof.
  intros Hr (Ht & Hk & Hp) Hs. unfold lk_reach in *. eapply rtc_r; [exact Hr|]. exists (LSys SReconcile).
  unfold upsert_next in Hs. destruct (sy_recs (lk_sys s) !! j) as [r|] eqn:Hj; [|done]. cbn [mbind option_bind] in Hs.
  destruct (rc_stage r) as [[|it todo]| |] eqn:Hst; try done.
  destruct (upsert_snapshot_item _ _ _ _) as [n d|] eqn:Hd; [|done]. injection Hs as <-.
  apply (lk_other _ _ s SReconcile).
  - eapply sys_upsert; [exact Hj|exact Hst|exact Hd|]. split.
    + intros i t Hi. rewrite (Ht i t Hi). set_solver.
    + intros k q Hq Hne. by destruct Hne, (Hk k q Hq).
  - done.
  - intros i ls l Hi. simpl in Hi. unfold lk_txs, lk_conc in Hp. by rewrite Hp in Hi.
Qed.

Definition item_1_upserted : Locked := default rec_begun (upsert_next 7 rec_begun).

Definition both_wait : Locked := default item_1_upserted (lk_turn all_buckets 1 item_1_upserted).

Lemma rec_begun_reach : lk_reach any_op all_buckets empty_db rec_begun.
Proof.
  apply reach_begin_rec; [apply all_buckets_spec| |exact I|vm_compute; reflexivity].
  apply (reach_turns any_op all_buckets empty_db [1; 1; 1; 1]%nat batch_begun); [|vm_compute; reflexivity].
  apply reach_begin; [apply all_buckets_spec|apply rtc_refl|exact I|reflexivity|reflexivity].
Qed.

Lemma both_wait_reach : lk_reach any_op all_buckets empty_db both_wait.
Proof.
  apply (reach_turns any_op all_buckets empty_db [1]%nat item_1_upserted); [|vm_compute; reflexivity].
  apply (reach_upsert any_op all_buckets empty_db 7 rec_begun); [exact rec_begun_reach| |vm_compute; reflexivity].
  split_and!; [apply (bool_decide_unpack _); vm_compute; exact I..|vm_compute; reflexivity].
Qed.

Lemma both_wait_deadlocked : deadlocked both_wait 1 7 1 2.
Proof.
  eexists _, _, _, _, _, _, _. split_and!.
  - vm_compute. reflexivity.
  - reflexivity.
  - vm_compute. reflexivity.
  - vm_compute. by left.
  - vm_compute. reflexivity.
  - reflexivity.
  - reflexivity.
  - simpl. apply (bool_decide_unpack _). vm_compute. exact I.
Qed.

(** C32: A reconcile and a seed batch can deadlock: the reconcile upserts its items in
    the order of the snapshot, the batch in the order its events name them, one
    transaction each.  A state where each has an item the other needs is reached
    from the empty database, and from such a state every step leaves them there,
    except one that aborts one of them. *)
Theorem seed_reconcile_deadlock :
  (exists s, lk_reach any_op all_buckets empty_db s /\ deadlocked s 1 7 1 2) /\
  forall allowed bucket_order s i j a b l s',
    deadlocked s i j a b -> lk_step allowed bucket_order s l s' ->
    deadlocked s' i j a b \/ aborts l s' i j.
Proof.
  split.
  - exists both_wait. split; [exact both_wait_reach|exact both_wait_deadlocked].
  - intros *. apply deadlocked_stays.
Qed.
