(* ===== verification/Expiry.v ===== *)
(** * Expiry: retention at any moment

    [Interleave] and [Reconciling] let retention run among transactions in flight
    only when it spares their events.  Here it deletes whatever is old enough, at
    any moment, between any two statements: an event may go while the transaction
    that met it is in flight.  A history variable counts what retention has
    deleted from each bucket; with it the accounting of the tables is exact. *)
From S2P Require Import Prelude Database Tables Session Store StoreBatch BatchEquiv Invariant StoreProps Txn Interleave Reconciling.
Local Open Scope Z_scope.

(** ** State: the system, and the expired events of each bucket *)
Record Expiring := { ex_sys : Sys; ex_gone : bucket_key -> Z }.

Definition ex_db (s : Expiring) : DB := sy_db (ex_sys s).
Definition ex_txs (s : Expiring) : gmap nat txn := c_txs (sy_conc (ex_sys s)).

(** The raw events of a bucket. *)
Definition raw (m : gmap event_key EventRow) (k : bucket_key) : Z := raw_count (er_name <$> m) k.

(** A retention run takes effect when it commits: it deletes the events before its
    cutoff but those committed after its snapshot. *)
Definition expire (cutoff : Z) (late : gset event_key) (d : DB) : DB :=
  set_item_events
    (filter (fun p : event_key * EventRow => ~ (p.1.2 < pg_ts cutoff) \/ p.1 ∈ late) (item_events d)) d.

Lemma expire_all cutoff d : exists n, delete_events_before (pg_ts cutoff) d = SOk n (expire cutoff ∅ d).
Proof.
  eexists. unfold delete_events_before, expire. do 2 f_equal. apply map_eq. intros k. apply option_eq. intros r.
  rewrite !map_lookup_filter_Some. set_solver.
Qed.

(** ** Whole rows *)
Definition all_rows (d : DB) : overlay :=
  {| o_events := item_events d; o_buckets := event_buckets d; o_items := current_items d |}.

Record rows_ok (w : overlay) : Prop := {
  ro_types : types_ok (er_name <$> o_events w);
  ro_buckets : buckets_ok (bk_count <$> o_buckets w);
  ro_items : items_ok (o_items w)
}.

Lemma rows_ok_over a b : rows_ok a -> rows_ok b -> rows_ok (over a b).
Proof.
  intros [Ta Ba Ia] [Tb Bb Ib]. split; unfold over; cbn [o_events o_buckets o_items].
  - intros k [x Hx]. rewrite lookup_fmap in Hx. apply fmap_Some in Hx as (r & Hr & _).
    apply lookup_union_Some_raw in Hr as [Hr|[_ Hr]]; [apply Ta|apply Tb]; rewrite lookup_fmap, Hr; by eexists.
  - intros k v. rewrite lookup_fmap. intros (r & Hr & ->)%fmap_Some.
    apply lookup_union_Some_raw in Hr as [Hr|[_ Hr]]; [apply Ba|apply Bb]; by rewrite lookup_fmap, Hr.
  - intros id r [Hr|[_ Hr]]%lookup_union_Some_raw; eauto.
Qed.

Lemma rows_ok_sub a b :
  o_events a ⊆ o_events b -> o_buckets a ⊆ o_buckets b -> o_items a ⊆ o_items b -> rows_ok b -> rows_ok a.
Proof.
  intros He Hb Hi [T B I]. split.
  - intros k [x Hx]. rewrite lookup_fmap in Hx. apply fmap_Some in Hx as (r & Hr & _).
    apply T. rewrite lookup_fmap, (lookup_weaken _ _ _ _ Hr He). by eexists.
  - intros k v. rewrite lookup_fmap. intros (r & Hr & ->)%fmap_Some. apply B.
    by rewrite lookup_fmap, (lookup_weaken _ _ _ _ Hr Hb).
  - intros id r Hr. eapply I, lookup_weaken; eauto.
Qed.

Lemma rows_ok_changes l d : rows_ok (all_rows d) -> rows_ok (changes l d).
Proof. apply rows_ok_sub; apply map_filter_subseteq. Qed.

Lemma rows_ok_view d w : rows_ok (all_rows d) -> rows_ok w -> rows_ok (all_rows (view d w)).
Proof. intros Hd Hw. by apply (rows_ok_over w (all_rows d)). Qed.

Lemma rows_ok_none : rows_ok no_writes.
Proof.
  split; cbn [no_writes o_events o_buckets o_items]; rewrite ?fmap_empty.
  - intros k [x Hx]. by rewrite lookup_empty in Hx.
  - intros k v. by rewrite lookup_empty.
  - intros id r. by rewrite lookup_empty.
Qed.

(** Disjoint events add up. *)
Lemma raw_union (a b : gmap event_key EventRow) k : dom a ## dom b -> raw (a ∪ b) k = raw a k + raw b k.
Proof.
  intros Hd%map_disjoint_dom. unfold raw, raw_count. rewrite map_fmap_union.
  assert ((er_name <$> a) ##ₘ (er_name <$> b)) as Hd2 by (by apply map_disjoint_fmap).
  rewrite map_filter_union by done. rewrite map_size_disj_union; [lia|].
  by apply map_disjoint_filter.
Qed.

Lemma raw_nonneg m k : 0 <= raw m k.
Proof. unfold raw, raw_count. lia. Qed.

Lemma raw_filter (P : event_key * EventRow -> Prop) `{forall x, Decision (P x)} m k : raw (filter P m) k <= raw m k.
Proof.
  pose proof (map_filter_union_complement P m) as Hu. rewrite <- Hu at 2.
  rewrite raw_union; [|apply map_disjoint_dom, map_disjoint_filter_complement].
  pose proof (raw_nonneg (filter (fun x => ~ P x) m) k). lia.
Qed.

(** ** One statement *)
Section expiry.
Context `{PgTime}.
Variable allowed : store_op -> Prop.

(** Retention aside. *)
Definition live (op : store_op) : Prop := allowed op /\ no_retention op.

(** The count that a transaction owes a bucket: between IngestEvent's insert and
    its bucket statement, one. *)
Definition due (t : tx) (k : bucket_key) : Z :=
  match t with
  | TxExec (UpsertBucket _ e) _ => if decide (event_bucket_key e = k) then 1 else 0
  | _ => 0
  end.

(** The item rows a statement brings. *)
Definition item_inputs (s : stmt) : list ItemInput :=
  match s with UpsertItem i => [i] | BatchItems l => l | _ => [] end.

Lemma merge_items_ok l m :
  Forall (fun i => ii_first_seen i <= ii_last_seen i) l -> items_ok m -> items_ok (merge_items l m).
Proof.
  unfold merge_items. intros Hl. revert m. induction Hl as [|i l Hi _ IH]; intros m Hm; [done|]. simpl.
  apply IH. intros id r [[<- <-]|[_ Hr]]%lookup_insert_Some; [|by eapply Hm].
  apply merge_item_row_ok; [intros r Hr; by eapply Hm|exact Hi].
Qed.

Lemma folded_inputs_ok evs :
  Forall (fun i => ii_first_seen i <= ii_last_seen i) (encode_folded <$> default [] (foldCurrentItems evs)).
Proof.
  destruct (foldCurrentItems_spec evs) as (folded & Hf & _ & Hspec & _). rewrite Hf. simpl.
  apply Forall_fmap, Forall_forall. intros f Hin%Hspec. exact (item_fold_seen _ _ _ Hin).
Qed.

(** The rows that a statement counts in its buckets. *)
Definition counted (s : stmt) (d : DB) : list EventInput :=
  match s with UpsertBucket _ e => [e] | BatchEvents _ _ => stmt_inserts s d | _ => [] end.

Definition stmt_types (s : stmt) : list EventInput :=
  match s with UpsertBucket _ e => [e] | _ => offers s end.

(** What every statement does to the tables. *)
Lemma exec_tables s d n d2 :
  exec s d = SOk n d2 ->
  Forall (fun e => valid_event_type (ei_type e) = true) (stmt_types s) /\
  er_name <$> item_events d2 = names_add_all (offers s) (er_name <$> item_events d) /\
  bk_count <$> event_buckets d2 = counts_add_all (counted s d) (bk_count <$> event_buckets d) /\
  (forall k, 0 < occurrences k (counted s d) ->
     bucket_count (event_buckets d) k + occurrences k (counted s d) <= int8_max) /\
  current_items d2 = merge_items (item_inputs s) (current_items d).
Proof.
  assert (forall k, 0 < occurrences k [] -> bucket_count (event_buckets d) k + occurrences k [] <= int8_max) as Hnil.
  { intros k Hk. unfold occurrences in Hk. simpl in Hk. lia. }
  destruct s as [now e|now e|i|now l|l]; cbn [exec stmt_types offers counted item_inputs]; unfold sbind.
  - unfold insert_item_event. destruct (valid_event_type _) eqn:Hty; [|done]. intros [= _ <-].
    split_and!; [by constructor| |done|done|done]. simpl. by rewrite <- view_insert_or_nothing with (now := now).
  - unfold upsert_bucket. destruct (valid_event_type _) eqn:Hty; [|done].
    destruct (Z.leb_spec (bucket_count (event_buckets d) (event_bucket_key e) + 1) int8_max) as [Hle|]; [|done].
    intros [= _ <-]. split_and!; [by constructor|done| | |done].
    + simpl. apply map_eq. intros k. unfold bump_bucket, counts_add. rewrite fmap_insert, lookup_fmap. simpl.
      by destruct (event_buckets d !! event_bucket_key e).
    + intros k. rewrite occurrences_cons. unfold occurrences. simpl. case_decide as Hk; [subst k; lia|lia].
  - unfold upsert_current_item. intros [= _ <-]. by split_and!.
  - unfold batch_insert_events. destruct (forallb _ l) eqn:Hty; [|done].
    pose proof (ins_cte_view now l (item_events d)) as [Hv Hn].
    destruct (ins_cte now l (item_events d)) as [m ins]. simpl in Hv, Hn. subst ins.
    destruct (deltas_fit _ _) eqn:Hfit; [|done]. intros [= _ <-].
    split_and!; [|done|by apply bucket_upsert_view|by apply deltas_fit_spec|done].
    apply Forall_forall. intros e He. rewrite forallb_forall in Hty. by apply Hty, list_elem_of_In.
  - unfold batch_upsert_current_items. destruct (bool_decide _); [|done]. intros [= _ <-]. by split_and!.
Qed.

Lemma exec_rows_ok s d n d2 :
  exec s d = SOk n d2 -> Forall (fun i => ii_first_seen i <= ii_last_seen i) (item_inputs s) ->
  rows_ok (all_rows d) -> rows_ok (all_rows d2).
Proof.
  intros (Hty & He & Hb & Hfit & Hi)%exec_tables Hin [T B I]. simpl in *. split; simpl.
  - rewrite He. apply types_ok_add_all; [done|]. destruct s; simpl in *; auto.
  - rewrite Hb. apply buckets_ok_counts; [| |done].
    + destruct s; cbn [counted stmt_types offers] in *; try (by constructor); [exact Hty|].
      rewrite Forall_forall in *. intros e He'%new_rows_subset. auto.
    + intros k. rewrite <- bucket_count_view. apply Hfit.
  - rewrite Hi. by apply merge_items_ok.
Qed.

Lemma exec_counts s d n d2 k :
  exec s d = SOk n d2 ->
  raw (item_events d2) k = raw (item_events d) k + occurrences k (stmt_inserts s d) /\
  bucket_count (event_buckets d2) k = bucket_count (event_buckets d) k + occurrences k (counted s d).
Proof.
  intros (_ & He & Hb & _ & _)%exec_tables. split.
  - unfold raw. rewrite He, raw_count_add_all. by destruct s.
  - by rewrite !bucket_count_view, Hb, counts_add_all_default.
Qed.

(** A transaction's debt covers the difference. *)
Lemma exec_due op s k m v n d2 b :
  stage op (TxExec s k) m -> exec s v = SOk n d2 ->
  due (TxExec s k) b + occurrences b (stmt_inserts s v) = occurrences b (counted s v) + due (k n) b.
Proof.
  intros Hst Hrun.
  inversion Hst as [now ev -> Ht|now ev -> Ht|now ev -> Ht|now evs -> Ht|now evs -> Ht|]; subst; cbn [due counted].
  - cbn [exec] in Hrun. unfold insert_item_event in Hrun. destruct (valid_event_type _); [|done].
    injection Hrun as <- _. cbn [stmt_inserts new_rows]. rewrite lookup_fmap.
    destruct (item_events v !! _); simpl; [done|]. rewrite occurrences_cons. unfold occurrences. simpl. lia.
  - rewrite occurrences_cons. unfold occurrences, item_tx. simpl. lia.
  - done.
  - unfold batch_items_tx. cbn [stmt_inserts due]. lia.
  - done.
Qed.

Lemma stage_next op s k m n : stage op (TxExec s k) m -> exists m', stage op (k n) m'.
Proof.
  inversion 1; subst; try (eexists; by constructor).
  - case_match; eexists; by econstructor.
  - eexists. by eapply stage_item.
  - eexists. by eapply stage_batch_items.
Qed.

Lemma stage_inputs op s k m :
  stage op (TxExec s k) m -> Forall (fun i => ii_first_seen i <= ii_last_seen i) (item_inputs s).
Proof.
  inversion 1; subst; simpl; try constructor; try constructor; [simpl; lia|apply folded_inputs_ok].
Qed.

(** ** The invariant *)
Record own_ok (d : DB) (t : txn) : Prop := {
  own_stage : exists m, stage (tn_op t) (tn_rest t) m;
  own_rows : rows_ok (tn_own t);
  own_new : dom (o_events (tn_own t)) ## dom (item_events d);
  own_exact : forall k, raw (o_events (tn_own t)) k + bucket_count (event_buckets d) k =
    bucket_count (event_buckets (view d (tn_own t))) k + due (tn_rest t) k
}.

Record tables_ok (d : DB) (gone : bucket_key -> Z) : Prop := {
  tb_rows : rows_ok (all_rows d);
  tb_exact : forall k, raw (item_events d) k + gone k = bucket_count (event_buckets d) k;
  tb_gone : forall k, 0 <= gone k
}.

Record ex_ok (s : Expiring) : Prop := {
  ex_tables : tables_ok (ex_db s) (ex_gone s);
  ex_own : forall i t, ex_txs s !! i = Some t -> own_ok (ex_db s) t;
  ex_apart : txs_apart (ex_txs s);
  ex_recs : recs_ok (ex_sys s)
}.

Lemma tables_db_ok d gone : tables_ok d gone -> db_ok d.
Proof.
  intros [[T B I] He Hg]. split_and!; [exact T|exact B| |exact I]. intros k. cbn [db_view a_events a_counts].
  rewrite <- bucket_count_view. specialize (He k). specialize (Hg k). unfold raw in He. lia.
Qed.

(** The committed tables change elsewhere: fewer or other events, other buckets. *)
Lemma own_ok_elsewhere d d2 t :
  own_ok d t -> dom (o_events (tn_own t)) ## dom (item_events d2) ->
  (forall k, is_Some (o_buckets (tn_own t) !! k) ->
     bucket_count (event_buckets d2) k = bucket_count (event_buckets d) k) ->
  own_ok d2 t.
Proof.
  intros [Hst Hr _ Hx] Hnew Hb. split; [done..|]. intros k. specialize (Hx k). specialize (Hb k).
  unfold view, bucket_count in *. cbn [event_buckets] in *. rewrite lookup_union in *.
  destruct (o_buckets (tn_own t) !! k) as [b|].
  - rewrite union_Some_l in *. rewrite Hb by eauto. exact Hx.
  - rewrite (left_id_L None _) in *. lia.
Qed.

Lemma own_ok_exec d op s k own n d2 :
  own_ok d {| tn_op := op; tn_rest := TxExec s k; tn_own := own |} -> rows_ok (all_rows d) ->
  exec s (view d own) = SOk n d2 ->
  own_ok d {| tn_op := op; tn_rest := k n; tn_own := over (changes (touches s (view d own)) d2) own |}.
Proof.
  intros [[m Hst] Hr Hnew Hx] Hd Hrun. cbn [tn_op tn_rest tn_own] in *.
  assert (rows_ok (all_rows d2)) as Hd2.
  { eapply exec_rows_ok; [exact Hrun|by eapply stage_inputs|by apply rows_ok_view]. }
  pose proof (exec_frame _ _ _ _ Hrun) as Hframe. rewrite <- view_over in Hframe.
  set (own' := over (changes (touches s (view d own)) d2) own) in *.
  assert (dom (o_events own') ## dom (item_events d)) as Hnew'.
  { unfold own'. rewrite (proj1 (dom_over _ _)). pose proof (proj1 (changes_rows (touches s (view d own)) d2)) as Hc.
    enough (r_events (touches s (view d own)) ## dom (item_events d)) by set_solver.
    intros x Hin Hxd. cbn [touches r_events] in Hin. apply elem_of_list_to_set in Hin.
    assert (exists l, x ∈ (event_input_key <$> new_rows (er_name <$> item_events (view d own)) l)) as [l Hl].
    { destruct s; cbn [stmt_inserts] in Hin; try (by apply not_elem_of_nil in Hin); eauto. }
    apply new_rows_keys in Hl as [Hn%events_none_view _]. apply elem_of_dom in Hxd as [r Hxd].
    unfold view in Hn. cbn [item_events] in Hn. apply lookup_union_None in Hn as [_ Hn]. congruence. }
  destruct (stage_next op s k m n Hst) as (m' & Hst').
  split; cbn [tn_op tn_rest tn_own]; [by exists m'| |exact Hnew'|].
  - apply rows_ok_over; [by apply rows_ok_changes|exact Hr].
  - intros b. rewrite <- Hframe. destruct (exec_counts _ _ _ _ b Hrun) as [Hraw Hcnt].
    pose proof (exec_due _ _ _ _ _ _ _ b Hst Hrun) as Hdue. specialize (Hx b).
    rewrite Hframe in Hraw. unfold view in Hraw at 1 2. cbn [item_events] in Hraw.
    rewrite !raw_union in Hraw by done. lia.
Qed.

(** ** What the committed tables go through *)
Record next_ok (gone : bucket_key -> Z) (d d' : DB) : Prop := {
  nx_tables : tables_ok d' gone;
  nx_buckets : forall k, bucket_count (event_buckets d) k <= bucket_count (event_buckets d') k;
  nx_items : dom (current_items d) ⊆ dom (current_items d')
}.

Lemma next_refl gone d : tables_ok d gone -> next_ok gone d d.
Proof. by split. Qed.

Lemma db_ok_tables d gone :
  db_ok d -> (forall k, raw (item_events d) k + gone k = bucket_count (event_buckets d) k) ->
  (forall k, 0 <= gone k) -> tables_ok d gone.
Proof. intros (T & B & _ & I) He Hg. by split; [split| |]. Qed.

Lemma next_op gone op d d' :
  live op -> tables_ok d gone -> op_after op d = Some d' -> next_ok gone d d'.
Proof.
  intros [_ Hop] Hd Haft.
  assert (exists f : bucket_key -> Z, forall k, 0 <= f k /\
    raw (item_events d') k = raw (item_events d) k + f k /\
    bucket_count (event_buckets d') k = bucket_count (event_buckets d) k + f k) as [f Hf].
  { destruct op as [now ev|now evs|items t|cutoff|m]; cbn [op_after] in Haft; [| | |done|].
    - apply ingest_after in Haft as (_ & Hn & Hc & _). eexists. intros k. split; [apply occurrences_nonneg|].
      unfold raw. rewrite Hn, !bucket_count_view, Hc. by rewrite raw_count_add_all, counts_add_all_default.
    - apply batch_after in Haft as (_ & Hn & Hc & _). eexists. intros k. split; [apply occurrences_nonneg|].
      unfold raw. rewrite Hn, !bucket_count_view, Hc. by rewrite raw_count_add_all, counts_add_all_default.
    - apply reconcile_after in Haft as (Hn & Hc & _). exists (fun _ => 0). intros k.
      unfold raw. rewrite Hn, !bucket_count_view, Hc. lia.
    - exists (fun _ => 0). intros k. unfold upsert_seed_marker in Haft. destruct (_ && _); simplify_eq/=. lia. }
  split.
  - apply db_ok_tables; [by eapply op_after_ok; [by eapply tables_db_ok|]| |apply Hd].
    intros k. pose proof (tb_exact _ _ Hd k). specialize (Hf k). lia.
  - intros k. specialize (Hf k). lia.
  - intros id Hid%elem_of_dom. apply elem_of_dom. by eapply op_after_known.
Qed.

Lemma next_commit gone d op own :
  tables_ok d gone -> own_ok d {| tn_op := op; tn_rest := TxCommit; tn_own := own |} -> next_ok gone d (view d own).
Proof.
  intros [Hr He Hg] [_ Hor Hnew Hx]. cbn [tn_rest tn_own due] in *. split.
  - split; [by apply rows_ok_view| |done]. intros k. specialize (He k). specialize (Hx k).
    unfold view at 1. cbn [item_events]. rewrite raw_union by done. lia.
  - intros k. specialize (Hx k). pose proof (raw_nonneg (o_events own) k). lia.
  - unfold view. cbn [current_items]. rewrite dom_union_L. set_solver.
Qed.

Lemma conc_next c l c' gone :
  tables_ok (c_db c) gone -> (forall i t, c_txs c !! i = Some t -> own_ok (c_db c) t) -> txs_apart (c_txs c) ->
  conc_step live c l c' ->
  next_ok gone (c_db c) (c_db c') /\ forall i t, c_txs c' !! i = Some t -> own_ok (c_db c') t.
Proof.
  intros Hd Hown Hdis Hs. destruct Hs as [c i op t Ha Hi Ht|c i op s k own n d Hi Hrun Hfree|c i op s k own e Hi Hrun
    |c i op own Hi|c i t Hi|c cutoff d Ha Hsp Haft|c m d Ha Haft|c d Hnone Hstep]; cbn [c_db c_txs] in *.
  - split; [by apply next_refl|]. intros j u [[<- <-]|[_ Hj]]%lookup_insert_Some; [|by eapply Hown].
    split; cbn [tn_op tn_rest tn_own].
    + eexists. by apply tx_of_stage.
    + apply rows_ok_none.
    + cbn [no_writes o_events]. rewrite dom_empty_L. set_solver.
    + intros b. rewrite view_no_writes. unfold raw, raw_count. cbn [no_writes o_events].
      rewrite fmap_empty, map_filter_empty, map_size_empty. enough (due t b = 0) by lia.
      apply tx_of_stage in Ht. by inversion Ht.
  - split; [by apply next_refl|]. intros j u [[<- <-]|[_ Hj]]%lookup_insert_Some; [|by eapply Hown].
    eapply own_ok_exec; [by apply (Hown i)|apply Hd|exact Hrun].
  - split; [by apply next_refl|]. intros j u [_ Hj]%lookup_delete_Some. by eapply Hown.
  - split; [by eapply next_commit; [|by apply (Hown i)]|]. intros j u [Hne Hj]%lookup_delete_Some.
    destruct (Hdis i j _ u Hi Hj Hne) as (De & Db & _). cbn [tn_own written r_events r_buckets] in De, Db.
    apply (own_ok_elsewhere (c_db c)); [by eapply Hown| |].
    + unfold view. cbn [item_events]. rewrite dom_union_L. pose proof (own_new _ _ (Hown j u Hj)). set_solver.
    + intros b Hb. unfold bucket_count, view. cbn [event_buckets]. rewrite lookup_union_r; [done|].
      apply not_elem_of_dom. apply elem_of_dom in Hb. set_solver.
  - split; [by apply next_refl|]. intros j u [_ Hj]%lookup_delete_Some. by eapply Hown.
  - by destruct Ha.
  - split; [by eapply next_op; [exact Ha| |]|]. intros j u Hj.
    simpl in Haft. unfold upsert_seed_marker in Haft. destruct (_ && _); [|done]. injection Haft as <-.
    apply (own_ok_elsewhere (c_db c)); [by eapply Hown|by apply (own_new _ _ (Hown j u Hj))|done].
  - split; [|intros j u; by rewrite lookup_empty].
    destruct Hstep as [op s err s' Hop Hw Hrun].
    destruct (run_op_leaves _ _ _ _ Hw Hrun) as [->|Haft]; [by apply next_refl|by eapply next_op].
Qed.

(** ** Steps: those of the system without its own retention, and retention *)
Inductive ex_step : Expiring -> Expiring -> Prop :=
| ex_other s l sys' :
    sys_step live (ex_sys s) l sys' -> ex_step s {| ex_sys := sys'; ex_gone := ex_gone s |}
| ex_expire s cutoff late :
    allowed (OpRetention cutoff) ->
    let d := expire cutoff late (ex_db s) in
    ex_step s
      {| ex_sys := {| sy_conc := {| c_db := d; c_txs := ex_txs s |}; sy_recs := sy_recs (ex_sys s) |};
         ex_gone := fun k => ex_gone s k + (raw (item_events (ex_db s)) k - raw (item_events d) k) |}.

(** At the start, what was expired before is the difference. *)
Definition ex_start (d : DB) : Expiring :=
  {| ex_sys := sys_start d; ex_gone := fun k => bucket_count (event_buckets d) k - raw (item_events d) k |}.

Definition ex_reach (d0 : DB) (s : Expiring) : Prop := rtc ex_step (ex_start d0) s.

(** What a step does to the tables. *)
Record ex_next (s s' : Expiring) : Prop := {
  en_ok : ex_ok s';
  en_gone : forall k, ex_gone s k <= ex_gone s' k;
  en_buckets : forall k, bucket_count (event_buckets (ex_db s)) k <= bucket_count (event_buckets (ex_db s')) k;
  en_items : dom (current_items (ex_db s)) ⊆ dom (current_items (ex_db s'))
}.

Lemma ex_next_sys s sys' :
  next_ok (ex_gone s) (ex_db s) (sy_db sys') ->
  (forall i t, c_txs (sy_conc sys') !! i = Some t -> own_ok (sy_db sys') t) ->
  txs_apart (c_txs (sy_conc sys')) -> recs_ok sys' -> ex_next s {| ex_sys := sys'; ex_gone := ex_gone s |}.
Proof. intros [Ht Hb Hi] Ho Ha Hr. by split; [split|..]. Qed.

Lemma expire_ok s cutoff late s' :
  ex_ok s -> s' = {| ex_sys := {| sy_conc := {| c_db := expire cutoff late (ex_db s); c_txs := ex_txs s |};
                                  sy_recs := sy_recs (ex_sys s) |};
                     ex_gone := fun k => ex_gone s k +
                       (raw (item_events (ex_db s)) k - raw (item_events (expire cutoff late (ex_db s))) k) |} ->
  ex_next s s'.
Proof.
  intros [[Hr He Hg] Hown Ha [Hrec Hra Hrd]] ->.
  assert (forall k, raw (item_events (expire cutoff late (ex_db s))) k <= raw (item_events (ex_db s)) k) as Hle
    by (intros k; by apply raw_filter).
  assert (item_events (expire cutoff late (ex_db s)) ⊆ item_events (ex_db s)) as Hsub by apply map_filter_subseteq.
  split; [split|..]; cbn [ex_sys ex_gone]; unfold ex_db, sy_db; cbn [ex_sys sy_conc c_db].
  - split; [by apply (rows_ok_sub _ (all_rows (ex_db s)))| |].
    + intros k. specialize (He k). cbn [event_buckets expire set_item_events]. unfold ex_db, sy_db in *. lia.
    + intros k. specialize (Hg k). specialize (Hle k). unfold ex_db, sy_db in *. lia.
  - intros i t Hi. apply (own_ok_elsewhere (ex_db s)); [by eapply Hown| |done].
    pose proof (own_new _ _ (Hown i t Hi)). apply subseteq_dom in Hsub. set_solver.
  - exact Ha.
  - by split.
  - intros k. specialize (Hle k). unfold ex_db, sy_db in *. lia.
  - done.
  - done.
Qed.

Lemma ex_step_next s s' : ex_ok s -> ex_step s s' -> ex_next s s'.
Proof.
  intros Hok Hs. destruct Hs as [s l sys' Hs|s cutoff late _]; [|by eapply expire_ok].
  pose proof (recs_step_ok live _ _ _ (ex_recs _ Hok) Hs) as Hrecs. destruct Hok as [Hd Hown Ha Hr].
  destruct s as [sys gone]. unfold ex_db, ex_txs in *. cbn [ex_sys ex_gone] in *.
  destruct Hs as [sys l c' Hc _ _| | | | |sys j r seen Hj Hst|]; try (by apply ex_next_sys; [apply next_refl|..]).
  - destruct (conc_next _ _ _ _ Hd Hown Ha Hc) as [Hn Ho].
    apply ex_next_sys; [exact Hn|exact Ho|by eapply conc_step_apart|exact Hrecs].
  - apply ex_next_sys; [|intros i t Hi|exact Ha|exact Hrecs].
    + split; [|done|apply rec_view_items].
      apply db_ok_tables; [|apply Hd..].
      eapply rec_view_ok; [by eapply ok_recs|exact Hst|by eapply tables_db_ok].
    + apply (own_ok_elsewhere (sy_db sys)); [by eapply Hown|by apply (own_new _ _ (Hown i t Hi))|done].
Qed.

Lemma ex_reach_ok d0 s : db_ok d0 -> ex_reach d0 s -> ex_ok s.
Proof.
  intros Hd0 Hr. assert (ex_ok (ex_start d0)) as H0.
  { split.
    - apply db_ok_tables; [done| |]; intros k; cbn; [unfold ex_db; simpl; lia|].
      destruct Hd0 as (_ & _ & Hc & _). specialize (Hc k). cbn in Hc. rewrite <- bucket_count_view in Hc.
      unfold raw. lia.
    - intros i t. unfold ex_txs. simpl. by rewrite lookup_empty.
    - intros i j t u. unfold ex_txs. simpl. by rewrite lookup_empty.
    - split; unfold apart; simpl; intros j; intros; by rewrite lookup_empty in *. }
  revert H0. unfold ex_reach in Hr. induction Hr as [|x y z Hs _ IH]; [done|].
  intros Hx. apply IH, (en_ok x). by apply ex_step_next.
Qed.
End expiry.

(** * Properties *)

(** C9: Retention at any moment keeps the books.  Retention may delete any old
    events between any two statements of live ingestion, seed batches and
    reconciles, events that those have just met included.  Every step leaves the
    tables well formed; every bucket counts exactly its stored raw events and the
    ones retention has deleted from it; no bucket count ever falls; and no known
    item is lost. *)
Theorem retention_any_time `{PgTime} allowed d0 s s' :
  reachable any_op d0 -> ex_reach allowed d0 s -> ex_step allowed s s' ->
  db_ok (ex_db s') /\
  (forall k, bucket_count (event_buckets (ex_db s')) k = raw (item_events (ex_db s')) k + ex_gone s' k) /\
  (forall k, 0 <= ex_gone s k <= ex_gone s' k) /\
  (forall k, bucket_count (event_buckets (ex_db s)) k <= bucket_count (event_buckets (ex_db s')) k) /\
  dom (current_items (ex_db s)) ⊆ dom (current_items (ex_db s')).
Proof.
  intros Hd0 Hr Hs. assert (db_ok d0) as Hok0.
  { eapply (reachable_invariant any_op db_ok); [apply db_ok_empty| |exact Hd0]. intros op d1 d2 _. apply op_after_ok. }
  pose proof (ex_reach_ok allowed d0 s Hok0 Hr) as Hok. destruct (ex_step_next allowed s s' Hok Hs) as [Ht Hg Hb Hi].
  split_and!; [by eapply tables_db_ok, Ht| | |exact Hb|exact Hi].
  - intros k. by rewrite (tb_exact _ _ (ex_tables _ Ht)).
  - intros k. split; [apply (tb_gone _ _ (ex_tables _ Hok))|apply Hg].
Qed.

(** ** Witness: an event expires under the batch that has just met it *)
Definition expiring (c : Conc) (gone : bucket_key -> Z) : Expiring :=
  {| ex_sys := {| sy_conc := c; sy_recs := ∅ |}; ex_gone := gone |}.

Lemma apart_nil c : apart c ∅.
Proof. apply apart_empty. intros j r Hj. by rewrite lookup_empty in Hj. Qed.

Lemma ex_turns `{PgTime} allowed d0 l c c' gone :
  ex_reach allowed d0 (expiring c gone) -> turns l c = Some c' -> ex_reach allowed d0 (expiring c' gone).
Proof.
  revert c. induction l as [|i l IH]; intros c Hc; simpl; [by intros [= <-]|].
  destruct (turn i c) as [c1|] eqn:Ht; [|done]. simpl. apply IH. unfold ex_reach in *. eapply rtc_r; [exact Hc|].
  destruct (turn_label (live allowed) i c c1 Ht) as (lab & Hal & Hs).
  apply (ex_other allowed (expiring c gone) (SIngest lab)).
  apply (sys_ingest _ {| sy_conc := c; sy_recs := ∅ |}); [done|done|apply apart_nil].
Qed.

Lemma ex_begin `{PgTime} allowed d0 i op t c gone :
  ex_reach allowed d0 (expiring c gone) -> live allowed op -> c_txs c !! i = None -> tx_of op = Some t ->
  ex_reach allowed d0 (expiring (start_tx i op t c) gone).
Proof.
  intros Hc Ha Hi Ht. unfold ex_reach in *. eapply rtc_r; [exact Hc|].
  apply (ex_other allowed (expiring c gone) (SIngest CBegin)).
  apply (sys_ingest _ {| sy_conc := c; sy_recs := ∅ |}); [by apply conc_begin|done|apply apart_nil].
Qed.

(** The live event is stored; a batch of it and a later one runs its first
    statement; retention deletes the stored event. *)
Definition empty_conc : Conc := {| c_db := empty_db; c_txs := ∅ |}.

Definition stored : Conc :=
  default empty_conc (turns [1; 1; 1; 1]%nat (start_tx 1 live_op (ingest_tx 10 demo_event) empty_conc)).

Definition batch_met : Conc :=
  default empty_conc (turns [2]%nat (start_tx 2 seed_op (batch_tx 11 [demo_event; late_event]) stored)).

Definition cutoff_after : Z := ev_EventTime late_event + 1000000.

Definition expired_conc : Conc := {| c_db := expire cutoff_after ∅ (c_db batch_met); c_txs := c_txs batch_met |}.

Definition expired_gone (k : bucket_key) : Z :=
  ex_gone (ex_start empty_db) k + (raw (item_events (c_db batch_met)) k - raw (item_events (c_db expired_conc)) k).

Lemma batch_met_reach : ex_reach any_op empty_db (expiring batch_met (ex_gone (ex_start empty_db))).
Proof.
  apply (ex_turns any_op empty_db [2]%nat (start_tx 2 seed_op (batch_tx 11 [demo_event; late_event]) stored));
    [|vm_compute; reflexivity].
  apply ex_begin; [|by split|vm_compute; reflexivity|reflexivity].
  apply (ex_turns any_op empty_db [1; 1; 1; 1]%nat (start_tx 1 live_op (ingest_tx 10 demo_event) empty_conc));
    [|vm_compute; reflexivity].
  apply ex_begin; [apply rtc_refl|by split|reflexivity|reflexivity].
Qed.

Lemma expired_reach : ex_reach any_op empty_db (expiring expired_conc expired_gone).
Proof.
  unfold ex_reach. eapply rtc_r; [exact batch_met_reach|].
  exact (ex_expire any_op (expiring batch_met (ex_gone (ex_start empty_db))) cutoff_after ∅ I).
Qed.

Definition before_commit : Conc := default empty_conc (turns [2]%nat expired_conc).

Definition after_commit : Conc := default empty_conc (turns [2]%nat before_commit).

Lemma before_commit_reach : ex_reach any_op empty_db (expiring before_commit expired_gone).
Proof. apply (ex_turns any_op empty_db [2]%nat expired_conc); [exact expired_reach|vm_compute; reflexivity]. Qed.

Lemma commit_step : ex_step any_op (expiring before_commit expired_gone) (expiring after_commit expired_gone).
Proof.
  assert (turn 2 before_commit = Some after_commit) as Ht by (vm_compute; reflexivity).
  destruct (turn_label (live any_op) 2 _ _ Ht) as (lab & Hal & Hs).
  apply (ex_other any_op (expiring before_commit expired_gone) (SIngest lab)
    {| sy_conc := after_commit; sy_recs := ∅ |}).
  apply (sys_ingest _ {| sy_conc := before_commit; sy_recs := ∅ |}); [exact Hs|done|apply apart_nil].
Qed.

(** The batch commits: its new event is stored and counted, the other one has
    gone and stays counted. *)
Lemma retention_any_time_witness :
  item_events (c_db after_commit) !! (1, "created", 5000)%string = None /\
  is_Some (item_events (c_db after_commit) !! (1, "updated", 6000)%string) /\
  forall k, bucket_count (event_buckets (c_db after_commit)) k =
    raw (item_events (c_db after_commit)) k + expired_gone k.
Proof.
  split; [vm_compute; reflexivity|]. split; [eexists; vm_compute; reflexivity|].
  destruct (retention_any_time any_op empty_db _ _ (rtc_refl _ _) before_commit_reach commit_step) as (_ & Hx & _).
  exact Hx.
Defined.

Example expired_count : expired_gone (0, "created"%string) = 1.
Proof. vm_compute. reflexivity. Qed.
